(* ===== verification/_CoqProject ===== *)
-Q . S2P
Prelude.v
Env.v
Environments.v
Opcodes.v
Header.v
Framing.v
Tls.v
ClientTransport.v
Payloads.v
FuzzWire.v
Connection.v
FuzzConnection.v
Scenario.v
Validator.v
Storage.v
Redb.v
Sequencer.v
Registry.v
KeyPackages.v
RoomManager.v
FuzzSequencer.v
FuzzRooms.v
UnitTesting.v
UnitProto.v
UnitStorage.v
Driver.v
DriverInv.v
Delivery.v
UnitServer.v
ServerTransport.v
Runtime.v
SimServer.v
SenderKeys.v
UnitCrypto.v
FuzzCrypto.v
Mls.v
Samples.v
FuzzSamples.v
UnitCore.v
Client.v
UnitClient.v
Cluster.v
ClientInv.v
EndToEnd.v
Agreement.v
Membership.v
ClusterInv.v
Convergence.v
App.v
AppInv.v
Tui.v
Ui.v
Terminal.v
TuiInv.v
Conversation.v
HarnessModel.v
HarnessChecks.v
ModelRefine.v
UnitApp.v
