(* ===== verification/Prelude.v ===== *)
(** * Lockframe: a verification development

    Lockframe is an end-to-end encrypted group messaging protocol.  Clients
    send frames over QUIC; the server gives every frame of a room the next index
    of the room's log, stores it and broadcasts it to the room's sessions.  The
    server never decrypts: the messages are encrypted by the clients with sender
    keys, in groups that the MLS protocol keeps.  This development models the
    protocol, the server, the client, the application and its terminal
    interface, the transports, the reference model and the simulations of the
    tests, the fuzz targets and the unit tests, translated from the Rust sources
    under [src/crates/] and [src/fuzz/], and proves what makes them correct.  This
    file is its root and its prelude.

    ** The parts and their files

    - [Prelude]: results with a panic value, the state-error monad and its
      program logic ([steps], [yields], and [wp] with its tactic [wp_step]),
      machine integers, byte strings, and the lemmas the other files share.
    - [Env]: the [Environment] trait (time, randomness) as a class.
      [Environments]: the mock, simulated and system environments, and the
      generator made of one for the MLS library.
    - [Opcodes], [Header], [Framing]: the wire format of [lockframe-proto]
      ([opcodes.rs], [flags.rs], [header.rs], [frame.rs]) and the loops that cut
      a stream into frames ([lockframe-client/src/transport.rs] and
      [lockframe-server/src/lib.rs]).
    - [Tls], [ClientTransport]: [lockframe-client/src/transport.rs], the TLS
      configuration and the two tasks that move frames between the application
      and the streams.  [ServerTransport]: the endpoint, its configuration and
      the start of the server ([transport.rs], [main.rs]).
    - [Payloads]: the payload types and their conversion to and from frames.
    - [Connection]: the session state machine of [lockframe-core].  [Scenario]:
      a client and a server connection face to face
      ([lockframe-harness/src/scenario/]).
    - [Validator]: the server's view of an MLS group and the frame validator.
    - [Storage]: the [Storage] trait as a class with its contract, the in-memory
      storage and the failure-injecting one.  [Redb]: the durable storage.
    - [Sequencer], [Registry], [KeyPackages], [RoomManager]: the parts of the
      server of these names ([lockframe-server/src/]).
    - [Driver]: [ServerDriver], which composes them: events in, actions out.
      [DriverInv] and [Delivery] hold its invariant and the properties of a
      whole run.
    - [Runtime]: the tasks of [lockframe-server/src/lib.rs] around the driver.
      [SimServer]: the server of the simulations, which runs them one by one.
    - [SenderKeys]: [lockframe-crypto/src/sender_keys/] and the client's
      [SenderKeyStore].
    - [Mls]: the group of [lockframe-core/src/mls/group.rs] over the openmls
      library.  [Samples]: instances of the classes with which whole sessions
      evaluate.
    - [Client]: [lockframe-client/src/client.rs], every event and every frame.
      [ClientInv] holds its invariant, [Membership] what commits, removals,
      Welcomes and ticks do, [EndToEnd] the way of a message from one client
      through the server to another.
    - [Cluster]: the cluster of clients of [lockframe-harness/src/cluster.rs].
      [Agreement] states what the members of an MLS group agree on, [ClusterInv]
      and [Convergence] prove that the clients of a cluster converge.
    - [App]: the interface's state, the bridge to the client and the loop over a
      driver of the platform ([lockframe-app/src/]).  [AppInv]: their properties.
    - [Tui]: the command parser and the line editor ([lockframe-tui/src/]).
      [Ui]: what is drawn of the state.  [Terminal]: the terminal's driver.
      [TuiInv]: their properties, and the application over the terminal as a
      whole.  [Conversation]: a line from the keyboard of one application to the
      screen of another.
    - [HarnessModel]: the clients, server and world that the tests compare the
      system with ([lockframe-harness/src/model/]).  [HarnessChecks]: the checks
      that simulations run and their driver ([lockframe-harness/src/invariants/],
      [sim_driver.rs]).  [ModelRefine]: the client against the reference model.
    - [FuzzWire], [FuzzConnection], [FuzzSequencer], [FuzzRooms], [FuzzCrypto]:
      the nine fuzz targets of [src/fuzz/fuzz_targets/] as functions of their
      inputs.  [FuzzSamples]: inputs of them.
    - [UnitTesting]: the vocabulary of the unit tests.  [UnitProto],
      [UnitStorage], [UnitServer], [UnitCore], [UnitCrypto], [UnitClient],
      [UnitApp]: the tests at the end of the source files as programs over the
      model, each under its name, in a Module for each source file or two.

    ** How the code is represented

    A struct is a record and an enum an inductive type, with the names of the
    source.  A method that changes its receiver and may fail is a computation of
    the monad [M S E A], a function from the state to the new state and a
    result, which is [Ok], [Err] with the error of the source, or [Panic].  The
    release and development profiles check arithmetic overflow, so an overflow
    is a [Panic]; [debug_assert!] is off in a release build and has no
    counterpart but in the reference model, which only tests run, and in the
    header accessors of the fuzz targets ([FuzzWire.DebugHeader]).  Integers are
    numbers of [N] whose widths are hypotheses or parts of the invariants, and
    bytes are [Init.Byte.byte].  A hash map is a [gmap]; its iteration order is
    an order of the model, up to a permutation of which the theorems hold, or
    the class [App.HashOrder].  Errors carry the text of their [Display]
    implementation, since the answers of the server contain it.

    What is not under [src/] is a class: CBOR ([Payloads.Ciborium]), Ed25519
    ([Validator.Ed25519]), HMAC, HKDF and the AEAD ([SenderKeys.Crypto]), the
    redb engine ([Redb.RedbEngine], and [Redb.AtomicCommit] for transactions that
    are all or nothing), openmls ([Mls.OpenMls], and [Mls.OpenMlsLaws]
    for what safety relies on, [Agreement.MlsAgreement] for what its members agree
    on), QUIC and TLS ([ClientTransport.Quic], [Tls.Rustls],
    [ServerTransport.ServerQuic]), the simulated network ([SimServer.TcpStream]),
    the layout of the screen ([Ui.Layout]), the terminal ([Terminal.Terminal]),
    the generators and clocks ([Environments]) and the signing keys of the fuzz
    targets ([FuzzRooms.SigningKeys]), each with laws its documentation states;
    [Payloads.CborSizes] bounds the size of what CBOR writes.  The witnesses
    evaluate with instances of them.  The components are joined by such
    interfaces too: the server is proved against [StorageSpec], which
    [MemoryStorage], [ChaoticStorage] and [RedbStorage] discharge;
    [StorageTotal] is the further promise that calls succeed.  The application
    is proved against [AppInv.DriverLaws], which the terminal's driver discharges.

    The text of the terminal is a list of Unicode scalar values whose byte
    indices are those of UTF-8, so that an index within a character panics.

    ** What the theorems show

    - Wire format: decoding accepts exactly the encodings of well-formed frames;
      a cut encoding is refused with the documented sizes; a stream is cut into
      the frames that were written to it, and whatever the bytes are the reader
      stops and delivers a prefix; a payload survives its frame; the signing
      data covers the header but for the log index, the signature and the
      payload.
    - Connection: the handshake is the only way to authenticate, a closed
      connection stays closed, and when exactly a tick closes it.
    - Storage: logs are append-only and dense; the durable storage reads back
      what it has stored, whichever calls of the engine fail, and a call that
      fails changes nothing where the engine's transactions are atomic.
    - Server parts: consecutive indices, progress of the sequencer, the registry
      refines its abstract specification, the KeyPackage registry is bounded and
      hands out a package once, a sync answers with the requested part of the
      log.
    - Server: sessions stay consistent; the broadcasts of a room are its log; a
      restart over the same storage keeps logs, indices and group states, and
      loses the connections, the subscriptions and the KeyPackages; the
      concurrent tasks
      write to the streams only what a serial run of the driver addresses.
    - Sender keys: a message that is sent can be read within the skip limit,
      none is accepted twice, and nonces never repeat.
    - Client: whatever frames come in, the client does not panic, keeps its
      rooms and holds for each the keys of one epoch of its group; a commit
      that the group applies renews them; what is delivered carries the signature and the key of the
      member it names; and a message travels from one member through the server
      to another.
    - Application: the interface's state is sound over any events, and at a
      terminal where ASCII is typed the whole application does not panic and
      shows only rooms of the client.  The editor is the expected editor on
      ASCII, commands read back as they are written, Tab visits every room.
    - Transports: the client's two tasks carry the frames of both directions
      unchanged and in order, however they interleave and wherever the
      connection is stopped; a client and a server in
      their configurations speak the same protocol.
    - Clusters: after any operations that succeed, the clients of a room are in
      one epoch with the same members and keys, and a message reaches them all.
      Two connections face to face come to the same session.
    - Screen: it lists the rooms in order, shows the last messages of the active
      one and the line being edited, and a message typed in one application is
      shown in another as it was typed.
    - Tests: the reference model keeps clients and server in agreement and
      delivers what is sent; the client follows it; and the checks of the
      simulations decide what they are documented to.  The simulated server is
      the serial server.
    - Fuzz targets: no input makes one fail; for those of the sender keys and
      the signatures, an input that does exhibits a failure of a primitive.
    - Unit tests: the model passes the tests that the code passes, and the
      property tests of the header and the frame pass on every input
      ([generated_headers_pass], [generated_frames_pass]).
    - Limits: a sync request whose range overflows panics, a failed write makes
      the server reuse an index, broadcasts can overtake one another between
      the driver and the streams, a forged message uses up keys, heartbeats keep
      a silent peer connected, a removed member is not told, a relabelled commit
      leaves stale keys, a tick's frames wait, and a character beyond ASCII
      makes the editor panic.

    ** Bounds and fuel

    [Framing.read_frames_loop] takes one unit of fuel per frame and is proved to
    stop with as many as the stream has bytes plus one.  The ratchet's loop
    takes [MAX_SKIP + 2], one more than the turns the skip limit allows.
    [Client.handle_frame] takes as much as its payload has bytes plus one, since
    a frame within a sync response is shorter than the response
    ([handle_frame_nesting]).  [Bridge.process_client_actions] and
    [AppRuntime.process_actions] take 2: publishing a KeyPackage asks for no
    other, and the actions of the second round only draw.  [AppRuntime.run] is
    given the number of cycles, over which its theorems quantify.
    That a cluster's frames fit the limit of 16 MiB is a condition on its run
    ([Convergence.runs_fit]), since openmls states no size.  All other recursion is structural.

    ** What is not modelled

    What is pure input and output: sockets and the command line, and tracing.
    [sim_transport.rs] wraps the sockets of the turmoil simulator, the transport
    trait is a list of operations, and the crate roots are lists of modules.
    Erasing keys from memory and the derived [Debug] formats have no value to
    model.  Of the unit tests those are left out that only test a library or a
    derived implementation: the CBOR round trips of [payloads/] and of the group
    state, [Clone], the simulated sleep, the system's clock, the displayed errors
    of the server, and those that run within turmoil.  The texts with which a
    check of the simulations describes a violation are not modelled, its verdict
    is.

    The constants and the accessors of a line or two are definitions like the
    others, under the names of the source. *)

From Stdlib Require Export NArith Strings.Ascii.
From Stdlib Require Strings.Byte.
From stdpp Require Export base gmap sets list strings pretty relations.

#[export] Set Default Goal Selector "!".
#[export] Set Default Proof Using "Type".
#[export] Set Warnings "-clear-no-such-hyp".

Declare Scope rust_scope.
Delimit Scope rust_scope with rust.
Create HintDb lockframe.
Create Rewrite HintDb lockframe_len.

Abbreviation byte := Init.Byte.byte.
Abbreviation bytes := (list Init.Byte.byte).

(** ** Machine integers

    An unsigned [w]-bit integer is an [N]; the functions below are the
    arithmetic operations of Rust's integer types at width [w]. *)

Definition u8_MAX : N := 2 ^ 8 - 1.
Definition u16_MAX : N := 2 ^ 16 - 1.
Definition u32_MAX : N := 2 ^ 32 - 1.
Definition u64_MAX : N := 2 ^ 64 - 1.
Definition u128_MAX : N := 2 ^ 128 - 1.
Definition usize_MAX : N := u64_MAX.

Definition checked_add (max a b : N) : option N :=
  if (a + b <=? max)%N then Some (a + b)%N else None.
Definition saturating_add (max a b : N) : N := N.min max (a + b).
Definition saturating_sub (a b : N) : N := (a - b)%N.

(** [len v] is [v.len()] of a slice or [Vec]. *)
Definition len {A} (l : list A) : N := N.of_nat (length l).

(** ** Results, with panics as values

    [Panic] is the outcome of a Rust panic: a failed [assert!], an [expect]
    on an error, an out-of-range slice, or an overflow (the workspace enables
    overflow checks in every profile). *)

Inductive res (E A : Type) : Type :=
  | Ok (a : A)
  | Err (e : E)
  | Panic.
Arguments Ok {E A} a.
Arguments Err {E A} e.
Arguments Panic {E A}.

#[export] Instance res_ret E : MRet (res E) := fun A a => Ok a.
#[export] Instance res_bind E : MBind (res E) := fun A B f m =>
  match m with Ok a => f a | Err e => Err e | Panic => Panic end.

Definition map_err {E F A} (f : E -> F) (m : res E A) : res F A :=
  match m with Ok a => Ok a | Err e => Err (f e) | Panic => Panic end.
Definition ok_or {E A} (o : option A) (e : E) : res E A :=
  match o with Some a => Ok a | None => Err e end.
Definition expect {E A} (o : option A) : res E A :=
  match o with Some a => Ok a | None => Panic end.
Definition is_ok {E A} (m : res E A) : bool :=
  match m with Ok _ => true | _ => false end.
Definition add_panic {E} (max a b : N) : res E N := expect (checked_add max a b).

(** [assert!(b)], and a result that is dropped, as [let _ = ..] does. *)
Definition asserts {E} (b : bool) : res E unit := if b then Ok tt else Panic.
Definition discard {E F A} (m : res E A) : res F unit :=
  match m with Panic => Panic | _ => Ok tt end.

#[export] Instance res_eq_dec `{EqDecision E, EqDecision A} : EqDecision (res E A).
Proof. solve_decision. Defined.

(** The state-error monad of a method on [&mut self]: the state reached before
    an early return is kept. *)
Definition M (S E A : Type) : Type := S -> S * res E A.

#[export] Instance M_ret S E : MRet (M S E) := fun A a s => (s, Ok a).
#[export] Instance M_bind S E : MBind (M S E) := fun A B f m s =>
  match m s with
  | (s', Ok a) => f a s'
  | (s', Err e) => (s', Err e)
  | (s', Panic) => (s', Panic)
  end.

Definition get {S E} : M S E S := fun s => (s, Ok s).
Definition put {S E} (s : S) : M S E unit := fun _ => (s, Ok tt).
Definition modify {S E} (f : S -> S) : M S E unit := fun s => (f s, Ok tt).
Definition throw {S E A} (e : E) : M S E A := fun s => (s, Err e).
Definition lift {S E A} (m : res E A) : M S E A := fun s => (s, m).

(** ** Bytes *)

#[export] Instance byte_eq_dec : EqDecision byte := Byte.byte_eq_dec.

Definition byte_of (n : N) : byte :=
  match Byte.of_N (n mod 256) with Some b => b | None => Init.Byte.x00 end.

#[export] Program Instance byte_countable : Countable byte :=
  inj_countable Byte.to_N Byte.of_N _.
Next Obligation. intros b. apply Byte.of_to_N. Qed.

(** [to_be_bytes w n] is the [w]-byte big-endian representation of [n] and
    [from_be_bytes] its inverse, as [u32::to_be_bytes] and the like. *)
Fixpoint to_be_bytes (w : nat) (n : N) : bytes :=
  match w with
  | O => []
  | S w' => byte_of (n / 256 ^ N.of_nat w') :: to_be_bytes w' n
  end.

Fixpoint from_be_bytes_acc (acc : N) (bs : bytes) : N :=
  match bs with
  | [] => acc
  | b :: bs' => from_be_bytes_acc (acc * 256 + Byte.to_N b) bs'
  end.
Definition from_be_bytes (bs : bytes) : N := from_be_bytes_acc 0 bs.

(** [slice l a b] is [&l[a..b]] for [a <= b <= l.len()]. *)
Definition slice {A} (l : list A) (a b : nat) : list A := take (b - a) (drop a l).

Definition zeros (n : nat) : bytes := replicate n Init.Byte.x00.

(** ** Formatting

    The pieces of [format!] the sources use: decimal numbers are stdpp's
    [pretty]; [fmt_hex pad n] is [{:0padx}]. *)

Definition hex_digit (d : N) : ascii :=
  match String.get (N.to_nat d) "0123456789abcdef" with
  | Some c => c
  | None => "0"%char
  end.

Fixpoint hex_digits (fuel : nat) (n : N) (acc : string) : string :=
  match fuel with
  | O => acc
  | S fuel' =>
      let acc' := String (hex_digit (n mod 16)) acc in
      if (n <? 16)%N then acc' else hex_digits fuel' (n / 16) acc'
  end.

Fixpoint string_replicate (n : nat) (c : ascii) : string :=
  match n with O => EmptyString | S n' => String c (string_replicate n' c) end.

(** A [u128] has at most 32 hexadecimal digits, so 32 is enough fuel. *)
Definition fmt_hex (pad : nat) (n : N) : string :=
  let d := hex_digits 32 n EmptyString in
  string_replicate (pad - String.length d) "0"%char +:+ d.

(** ** Runs

    The run of a handler over a list of events, and the run of a fallible
    handler that collects its outputs. *)

Definition run {St Ev} (step : St -> Ev -> St) (s : St) (evs : list Ev) : St :=
  fold_left step evs s.

(** ** Tactics *)

(** Case analysis on every [match] and [if] of the goal or a hypothesis. *)
Ltac break :=
  repeat (case_match || case_decide || case_bool_decide); simplify_eq/=.
Ltac break_in H :=
  repeat match type of H with
  | context [match ?x with _ => _ end] => destruct x eqn:?; try discriminate H
  end.

(** Exposes the monadic structure of a computation. *)
Ltac unfold_M :=
  unfold mbind, M_bind, mret, M_ret, res_bind, res_ret, throw, modify, get, put, lift in *.

(** Turns boolean comparisons of naturals into propositions. *)
Ltac bool2prop :=
  repeat match goal with
  | H : (_ <? _)%N = true |- _ => apply N.ltb_lt in H
  | H : (_ <? _)%N = false |- _ => apply N.ltb_ge in H
  | H : (_ <=? _)%N = true |- _ => apply N.leb_le in H
  | H : (_ <=? _)%N = false |- _ => apply N.leb_gt in H
  | H : (_ =? _)%N = true |- _ => apply N.eqb_eq in H
  | H : (_ =? _)%N = false |- _ => apply N.eqb_neq in H
  | H : (_ && _) = true |- _ => apply andb_prop in H as [??]
  | H : negb _ = true |- _ => apply negb_true_iff in H
  | H : negb _ = false |- _ => apply negb_false_iff in H
  end.

(** ** Lemmas on integers, bytes and lists *)

Lemma len_app {A} (l k : list A) : len (l ++ k) = (len l + len k)%N.
Proof. unfold len. rewrite length_app. lia. Qed.

Lemma len_cons {A} (x : A) l : len (x :: l) = (1 + len l)%N.
Proof. unfold len. cbn [length]. lia. Qed.

Lemma len_nil {A} : len (@nil A) = 0%N.
Proof. done. Qed.

Lemma len_zero {A} (l : list A) : len l = 0%N <-> l = [].
Proof. unfold len. destruct l; simpl; split; intros; try done; lia. Qed.

Lemma checked_add_Some max a b c :
  checked_add max a b = Some c <-> c = (a + b)%N /\ (a + b <= max)%N.
Proof.
  unfold checked_add. destruct (N.leb_spec (a + b) max); split;
    intros; destruct_and?; simplify_eq; auto; lia.
Qed.

Lemma checked_add_None max a b : checked_add max a b = None <-> (max < a + b)%N.
Proof. unfold checked_add. destruct (N.leb_spec (a + b) max); split; intros; try done; lia. Qed.

Lemma to_N_byte_lt b : (Byte.to_N b < 256)%N.
Proof. pose proof (Byte.to_N_bounded b). lia. Qed.

Lemma to_N_byte_of n : Byte.to_N (byte_of n) = (n mod 256)%N.
Proof.
  unfold byte_of. destruct (Byte.of_N (n mod 256)) as [b|] eqn:E.
  - by apply Byte.to_of_N.
  - apply Byte.of_N_None_iff in E.
    pose proof (N.mod_lt n 256 ltac:(done)). lia.
Qed.

Lemma byte_of_to_N b : byte_of (Byte.to_N b) = b.
Proof.
  unfold byte_of. rewrite N.mod_small by apply to_N_byte_lt.
  by rewrite Byte.of_to_N.
Qed.

Lemma to_N_byte_inj b c : Byte.to_N b = Byte.to_N c -> b = c.
Proof. intros H. by rewrite <- (byte_of_to_N b), H, byte_of_to_N. Qed.

Lemma length_to_be_bytes w n : length (to_be_bytes w n) = w.
Proof. induction w; simpl; congruence. Qed.

Lemma from_be_bytes_acc_shift bs acc :
  from_be_bytes_acc acc bs
  = (acc * 256 ^ N.of_nat (length bs) + from_be_bytes bs)%N.
Proof.
  unfold from_be_bytes. revert acc. induction bs as [|b bs IH]; intros acc.
  - cbn [from_be_bytes_acc length]. simpl. lia.
  - cbn [from_be_bytes_acc length]. rewrite IH, (IH (0 * 256 + _)%N).
    rewrite Nat2N.inj_succ, N.pow_succ_r'. lia.
Qed.

Lemma from_be_bytes_cons b bs :
  from_be_bytes (b :: bs)
  = (Byte.to_N b * 256 ^ N.of_nat (length bs) + from_be_bytes bs)%N.
Proof.
  unfold from_be_bytes at 1. cbn [from_be_bytes_acc].
  rewrite from_be_bytes_acc_shift. f_equal; lia.
Qed.

Lemma pow256_pos w : (0 < 256 ^ w)%N.
Proof. pose proof (N.pow_nonzero 256 w). lia. Qed.

Lemma from_be_bytes_lt bs : (from_be_bytes bs < 256 ^ N.of_nat (length bs))%N.
Proof.
  induction bs as [|b bs IH]; [done|].
  rewrite from_be_bytes_cons. cbn [length].
  rewrite Nat2N.inj_succ, N.pow_succ_r'. pose proof (to_N_byte_lt b). nia.
Qed.

Lemma from_be_bytes_lt_n bs w :
  length bs = w -> (from_be_bytes bs < 256 ^ N.of_nat w)%N.
Proof. intros <-. apply from_be_bytes_lt. Qed.

Lemma from_to_be_bytes_mod w n :
  from_be_bytes (to_be_bytes w n) = (n mod 256 ^ N.of_nat w)%N.
Proof.
  induction w as [|w IH]; cbn [to_be_bytes].
  - rewrite N.pow_0_r, N.mod_1_r. done.
  - rewrite from_be_bytes_cons, length_to_be_bytes, IH, to_N_byte_of.
    rewrite Nat2N.inj_succ, N.pow_succ_r', (N.mul_comm 256).
    pose proof (pow256_pos (N.of_nat w)).
    rewrite N.Div0.mod_mul_r. lia.
Qed.

Lemma from_to_be_bytes w n :
  (n < 256 ^ N.of_nat w)%N -> from_be_bytes (to_be_bytes w n) = n.
Proof. intros. rewrite from_to_be_bytes_mod. by apply N.mod_small. Qed.

(** Little-endian. *)
Definition to_le_bytes (w : nat) (n : N) : bytes := rev (to_be_bytes w n).
Definition from_le_bytes (bs : bytes) : N := from_be_bytes (rev bs).

Lemma length_to_le_bytes w n : length (to_le_bytes w n) = w.
Proof. unfold to_le_bytes. by rewrite length_rev, length_to_be_bytes. Qed.

Lemma from_to_le_bytes w n : (n < 256 ^ N.of_nat w)%N -> from_le_bytes (to_le_bytes w n) = n.
Proof. intros H. unfold from_le_bytes, to_le_bytes. rewrite rev_involutive. by apply from_to_be_bytes. Qed.

Lemma from_le_bytes_lt_n bs w : length bs = w -> (from_le_bytes bs < 256 ^ N.of_nat w)%N.
Proof. intros H. apply from_be_bytes_lt_n. by rewrite length_rev. Qed.

Lemma to_be_bytes_mod w n k :
  (w <= k)%nat -> to_be_bytes w (n mod 256 ^ N.of_nat k) = to_be_bytes w n.
Proof.
  induction w as [|w IH]; intros Hk; [done|]. cbn [to_be_bytes].
  rewrite IH by lia. f_equal. apply to_N_byte_inj. rewrite !to_N_byte_of.
  replace k with ((k - S w) + S w)%nat by lia. set (j := (k - S w)%nat).
  rewrite Nat2N.inj_add, Nat2N.inj_succ.
  replace (N.of_nat j + N.succ (N.of_nat w))%N with (N.of_nat w + N.succ (N.of_nat j))%N by lia.
  rewrite N.pow_add_r. pose proof (pow256_pos (N.of_nat w)).
  rewrite N.Div0.mod_mul_r, N.mul_comm, N.div_add by lia.
  rewrite N.div_small by (apply N.mod_lt; lia). rewrite N.add_0_l.
  rewrite N.pow_succ_r', N.Div0.mod_mul_r.
  rewrite (N.mul_comm 256), N.Div0.mod_add. by apply N.mod_small, N.mod_lt.
Qed.

Lemma to_from_be_bytes bs : to_be_bytes (length bs) (from_be_bytes bs) = bs.
Proof.
  induction bs as [|b bs IH]; [done|]. cbn [length to_be_bytes].
  rewrite from_be_bytes_cons. pose proof (from_be_bytes_lt bs) as Hlt.
  pose proof (pow256_pos (N.of_nat (length bs))). f_equal.
  - rewrite N.div_add_l, N.div_small, N.add_0_r by lia. apply byte_of_to_N.
  - rewrite <- (to_be_bytes_mod (length bs) _ (length bs)) by lia.
    rewrite N.add_comm, N.Div0.mod_add, N.mod_small by done. done.
Qed.

Lemma to_from_be_bytes_n w bs :
  length bs = w -> to_be_bytes w (from_be_bytes bs) = bs.
Proof. intros <-. apply to_from_be_bytes. Qed.

Lemma to_be_bytes_inj w n m :
  (n < 256 ^ N.of_nat w)%N -> (m < 256 ^ N.of_nat w)%N ->
  to_be_bytes w n = to_be_bytes w m -> n = m.
Proof.
  intros Hn Hm H. by rewrite <- (from_to_be_bytes w n), <- (from_to_be_bytes w m), H.
Qed.

Lemma from_be_bytes_inj bs cs :
  length bs = length cs -> from_be_bytes bs = from_be_bytes cs -> bs = cs.
Proof.
  intros Hl H. by rewrite <- (to_from_be_bytes bs), <- (to_from_be_bytes cs), H, Hl.
Qed.

Lemma length_slice {A} (l : list A) a b :
  (b <= length l)%nat -> length (slice l a b) = (b - a)%nat.
Proof. intros. unfold slice. rewrite length_take, length_drop. lia. Qed.

Lemma slice_app_hd {A} (l k : list A) n : length l = n -> slice (l ++ k) 0 n = l.
Proof. intros <-. unfold slice. by rewrite drop_0, Nat.sub_0_r, take_app_length. Qed.

Lemma slice_app_skip {A} (l k : list A) a b n :
  length l = n -> (n <= a)%nat -> slice (l ++ k) a b = slice k (a - n) (b - n).
Proof.
  intros <- Ha. unfold slice. rewrite drop_app_ge by done. f_equal. lia.
Qed.

Lemma slice_join {A} (l : list A) a m b :
  (a <= m <= b)%nat -> slice l a m ++ slice l m b = slice l a b.
Proof.
  intros H. unfold slice. replace (drop m l) with (drop (m - a) (drop a l))
    by (rewrite drop_drop; f_equal; lia).
  replace (b - a)%nat with ((m - a) + (b - m))%nat by lia.
  by rewrite <- take_take_drop.
Qed.

Lemma slice_nth {A} (l : list A) a d :
  (a < length l)%nat -> [nth a l d] = slice l a (S a).
Proof.
  intros H. unfold slice. replace (S a - a)%nat with 1%nat by lia.
  revert l H. induction a as [|a IH]; intros [|x l] H; simpl in *; try lia.
  - by rewrite take_0.
  - apply IH. lia.
Qed.

Lemma slice_0 {A} (l : list A) b : slice l 0 b = take b l.
Proof. unfold slice. by rewrite Nat.sub_0_r. Qed.

Lemma take_app_within {A} (l k : list A) n :
  (n <= length l)%nat -> take n (l ++ k) = take n l.
Proof. intros. rewrite take_app_le; auto. Qed.

Lemma length_zeros n : length (zeros n) = n.
Proof. apply length_replicate. Qed.

Lemma take_app_n {A} (l k : list A) n : length l = n -> take n (l ++ k) = l.
Proof. intros <-. by rewrite take_app_length. Qed.

Lemma drop_app_n {A} (l k : list A) n : length l = n -> drop n (l ++ k) = k.
Proof. intros <-. by rewrite drop_app_length. Qed.

(** ** Lemmas on runs *)

Section run.
Context {St Ev : Type} (step : St -> Ev -> St) (Inv : St -> Prop).
Hypothesis step_inv : forall s e, Inv s -> Inv (step s e).

Lemma run_invariant s evs : Inv s -> Inv (run step s evs).
Proof using step_inv.
  revert s. induction evs as [|e evs IH]; intros s Hs; [done|].
  apply IH, step_inv, Hs.
Qed.
End run.

Lemma run_app {St Ev} (step : St -> Ev -> St) s evs evs' :
  run step s (evs ++ evs') = run step (run step s evs) evs'.
Proof. unfold run. apply fold_left_app. Qed.

(** A step relation and a simulation into another one. *)
Section simulation.
Context {C A : Type} (cstep : C -> C -> Prop) (astep : A -> A -> Prop)
  (R : C -> A -> Prop).
Hypothesis sim_step : forall c c' a, cstep c c' -> R c a ->
  exists a', rtc astep a a' /\ R c' a'.

Lemma simulation_rtc c c' a :
  rtc cstep c c' -> R c a -> exists a', rtc astep a a' /\ R c' a'.
Proof using sim_step.
  intros H. revert a. induction H as [c|c1 c2 c3 H12 H23 IH]; intros a HR.
  - exists a. by split; [apply rtc_refl|].
  - destruct (sim_step _ _ _ H12 HR) as (a2 & Ha2 & HR2).
    destruct (IH _ HR2) as (a3 & Ha3 & HR3).
    exists a3. split; [|done]. by etrans.
Qed.
End simulation.

#[export] Hint Rewrite @len_app @len_nil : lockframe_len.
#[export] Hint Rewrite @length_app length_to_be_bytes length_zeros : lockframe_len.
#[export] Hint Resolve to_N_byte_lt length_to_be_bytes length_zeros : lockframe.

(** Computes lengths of concatenations and closes linear goals about them. *)
Ltac len_solve :=
  repeat match goal with
  | H : @len _ _ = _ |- _ => unfold len in H
  end;
  unfold len in *; autorewrite with lockframe_len in *; simpl in *;
  try congruence; try lia.

(** ** Reasoning about computations

    [steps R m]: every run of [m], also one that fails, goes from its first to
    its last state by [R]; [yields P m]: every value [m] returns satisfies
    [P]. *)

Definition steps {S E A} (R : S -> S -> Prop) (m : M S E A) : Prop := forall s, R s (fst (m s)).
Definition yields {S E A} (P : A -> Prop) (m : M S E A) : Prop :=
  forall s a, snd (m s) = Ok a -> P a.

(** A computation that answers with a value: what its parts answer. *)
Lemma bind_Ok {S E A B} (m : M S E A) (f : A -> M S E B) s s' b :
  (m ≫= f) s = (s', Ok b) -> exists a s1, m s = (s1, Ok a) /\ f a s1 = (s', Ok b).
Proof. unfold mbind, M_bind. destruct (m s) as [s1 [a| |]]; [eauto|done..]. Qed.

Lemma lift_Ok {S E A} (r : res E A) (s s' : S) a : lift r s = (s', Ok a) -> s' = s /\ r = Ok a.
Proof. by intros [= <- ->]. Qed.

Lemma map_err_Ok {E E' A} (f : E -> E') (r : res E A) a : map_err f r = Ok a -> r = Ok a.
Proof. destruct r; cbn; congruence. Qed.

Lemma res_bind_Ok {E A B} (r : res E A) (f : A -> res E B) b :
  r ≫= f = Ok b -> exists a, r = Ok a /\ f a = Ok b.
Proof. destruct r; cbn; [eauto|done..]. Qed.

Section computations.
Context {S E : Type} (R : S -> S -> Prop) `{!PreOrder R}.

Lemma steps_bind {A B} (m : M S E A) (f : A -> M S E B) :
  steps R m -> (forall a, steps R (f a)) -> steps R (m ≫= f).
Proof using PreOrder0.
  intros Hm Hf s. specialize (Hm s). unfold mbind, M_bind.
  destruct (m s) as [s' [a|e|]]; simpl in *; [|done..]. etrans; [done|apply Hf].
Qed.

Lemma steps_bind_yields {A B} (Q : A -> Prop) (m : M S E A) (f : A -> M S E B) :
  steps R m -> yields Q m -> (forall a, Q a -> steps R (f a)) -> steps R (m ≫= f).
Proof using PreOrder0.
  intros Hm Hq Hf s. specialize (Hm s). specialize (Hq s). unfold mbind, M_bind.
  destruct (m s) as [s' [a|e|]]; simpl in *; [|done..]. etrans; [done|by apply Hf, Hq].
Qed.

(** A computation that reads the state knows it. *)
Lemma steps_get {A} (f : S -> M S E A) :
  (forall s, R s (fst (f s s))) -> steps R (get ≫= f).
Proof. intros H s. apply H. Qed.

Lemma steps_ret {A} (a : A) : steps (E := E) R (mret a).
Proof using PreOrder0. by intros s. Qed.
Lemma steps_throw {A} (e : E) : steps (A := A) R (throw e).
Proof using PreOrder0. by intros s. Qed.
Lemma steps_lift {A} (r : res E A) : steps R (lift r).
Proof using PreOrder0. by intros s. Qed.
Lemma steps_modify (f : S -> S) : (forall s, R s (f s)) -> steps (E := E) R (modify f).
Proof. intros H s. apply H. Qed.

Lemma yields_bind {A B} (Q : A -> Prop) (P : B -> Prop) (m : M S E A) (f : A -> M S E B) :
  yields Q m -> (forall a, Q a -> yields P (f a)) -> yields P (m ≫= f).
Proof.
  intros Hm Hf s b. unfold mbind, M_bind. specialize (Hm s).
  destruct (m s) as [s' [a|e|]]; simpl in *; [|done..]. apply Hf. by apply Hm.
Qed.

Lemma yields_any {A} (m : M S E A) : yields (fun _ => True) m.
Proof. done. Qed.
Lemma yields_ret {A} (P : A -> Prop) a : P a -> yields (S := S) (E := E) P (mret a).
Proof. by intros H s b [= <-]. Qed.
Lemma yields_throw {A} (P : A -> Prop) (e : E) : yields (S := S) P (throw e).
Proof. by intros s b. Qed.
Lemma yields_lift {A} (P : A -> Prop) (r : res E A) :
  (forall a, r = Ok a -> P a) -> yields (S := S) P (lift r).
Proof. intros H s b. apply H. Qed.
End computations.

(** [wp I R m Q s]: from [s], when the invariant [I] holds, [m] does not
    panic; also when it fails it ends in a state where [I] holds again, reached
    by [R]; and what it returns satisfies [Q] there. *)
Definition wp {S E A} (I : S -> Prop) (R : S -> S -> Prop) (m : M S E A) (Q : A -> S -> Prop)
    (s : S) : Prop :=
  I s -> let '(s', r) := m s in I s' /\ R s s' /\ r <> Panic /\ forall a, r = Ok a -> Q a s'.

Section weakest_preconditions.
Context {S E : Type} (I : S -> Prop) (R : S -> S -> Prop) `{!PreOrder R}.

Lemma wp_bind {A B} (m : M S E A) (f : A -> M S E B) Q s :
  wp I R m (fun a s' => wp I R (f a) Q s') s -> wp I R (m ≫= f) Q s.
Proof using PreOrder0.
  intros Hm HI. specialize (Hm HI). unfold mbind, M_bind. destruct (m s) as [s1 [a|e|]].
  - destruct Hm as (HI1 & HR1 & _ & Hf). specialize (Hf a eq_refl HI1).
    destruct (f a s1) as [s2 r]. destruct Hf as (HI2 & HR2 & Hf). split_and!; [done|by etrans|apply Hf..].
  - destruct Hm as (HI1 & HR1 & _ & _). done.
  - by destruct Hm as (_ & _ & Hm & _).
Qed.

Lemma wp_mono {A} (m : M S E A) (P Q : A -> S -> Prop) s :
  wp I R m P s -> (forall a s', I s' -> R s s' -> P a s' -> Q a s') -> wp I R m Q s.
Proof.
  intros Hm HPQ HI. specialize (Hm HI). destruct (m s) as [s' r].
  destruct Hm as (HI' & HR & Hr & HP). split_and!; auto.
Qed.

Lemma wp_assume {A} (m : M S E A) Q s : (I s -> wp I R m Q s) -> wp I R m Q s.
Proof. intros H HI. by apply H. Qed.

Lemma wp_get {A} (f : S -> M S E A) Q s : wp I R (f s) Q s -> wp I R (get ≫= f) Q s.
Proof. done. Qed.

Lemma wp_ret {A} (a : A) (Q : A -> S -> Prop) s : Q a s -> wp (E := E) I R (mret a) Q s.
Proof using PreOrder0. intros HQ HI. split_and!; [done..|]. by intros ? [= <-]. Qed.

Lemma wp_throw {A} (e : E) (Q : A -> S -> Prop) s : wp I R (throw e) Q s.
Proof using PreOrder0. intros HI. by split_and!. Qed.

Lemma wp_lift {A} (r : res E A) (Q : A -> S -> Prop) s :
  r <> Panic -> (forall a, r = Ok a -> Q a s) -> wp I R (lift r) Q s.
Proof using PreOrder0. intros Hr HQ HI. by split_and!. Qed.

Lemma wp_modify (g : S -> S) (Q : unit -> S -> Prop) s :
  (I s -> I (g s) /\ R s (g s) /\ Q tt (g s)) -> wp (E := E) I R (modify g) Q s.
Proof. intros H HI. destruct (H HI) as (? & ? & ?). split_and!; [done..|]. by intros [] _. Qed.

End weakest_preconditions.

(** One rule of [wp], by the head of the computation. *)
Ltac wp_step :=
  cbv beta iota zeta;
  match goal with
  | |- wp _ _ (get ≫= _) _ _ => apply wp_get
  | |- wp _ _ (mret _) _ _ => apply wp_ret; [apply _|]
  | |- wp _ _ (throw _) _ _ => apply wp_throw, _
  | |- wp _ _ (lift _) _ _ => apply wp_lift; [apply _| |]
  | |- wp _ _ (_ ≫= _) _ _ => apply wp_bind; [apply _|]
  end.
