(* ===== verification/Env.v ===== *)
(** * The environment

    The [Environment] trait of [lockframe-core/src/env.rs], the interface
    through which the protocol code sees time and randomness, and durations.
    A call to the environment threads its hidden state; an [Instant] is a
    number of nanoseconds and [Sub] on instants saturates at zero, as it does
    for [std::time::Instant]. *)

From S2P Require Import Prelude.

Local Open Scope N_scope.

Abbreviation Instant := N (only parsing).
Abbreviation Duration := N (only parsing).

Definition instant_sub (a b : Instant) : Duration := saturating_sub a b.

(** The sum with a duration panics past the last instant, whose seconds are the
    largest 64-bit signed integer. *)
Definition INSTANT_END : N := 2 ^ 63 * 1000000000.
Definition instant_add {E} (i : Instant) (d : Duration) : res E Instant :=
  if i + d <? INSTANT_END then Ok (i + d) else Panic.

Definition from_secs (s : N) : Duration := s * 1000000000.
Definition from_mins (m : N) : Duration := from_secs (m * 60).
Definition as_secs (d : Duration) : N := d / 1000000000.

Class Environment (Env : Type) := {
  now : Env -> Instant * Env;
  random_bytes : nat -> Env -> bytes * Env;
  wall_clock_secs : Env -> N * Env;

  (** The clock never goes backwards: [clock] is the latest time read. *)
  clock : Env -> Instant;
  now_monotone e : clock e <= fst (now e) /\ clock (snd (now e)) = fst (now e);
  random_bytes_clock n e : clock (snd (random_bytes n e)) = clock e;
  wall_clock_clock e : clock (snd (wall_clock_secs e)) = clock e;
  random_bytes_length n e : length (fst (random_bytes n e)) = n;
}.

Section environment.
Context `{Environment Env}.

Definition random_u64 (e : Env) : N * Env :=
  let '(bs, e') := random_bytes 8 e in (from_be_bytes bs, e').

Definition random_u128 (e : Env) : N * Env :=
  let '(bs, e') := random_bytes 16 e in (from_be_bytes bs, e').

Lemma random_u64_lt e : fst (random_u64 e) < 2 ^ 64.
Proof.
  unfold random_u64. pose proof (random_bytes_length 8 e) as Hl.
  destruct (random_bytes 8 e). by apply (from_be_bytes_lt_n _ 8).
Qed.

Lemma random_u128_lt e : fst (random_u128 e) < 2 ^ 128.
Proof.
  unfold random_u128. pose proof (random_bytes_length 16 e) as Hl.
  destruct (random_bytes 16 e). by apply (from_be_bytes_lt_n _ 16).
Qed.
End environment.

(** ** [Debug for Duration]

    [2.5s], [100ms], [1.5µs], [10ns]: the largest unit with a nonzero integer
    part, and the fraction without its trailing zeros. *)

Fixpoint decimal_digits (w : nat) (n : N) : list N :=
  match w with
  | O => []
  | S w' => n / 10 ^ N.of_nat w' :: decimal_digits w' (n mod 10 ^ N.of_nat w')
  end.

Fixpoint trim_zeros (ds : list N) : list N :=
  match ds with
  | [] => []
  | d :: ds' =>
      match trim_zeros ds' with
      | [] => if d =? 0 then [] else [d]
      | t => d :: t
      end
  end.

Definition fmt_decimal (int frac : N) (w : nat) : string :=
  pretty int +:+
  match trim_zeros (decimal_digits w frac) with
  | [] => EmptyString
  | ds => "." +:+ String.concat EmptyString (map (fun d : N => pretty d) ds)
  end.

Definition fmt_duration (d : Duration) : string :=
  let secs := d / 1000000000 in
  let nanos := d mod 1000000000 in
  if 0 <? secs then fmt_decimal secs nanos 9 +:+ "s"
  else if 1000000 <=? nanos then
    fmt_decimal (nanos / 1000000) (nanos mod 1000000) 6 +:+ "ms"
  else if 1000 <=? nanos then
    fmt_decimal (nanos / 1000) (nanos mod 1000) 3
      +:+ String "194"%char (String "181"%char "s")
  else fmt_decimal nanos 0 0 +:+ "ns".

(** ** A deterministic environment

    A virtual clock that advances by a fixed step at every reading and a
    counter as the source of bytes, to run the model on concrete inputs. *)

Record TestEnv := mkTestEnv { te_clock : N; te_step : N; te_seed : N; te_wall : N }.

#[global] Program Instance test_environment : Environment TestEnv := {|
  now e := (te_clock e + te_step e,
            mkTestEnv (te_clock e + te_step e) (te_step e) (te_seed e) (te_wall e));
  random_bytes n e := (to_be_bytes n (te_seed e),
                       mkTestEnv (te_clock e) (te_step e) (te_seed e + 1) (te_wall e));
  wall_clock_secs e := (te_wall e, e);
  clock := te_clock;
|}.
Next Obligation. simpl. lia. Qed.
Next Obligation. done. Qed.
Next Obligation. done. Qed.
Next Obligation. intros. apply length_to_be_bytes. Qed.
