(* ===== verification/Environments.v ===== *)
(** * The environments

    The implementations of the [Environment] trait: [MockEnv] of
    [lockframe-core/src/env.rs] with its virtual time, [SimEnv] of
    [lockframe-harness/src/sim_env.rs], [SystemEnv] of
    [lockframe-server/src/system_env.rs], and the generator that
    [lockframe-core/src/mls/provider.rs] makes of an environment for the MLS
    library.  Seeded generators, the clocks of tokio and of the system, and the
    randomness of the operating system are classes.  The clones of an environment
    share its state, which a call threads. *)

From S2P Require Import Prelude Env.

Local Open Scope N_scope.

(** The generators of the rand crate. *)
Class SeededRng (R : Type) := {
  seed_from_u64 : N -> R;
  fill_bytes : nat -> R -> bytes * R;
  fill_bytes_length n r : length (fst (fill_bytes n r)) = n;
}.

(** A clock that never goes backwards, with its latest reading. *)
Class MonotonicClock (T : Type) := {
  read_clock : T -> Instant * T;
  latest : T -> Instant;
  read_clock_monotone t : latest t <= fst (read_clock t) /\ latest (snd (read_clock t)) = fst (read_clock t);
}.

(** The fixed timestamp of both test environments, 2024-01-01. *)
Definition FIXED_WALL_CLOCK : N := 1704067200.

(** ** Virtual time *)

Module VirtualInstant.

Definition from_duration (d : Duration) : Instant := d.
Definition since_epoch (i : Instant) : Duration := i.

(** [checked_sub(..).expect(..)]. *)
Definition sub (a b : Instant) : res unit Duration := if b <=? a then Ok (a - b) else Panic.

(** Durations have a [u64] of seconds; their sum panics beyond. *)
Definition add (i : Instant) (d : Duration) : res unit Instant :=
  if i + d <? 2 ^ 64 * 1000000000 then Ok (i + d) else Panic.

Definition debug (i : Instant) : string := "VirtualInstant(" +:+ fmt_duration i +:+ ")".

(** A time and one that is later by a duration differ by that duration. *)
Lemma sub_add i d j : add i d = Ok j -> sub j i = Ok d.
Proof.
  unfold add, sub. destruct (_ <? _); intros [= <-]. rewrite (proj2 (N.leb_le _ _)) by lia.
  f_equal. lia.
Qed.

End VirtualInstant.

(** ** The mock environment *)

Module MockEnv.
Section mock.
Context {R : Type} `{!SeededRng R}.

Record t := mk { offset_nanos : N; rng : R }.

Definition new : t := mk 0 (seed_from_u64 0).
(** [StdRng::from_entropy()] is the argument. *)
Definition with_crypto_rng (entropy : R) : t := mk 0 entropy.

(** [fetch_add] wraps. *)
Definition advance_time (d : Duration) (e : t) : t * res unit unit :=
  if d <=? u64_MAX then (mk ((offset_nanos e + d) mod 2 ^ 64) (rng e), Ok tt) else (e, Panic).

Definition now (e : t) : Instant * t := (offset_nanos e, e).
(** Returns at once. *)
Definition sleep (d : Duration) (e : t) : t := e.
Definition random_bytes (n : nat) (e : t) : bytes * t :=
  let '(bs, r) := fill_bytes n (rng e) in (bs, mk (offset_nanos e) r).
Definition wall_clock_secs (e : t) : N * t := (FIXED_WALL_CLOCK, e).

Lemma random_bytes_rng n e : random_bytes n e
  = (fst (fill_bytes n (rng e)), mk (offset_nanos e) (snd (fill_bytes n (rng e)))).
Proof. unfold random_bytes. by destruct (fill_bytes n (rng e)). Qed.

#[export] Program Instance mock_environment : Environment t := {|
  Env.now := now;
  Env.random_bytes := random_bytes;
  Env.wall_clock_secs := wall_clock_secs;
  clock := offset_nanos;
|}.
Next Obligation. intros. cbn. done. Qed.
Next Obligation. intros n e. by rewrite random_bytes_rng. Qed.
Next Obligation. done. Qed.
Next Obligation. intros n e. rewrite random_bytes_rng. apply fill_bytes_length. Qed.

(** The virtual clock shows exactly the time it has been advanced by, and the
    differences of its readings are durations, up to 2^64 nanoseconds... *)
Theorem mock_time_exact e d : offset_nanos e + d < 2 ^ 64 ->
  exists e', advance_time d e = (e', Ok tt) /\ rng e' = rng e /\
    VirtualInstant.sub (fst (now e')) (fst (now e)) = Ok d.
Proof.
  intros H. unfold advance_time. rewrite (proj2 (N.leb_le d u64_MAX)) by (unfold u64_MAX; lia).
  eexists. split_and!; [done..|]. cbn. rewrite N.mod_small by done.
  unfold VirtualInstant.sub. rewrite (proj2 (N.leb_le _ _)) by lia. f_equal. lia.
Qed.

(** ... and beyond goes back, although every step is a duration it accepts. *)
Theorem mock_time_wraps e d : d <= u64_MAX -> offset_nanos e < 2 ^ 64 -> 2 ^ 64 <= offset_nanos e + d ->
  exists e', advance_time d e = (e', Ok tt) /\ fst (now e') < fst (now e) /\
    VirtualInstant.sub (fst (now e')) (fst (now e)) = Panic.
Proof.
  intros Hd He H. unfold advance_time. rewrite (proj2 (N.leb_le d u64_MAX)) by done. unfold u64_MAX in Hd.
  assert (Hlt : (offset_nanos e + d) mod 2 ^ 64 < offset_nanos e).
  { rewrite N.Div0.mod_eq.
    replace ((offset_nanos e + d) / 2 ^ 64) with 1; [lia|].
    apply (N.div_unique _ _ _ (offset_nanos e + d - 2 ^ 64)); lia. }
  eexists. split_and!; [done|done|]. cbn. unfold VirtualInstant.sub.
  by rewrite (proj2 (N.leb_gt _ _)).
Qed.

End mock.
End MockEnv.

(** ** The simulation's environment *)

Module SimEnv.
Section sim.
Context {R : Type} `{!SeededRng R} {T : Type} `{!MonotonicClock T}.

(** The generator, and the simulated time of tokio. *)
Record t := mk { rng : R; time : T }.

Definition with_seed (seed : N) (time : T) : t := mk (seed_from_u64 seed) time.
Definition new (time : T) : t := with_seed 0 time.

Definition now (e : t) : Instant * t :=
  let '(i, time') := read_clock (time e) in (i, mk (rng e) time').
Definition random_bytes (n : nat) (e : t) : bytes * t :=
  let '(bs, r) := fill_bytes n (rng e) in (bs, mk r (time e)).
Definition wall_clock_secs (e : t) : N * t := (FIXED_WALL_CLOCK, e).

#[export] Program Instance sim_environment : Environment t := {|
  Env.now := now;
  Env.random_bytes := random_bytes;
  Env.wall_clock_secs := wall_clock_secs;
  clock e := latest (time e);
|}.
Next Obligation.
  intros e. unfold now. pose proof (read_clock_monotone (time e)) as H. by destruct (read_clock (time e)).
Qed.
Next Obligation. intros n e. unfold random_bytes. by destruct (fill_bytes n (rng e)). Qed.
Next Obligation. intros e. done. Qed.
Next Obligation.
  intros n e. unfold random_bytes. pose proof (fill_bytes_length n (rng e)) as H. by destruct (fill_bytes n (rng e)).
Qed.

(** What the simulated code asks of its environment, and the bytes it gets. *)
Inductive request := RNow | RBytes (n : nat) | RWall.

Fixpoint drawn (reqs : list request) (e : t) : list bytes :=
  match reqs with
  | [] => []
  | RNow :: rest => drawn rest (snd (now e))
  | RWall :: rest => drawn rest (snd (wall_clock_secs e))
  | RBytes n :: rest => let '(bs, e') := random_bytes n e in bs :: drawn rest e'
  end.

Fixpoint rng_drawn (ns : list nat) (r : R) : list bytes :=
  match ns with
  | [] => []
  | n :: rest => let '(bs, r') := fill_bytes n r in bs :: rng_drawn rest r'
  end.

Lemma drawn_rng reqs : forall e,
  drawn reqs e = rng_drawn (omap (fun q => match q with RBytes n => Some n | _ => None end) reqs) (rng e).
Proof.
  induction reqs as [|[|n|] reqs IH]; intros e; cbn [drawn omap list_omap rng_drawn]; [done|..].
  - rewrite IH. unfold now. by destruct (read_clock (time e)).
  - unfold random_bytes. destruct (fill_bytes n (rng e)) as [bs r]. by rewrite IH.
  - by rewrite IH.
Qed.

(** The bytes of a run are those of the seed: when and how often the time is
    read makes no difference. *)
Theorem same_seed_same_bytes seed time time' reqs reqs' :
  omap (fun q => match q with RBytes n => Some n | _ => None end) reqs
  = omap (fun q => match q with RBytes n => Some n | _ => None end) reqs' ->
  drawn reqs (with_seed seed time) = drawn reqs' (with_seed seed time').
Proof. intros H. by rewrite !drawn_rng, H. Qed.

End sim.
End SimEnv.

(** ** The system's environment *)

Module SystemEnv.

(** The operating system: its monotonic clock, [getrandom], which may fail, and
    the time since 1970, [None] before. *)
Class Os (S : Type) := {
  os_now : S -> Instant * S;
  getrandom : nat -> S -> option bytes * S;
  unix_time : S -> option Duration * S;
}.

Section system.
Context {S : Type} `{!Os S}.

Definition now (s : S) : Instant * S := os_now s.
Definition random_bytes (n : nat) (s : S) : res unit bytes * S :=
  let '(r, s') := getrandom n s in (match r with Some bs => Ok bs | None => Panic end, s').
Definition wall_clock_secs (s : S) : res unit N * S :=
  let '(r, s') := unix_time s in (match r with Some d => Ok (as_secs d) | None => Panic end, s').

(** A system that works: it is what the trait asks for, as long as the calls do
    not panic. *)
Class OsWorks := {
  os_clock : S -> Instant;
  os_now_monotone s : os_clock s <= fst (os_now s) /\ os_clock (snd (os_now s)) = fst (os_now s);
  getrandom_works n s : exists bs s', getrandom n s = (Some bs, s') /\ length bs = n /\ os_clock s' = os_clock s;
  unix_time_works s : exists d s', unix_time s = (Some d, s') /\ os_clock s' = os_clock s;
}.

Context {works : OsWorks}.

Definition ok_or_default {A} (d : A) (p : res unit A * S) : A * S :=
  (match fst p with Ok a => a | _ => d end, snd p).

Lemma never_panics n s : (exists bs, fst (random_bytes n s) = Ok bs) /\ exists t, fst (wall_clock_secs s) = Ok t.
Proof using works.
  unfold random_bytes, wall_clock_secs.
  destruct (getrandom_works n s) as (bs & s1 & -> & _). destruct (unix_time_works s) as (d & s2 & -> & _).
  split; by eexists.
Qed.

Program Definition system_environment : Environment S := {|
  Env.now := now;
  Env.random_bytes n s := ok_or_default [] (random_bytes n s);
  Env.wall_clock_secs s := ok_or_default 0 (wall_clock_secs s);
  clock := os_clock;
|}.
Next Obligation. intros s. apply os_now_monotone. Qed.
Next Obligation.
  intros n s. unfold random_bytes. by destruct (getrandom_works n s) as (bs & s' & -> & _ & H).
Qed.
Next Obligation.
  intros s. unfold wall_clock_secs. by destruct (unix_time_works s) as (d & s' & -> & H).
Qed.
Next Obligation.
  intros n s. unfold random_bytes. by destruct (getrandom_works n s) as (bs & s' & -> & H & _).
Qed.

End system.
End SystemEnv.

(** ** The generator of the MLS library *)

Module EnvironmentRng.
Section rng.
Context {Env : Type} `{!Environment Env}.

(** Of four bytes in the order of x86, while [next_u64] takes the order of the
    network. *)
Definition next_u32 (e : Env) : N * Env :=
  let '(bs, e') := random_bytes 4 e in (from_le_bytes bs, e').
Definition next_u64 (e : Env) : N * Env := random_u64 e.
Definition fill_bytes (n : nat) (e : Env) : bytes * Env := random_bytes n e.
Definition try_fill_bytes (n : nat) (e : Env) : res Empty_set bytes * Env :=
  let '(bs, e') := random_bytes n e in (Ok bs, e').
Definition random_array (n : nat) (e : Env) : res Empty_set bytes * Env :=
  let '(bs, e') := random_bytes n e in (Ok bs, e').
Definition random_vec (len : nat) (e : Env) : res Empty_set bytes * Env :=
  let '(bs, e') := random_bytes len e in (Ok bs, e').

(** The numbers have their width, and the fallible calls do not fail. *)
Theorem environment_rng_total n e :
  fst (next_u32 e) < 2 ^ 32 /\ fst (next_u64 e) < 2 ^ 64 /\
  (exists bs, fst (try_fill_bytes n e) = Ok bs /\ length bs = n) /\
  random_array n e = try_fill_bytes n e /\ random_vec n e = try_fill_bytes n e.
Proof.
  split_and!; [|apply random_u64_lt| |done..].
  - unfold next_u32. pose proof (random_bytes_length 4 e) as Hl.
    destruct (random_bytes 4 e) as [bs e']. by apply (from_le_bytes_lt_n _ 4).
  - unfold try_fill_bytes. pose proof (random_bytes_length n e) as Hl.
    destruct (random_bytes n e) as [bs e']. by exists bs.
Qed.

End rng.
End EnvironmentRng.
