(* ===== verification/Opcodes.v ===== *)
(** * Opcodes and frame flags

    The [Opcode] enum of [lockframe-proto/src/opcodes.rs] with its conversions
    to and from the [u16] of the wire format, and the [FrameFlags] bit set of
    [lockframe-proto/src/flags.rs]. *)

From S2P Require Import Prelude.

Local Open Scope N_scope.

Module Opcode.

Inductive t : Type :=
  (* Session management *)
  | Hello | HelloReply | Goodbye | Ping | Pong | SyncRequest | SyncResponse
  | Error
  (* MLS operations *)
  | KeyPackage | Proposal | Commit | Welcome | GroupInfo | PSKProposal | ReInit
  | ExternalCommit | KeyPackagePublish | KeyPackageFetch | GroupInfoRequest
  (* Application messages *)
  | AppMessage | AppReceipt | AppReaction | AppEdit | AppDelete | Typing
  | Presence
  (* Moderation *)
  | Redact | Ban | Unban | Kick | Mute | Pin | Report
  (* Federation *)
  | FedAppend | FedSync | FedAck | FedNack | FedQuery
  (* Storage *)
  | CASPut | CASGet | CASDelete | CASProof.

#[global] Instance opcode_eq_dec : EqDecision t.
Proof. solve_decision. Defined.

(** [self as u16]. *)
Definition to_u16 (op : t) : N :=
  match op with
  | Hello => 0x0001 | HelloReply => 0x0002 | Goodbye => 0x0003 | Ping => 0x0004
  | Pong => 0x0005 | SyncRequest => 0x0006 | SyncResponse => 0x0007
  | Error => 0x00FF
  | KeyPackage => 0x1000 | Proposal => 0x1001 | Commit => 0x1002
  | Welcome => 0x1003 | GroupInfo => 0x1004 | PSKProposal => 0x1005
  | ReInit => 0x1006 | ExternalCommit => 0x1007 | KeyPackagePublish => 0x1008
  | KeyPackageFetch => 0x1009 | GroupInfoRequest => 0x100A
  | AppMessage => 0x2000 | AppReceipt => 0x2001 | AppReaction => 0x2002
  | AppEdit => 0x2003 | AppDelete => 0x2004 | Typing => 0x2005
  | Presence => 0x2006
  | Redact => 0x3000 | Ban => 0x3001 | Unban => 0x3002 | Kick => 0x3003
  | Mute => 0x3004 | Pin => 0x3005 | Report => 0x3006
  | FedAppend => 0x4000 | FedSync => 0x4001 | FedAck => 0x4002
  | FedNack => 0x4003 | FedQuery => 0x4004
  | CASPut => 0x5000 | CASGet => 0x5001 | CASDelete => 0x5002
  | CASProof => 0x5003
  end.

Definition from_u16 (value : N) : option t :=
  match value with
  | 0x0001 => Some Hello
  | 0x0002 => Some HelloReply
  | 0x0003 => Some Goodbye
  | 0x0004 => Some Ping
  | 0x0005 => Some Pong
  | 0x0006 => Some SyncRequest
  | 0x0007 => Some SyncResponse
  | 0x00FF => Some Error

  | 0x1000 => Some KeyPackage
  | 0x1001 => Some Proposal
  | 0x1002 => Some Commit
  | 0x1003 => Some Welcome
  | 0x1004 => Some GroupInfo
  | 0x1005 => Some PSKProposal
  | 0x1006 => Some ReInit
  | 0x1007 => Some ExternalCommit
  | 0x1008 => Some KeyPackagePublish
  | 0x1009 => Some KeyPackageFetch
  | 0x100A => Some GroupInfoRequest

  | 0x2000 => Some AppMessage
  | 0x2001 => Some AppReceipt
  | 0x2002 => Some AppReaction
  | 0x2003 => Some AppEdit
  | 0x2004 => Some AppDelete
  | 0x2005 => Some Typing
  | 0x2006 => Some Presence

  | 0x3000 => Some Redact
  | 0x3001 => Some Ban
  | 0x3002 => Some Unban
  | 0x3003 => Some Kick
  | 0x3004 => Some Mute
  | 0x3005 => Some Pin
  | 0x3006 => Some Report

  | 0x4000 => Some FedAppend
  | 0x4001 => Some FedSync
  | 0x4002 => Some FedAck
  | 0x4003 => Some FedNack
  | 0x4004 => Some FedQuery

  | 0x5000 => Some CASPut
  | 0x5001 => Some CASGet
  | 0x5002 => Some CASDelete
  | 0x5003 => Some CASProof

  | _ => None
  end.

(** ** Lemmas *)

Lemma to_u16_lt op : to_u16 op < 2 ^ 16.
Proof. by destruct op. Qed.

Lemma from_u16_to_u16 op : from_u16 (to_u16 op) = Some op.
Proof. by destruct op. Qed.

Lemma to_u16_from_u16 value op : from_u16 value = Some op -> to_u16 op = value.
Proof.
  intros H. unfold from_u16 in H.
  repeat match type of H with
  | match ?x with _ => _ end = _ => destruct x; try discriminate H
  end; by injection H as <-.
Qed.

Lemma to_u16_inj op op' : to_u16 op = to_u16 op' -> op = op'.
Proof.
  intros H. apply (inj Some). by rewrite <- !from_u16_to_u16, H.
Qed.

#[global] Hint Resolve to_u16_lt from_u16_to_u16 : lockframe.

End Opcode.

(** ** [FrameFlags]: a [u8] bit set that keeps unknown bits. *)

Module FrameFlags.

Record t := mk { bits : byte }.

#[global] Instance flags_eq_dec : EqDecision t.
Proof. solve_decision. Defined.

Definition COMPRESSED : t := mk (byte_of 1).
Definition FRAGMENTED : t := mk (byte_of 2).
Definition PRIORITY : t := mk (byte_of 4).
Definition FEDERATED : t := mk (byte_of 8).
Definition EXTERNAL : t := mk (byte_of 16).
Definition EPHEMERAL : t := mk (byte_of 32).
Definition REDACTABLE : t := mk (byte_of 64).
Definition RESERVED : t := mk (byte_of 128).

Definition from_byte (b : byte) : t := mk b.
Definition to_byte (f : t) : byte := bits f.

(** [FrameFlags::empty()], the default. *)
Definition empty : t := mk (byte_of 0).

(** [f.contains(g)]: every bit of [g] is set in [f]. *)
Definition contains (f g : t) : bool :=
  (N.land (Byte.to_N (bits f)) (Byte.to_N (bits g)) =? Byte.to_N (bits g))%N.

End FrameFlags.
