(* ===== verification/Header.v ===== *)
(** * The frame header

    [FrameHeader] of [lockframe-proto/src/header.rs]: a packed record of byte
    arrays, its parser and printer, its accessors and its setters, and the
    [ProtocolError]s of [lockframe-proto/src/errors.rs].  An array [[u8; n]] is
    a list of bytes; [FrameHeader.wf] is the array-length typing of the struct
    and every operation preserves it. *)

From S2P Require Import Prelude Opcodes.

Local Open Scope N_scope.

Module ProtocolError.

Inductive t : Type :=
  | FrameTooShort (expected actual : N)
  | InvalidMagic
  | UnsupportedVersion (version : byte)
  | PayloadTooLarge (size max : N)
  | FrameTruncated (expected actual : N)
  | CborEncode (msg : string)
  | CborDecode (msg : string)
  | InvalidOpcode (opcode : N)
  | PayloadSizeMismatch (header actual : N)
  | InvalidFlags (flags : byte).

#[global] Instance protocol_error_eq_dec : EqDecision t.
Proof. solve_decision. Defined.

(** The [#[error(...)]] attributes: the message of each error. *)
Definition display (e : t) : string :=
  match e with
  | FrameTooShort expected actual =>
      "frame too short: expected at least " +:+ pretty expected
        +:+ " bytes, got " +:+ pretty actual
  | InvalidMagic =>
      let q := String "034"%char EmptyString in
      "invalid magic number: expected 0x4C4F4652 (" +:+ q +:+ "LOFR" +:+ q +:+ ")"
  | UnsupportedVersion v =>
      "unsupported protocol version: " +:+ pretty (Byte.to_N v)
  | PayloadTooLarge size max =>
      "payload too large: " +:+ pretty size +:+ " bytes exceeds maximum "
        +:+ pretty max
  | FrameTruncated expected actual =>
      "frame truncated: header claims " +:+ pretty expected
        +:+ " payload bytes, but only " +:+ pretty actual +:+ " available"
  | CborEncode msg => "failed to encode CBOR: " +:+ msg
  | CborDecode msg => "failed to decode CBOR: " +:+ msg
  | InvalidOpcode op => "invalid opcode: 0x" +:+ fmt_hex 4 op
  | PayloadSizeMismatch header actual =>
      "payload size mismatch: header says " +:+ pretty header
        +:+ " bytes, actual " +:+ pretty actual
  | InvalidFlags f => "invalid flags: 0x" +:+ fmt_hex 2 (Byte.to_N f)
  end.

End ProtocolError.

Module FrameHeader.

Record t := mk {
  f_magic : bytes;         (* [u8; 4] *)
  f_version : byte;
  f_flags : byte;
  f_opcode : bytes;        (* [u8; 2] *)
  f_request_id : bytes;    (* [u8; 4] *)
  f_payload_size : bytes;  (* [u8; 4] *)
  f_room_id : bytes;       (* [u8; 16] *)
  f_sender_id : bytes;     (* [u8; 8] *)
  f_context_id : bytes;    (* [u8; 8] *)
  f_hlc_timestamp : bytes; (* [u8; 8] *)
  f_epoch : bytes;         (* [u8; 8] *)
  f_signature : bytes;     (* [u8; 64] *)
}.

#[global] Instance header_eq_dec : EqDecision t.
Proof. solve_decision. Defined.

(** The array lengths of the struct. *)
Definition wf (h : t) : Prop :=
  length (f_magic h) = 4%nat /\ length (f_opcode h) = 2%nat /\
  length (f_request_id h) = 4%nat /\ length (f_payload_size h) = 4%nat /\
  length (f_room_id h) = 16%nat /\ length (f_sender_id h) = 8%nat /\
  length (f_context_id h) = 8%nat /\ length (f_hlc_timestamp h) = 8%nat /\
  length (f_epoch h) = 8%nat /\ length (f_signature h) = 64%nat.

Definition SIZE : N := 128.
Definition MAGIC : N := 0x4C4F4652.
Definition VERSION : byte := Init.Byte.x01.
Definition MAX_PAYLOAD_SIZE : N := 16 * 1024 * 1024.

(** The packed layout: the fields at their offsets, and the bytes of the
    struct.  [ref_from_prefix] fails when fewer than [SIZE] bytes are there. *)
Definition of_layout (b : bytes) : t :=
  mk (slice b 0 4) (nth 4 b Init.Byte.x00) (nth 5 b Init.Byte.x00)
     (slice b 6 8) (slice b 8 12) (slice b 12 16) (slice b 16 32)
     (slice b 32 40) (slice b 40 48) (slice b 48 56) (slice b 56 64)
     (slice b 64 128).

Definition ref_from_prefix (b : bytes) : option (t * bytes) :=
  if len b <? SIZE then None else Some (of_layout b, drop 128 b).

(** [FromBytes::ref_from_bytes]: the length has to be exactly [SIZE]. *)
Definition ref_from_bytes (b : bytes) : option t :=
  if len b =? SIZE then Some (of_layout b) else None.

Definition to_bytes (h : t) : bytes :=
  f_magic h ++ [f_version h] ++ [f_flags h] ++ f_opcode h ++ f_request_id h
  ++ f_payload_size h ++ f_room_id h ++ f_sender_id h ++ f_context_id h
  ++ f_hlc_timestamp h ++ f_epoch h ++ f_signature h.

(** ** Accessors *)

Definition magic (h : t) : N := from_be_bytes (f_magic h).
Definition version (h : t) : byte := f_version h.
Definition flags (h : t) : FrameFlags.t := FrameFlags.from_byte (f_flags h).
Definition opcode (h : t) : N := from_be_bytes (f_opcode h).
Definition opcode_enum (h : t) : option Opcode.t := Opcode.from_u16 (opcode h).
Definition request_id (h : t) : N := from_be_bytes (f_request_id h).
Definition room_id (h : t) : N := from_be_bytes (f_room_id h).
Definition room_id_bytes (h : t) : bytes := f_room_id h.
Definition sender_id (h : t) : N := from_be_bytes (f_sender_id h).
Definition log_index (h : t) : N := from_be_bytes (f_context_id h).
Definition recipient_id (h : t) : N := from_be_bytes (f_context_id h).
Definition hlc_timestamp (h : t) : N := from_be_bytes (f_hlc_timestamp h).
Definition epoch (h : t) : N := from_be_bytes (f_epoch h).
Definition payload_size (h : t) : N := from_be_bytes (f_payload_size h).
Definition signature (h : t) : bytes := f_signature h.

Definition from_bytes (b : bytes) : res ProtocolError.t t :=
  match ref_from_prefix b with
  | None => Err (ProtocolError.FrameTooShort SIZE (len b))
  | Some (header, _) =>
      if negb (from_be_bytes (f_magic header) =? MAGIC) then
        Err ProtocolError.InvalidMagic
      else if negb (bool_decide (f_version header = VERSION)) then
        Err (ProtocolError.UnsupportedVersion (f_version header))
      else
        let payload_size := from_be_bytes (f_payload_size header) in
        if MAX_PAYLOAD_SIZE <? payload_size then
          Err (ProtocolError.PayloadTooLarge payload_size MAX_PAYLOAD_SIZE)
        else Ok header
  end.

(** The 128 bytes [FrameHeader::new] builds: zeros, with the magic number, the
    version and the opcode copied in place. *)
Definition new_bytes (op : Opcode.t) : bytes :=
  to_be_bytes 4 MAGIC ++ [VERSION] ++ zeros 1
  ++ to_be_bytes 2 (Opcode.to_u16 op) ++ zeros 120.

(** The [unreachable!] arm of [new] is the default here; [new_reachable]
    shows it is never taken. *)
Definition new (op : Opcode.t) : t :=
  match from_bytes (new_bytes op) with
  | Ok h => h
  | _ => of_layout []
  end.

(** [signing_data]: bytes 0-39 and 48-63 of the header. *)
Definition signing_data (h : t) : bytes :=
  let b := to_bytes h in take 40 b ++ slice b 48 64.

(** ** Setters *)

Definition set_room_id (room_id : N) (h : t) : t :=
  mk (f_magic h) (f_version h) (f_flags h) (f_opcode h) (f_request_id h)
    (f_payload_size h) (to_be_bytes 16 room_id) (f_sender_id h)
    (f_context_id h) (f_hlc_timestamp h) (f_epoch h) (f_signature h).

Definition set_log_index (log_index : N) (h : t) : t :=
  mk (f_magic h) (f_version h) (f_flags h) (f_opcode h) (f_request_id h)
    (f_payload_size h) (f_room_id h) (f_sender_id h)
    (to_be_bytes 8 log_index) (f_hlc_timestamp h) (f_epoch h) (f_signature h).

Definition set_recipient_id (recipient_id : N) (h : t) : t :=
  mk (f_magic h) (f_version h) (f_flags h) (f_opcode h) (f_request_id h)
    (f_payload_size h) (f_room_id h) (f_sender_id h)
    (to_be_bytes 8 recipient_id) (f_hlc_timestamp h) (f_epoch h)
    (f_signature h).

Definition set_sender_id (sender_id : N) (h : t) : t :=
  mk (f_magic h) (f_version h) (f_flags h) (f_opcode h) (f_request_id h)
    (f_payload_size h) (f_room_id h) (to_be_bytes 8 sender_id)
    (f_context_id h) (f_hlc_timestamp h) (f_epoch h) (f_signature h).

Definition set_epoch (epoch : N) (h : t) : t :=
  mk (f_magic h) (f_version h) (f_flags h) (f_opcode h) (f_request_id h)
    (f_payload_size h) (f_room_id h) (f_sender_id h) (f_context_id h)
    (f_hlc_timestamp h) (to_be_bytes 8 epoch) (f_signature h).

Definition set_signature (signature : bytes) (h : t) : t :=
  mk (f_magic h) (f_version h) (f_flags h) (f_opcode h) (f_request_id h)
    (f_payload_size h) (f_room_id h) (f_sender_id h) (f_context_id h)
    (f_hlc_timestamp h) (f_epoch h) signature.

Definition set_request_id (request_id : N) (h : t) : t :=
  mk (f_magic h) (f_version h) (f_flags h) (f_opcode h)
    (to_be_bytes 4 request_id) (f_payload_size h) (f_room_id h)
    (f_sender_id h) (f_context_id h) (f_hlc_timestamp h) (f_epoch h)
    (f_signature h).

Definition set_flags (flags : FrameFlags.t) (h : t) : t :=
  mk (f_magic h) (f_version h) (FrameFlags.to_byte flags) (f_opcode h)
    (f_request_id h) (f_payload_size h) (f_room_id h) (f_sender_id h)
    (f_context_id h) (f_hlc_timestamp h) (f_epoch h) (f_signature h).

Definition set_hlc_timestamp (timestamp : N) (h : t) : t :=
  mk (f_magic h) (f_version h) (f_flags h) (f_opcode h) (f_request_id h)
    (f_payload_size h) (f_room_id h) (f_sender_id h) (f_context_id h)
    (to_be_bytes 8 timestamp) (f_epoch h) (f_signature h).

Definition set_payload_size (size : N) (h : t) : t :=
  mk (f_magic h) (f_version h) (f_flags h) (f_opcode h) (f_request_id h)
    (to_be_bytes 4 size) (f_room_id h) (f_sender_id h) (f_context_id h)
    (f_hlc_timestamp h) (f_epoch h) (f_signature h).

(** [PartialEq for FrameHeader]: equality of the serialised bytes. *)
Definition eq (h h' : t) : bool := bool_decide (to_bytes h = to_bytes h').

(** What [from_bytes] checks of a header. *)
Definition valid (h : t) : Prop :=
  magic h = MAGIC /\ version h = VERSION /\ payload_size h <= MAX_PAYLOAD_SIZE.

#[global] Instance valid_dec h : Decision (valid h) := _.

#[global] Instance wf_dec h : Decision (wf h) := _.

(** ** Lemmas: the layout *)

Lemma length_to_bytes h : wf h -> length (to_bytes h) = 128%nat.
Proof.
  intros (?&?&?&?&?&?&?&?&?&?). unfold to_bytes. rewrite !length_app. simpl. lia.
Qed.

Lemma of_layout_wf b : (128 <= length b)%nat -> wf (of_layout b).
Proof.
  intros H. unfold wf, of_layout. simpl.
  repeat split; by rewrite length_slice by lia.
Qed.

(** Replaces a list of known length by its elements. *)
Ltac explode :=
  repeat match goal with
  | H : length ?l = S _ |- _ =>
      is_var l; destruct l; [discriminate H | simpl in H; injection H as H]
  | H : length ?l = 0%nat |- _ =>
      is_var l; destruct l; [clear H | discriminate H]
  end.

Lemma of_layout_to_bytes h rest : wf h -> of_layout (to_bytes h ++ rest) = h.
Proof.
  intros (H1&H2&H3&H4&H5&H6&H7&H8&H9&H10). destruct h; simpl in *.
  unfold of_layout, to_bytes. simpl f_signature. revert H10. explode. intros H10.
  cbn -[take]. f_equal. cbn -[take Nat.sub]. by apply take_app_n.
Qed.

Lemma to_bytes_of_layout b :
  (128 <= length b)%nat -> to_bytes (of_layout b) = take 128 b.
Proof.
  intros H. unfold to_bytes, of_layout. simpl f_magic. cbn [f_version f_flags
    f_opcode f_request_id f_payload_size f_room_id f_sender_id f_context_id
    f_hlc_timestamp f_epoch f_signature].
  rewrite !slice_nth by lia. rewrite !slice_join by lia. apply slice_0.
Qed.

Lemma to_bytes_inj h h' : wf h -> wf h' -> to_bytes h = to_bytes h' -> h = h'.
Proof.
  intros Hw Hw' E. rewrite <- (of_layout_to_bytes h []), <- (of_layout_to_bytes h' []) by done.
  by rewrite E.
Qed.

Lemma ref_from_prefix_to_bytes h rest :
  wf h -> ref_from_prefix (to_bytes h ++ rest) = Some (h, rest).
Proof.
  intros Hw. unfold ref_from_prefix. pose proof (length_to_bytes h Hw) as Hl.
  destruct (N.ltb_spec (len (to_bytes h ++ rest)) SIZE) as [Hlt|_].
  - unfold len, SIZE in Hlt. rewrite length_app in Hlt. lia.
  - by rewrite of_layout_to_bytes, drop_app_n.
Qed.

(** ** Lemmas: parsing *)

(** Every answer of [from_bytes], in the order of its checks. *)
Inductive from_bytes_spec (b : bytes) : res ProtocolError.t t -> Prop :=
  | FbShort : len b < SIZE ->
      from_bytes_spec b (Err (ProtocolError.FrameTooShort SIZE (len b)))
  | FbMagic h : SIZE <= len b -> h = of_layout b -> magic h <> MAGIC ->
      from_bytes_spec b (Err ProtocolError.InvalidMagic)
  | FbVersion h : SIZE <= len b -> h = of_layout b -> magic h = MAGIC ->
      version h <> VERSION ->
      from_bytes_spec b (Err (ProtocolError.UnsupportedVersion (version h)))
  | FbTooLarge h : SIZE <= len b -> h = of_layout b -> magic h = MAGIC ->
      version h = VERSION -> MAX_PAYLOAD_SIZE < payload_size h ->
      from_bytes_spec b
        (Err (ProtocolError.PayloadTooLarge (payload_size h) MAX_PAYLOAD_SIZE))
  | FbOk h : SIZE <= len b -> h = of_layout b -> valid h ->
      from_bytes_spec b (Ok h).

Lemma from_bytes_cases b : from_bytes_spec b (from_bytes b).
Proof.
  unfold from_bytes, ref_from_prefix.
  destruct (N.ltb_spec (len b) SIZE) as [Hs|Hs]; [by constructor|].
  destruct (N.eqb_spec (from_be_bytes (f_magic (of_layout b))) MAGIC) as [Hm|Hm];
    simpl negb; cbv iota; [|by eapply FbMagic].
  case_bool_decide as Hv; simpl negb; cbv iota; [|by eapply FbVersion].
  destruct (N.ltb_spec MAX_PAYLOAD_SIZE (from_be_bytes (f_payload_size (of_layout b)))).
  - by eapply (FbTooLarge b (of_layout b)).
  - by apply FbOk.
Qed.

Lemma from_bytes_Ok b h :
  from_bytes b = Ok h <-> wf h /\ valid h /\ exists rest, b = to_bytes h ++ rest.
Proof.
  split.
  - intros E. destruct (from_bytes_cases b) as [| | | |h' Hs -> Hv]; simplify_eq.
    unfold len, SIZE in Hs. split; [apply of_layout_wf; lia|]. split; [done|].
    exists (drop 128 b). rewrite to_bytes_of_layout by lia. by rewrite take_drop.
  - intros (Hw & Hv & rest & ->). pose proof (length_to_bytes h Hw).
    destruct (from_bytes_cases (to_bytes h ++ rest)) as [Hs|h' ? E|h' ? E|h' ? E|h' ? E];
      try rewrite of_layout_to_bytes in E by done; subst;
      destruct Hv as (?&?&?); try done; try lia.
    unfold len, SIZE in Hs. rewrite length_app in Hs. lia.
Qed.

(** ** Lemmas: construction, accessors and setters *)

Lemma new_reachable op : from_bytes (new_bytes op) = Ok (new op).
Proof. unfold new. destruct op; vm_compute; reflexivity. Qed.

Lemma new_wf op : wf (new op).
Proof. destruct op; vm_compute; repeat split. Qed.

Lemma new_valid op : valid (new op).
Proof. destruct op; vm_compute; repeat split; discriminate. Qed.

Lemma opcode_new op : opcode (new op) = Opcode.to_u16 op.
Proof. destruct op; reflexivity. Qed.

Lemma opcode_enum_new op : opcode_enum (new op) = Some op.
Proof. unfold opcode_enum. rewrite opcode_new. apply Opcode.from_u16_to_u16. Qed.

Ltac setter_wf :=
  intros (?&?&?&?&?&?&?&?&?&?); unfold wf; simpl;
  repeat split; auto using length_to_be_bytes.

Lemma set_room_id_wf n h : wf h -> wf (set_room_id n h).
Proof. setter_wf. Qed.
Lemma set_log_index_wf n h : wf h -> wf (set_log_index n h).
Proof. setter_wf. Qed.
Lemma set_recipient_id_wf n h : wf h -> wf (set_recipient_id n h).
Proof. setter_wf. Qed.
Lemma set_sender_id_wf n h : wf h -> wf (set_sender_id n h).
Proof. setter_wf. Qed.
Lemma set_epoch_wf n h : wf h -> wf (set_epoch n h).
Proof. setter_wf. Qed.
Lemma set_request_id_wf n h : wf h -> wf (set_request_id n h).
Proof. setter_wf. Qed.
Lemma set_flags_wf f h : wf h -> wf (set_flags f h).
Proof. setter_wf. Qed.
Lemma set_hlc_timestamp_wf n h : wf h -> wf (set_hlc_timestamp n h).
Proof. setter_wf. Qed.
Lemma set_payload_size_wf n h : wf h -> wf (set_payload_size n h).
Proof. setter_wf. Qed.
Lemma set_signature_wf sig h : length sig = 64%nat -> wf h -> wf (set_signature sig h).
Proof. intros ?. setter_wf. Qed.

Lemma room_id_set n h : n < 2 ^ 128 -> room_id (set_room_id n h) = n.
Proof. apply (from_to_be_bytes 16). Qed.
Lemma log_index_set n h : n < 2 ^ 64 -> log_index (set_log_index n h) = n.
Proof. apply (from_to_be_bytes 8). Qed.
Lemma recipient_id_set n h : n < 2 ^ 64 -> recipient_id (set_recipient_id n h) = n.
Proof. apply (from_to_be_bytes 8). Qed.
Lemma sender_id_set n h : n < 2 ^ 64 -> sender_id (set_sender_id n h) = n.
Proof. apply (from_to_be_bytes 8). Qed.
Lemma epoch_set n h : n < 2 ^ 64 -> epoch (set_epoch n h) = n.
Proof. apply (from_to_be_bytes 8). Qed.
Lemma request_id_set n h : n < 2 ^ 32 -> request_id (set_request_id n h) = n.
Proof. apply (from_to_be_bytes 4). Qed.
Lemma hlc_timestamp_set n h : n < 2 ^ 64 -> hlc_timestamp (set_hlc_timestamp n h) = n.
Proof. apply (from_to_be_bytes 8). Qed.
Lemma payload_size_set n h : n < 2 ^ 32 -> payload_size (set_payload_size n h) = n.
Proof. apply (from_to_be_bytes 4). Qed.

Lemma log_index_lt h : wf h -> log_index h < 2 ^ 64.
Proof. intros (?&?&?&?&?&?&?&?&?&?). by apply (from_be_bytes_lt_n _ 8). Qed.
Lemma epoch_lt h : wf h -> epoch h < 2 ^ 64.
Proof. intros (?&?&?&?&?&?&?&?&?&?). by apply (from_be_bytes_lt_n _ 8). Qed.
Lemma sender_id_lt h : wf h -> sender_id h < 2 ^ 64.
Proof. intros (?&?&?&?&?&?&?&?&?&?). by apply (from_be_bytes_lt_n _ 8). Qed.
Lemma room_id_lt h : wf h -> room_id h < 2 ^ 128.
Proof. intros (?&?&?&?&?&?&?&?&?&?). by apply (from_be_bytes_lt_n _ 16). Qed.
Lemma payload_size_lt h : wf h -> payload_size h < 2 ^ 32.
Proof. intros (?&?&?&?&?&?&?&?&?&?). by apply (from_be_bytes_lt_n _ 4). Qed.
Lemma opcode_lt h : wf h -> opcode h < 2 ^ 16.
Proof. intros (?&?&?&?&?&?&?&?&?&?). by apply (from_be_bytes_lt_n _ 2). Qed.

Lemma opcode_enum_Some h op :
  opcode_enum h = Some op <-> opcode h = Opcode.to_u16 op.
Proof.
  unfold opcode_enum. split.
  - intros H. symmetry. by apply Opcode.to_u16_from_u16.
  - intros ->. apply Opcode.from_u16_to_u16.
Qed.

#[global] Hint Resolve new_wf new_valid set_room_id_wf set_log_index_wf
  set_recipient_id_wf set_sender_id_wf set_epoch_wf set_request_id_wf
  set_flags_wf set_hlc_timestamp_wf set_payload_size_wf log_index_lt epoch_lt
  sender_id_lt room_id_lt payload_size_lt opcode_lt : lockframe.
Create Rewrite HintDb header.
#[global] Hint Rewrite room_id_set log_index_set recipient_id_set sender_id_set
  epoch_set request_id_set hlc_timestamp_set payload_size_set opcode_new
  opcode_enum_new using (assumption || lia) : header.

Lemma signing_data_split h :
  wf h -> signing_data h
  = (f_magic h ++ [f_version h] ++ [f_flags h] ++ f_opcode h ++ f_request_id h
     ++ f_payload_size h ++ f_room_id h ++ f_sender_id h)
    ++ f_hlc_timestamp h ++ f_epoch h.
Proof.
  intros (H1&H2&H3&H4&H5&H6&H7&H8&H9&H10). destruct h; simpl in *.
  unfold signing_data, to_bytes. simpl f_signature. revert H10. explode.
  intros H10. reflexivity.
Qed.

(** The signature is no part of what is signed. *)
Lemma signing_data_set_signature sb h :
  length sb = 64%nat -> wf h -> signing_data (set_signature sb h) = signing_data h.
Proof.
  intros Hl Hw. rewrite (signing_data_split h Hw).
  by rewrite signing_data_split by (by apply set_signature_wf).
Qed.

Lemma signing_data_inj h h' : wf h -> wf h' -> signing_data h = signing_data h' ->
  set_signature (zeros 64) (set_log_index 0 h) = set_signature (zeros 64) (set_log_index 0 h').
Proof.
  intros Hw Hw'. rewrite !signing_data_split by done.
  destruct Hw as (H1&H2&H3&H4&H5&H6&H7&H8&H9&H10).
  destruct Hw' as (K1&K2&K3&K4&K5&K6&K7&K8&K9&K10).
  destruct h, h'; unfold set_signature, set_log_index; simpl in *.
  intros E. repeat (apply app_inj_1 in E as [? E]; [|simpl; rewrite ?length_app; simpl; congruence]).
  subst. revert H10 K10. explode. intros. simplify_eq/=. done.
Qed.

(** ** Properties *)

(** C37: the signing data binds every field of the header but the log index
    ([context_id], which the sequencer sets) and the signature itself, and
    nothing else: two headers have the same signing data exactly when they agree
    once these two fields are overwritten.  So, against what the documentation
    asks for, a signature covers neither the log index nor the payload, of which
    the header has the size only. *)
Theorem signing_data_binds h h' :
  wf h -> wf h' ->
  (signing_data h = signing_data h' <->
   set_signature (zeros 64) (set_log_index 0 h)
   = set_signature (zeros 64) (set_log_index 0 h')).
Proof.
  intros Hw Hw'. split; [by apply signing_data_inj|]. rewrite !signing_data_split by done.
  destruct h, h'; unfold set_signature, set_log_index; simpl. intros E. by inversion E; subst.
Qed.

(** ** Witnesses *)

Lemma signing_data_binds_witness :
  signing_data (set_epoch 3 (new Opcode.AppMessage)) <> signing_data (new Opcode.AppMessage) /\
  signing_data (set_log_index 9 (new Opcode.AppMessage)) = signing_data (new Opcode.AppMessage).
Proof.
  assert (Hw : forall h, bool_decide (wf h) = true -> wf h) by (intros h Hh; by eapply bool_decide_eq_true).
  split.
  - intros E. apply (signing_data_binds (set_epoch 3 (new Opcode.AppMessage)) (new Opcode.AppMessage)) in E.
    + vm_compute in E. discriminate E.
    + apply Hw. vm_compute. reflexivity.
    + apply Hw. vm_compute. reflexivity.
  - apply (signing_data_binds (set_log_index 9 (new Opcode.AppMessage)) (new Opcode.AppMessage)).
    + apply Hw. vm_compute. reflexivity.
    + apply Hw. vm_compute. reflexivity.
    + vm_compute. reflexivity.
Defined.

End FrameHeader.
