(* ===== verification/Framing.v ===== *)
(** * Frames and the framing of a byte stream

    [Frame] of [lockframe-proto/src/frame.rs]: a header and the raw payload,
    with its encoder and decoder; and the two loops that cut a QUIC stream into
    frames, [handle_stream] of [lockframe-server/src/lib.rs] and
    [read_frames_loop] of [lockframe-client/src/transport.rs]. *)

From S2P Require Import Prelude Opcodes Header.

Local Open Scope N_scope.

Module Frame.

Record t := mk { header : FrameHeader.t; payload : bytes }.

#[global] Instance frame_eq_dec : EqDecision t.
Proof. solve_decision. Defined.

(** [u32::try_from(len).expect(..)] panics on a payload of 4 GiB or more. *)
Definition new {E} (header : FrameHeader.t) (payload : bytes) : res E t :=
  if u32_MAX <? len payload then Panic
  else Ok (mk (FrameHeader.set_payload_size (len payload) header) payload).

(** [encode f dst] is the content of [dst] after [f.encode(&mut dst)]. *)
Definition encode (f : t) (dst : bytes) : res ProtocolError.t bytes :=
  if FrameHeader.MAX_PAYLOAD_SIZE <? len (payload f) then
    Err (ProtocolError.PayloadTooLarge (len (payload f))
           FrameHeader.MAX_PAYLOAD_SIZE)
  else Ok (dst ++ FrameHeader.to_bytes (header f) ++ payload f).

(** [bytes.get(a..b)]. *)
Definition get_range (b : bytes) (lo hi : N) : option bytes :=
  if (lo <=? hi) && (hi <=? len b)
  then Some (slice b (N.to_nat lo) (N.to_nat hi)) else None.

Definition decode (b : bytes) : res ProtocolError.t t :=
  header ← FrameHeader.from_bytes b;
  let payload_size := FrameHeader.payload_size header in
  total_size ← ok_or (checked_add usize_MAX FrameHeader.SIZE payload_size)
    (ProtocolError.PayloadTooLarge payload_size FrameHeader.MAX_PAYLOAD_SIZE);
  if len b <? total_size then
    Err (ProtocolError.FrameTruncated payload_size
           (saturating_sub (len b) FrameHeader.SIZE))
  else
    payload ← expect (get_range b FrameHeader.SIZE total_size);
    mret (mk header payload).

(** The documented invariants of a frame: the array lengths of the header, a
    header that parses, and a payload of the size the header claims. *)
Definition wf (f : t) : Prop :=
  FrameHeader.wf (header f) /\ FrameHeader.valid (header f) /\
  FrameHeader.payload_size (header f) = len (payload f).

#[global] Instance frame_wf_dec f : Decision (wf f) := _.

(** The wire format of a frame. *)
Definition wire (f : t) : bytes := FrameHeader.to_bytes (header f) ++ payload f.

(** ** Lemmas *)

Lemma encode_wf f dst : wf f -> encode f dst = Ok (dst ++ wire f).
Proof.
  intros (_ & (_&_&Hs) & He). unfold encode. rewrite He in Hs.
  by rewrite (proj2 (N.ltb_ge _ _) Hs).
Qed.

Lemma wf_payload_len f : wf f -> len (payload f) <= FrameHeader.MAX_PAYLOAD_SIZE.
Proof. intros (_ & (_&_&?) & <-). done. Qed.

Lemma len_wire f : wf f -> len (wire f) = FrameHeader.SIZE + len (payload f).
Proof.
  intros (Hw&_). unfold wire. rewrite len_app. unfold len at 1.
  by rewrite FrameHeader.length_to_bytes.
Qed.

(** The decoder on an input whose header parses. *)
Lemma decode_header b h :
  FrameHeader.from_bytes b = Ok h ->
  decode b = if len b <? FrameHeader.SIZE + FrameHeader.payload_size h
             then Err (ProtocolError.FrameTruncated (FrameHeader.payload_size h)
                         (len b - FrameHeader.SIZE))
             else Ok (mk h (take (N.to_nat (FrameHeader.payload_size h)) (drop 128 b))).
Proof.
  intros Hh. unfold decode. rewrite Hh. cbn -[N.add N.ltb].
  apply FrameHeader.from_bytes_Ok in Hh as (_ & (_&_&Hs) & _).
  replace (checked_add _ _ _) with (Some (FrameHeader.SIZE + FrameHeader.payload_size h)).
  2:{ symmetry. apply checked_add_Some. split; [done|]. revert Hs.
      unfold FrameHeader.MAX_PAYLOAD_SIZE, usize_MAX, u64_MAX, FrameHeader.SIZE. lia. }
  cbn -[N.add N.ltb]. destruct (N.ltb_spec (len b) (FrameHeader.SIZE + FrameHeader.payload_size h)) as [|Hl];
    [done|].
  unfold get_range. rewrite (proj2 (N.leb_le _ _)) by lia.
  rewrite (proj2 (N.leb_le _ _)) by done. cbn -[N.add N.ltb take drop]. unfold slice.
  do 2 f_equal. f_equal. unfold FrameHeader.SIZE. lia.
Qed.

Lemma decode_Ok b f :
  decode b = Ok f <-> wf f /\ exists rest, b = wire f ++ rest.
Proof.
  split.
  - destruct (FrameHeader.from_bytes b) as [h|e|] eqn:Hh;
      [|unfold decode; rewrite Hh; done..].
    rewrite (decode_header _ _ Hh). case_match eqn:Hl; [done|]. intros [= <-].
    apply N.ltb_ge in Hl. apply FrameHeader.from_bytes_Ok in Hh as (Hw & Hv & rest & ->).
    pose proof (FrameHeader.length_to_bytes h Hw) as Hlen.
    rewrite drop_app_n by done. unfold wf, wire. simpl.
    rewrite len_app in Hl. unfold len in Hl at 1. rewrite Hlen in Hl.
    unfold FrameHeader.SIZE in Hl. split.
    + split; [done|]. split; [done|]. unfold len in *. rewrite length_take. lia.
    + eexists. rewrite <- (assoc_L (++)). f_equal. symmetry. apply take_drop.
  - intros ((Hw & Hv & Hp) & rest & ->). destruct f as [h p]. simpl in *.
    unfold wire. simpl. rewrite (decode_header _ h).
    2:{ apply FrameHeader.from_bytes_Ok. rewrite <- (assoc_L (++)). eauto. }
    pose proof (FrameHeader.length_to_bytes h Hw) as Hlen.
    rewrite Hp. rewrite (proj2 (N.ltb_ge _ _)).
    2:{ rewrite !len_app. unfold len at 2. rewrite Hlen. unfold FrameHeader.SIZE. lia. }
    rewrite <- (assoc_L (++)), drop_app_n by done. do 2 f_equal.
    apply take_app_n. unfold len. lia.
Qed.

Lemma decode_no_panic b : decode b <> Panic.
Proof.
  destruct (FrameHeader.from_bytes b) as [h|e|] eqn:Hh.
  - rewrite (decode_header _ _ Hh). by case_match.
  - unfold decode. by rewrite Hh.
  - by destruct (FrameHeader.from_bytes_cases b).
Qed.

Lemma decode_wire f rest : wf f -> decode (wire f ++ rest) = Ok f.
Proof. intros Hw. apply decode_Ok. eauto. Qed.

Lemma new_Ok {E} h p :
  len p < 2 ^ 32 ->
  new (E := E) h p = Ok (mk (FrameHeader.set_payload_size (len p) h) p).
Proof.
  intros Hl. unfold new, u32_MAX. rewrite (proj2 (N.ltb_ge _ _)) by lia. done.
Qed.

Lemma new_frame_wf {E} h p :
  FrameHeader.wf h -> FrameHeader.magic h = FrameHeader.MAGIC ->
  FrameHeader.version h = FrameHeader.VERSION ->
  len p <= FrameHeader.MAX_PAYLOAD_SIZE ->
  exists f, new (E := E) h p = Ok f /\ wf f /\ payload f = p.
Proof.
  intros Hw Hm Hv Hl. unfold FrameHeader.MAX_PAYLOAD_SIZE in Hl.
  rewrite new_Ok by lia. eexists. split; [done|]. unfold wf, FrameHeader.valid. simpl.
  rewrite FrameHeader.payload_size_set by lia.
  split_and!; try done. auto with lockframe.
Qed.

(** ** Properties *)

(** C7: the frame decoder accepts exactly the inputs that start with the
    encoding of a well-formed frame, and answers that frame; whatever follows
    the frame is ignored. *)
Theorem decode_encode_exact b f :
  decode b = Ok f <->
  wf f /\ exists bs rest, encode f [] = Ok bs /\ b = bs ++ rest.
Proof.
  rewrite decode_Ok. split.
  - intros (Hw & rest & ->). split; [done|]. rewrite encode_wf by done. eauto.
  - intros (Hw & bs & rest & He & ->). rewrite encode_wf in He by done.
    simplify_eq/=. eauto.
Qed.

(** An encoding cut short is never taken for a frame: a cut within the
    header is [FrameTooShort] with the number of bytes there are, a cut within
    the payload is [FrameTruncated] with the claimed and the available size. *)
Theorem decode_cut f bs n :
  wf f -> encode f [] = Ok bs -> (n < length bs)%nat ->
  decode (take n bs)
  = Err (if (n <? 128)%nat
         then ProtocolError.FrameTooShort 128 (N.of_nat n)
         else ProtocolError.FrameTruncated (len (payload f)) (N.of_nat n - 128)).
Proof.
  intros Hw He Hn. rewrite encode_wf in He by done. injection He as <-.
  change ([] ++ wire f) with (wire f) in *.
  assert (Hlt : len (take n (wire f)) = N.of_nat n).
  { unfold len. rewrite length_take. lia. }
  destruct Hw as (Hh & Hv & Hp). pose proof (FrameHeader.length_to_bytes _ Hh) as Hl.
  destruct (Nat.ltb_spec n 128) as [Hs|Hs].
  - unfold decode, FrameHeader.from_bytes, FrameHeader.ref_from_prefix.
    rewrite Hlt. unfold FrameHeader.SIZE. by rewrite (proj2 (N.ltb_lt _ _)) by lia.
  - unfold wire in *. rewrite length_app in Hn.
    rewrite (decode_header _ (header f)).
    + rewrite Hlt, Hp. unfold FrameHeader.SIZE. rewrite (proj2 (N.ltb_lt _ _)); [done|].
      unfold len. lia.
    + apply FrameHeader.from_bytes_Ok. split; [done|]. split; [done|].
      rewrite take_app_ge by lia. eauto.
Qed.

(** A frame of three payload bytes, the concrete input of the witnesses. *)
Definition sample : t :=
  mk (FrameHeader.set_payload_size 3 (FrameHeader.new Opcode.AppMessage))
     [Init.Byte.x01; Init.Byte.x02; Init.Byte.x03].

Lemma decode_cut_witness :
  decode (take 130 (wire sample)) = Err (ProtocolError.FrameTruncated 3 2).
Proof.
  apply (decode_cut sample (wire sample) 130).
  - vm_compute. repeat split; discriminate.
  - reflexivity.
  - vm_compute. lia.
Defined.

End Frame.

Module Stream.

(** A QUIC receive stream, seen by its reader: the bytes still to come and
    whether the peer finished the stream or the connection was lost. *)
Inductive ending := Finished | Lost.

Record recv_stream := mk_recv { rs_data : bytes; rs_end : ending }.

Inductive ReadExactError :=
  | FinishedEarly (read : N)
  | ReadError.

(** [RecvStream::read_exact] into a buffer of [n] bytes. *)
Definition read_exact (n : N) (r : recv_stream)
    : recv_stream * res ReadExactError bytes :=
  if len (rs_data r) <? n then
    (mk_recv [] (rs_end r),
     match rs_end r with
     | Finished => Err (FinishedEarly (len (rs_data r)))
     | Lost => Err ReadError
     end)
  else (mk_recv (drop (N.to_nat n) (rs_data r)) (rs_end r),
        Ok (take (N.to_nat n) (rs_data r))).

(** One turn of either loop, up to the decoded frame. *)
Inductive read_frame_error :=
  | HeaderRead (e : ReadExactError)
  | InvalidHeader
  | PayloadRead (e : ReadExactError)
  | Decode (e : ProtocolError.t).

(** The result carries the size of the buffer when the turn ends: [buf] is
    resized to the header, and to the header and the claimed payload size
    before the payload is read. *)
Definition read_frame (r : recv_stream)
    : recv_stream * N * res read_frame_error Frame.t :=
  match read_exact FrameHeader.SIZE r with
  | (r1, Ok hbuf) =>
      match FrameHeader.ref_from_bytes hbuf with
      | None => (r1, 128, Err InvalidHeader)
      | Some header =>
          let payload_size := FrameHeader.payload_size header in
          if 0 <? payload_size then
            match read_exact payload_size r1 with
            | (r2, Ok pbuf) =>
                (r2, 128 + payload_size, map_err Decode (Frame.decode (hbuf ++ pbuf)))
            | (r2, Err e) => (r2, 128 + payload_size, Err (PayloadRead e))
            | (r2, Panic) => (r2, 128 + payload_size, Panic)
            end
          else (r1, 128, map_err Decode (Frame.decode hbuf))
      end
  | (r1, Err e) => (r1, 128, Err (HeaderRead e))
  | (r1, Panic) => (r1, 128, Panic)
  end.

(** [TransportError]s of the client's loop, by their variant. *)
Inductive TransportError :=
  | StreamErr
  | ProtocolErr.

(** [read_frames_loop]: the frames sent to the channel, in order, and how the
    loop ends.  [tx_open k] tells whether the channel still has a receiver at
    the [k]-th send.  [None] is running out of fuel. *)
Fixpoint read_frames_loop (fuel : nat) (tx_open : nat -> bool) (k : nat)
    (r : recv_stream) (sent : list Frame.t)
    : option (list Frame.t * res TransportError unit) :=
  match fuel with
  | O => None
  | S fuel' =>
      match read_frame r with
      | (_, _, Err (HeaderRead (FinishedEarly 0))) => Some (sent, Ok tt)
      | (_, _, Err (HeaderRead _)) => Some (sent, Err StreamErr)
      | (_, _, Err InvalidHeader) => Some (sent, Err ProtocolErr)
      | (_, _, Err (PayloadRead _)) => Some (sent, Err StreamErr)
      | (_, _, Err (Decode _)) => Some (sent, Err ProtocolErr)
      | (_, _, Panic) => Some (sent, Panic)
      | (r', _, Ok frame) =>
          if tx_open k
          then read_frames_loop fuel' tx_open (S k) r' (sent ++ [frame])
          else Some (sent, Err StreamErr)
      end
  end.

(** [handle_stream]: every frame goes to the driver; an error of the driver is
    logged and the loop goes on; an error while the actions are executed ends
    the loop.  [process_event] and [execute_actions] are the driver call and
    the executor. *)
Section handle_stream.
Context {St Act E X : Type}.
Context (process_event : St -> Frame.t -> St * res E (list Act)).
Context (execute_actions : list Act -> res X unit).

Fixpoint handle_stream (fuel : nat) (st : St) (r : recv_stream)
    : option (St * res X unit) :=
  match fuel with
  | O => None
  | S fuel' =>
      match read_frame r with
      | (r', _, Ok frame) =>
          match process_event st frame with
          | (st', Ok actions) =>
              match execute_actions actions with
              | Ok _ => handle_stream fuel' st' r'
              | Err x => Some (st', Err x)
              | Panic => Some (st', Panic)
              end
          | (st', Err _) => handle_stream fuel' st' r'
          | (st', Panic) => Some (st', Panic)
          end
      | (_, _, Err _) => Some (st, Ok tt)
      | (_, _, Panic) => Some (st, Panic)
      end
  end.
End handle_stream.

(** The bytes of a list of frames, one after another, as [write_frame] puts
    them on the stream. *)
Fixpoint write_frames (fs : list Frame.t) (dst : bytes) : res ProtocolError.t bytes :=
  match fs with
  | [] => Ok dst
  | f :: fs' => dst' ← Frame.encode f dst; write_frames fs' dst'
  end.

(** ** Lemmas *)

Lemma wires_app fs gs :
  concat (map Frame.wire (fs ++ gs)) = concat (map Frame.wire fs) ++ concat (map Frame.wire gs).
Proof. by rewrite map_app, concat_app. Qed.

Lemma write_frames_wf fs dst :
  Forall Frame.wf fs -> write_frames fs dst = Ok (dst ++ concat (map Frame.wire fs)).
Proof.
  intros H. revert dst. induction H as [|f fs Hf Hfs IH]; intros dst; simpl.
  - by rewrite app_nil_r.
  - rewrite Frame.encode_wf by done. cbn. rewrite IH. by rewrite <- (assoc_L (++)).
Qed.

Lemma read_exact_app n l k e :
  len l = n -> read_exact n (mk_recv (l ++ k) e) = (mk_recv k e, Ok l).
Proof.
  intros Hn. unfold read_exact. simpl. rewrite (proj2 (N.ltb_ge _ _)).
  - unfold len in Hn. by rewrite take_app_n, drop_app_n by lia.
  - rewrite len_app. lia.
Qed.

Lemma read_exact_Ok n r r' b :
  read_exact n r = (r', Ok b) ->
  len b = n /\ rs_data r = b ++ rs_data r' /\ rs_end r' = rs_end r.
Proof.
  unfold read_exact. destruct (N.ltb_spec (len (rs_data r)) n) as [|Hl].
  - by destruct (rs_end r).
  - intros [= <- <-]. simpl. rewrite take_drop. unfold len in *.
    rewrite length_take. split_and!; try done. lia.
Qed.

Lemma read_exact_no_panic n r r' : read_exact n r <> (r', Panic).
Proof. unfold read_exact. repeat case_match; naive_solver. Qed.

Lemma read_exact_FinishedEarly_0 n r r' :
  0 < n -> read_exact n r = (r', Err (FinishedEarly 0)) <->
  r' = mk_recv [] Finished /\ r = mk_recv [] Finished.
Proof.
  intros Hn. unfold read_exact. destruct r as [d e]. simpl. split.
  - destruct (N.ltb_spec (len d) n) as [|]; [|by intros].
    destruct e; [|done]. intros [= <- Hd]. by rewrite (proj1 (len_zero d) Hd).
  - intros [-> [= -> ->]]. rewrite (proj2 (N.ltb_lt _ _)); [done|]. done.
Qed.

Lemma ref_from_bytes_wire h : FrameHeader.wf h ->
  FrameHeader.ref_from_bytes (FrameHeader.to_bytes h) = Some h.
Proof.
  intros Hw. unfold FrameHeader.ref_from_bytes, len.
  rewrite FrameHeader.length_to_bytes by done. cbn -[FrameHeader.of_layout].
  rewrite <- (app_nil_r (FrameHeader.to_bytes h)). by rewrite FrameHeader.of_layout_to_bytes.
Qed.

Lemma read_frame_wire f rest e :
  Frame.wf f ->
  exists n, read_frame (mk_recv (Frame.wire f ++ rest) e) = (mk_recv rest e, n, Ok f).
Proof.
  intros Hw. pose proof Hw as (Hh & _ & Hp). unfold read_frame.
  pose proof (FrameHeader.length_to_bytes _ Hh) as Hl.
  unfold Frame.wire at 1. rewrite <- (assoc_L (++)), read_exact_app.
  2:{ unfold len. rewrite Hl. done. }
  rewrite ref_from_bytes_wire by done. rewrite Hp.
  destruct (N.ltb_spec 0 (len (Frame.payload f))) as [|Hz].
  - rewrite read_exact_app by done.
    pose proof (Frame.decode_wire f [] Hw) as E. rewrite app_nil_r in E.
    unfold Frame.wire in E. rewrite E. eauto.
  - assert (Hn : Frame.payload f = []) by (apply len_zero; lia).
    pose proof (Frame.decode_wire f [] Hw) as E. unfold Frame.wire in E.
    rewrite Hn, !app_nil_r in E. rewrite Hn, E. eauto.
Qed.

(** A decoded buffer of exactly a header and the payload it claims. *)
Lemma decode_whole_buffer hb pb f :
  len hb = FrameHeader.SIZE ->
  len pb = FrameHeader.payload_size (FrameHeader.of_layout hb) ->
  Frame.decode (hb ++ pb) = Ok f -> Frame.wf f /\ hb ++ pb = Frame.wire f.
Proof.
  intros Hh Hp (Hw & rest & E)%Frame.decode_Ok. split; [done|].
  pose proof Hw as (Hhw & _ & Hps). unfold Frame.wire in *.
  pose proof (FrameHeader.length_to_bytes _ Hhw) as Hl.
  rewrite <- (assoc_L (++)) in E. apply app_inj_1 in E as [-> ->].
  2:{ rewrite Hl. unfold len, FrameHeader.SIZE in Hh. lia. }
  rewrite <- (app_nil_r (FrameHeader.to_bytes _)) in Hp.
  rewrite FrameHeader.of_layout_to_bytes, Hps, len_app in Hp by done.
  rewrite (proj1 (len_zero rest)) by lia. by rewrite app_nil_r.
Qed.

Lemma read_frame_Ok r r' n f :
  read_frame r = (r', n, Ok f) ->
  Frame.wf f /\ rs_data r = Frame.wire f ++ rs_data r' /\ rs_end r' = rs_end r.
Proof.
  unfold read_frame. destruct (read_exact FrameHeader.SIZE r) as [r1 [hb|e|]] eqn:H1; [|done..].
  apply read_exact_Ok in H1 as (Hl & Hd & He).
  unfold FrameHeader.ref_from_bytes. rewrite (proj2 (N.eqb_eq _ _) Hl).
  destruct (N.ltb_spec 0 (FrameHeader.payload_size (FrameHeader.of_layout hb))) as [_|Hz].
  - destruct (read_exact _ r1) as [r2 [pb|e|]] eqn:H2; [|done..].
    apply read_exact_Ok in H2 as (Hpl & Hpd & Hpe).
    destruct (Frame.decode (hb ++ pb)) eqn:E; simpl; [|done..]. intros [= <- _ <-].
    destruct (decode_whole_buffer hb pb a Hl Hpl E) as [? <-].
    rewrite Hd, Hpd, Hpe, (assoc_L (++)). auto.
  - destruct (Frame.decode hb) eqn:E; simpl; [|done..]. intros [= <- _ <-].
    rewrite <- (app_nil_r hb) in E.
    destruct (decode_whole_buffer hb [] a Hl) as [? Hb]; [simpl; rewrite len_nil; lia|done|].
    rewrite app_nil_r in Hb. rewrite Hd, He, <- Hb. auto.
Qed.

Lemma read_frame_no_panic r r' n : read_frame r <> (r', n, Panic).
Proof.
  unfold read_frame. intros E.
  destruct (read_exact FrameHeader.SIZE r) as [r1 [hb|e|]] eqn:H1; [|done|].
  2:{ by apply read_exact_no_panic in H1. }
  destruct (FrameHeader.ref_from_bytes hb); [|done]. destruct (0 <? _).
  - destruct (read_exact _ r1) as [r2 [pb|e|]] eqn:H2; [|done|].
    2:{ by apply read_exact_no_panic in H2. }
    destruct (Frame.decode (hb ++ pb)) eqn:Hd; try done. by apply Frame.decode_no_panic in Hd.
  - destruct (Frame.decode hb) eqn:Hd; try done. by apply Frame.decode_no_panic in Hd.
Qed.

Lemma read_frame_eof r r' n :
  read_frame r = (r', n, Err (HeaderRead (FinishedEarly 0))) ->
  r = mk_recv [] Finished.
Proof.
  unfold read_frame. destruct (read_exact FrameHeader.SIZE r) as [r1 [hb|e|]] eqn:H1; [|intros [= <- <- ->]|done].
  - intros E. repeat case_match; try done. all: destruct (Frame.decode _); done.
  - by apply read_exact_FinishedEarly_0 in H1 as [_ ?].
Qed.

Lemma length_wire_pos f : Frame.wf f -> (0 < length (Frame.wire f))%nat.
Proof.
  intros Hw. pose proof (Frame.len_wire f Hw) as Hl. unfold len, FrameHeader.SIZE in Hl. lia.
Qed.

(** What the loop has done when it stops, with enough fuel. *)
Lemma read_frames_loop_spec fuel tx_open k r sent :
  (length (rs_data r) < fuel)%nat ->
  exists fs rest e,
    read_frames_loop fuel tx_open k r sent = Some (sent ++ fs, e) /\
    Forall Frame.wf fs /\ rs_data r = concat (map Frame.wire fs) ++ rest /\
    e <> Panic /\ (e = Ok tt -> rest = [] /\ rs_end r = Finished).
Proof.
  revert k r sent. induction fuel as [|fuel IH]; intros k r sent Hf; [lia|].
  cbn [read_frames_loop].
  destruct (read_frame r) as [[r' n] [f|e|]] eqn:Hr;
    [| |by apply read_frame_no_panic in Hr].
  - destruct (tx_open k).
    + apply read_frame_Ok in Hr as (Hw & Hd & He).
      pose proof (length_wire_pos f Hw).
      destruct (IH (S k) r' (sent ++ [f])) as (fs & rest & e & Hl & Hfs & Hrest & Hnp & Hok).
      { rewrite Hd, length_app in Hf. lia. }
      exists (f :: fs), rest, e. rewrite Hl, <- (assoc_L (++)). split_and!; try done.
      * by constructor.
      * rewrite Hd, Hrest. simpl. by rewrite (assoc_L (++)).
      * intros [-> ?]%Hok. by rewrite <- He.
    + exists [], (rs_data r), (Err StreamErr). rewrite app_nil_r. split_and!; done.
  - destruct e as [[[|]|]| | |];
      [|exists [], (rs_data r); rewrite app_nil_r; eexists; split_and!; done..].
    exists [], (rs_data r), (Ok tt). apply read_frame_eof in Hr as ->.
    rewrite app_nil_r. split_and!; done.
Qed.

Lemma read_frames_loop_wires tx_open fs : forall k sent fuel,
  (length fs < fuel)%nat -> (forall i, tx_open i = true) -> Forall Frame.wf fs ->
  read_frames_loop fuel tx_open k (mk_recv (concat (map Frame.wire fs)) Finished) sent
  = Some (sent ++ fs, Ok tt).
Proof.
  induction fs as [|f fs IH]; intros k sent [|fuel] Hf Ht Hw; simpl in Hf; try lia.
  - cbn. by rewrite app_nil_r.
  - inversion Hw as [|? ? Hwf Hwfs]; subst. cbn [read_frames_loop map concat].
    destruct (read_frame_wire f (concat (map Frame.wire fs)) Finished Hwf) as [n ->].
    rewrite Ht, IH by (done || lia). by rewrite <- (assoc_L (++)).
Qed.

(** ** Properties *)

(** C20: framing is lossless: when the peer writes any list of well-formed
    frames and finishes the stream, the client's read loop delivers exactly
    these frames, in order, and ends without an error. *)
Theorem stream_roundtrip fs bs tx_open :
  Forall Frame.wf fs -> (forall k, tx_open k = true) ->
  write_frames fs [] = Ok bs ->
  read_frames_loop (S (length bs)) tx_open 0 (mk_recv bs Finished) [] = Some (fs, Ok tt).
Proof.
  intros Hw Ht Hb. rewrite write_frames_wf in Hb by done. injection Hb as <-.
  change ([] ++ ?x) with x. apply (read_frames_loop_wires tx_open fs 0 []); try done.
  induction Hw as [|f fs Hf Hfs IH]; simpl; [lia|].
  pose proof (length_wire_pos f Hf). rewrite length_app. lia.
Qed.

Lemma stream_roundtrip_witness :
  read_frames_loop (S (length (Frame.wire Frame.sample ++ Frame.wire Frame.sample)))
    (fun _ => true) 0
    (mk_recv (Frame.wire Frame.sample ++ Frame.wire Frame.sample) Finished) []
  = Some ([Frame.sample; Frame.sample], Ok tt).
Proof.
  apply (stream_roundtrip [Frame.sample; Frame.sample]).
  - repeat constructor; vm_compute; repeat split; discriminate.
  - done.
  - reflexivity.
Defined.

(** C19: on any byte stream the read loop stops, within one turn per byte of
    the stream; what it has delivered are well-formed frames whose encodings
    are a prefix of the stream, and it reports success only when they are the
    whole of a finished stream. *)
Theorem stream_reader_sound tx_open r :
  exists fs rest e,
    read_frames_loop (S (length (rs_data r))) tx_open 0 r [] = Some (fs, e) /\
    Forall Frame.wf fs /\ write_frames fs [] = Ok (concat (map Frame.wire fs)) /\
    rs_data r = concat (map Frame.wire fs) ++ rest /\
    e <> Panic /\ (e = Ok tt -> rest = [] /\ rs_end r = Finished).
Proof.
  destruct (read_frames_loop_spec (S (length (rs_data r))) tx_open 0 r [])
    as (fs & rest & e & H1 & H2 & H3 & H4 & H5); [lia|].
  exists fs, rest, e. split_and!; try done. by apply write_frames_wf.
Qed.

End Stream.
