(* ===== verification/Tls.v ===== *)
(** * The TLS configuration of the client

    The configurations that [lockframe-client/src/transport.rs] hands to quinn,
    as the data they are made of: the verifier of the server's certificate, the
    protocols offered and the idle timeout, with the verifier that accepts
    everything.  What rustls does with a configuration is the class [Rustls];
    the choice of the protocol, RFC 7301 and RFC 9001, is written out. *)

From S2P Require Import Prelude Env.

Local Open Scope N_scope.

(** [b"lockframe"]. *)
Definition ALPN_PROTOCOL : bytes :=
  String.list_byte_of_string "lockframe".

Definition TRANSPORT_IDLE_TIMEOUT : Duration := from_secs 30.

Inductive SignatureScheme :=
  | RSA_PKCS1_SHA256 | RSA_PKCS1_SHA384 | RSA_PKCS1_SHA512
  | ECDSA_NISTP256_SHA256 | ECDSA_NISTP384_SHA384 | ECDSA_NISTP521_SHA512
  | RSA_PSS_SHA256 | RSA_PSS_SHA384 | RSA_PSS_SHA512 | ED25519
  | OtherScheme (code : N).

(** [IdleTimeout::try_from(Duration)]: the milliseconds as a QUIC variable-length
    integer, which has 62 bits. *)
Definition idle_timeout (d : Duration) : option N :=
  let ms := d / 1000000 in if ms <? 2 ^ 62 then Some ms else None.

(** rustls and its companions: certificates, keys, the roots that are compiled
    in, the verification of a chain for a name at a time and of a signature, and
    the conversion of a configuration for QUIC, which fails with an error when no
    cipher suite fits. *)
Class Rustls := {
  Certificate : Type;
  PrivateKey : Type;
  RootStore : Type;
  TLS_SERVER_ROOTS : RootStore;
  webpki_verify : RootStore -> Certificate -> list Certificate -> string -> N -> option string;
  webpki_verify_signature : Certificate -> SignatureScheme -> bytes -> bytes -> option string;
  webpki_schemes : list SignatureScheme;
  quic_unfit : option string;
  (** [with_single_cert]: the error for a key that does not fit. *)
  single_cert : list Certificate -> PrivateKey -> option string;
}.

Section tls.
Context `{Rustls}.

(** [dyn ServerCertVerifier]: the verifier of the roots, or the one of the
    client. *)
Inductive Verifier :=
  | WebPki (roots : RootStore)
  | InsecureCertVerifier.

(** An error, or the assertion that the check has been made. *)
Definition verify_server_cert (v : Verifier) (end_entity : Certificate)
    (intermediates : list Certificate) (name : string) (time : N) : option string :=
  match v with
  | WebPki roots => webpki_verify roots end_entity intermediates name time
  | InsecureCertVerifier => None
  end.

Definition verify_signature (v : Verifier) (cert : Certificate) (scheme : SignatureScheme)
    (message signature : bytes) : option string :=
  match v with
  | WebPki _ => webpki_verify_signature cert scheme message signature
  | InsecureCertVerifier => None
  end.

Definition supported_verify_schemes (v : Verifier) : list SignatureScheme :=
  match v with
  | WebPki _ => webpki_schemes
  | InsecureCertVerifier =>
      [RSA_PKCS1_SHA256; RSA_PKCS1_SHA384; RSA_PKCS1_SHA512; ECDSA_NISTP256_SHA256;
       ECDSA_NISTP384_SHA384; ECDSA_NISTP521_SHA512; RSA_PSS_SHA256; RSA_PSS_SHA384;
       RSA_PSS_SHA512; ED25519]
  end.

(** [quinn::ClientConfig]: the configuration of rustls, without a certificate of
    the client, and of the transport. *)
Record ClientConfig := mkClientConfig {
  cc_verifier : Verifier;
  cc_client_auth : option (list Certificate * PrivateKey);
  cc_alpn_protocols : list bytes;
  cc_max_idle_timeout : option N }.

(** [QuicClientConfig::try_from(crypto)] and the transport's settings. *)
Definition quic_client_config {E} (unfit : string -> res E ClientConfig) (v : Verifier)
    : res E ClientConfig :=
  match quic_unfit with
  | Some e => unfit e
  | None =>
      match idle_timeout TRANSPORT_IDLE_TIMEOUT with
      | Some ms => Ok (mkClientConfig v None [ALPN_PROTOCOL] (Some ms))
      | None => Panic
      end
  end.

Definition secure_client_config : res string ClientConfig :=
  quic_client_config (fun e => Err ("TLS config error: " +:+ e)) (WebPki TLS_SERVER_ROOTS).

Definition insecure_client_config : res string ClientConfig :=
  quic_client_config (fun _ => Panic) InsecureCertVerifier.

(** The protocol of a QUIC connection: the first of the server's that the client
    offers; if there is none although one side has some, there is no connection. *)
Definition negotiate_alpn (server client : list bytes) : option (option bytes) :=
  match list_find (fun p => p ∈ client) server with
  | Some (_, p) => Some (Some p)
  | None => match server, client with [], [] => Some None | _, _ => None end
  end.

(** What a client checks of a server that presents a chain of certificates. *)
Definition accepts_server (config : ClientConfig) (chain : list Certificate) (name : string) (time : N)
    : bool :=
  match chain with
  | [] => false
  | cert :: rest => bool_decide (verify_server_cert (cc_verifier config) cert rest name time = None)
  end.

Lemma idle_timeout_value : idle_timeout TRANSPORT_IDLE_TIMEOUT = Some 30000.
Proof. reflexivity. Qed.

(** Both configurations are the same but for the verifier; neither has a
    certificate of the client. *)
Lemma secure_config_ok : quic_unfit = None ->
  secure_client_config = Ok (mkClientConfig (WebPki TLS_SERVER_ROOTS) None [ALPN_PROTOCOL] (Some 30000)).
Proof. intros Hu. unfold secure_client_config, quic_client_config. by rewrite Hu, idle_timeout_value. Qed.

Lemma insecure_config_ok : quic_unfit = None ->
  insecure_client_config = Ok (mkClientConfig InsecureCertVerifier None [ALPN_PROTOCOL] (Some 30000)).
Proof. intros Hu. unfold insecure_client_config, quic_client_config. by rewrite Hu, idle_timeout_value. Qed.

Lemma negotiate_same : negotiate_alpn [ALPN_PROTOCOL] [ALPN_PROTOCOL] = Some (Some ALPN_PROTOCOL).
Proof. reflexivity. Qed.

End tls.

(** A library without roots that trusts no one. *)
Definition bare_tls : Rustls := {|
  Certificate := bytes; PrivateKey := bytes; RootStore := unit;
  TLS_SERVER_ROOTS := tt;
  webpki_verify _ _ _ _ _ := Some "UnknownIssuer"%string;
  webpki_verify_signature _ _ _ _ := None;
  webpki_schemes := [];
  quic_unfit := None;
  single_cert _ _ := None;
|}.
