(* ===== verification/ClientTransport.v ===== *)
(** * The client's connection

    [lockframe-client/src/transport.rs]: the configuration, [connect_with_config]
    and the tasks of [run_connection], which move frames between the channels of
    the application and the streams of a QUIC connection.  quinn and rustls are
    the class [Quic].  The two tasks run concurrently, so a step is one turn of
    one of their loops; the outside decides which task moves, what the streams
    carry and which writes fail.  The addresses are those of the standard
    library, whose parser is written out. *)

From S2P Require Import Prelude Env Opcodes Header Framing Tls.

Local Open Scope N_scope.

(** ** Socket addresses *)

Inductive SocketAddr :=
  | V4 (ip : list N) (port : N)
  | V6 (groups : list N) (scope_id : N) (port : N).

Module AddrParser.

(** A parser reads a prefix; [None] leaves the input where it was. *)
Abbreviation parser A := (list ascii -> option (A * list ascii)).

Definition given_char (c : ascii) : parser unit := fun s =>
  match s with
  | c' :: rest => if decide (c' = c) then Some (tt, rest) else None
  | [] => None
  end.

(** [char::to_digit]. *)
Definition to_digit (radix : N) (c : ascii) : option N :=
  let n := N_of_ascii c in
  let d :=
    if (48 <=? n) && (n <=? 57) then n - 48
    else if (97 <=? n) && (n <=? 122) then n - 87
    else if (65 <=? n) && (n <=? 90) then n - 55
    else radix in
  if d <? radix then Some d else None.

(** The digits of a number below [bound]; [count] have been read. *)
Fixpoint digits (radix bound : N) (max_digits : option nat) (count : nat) (acc : N) (s : list ascii)
    : option (N * nat * list ascii) :=
  match s with
  | c :: rest =>
      match to_digit radix c with
      | Some d =>
          let acc' := acc * radix + d in
          if negb (acc' <? bound) then None
          else if match max_digits with Some m => (m <? S count)%nat | None => false end then None
          else digits radix bound max_digits (S count) acc' rest
      | None => Some (acc, count, s)
      end
  | [] => Some (acc, count, s)
  end.

Definition read_number (radix bound : N) (max_digits : option nat) (allow_zero_prefix : bool)
    : parser N := fun s =>
  let has_leading_zero := match s with c :: _ => bool_decide (c = "0"%char) | [] => false end in
  match digits radix bound max_digits 0 0 s with
  | Some (n, count, rest) =>
      if (count =? 0)%nat then None
      else if negb allow_zero_prefix && has_leading_zero && (1 <? count)%nat then None
      else Some (n, rest)
  | None => None
  end.

(** [read_separator]: the separator comes before every element but the first. *)
Definition read_separator {A} (sep : ascii) (index : nat) (inner : parser A) : parser A := fun s =>
  match index with
  | O => inner s
  | S _ => '(_, rest) ← given_char sep s; inner rest
  end.

Definition octet (i : nat) : parser N := read_separator "."%char i (read_number 10 256 (Some 3%nat) false).

Definition read_ipv4_addr : parser (list N) := fun s =>
  '(a, s) ← octet 0 s; '(b, s) ← octet 1 s; '(c, s) ← octet 2 s; '(d, s) ← octet 3 s;
  Some ([a; b; c; d], s).

Definition read_port : parser N := fun s =>
  '(_, s) ← given_char ":"%char s; read_number 10 (2 ^ 16) None true s.

(** [read_groups]: up to [limit] groups from the [i]-th on, and whether they end
    in an IPv4 address. *)
Fixpoint read_groups (left : nat) (i : nat) (s : list ascii) : list N * bool * list ascii :=
  match left with
  | O => ([], false, s)
  | S left' =>
      let v4 := if (0 <? left')%nat then read_separator ":"%char i read_ipv4_addr s else None in
      match v4 with
      | Some ([a; b; c; d], rest) => ([a * 256 + b; c * 256 + d], true, rest)
      | _ =>
          match read_separator ":"%char i (read_number 16 (2 ^ 16) (Some 4%nat) true) s with
          | Some (g, rest) =>
              let '(gs, ipv4, rest') := read_groups left' (S i) rest in (g :: gs, ipv4, rest')
          | None => ([], false, s)
          end
      end
  end.

Definition read_ipv6_addr : parser (list N) := fun s =>
  let '(head, head_ipv4, s) := read_groups 8 0 s in
  if (length head =? 8)%nat then Some (head, s)
  else if head_ipv4 : bool then None
  else
    '(_, s) ← given_char ":"%char s; '(_, s) ← given_char ":"%char s;
    let '(tail, _, s) := read_groups (8 - (length head + 1)) 0 s in
    Some (head ++ replicate (8 - length head - length tail) 0 ++ tail, s).

Definition read_scope_id : parser N := fun s =>
  '(_, s) ← given_char "%"%char s; read_number 10 (2 ^ 32) None true s.

Definition read_socket_addr_v4 : parser SocketAddr := fun s =>
  '(ip, s) ← read_ipv4_addr s; '(port, s) ← read_port s; Some (V4 ip port, s).

Definition read_socket_addr_v6 : parser SocketAddr := fun s =>
  '(_, s) ← given_char "["%char s;
  '(ip, s) ← read_ipv6_addr s;
  let '(scope_id, s) := default (0, s) (read_scope_id s) in
  '(_, s) ← given_char "]"%char s;
  '(port, s) ← read_port s;
  Some (V6 ip scope_id port, s).

(** [SocketAddr::from_str]: the whole of the text. *)
Definition parse (s : string) : option SocketAddr :=
  let cs := String.list_ascii_of_string s in
  match match read_socket_addr_v4 cs with Some r => Some r | None => read_socket_addr_v6 cs end with
  | Some (addr, []) => Some addr
  | _ => None
  end.

End AddrParser.

(** ** Connecting *)

Inductive TlsMode := Secure | Insecure.

Record TransportConfig := mkTransportConfig {
  tls_mode : TlsMode;
  server_name : string;
  connect_timeout : Duration }.

Definition DEFAULT_CONNECT_TIMEOUT : Duration := from_secs 5.

Definition default_transport_config : TransportConfig :=
  mkTransportConfig Secure "localhost" DEFAULT_CONNECT_TIMEOUT.

Definition development : TransportConfig :=
  mkTransportConfig Insecure (server_name default_transport_config)
    (connect_timeout default_transport_config).

Definition production (name : string) : TransportConfig :=
  mkTransportConfig Secure name (connect_timeout default_transport_config).

Inductive TransportError :=
  | TEConnection (msg : string)
  | TEStream (msg : string)
  | TEProtocol (msg : string).

Definition display_transport_error (e : TransportError) : string :=
  match e with
  | TEConnection msg => "connection failed: " +:+ msg
  | TEStream msg => "stream error: " +:+ msg
  | TEProtocol msg => "protocol error: " +:+ msg
  end.

(** quinn: an endpoint and its connections, and how their errors are printed. *)
Class Quic (Q : Type) `{!Rustls} := {
  Endpoint : Type;
  Connecting : Type;
  QuicConnection : Type;
  endpoint_client : ClientConfig -> Q -> Q * res string Endpoint;
  endpoint_connect : Endpoint -> SocketAddr -> string -> Q -> Q * res string Connecting;
  (* [tokio::time::timeout] around the handshake: [None] when it runs out *)
  handshake : Duration -> Connecting -> Q -> Q * option (res string QuicConnection);
  fmt_read_exact_error : Stream.ReadExactError -> string;
}.

Section connect.
Context {Q : Type} {rustls : Rustls} `{!Quic Q}.

(** A call whose error becomes a connection error. *)
Definition quic {A} (context : string) (m : Q -> Q * res string A) : M Q TransportError A := fun q =>
  let '(q', r) := m q in (q', map_err (fun e => TEConnection (context +:+ e)) r).

Definition client_config (mode : TlsMode) : res TransportError ClientConfig :=
  match mode with
  | Secure => map_err TEConnection secure_client_config
  | Insecure => map_err TEConnection insecure_client_config
  end.

(** The handshake, within its time. *)
Definition timed_handshake (config : TransportConfig) (connecting : Connecting)
    : M Q TransportError QuicConnection := fun q =>
  match handshake (connect_timeout config) connecting q with
  | (q', Some r) => (q', map_err (fun e => TEConnection ("connection failed: " +:+ e)) r)
  | (q', None) =>
      (q', Err (TEConnection ("connection timed out after "
                  +:+ fmt_duration (connect_timeout config))))
  end.

(** [connect_with_config] up to the task it spawns. *)
Definition connect_with_config (server_addr : string) (config : TransportConfig)
    : M Q TransportError QuicConnection :=
  match AddrParser.parse server_addr with
  | None => throw (TEConnection "invalid address: invalid socket address syntax")
  | Some addr =>
      tls ← lift (client_config (tls_mode config));
      endpoint ← quic "endpoint creation failed: " (endpoint_client tls);
      connecting ← quic "connect failed: " (endpoint_connect endpoint addr (server_name config));
      timed_handshake config connecting
  end.

Definition connect (server_addr : string) : M Q TransportError QuicConnection :=
  connect_with_config server_addr development.

End connect.

(** ** The tasks of a connection *)

Module ClientConnection.

(** Where the task that reads the server's stream is. *)
Inductive recv_task :=
  | RAccepting
  | RReading (r : Stream.recv_stream)
  | RReporting (e : TransportError)
  | RDone.

(** Where [run_connection] is.  A frame whose write failed or was cut is kept. *)
Inductive main_task :=
  | MOpening
  | MSending
  | MReporting (lost : option Frame.t) (e : TransportError)
  | MDone (lost : option Frame.t).

(** The channels, the tasks and the outbound stream. *)
Record t := mk {
  to_server : list Frame.t;
  to_server_closed : bool;
  from_server : list Frame.t;
  from_server_closed : bool;
  errors : list TransportError;
  main : main_task;
  receiver : recv_task;
  outbound : bytes;
  finished : bool }.

Definition start : t := mk [] false [] false [] MOpening RAccepting [] false.

Definition CHANNEL_SIZE : nat := 32.

Definition set_main (m : main_task) (c : t) : t :=
  mk (to_server c) (to_server_closed c) (from_server c) (from_server_closed c) (errors c) m
    (receiver c) (outbound c) (finished c).
Definition set_receiver (r : recv_task) (c : t) : t :=
  mk (to_server c) (to_server_closed c) (from_server c) (from_server_closed c) (errors c) (main c)
    r (outbound c) (finished c).
Definition set_to_server (q : list Frame.t) (c : t) : t :=
  mk q (to_server_closed c) (from_server c) (from_server_closed c) (errors c) (main c)
    (receiver c) (outbound c) (finished c).
Definition set_from_server (q : list Frame.t) (c : t) : t :=
  mk (to_server c) (to_server_closed c) q (from_server_closed c) (errors c) (main c)
    (receiver c) (outbound c) (finished c).
Definition set_errors (q : list TransportError) (c : t) : t :=
  mk (to_server c) (to_server_closed c) (from_server c) (from_server_closed c) q (main c)
    (receiver c) (outbound c) (finished c).
Definition write_bytes (bs : bytes) (c : t) : t :=
  mk (to_server c) (to_server_closed c) (from_server c) (from_server_closed c) (errors c) (main c)
    (receiver c) (outbound c ++ bs) (finished c).

(** The end of [run_connection]: the receiver is aborted, and the outbound
    stream is finished if there is one. *)
Definition end_main (lost : option Frame.t) (finish : bool) (c : t) : t :=
  mk (to_server c) (to_server_closed c) (from_server c) (from_server_closed c) (errors c)
    (MDone lost) RDone (outbound c) (finish || finished c).

(** The end by [stop], at an await: the receiver goes on; the outbound stream, if
    there is one, is dropped, and quinn finishes a stream that is dropped. *)
Definition abort_main (lost : option Frame.t) (opened : bool) (c : t) : t :=
  mk (to_server c) (to_server_closed c) (from_server c) (from_server_closed c) (errors c)
    (MDone lost) (receiver c) (outbound c) (opened || finished c).

(** What the application and the outside do, and which task moves. *)
Inductive label :=
  (* the application: a frame into the channel, a frame or an error out of it,
     the client dropped, [stop] between writes and within one, of which it lets
     through some bytes *)
  | LSubmit (f : Frame.t)
  | LTake
  | LTakeError
  | LDrop
  | LStop
  | LStopWriting (n : nat)
  (* the server's stream comes, or does not *)
  | LAccept (r : Stream.recv_stream)
  | LAcceptFails (e : string)
  (* the outbound stream opens, or does not *)
  | LOpen
  | LOpenFails (e : string)
  (* a turn of the loop that reads, and of the one that writes; a write may fail
     after some bytes *)
  | LRead
  | LWrite
  | LWriteFails (n : nat) (e : string)
  (* [to_server.recv()] gives [None] *)
  | LHangUp
  (* an error goes to the channel *)
  | LReportMain
  | LReportReceiver.

Section tasks.
Context {Q : Type} {rustls : Rustls} `{!Quic Q}.

(** [errors.send(e).await]: waits for space in the channel of one; a dropped
    client's channel takes the error and forgets it. *)
Definition report (e : TransportError) (c : t) : option t :=
  if from_server_closed c then Some c
  else match errors c with
       | [] => Some (set_errors [e] c)
       | _ => None
       end.

(** A turn of [read_frames_loop]: the next frame and the rest of the stream, the
    end, or an error.  The header of a whole buffer is always there. *)
Definition read_turn (r : Stream.recv_stream)
    : Frame.t * Stream.recv_stream + option TransportError :=
  match Stream.read_frame r with
  | (r', _, Ok frame) => inl (frame, r')
  | (_, _, Err (Stream.HeaderRead (Stream.FinishedEarly 0))) => inr None
  | (_, _, Err (Stream.HeaderRead e)) =>
      inr (Some (TEStream ("header read failed: " +:+ fmt_read_exact_error e)))
  | (_, _, Err Stream.InvalidHeader) => inr (Some (TEProtocol "invalid header"))
  | (_, _, Err (Stream.PayloadRead e)) =>
      inr (Some (TEStream ("payload read failed: " +:+ fmt_read_exact_error e)))
  | (_, _, Err (Stream.Decode e)) =>
      inr (Some (TEProtocol ("frame decode failed: " +:+ ProtocolError.display e)))
  | (_, _, Panic) => inr None
  end.

(** The step of a label, with the frames the application takes. *)
Definition exec_step (l : label) (c : t) : option (t * list Frame.t) :=
  match l with
  | LSubmit f =>
      match main c with
      | MDone _ => None
      | _ => if negb (to_server_closed c) && (length (to_server c) <? CHANNEL_SIZE)%nat
             then Some (set_to_server (to_server c ++ [f]) c, []) else None
      end
  | LTake =>
      match from_server c with
      | f :: rest => if from_server_closed c then None else Some (set_from_server rest c, [f])
      | [] => None
      end
  | LTakeError =>
      match errors c with _ :: rest => Some (set_errors rest c, []) | [] => None end
  | LDrop =>
      Some (mk (to_server c) true [] true [] (main c) (receiver c) (outbound c) (finished c), [])
  | LStop =>
      match main c with
      | MDone _ => None
      | MOpening | MReporting None _ => Some (abort_main None false c, [])
      | MSending => Some (abort_main None true c, [])
      | MReporting (Some f) _ => Some (abort_main (Some f) true c, [])
      end
  | LStopWriting n =>
      match main c, to_server c with
      | MSending, f :: rest =>
          match Frame.encode f [] with
          | Ok bs =>
              if (n <? length bs)%nat
              then Some (abort_main (Some f) true
                           (write_bytes (take n bs) (set_to_server rest c)), [])
              else None
          | _ => None
          end
      | _, _ => None
      end
  | LAccept r =>
      match receiver c with RAccepting => Some (set_receiver (RReading r) c, []) | _ => None end
  | LAcceptFails e =>
      match receiver c with
      | RAccepting =>
          Some (set_receiver (RReporting (TEConnection ("failed to accept server stream: " +:+ e))) c, [])
      | _ => None
      end
  | LOpen => match main c with MOpening => Some (set_main MSending c, []) | _ => None end
  | LOpenFails e =>
      match main c with
      | MOpening =>
          Some (set_main (MReporting None
                  (TEConnection ("failed to open outbound stream: " +:+ e))) c, [])
      | _ => None
      end
  | LRead =>
      match receiver c with
      | RReading r =>
          match read_turn r with
          | inl (frame, r') =>
              if from_server_closed c
              then Some (set_receiver (RReporting (TEStream "channel send failed: channel closed")) c, [])
              else if (length (from_server c) <? CHANNEL_SIZE)%nat
              then Some (set_receiver (RReading r') (set_from_server (from_server c ++ [frame]) c), [])
              else None
          | inr (Some e) => Some (set_receiver (RReporting e) c, [])
          | inr None => Some (set_receiver RDone c, [])
          end
      | _ => None
      end
  | LWrite =>
      match main c, to_server c with
      | MSending, f :: rest =>
          match Frame.encode f [] with
          | Ok bs => Some (write_bytes bs (set_to_server rest c), [])
          | Err e =>
              Some (set_main (MReporting (Some f) (TEProtocol ("encode failed: " +:+ ProtocolError.display e)))
                      (set_to_server rest c), [])
          | Panic => None
          end
      | _, _ => None
      end
  | LWriteFails n e =>
      match main c, to_server c with
      | MSending, f :: rest =>
          match Frame.encode f [] with
          | Ok bs =>
              if (n <? length bs)%nat
              then Some (set_main (MReporting (Some f) (TEStream ("write failed: " +:+ e)))
                           (write_bytes (take n bs) (set_to_server rest c)), [])
              else None
          | _ => None
          end
      | _, _ => None
      end
  | LHangUp =>
      match main c, to_server c with
      | MSending, [] => if to_server_closed c then Some (end_main None true c, []) else None
      | _, _ => None
      end
  | LReportMain =>
      match main c with
      | MReporting lost e =>
          c' ← report e c; Some (end_main lost (bool_decide (is_Some lost)) c', [])
      | _ => None
      end
  | LReportReceiver =>
      match receiver c with
      | RReporting e => c' ← report e c; Some (set_receiver RDone c', [])
      | _ => None
      end
  end.

Fixpoint exec_steps (ls : list label) (c : t) : option (t * list Frame.t) :=
  match ls with
  | [] => Some (c, [])
  | l :: ls' =>
      '(c', out) ← exec_step l c; '(c'', out') ← exec_steps ls' c'; Some (c'', out ++ out')
  end.

(** ** What a run has carried *)

Definition submitted_by (l : label) : list Frame.t := match l with LSubmit f => [f] | _ => [] end.
Definition accepted_by (l : label) : option Stream.recv_stream :=
  match l with LAccept r => Some r | _ => None end.

Definition submitted (ls : list label) : list Frame.t := concat (map submitted_by ls).
Definition accepted (ls : list label) : option Stream.recv_stream := head (omap accepted_by ls).

(** No step of the run is a [stop]. *)
Definition is_stop (l : label) : bool :=
  match l with LStop | LStopWriting _ => true | _ => false end.
Definition unstopped (ls : list label) : bool := negb (existsb is_stop ls).

(** The frame whose write has failed, or was cut by [stop]. *)
Definition lost (m : main_task) : list Frame.t :=
  match m with MReporting (Some f) _ | MDone (Some f) => [f] | _ => [] end.

Abbreviation wires fs := (concat (map Frame.wire fs)).

(** The outbound stream: the frames submitted are those written, the one whose
    write did not end, of which there may be a part, and those still in the channel. *)
Definition carries_out (sub : list Frame.t) (written : list Frame.t) (c : t) : Prop :=
  sub = written ++ lost (main c) ++ to_server c /\
  exists part, outbound c = wires written ++ part /\
    match lost (main c) with
    | f :: _ => (length part < length (Frame.wire f))%nat /\ part `prefix_of` Frame.wire f
    | [] => part = []
    end.

(** The inbound stream: the frames taken and those in the channel are the
    beginning of it. *)
Definition carries_in (acc : option Stream.recv_stream) (taken : list Frame.t) (c : t) : Prop :=
  match acc with
  | None =>
      taken = [] /\ from_server c = [] /\ (forall r, receiver c <> RReading r)
  | Some r0 =>
      receiver c <> RAccepting /\
      exists gone rest, Stream.rs_data r0 = wires (taken ++ from_server c ++ gone) ++ rest /\
        Forall Frame.wf (taken ++ from_server c ++ gone) /\
        (gone <> [] -> from_server_closed c = true) /\
        forall r, receiver c = RReading r -> Stream.rs_data r = rest /\ Stream.rs_end r = Stream.rs_end r0
  end /\ (from_server_closed c = true -> from_server c = []).

Lemma read_turn_frame r f r' : read_turn r = inl (f, r') ->
  Frame.wf f /\ Stream.rs_data r = Frame.wire f ++ Stream.rs_data r' /\
  Stream.rs_end r' = Stream.rs_end r.
Proof.
  unfold read_turn. destruct (Stream.read_frame r) as [[r1 n] [f1|e|]] eqn:E; [|by repeat case_match|done].
  intros [= <- <-]. by apply (Stream.read_frame_Ok r r1 n f1).
Qed.

Lemma report_same e c c' : report e c = Some c' ->
  to_server c' = to_server c /\ from_server c' = from_server c /\ outbound c' = outbound c /\
  from_server_closed c' = from_server_closed c /\ main c' = main c /\ receiver c' = receiver c /\
  finished c' = finished c.
Proof. unfold report. repeat case_match; intros [= <-]; done. Qed.

(** Steps that leave the outbound direction alone. *)
Lemma out_same sub written c c' :
  carries_out sub written c -> lost (main c') = lost (main c) ->
  to_server c' = to_server c -> outbound c' = outbound c -> carries_out sub written c'.
Proof. unfold carries_out. intros H -> -> ->. exact H. Qed.

(** Steps that leave the inbound direction alone, but may end its task. *)
Lemma in_same acc taken c c' :
  carries_in acc taken c -> from_server c' = from_server c ->
  from_server_closed c' = from_server_closed c ->
  (receiver c' = receiver c \/ receiver c' = RDone \/ exists e, receiver c' = RReporting e) ->
  carries_in acc taken c'.
Proof.
  unfold carries_in. intros [H Hcl] -> -> Hr. split; [|done]. destruct acc as [r0|].
  - destruct H as (Hna & gone & rest & H1 & H2 & H3 & H4). split.
    { destruct Hr as [->|[->|[e ->]]]; done. }
    exists gone, rest. split_and!; try done. intros r E.
    destruct Hr as [Hr|[Hr|[e Hr]]]; rewrite Hr in E; [by apply H4|done..].
  - destruct H as (-> & -> & Hn). split_and!; try done. intros r E.
    destruct Hr as [Hr|[Hr|[e Hr]]]; rewrite Hr in E; [by eapply Hn|done..].
Qed.

(** The next frame of the queue can be encoded. *)
Lemma head_encodes sub written c f rest :
  Forall Frame.wf sub -> carries_out sub written c -> to_server c = f :: rest ->
  Frame.encode f [] = Ok (Frame.wire f).
Proof.
  intros Hwf [Hs _] E. apply Frame.encode_wf. rewrite Hs, E in Hwf.
  apply Forall_app in Hwf as [_ [_ Hwf]%Forall_app]. by inversion Hwf.
Qed.

(** A write that ends within a frame. *)
Lemma out_part sub written c c' f rest n :
  carries_out sub written c -> main c = MSending -> to_server c = f :: rest ->
  (n < length (Frame.wire f))%nat -> lost (main c') = [f] -> to_server c' = rest ->
  outbound c' = outbound c ++ take n (Frame.wire f) -> carries_out sub written c'.
Proof.
  intros (Hs & part & Hb & Hl) Hm Ht Hn Hlm H2 H3. unfold carries_out. rewrite H2, H3, Hlm.
  rewrite Hm in Hs, Hl. cbn in Hs, Hl. subst part. rewrite app_nil_r in Hb. rewrite Ht in Hs.
  split; [done|]. exists (take n (Frame.wire f)).
  rewrite Hb. split_and!; [done|rewrite length_take; lia|apply prefix_take].
Qed.

Lemma step_out l c c' out sub written :
  Forall Frame.wf sub -> carries_out sub written c -> exec_step l c = Some (c', out) ->
  exists written', carries_out (sub ++ submitted_by l) written' c'.
Proof.
  intros Hwf Ho. pose proof Ho as (Hs & part & Hb & Hl).
  assert (Hsame : forall c'', lost (main c'') = lost (main c) -> to_server c'' = to_server c ->
    outbound c'' = outbound c -> exists w, carries_out (sub ++ []) w c'').
  { intros. exists written. rewrite app_nil_r. by eapply out_same. }
  destruct l; cbn [exec_step submitted_by].
  - destruct (main c) eqn:Hm; intros E; try discriminate E; destruct (_ && _); try discriminate E;
      injection E as <- <-; exists written; unfold carries_out; cbn; rewrite Hm;
      (split; [by rewrite Hs, <- ?app_assoc|by exists part]).
  - destruct (from_server c); [done|]. destruct (from_server_closed c); [done|]. intros [= <- <-]. by apply Hsame.
  - destruct (errors c); [done|]. intros [= <- <-]. by apply Hsame.
  - intros [= <- <-]. by apply Hsame.
  - destruct (main c) as [| |[]|] eqn:Hm; intros [= <- <-]; by apply Hsame; cbn.
  - destruct (main c) eqn:Hm; try done. destruct (to_server c) as [|f rest] eqn:Ht; [done|].
    rewrite (head_encodes sub written c f rest) by done. destruct (Nat.ltb_spec n (length (Frame.wire f))); [|done].
    intros [= <- <-]. exists written. rewrite app_nil_r. by eapply out_part.
  - destruct (receiver c); intros [= <- <-]; by apply Hsame.
  - destruct (receiver c); intros [= <- <-]; by apply Hsame.
  - destruct (main c) eqn:Hm; intros [= <- <-]; by apply Hsame.
  - destruct (main c) eqn:Hm; intros [= <- <-]; by apply Hsame.
  - destruct (receiver c) as [|r| |]; try done. destruct (read_turn r) as [[f r']|[e|]];
      [|intros [= <- <-]; by apply Hsame..].
    destruct (from_server_closed c); [intros [= <- <-]; by apply Hsame|].
    destruct (_ <? _)%nat; [|done]. intros [= <- <-]. by apply Hsame.
  - destruct (main c) eqn:Hm; try done. destruct (to_server c) as [|f rest] eqn:Ht; [done|].
    rewrite (head_encodes sub written c f rest) by done. intros [= <- <-]. exists (written ++ [f]). rewrite app_nil_r.
    unfold carries_out. cbn. rewrite Hm. cbn in *. subst part. rewrite app_nil_r in Hb.
    split; [by rewrite Hs, <- app_assoc|]. exists []. split; [|done].
    rewrite Hb, Stream.wires_app. cbn. by rewrite !app_nil_r.
  - destruct (main c) eqn:Hm; try done. destruct (to_server c) as [|f rest] eqn:Ht; [done|].
    rewrite (head_encodes sub written c f rest) by done. destruct (Nat.ltb_spec n (length (Frame.wire f))); [|done].
    intros [= <- <-]. exists written. rewrite app_nil_r. by eapply out_part.
  - destruct (main c) eqn:Hm; try done. destruct (to_server c) eqn:Ht; [|done].
    destruct (to_server_closed c); [|done]. intros [= <- <-]. by apply Hsame; cbn; rewrite ?Hm, ?Ht.
  - destruct (main c) as [| |l e|] eqn:Hm; try done. destruct (report e c) as [c1|] eqn:Hr; [|done].
    intros [= <- <-]. apply report_same in Hr as (H1 & _ & H2 & _). by apply Hsame; cbn; rewrite ?Hm; destruct l.
  - destruct (receiver c) as [| |e|]; try done. destruct (report e c) as [c1|] eqn:Hr; [|done].
    intros [= <- <-]. apply report_same in Hr as (H1 & _ & H2 & _ & H3 & _). by apply Hsame; cbn; rewrite ?H3.
Qed.

(** What the application takes, what it drops, and what is read. *)
Lemma in_taken acc taken c f rest :
  carries_in acc taken c -> from_server c = f :: rest -> from_server_closed c = false ->
  carries_in acc (taken ++ [f]) (set_from_server rest c).
Proof.
  intros [Hacc _] Hf Hc. unfold carries_in. cbn. rewrite Hc. split; [|done].
  rewrite Hf in Hacc. destruct acc as [r0|]; [|by destruct Hacc as (_ & ? & _)].
  destruct Hacc as (Hna & gone & data & H1 & H2 & H3 & H4). split; [done|]. exists gone, data.
  rewrite <- app_assoc. rewrite Hc in H3. by split_and!.
Qed.

Lemma in_dropped acc taken c ts te :
  carries_in acc taken c ->
  carries_in acc taken (mk ts true [] true te (main c) (receiver c) (outbound c) (finished c)).
Proof.
  intros [Hacc _]. unfold carries_in. cbn. split; [|done].
  destruct acc as [r0|]; [|by destruct Hacc as (? & _ & ?)].
  destruct Hacc as (Hna & gone & data & H1 & H2 & H3 & H4). split; [done|].
  by exists (from_server c ++ gone), data.
Qed.

Lemma in_read acc taken c r f r' :
  carries_in acc taken c -> receiver c = RReading r -> read_turn r = inl (f, r') ->
  from_server_closed c = false ->
  carries_in acc taken (set_receiver (RReading r') (set_from_server (from_server c ++ [f]) c)).
Proof.
  intros [Hacc _] Hr Ht Hc. unfold carries_in. cbn. rewrite Hc. split; [|done].
  destruct acc as [r0|]; [|destruct Hacc as (_ & _ & Hn); by destruct (Hn r)].
  destruct Hacc as (_ & gone & data & H1 & H2 & H3 & H4). split; [done|].
  destruct gone as [|]; [|by rewrite Hc in H3; specialize (H3 ltac:(done))]. rewrite app_nil_r in *.
  destruct (H4 r Hr) as [<- He]. apply read_turn_frame in Ht as (Hw & Hd & He').
  exists [], (Stream.rs_data r'). rewrite app_nil_r. split_and!; try done.
  - rewrite H1, Hd, (app_assoc taken), (Stream.wires_app (taken ++ from_server c)). cbn.
    by rewrite <- app_assoc, app_nil_r.
  - rewrite app_assoc. apply Forall_app. split; [done|by constructor].
  - intros ? [= <-]. by rewrite He'.
Qed.

Lemma step_in l c c' out acc taken :
  carries_in acc taken c -> exec_step l c = Some (c', out) ->
  carries_in (union acc (accepted_by l)) (taken ++ out) c'.
Proof.
  intros Hi. pose proof Hi as [Hacc Hcl].
  assert (Hsame : forall c'', from_server c'' = from_server c ->
    from_server_closed c'' = from_server_closed c ->
    (receiver c'' = receiver c \/ receiver c'' = RDone \/ exists e, receiver c'' = RReporting e) ->
    carries_in (union acc None) (taken ++ []) c'').
  { intros. rewrite app_nil_r, right_id_L by apply _. by eapply in_same. }
  destruct l; cbn [exec_step accepted_by].
  - intros E. destruct (main c); try discriminate E; destruct (_ && _); try discriminate E;
      injection E as <- <-; apply Hsame; auto.
  - destruct (from_server c) as [|f rest] eqn:Hf; [done|]. destruct (from_server_closed c) eqn:Hc; [done|].
    intros [= <- <-]. rewrite right_id_L by apply _. by apply in_taken.
  - destruct (errors c); [done|]. intros [= <- <-]. apply Hsame; auto.
  - intros [= <- <-]. rewrite right_id_L, app_nil_r by apply _. by apply in_dropped.
  - destruct (main c) as [| |[]|]; intros [= <- <-]; apply Hsame; auto.
  - destruct (main c); try done. destruct (to_server c); [done|]. intros E.
    destruct (Frame.encode _ _); try discriminate E. destruct (_ <? _)%nat; try discriminate E.
    injection E as <- <-; apply Hsame; auto.
  - destruct (receiver c) eqn:Hr; try done. intros [= <- <-]. rewrite app_nil_r.
    destruct acc as [r0|]; [by destruct Hacc|]. destruct Hacc as (-> & Hf & _). cbn [union option_union_with].
    unfold carries_in. cbn. rewrite Hf. split; [|done]. split; [done|]. exists [], (Stream.rs_data r).
    split_and!; try done. by intros ? [= <-].
  - destruct (receiver c) eqn:Hr; intros [= <- <-]. apply Hsame; eauto.
  - destruct (main c); intros [= <- <-]; apply Hsame; auto.
  - destruct (main c); intros [= <- <-]; apply Hsame; auto.
  - destruct (receiver c) as [|r| |] eqn:Hr; try done.
    destruct (read_turn r) as [[f r']|[e|]] eqn:Ht; [|intros [= <- <-]; apply Hsame; eauto..].
    destruct (from_server_closed c) eqn:Hc; [intros [= <- <-]; apply Hsame; eauto|].
    destruct (_ <? _)%nat; [|done]. intros [= <- <-]. rewrite right_id_L, app_nil_r by apply _. by eapply in_read.
  - destruct (main c); try done. destruct (to_server c); [done|]. intros E.
    destruct (Frame.encode _ _); try discriminate E; injection E as <- <-; apply Hsame; auto.
  - destruct (main c); try done. destruct (to_server c); [done|]. intros E.
    destruct (Frame.encode _ _); try discriminate E. destruct (_ <? _)%nat; try discriminate E.
    injection E as <- <-; apply Hsame; auto.
  - destruct (main c); try done. destruct (to_server c); [|done].
    destruct (to_server_closed c); [|done]. intros [= <- <-]. apply Hsame; auto.
  - destruct (main c) as [| |l e|]; try done. destruct (report e c) as [c1|] eqn:Hr; [|done].
    intros [= <- <-]. apply report_same in Hr as (_ & H1 & _ & H2 & _). apply Hsame; cbn; auto.
  - destruct (receiver c) as [| |e|]; try done. destruct (report e c) as [c1|] eqn:Hr; [|done].
    intros [= <- <-]. apply report_same in Hr as (_ & H1 & _ & H2 & _). apply Hsame; cbn; auto.
Qed.

(** Without a [stop], a finished stream has been written to the end. *)
Definition complete (c : t) : Prop :=
  finished c = true -> (exists l, main c = MDone l) /\ (lost (main c) = [] -> to_server c = []).

Lemma step_complete l c c' out :
  is_stop l = false -> complete c -> exec_step l c = Some (c', out) -> complete c'.
Proof.
  unfold complete. intros Hl Hc. destruct l; try discriminate Hl; cbn [exec_step];
    repeat case_match; intros E; try discriminate E; try (injection E as <- <-; cbn in *; intros Hf;
      specialize (Hc Hf) as [[? ?] ?]; by eauto).
  - injection E as <- <-. cbn. eauto.
  - destruct (report e c) as [c1|] eqn:Hr; [|done]. injection E as <- <-. cbn.
    destruct lost0 as [f|]; [by split; [eexists|]|]. cbn. intros Hf. apply report_same in Hr as (_ & _ & _ & _ & _ & _ & Hfin).
    rewrite Hfin in Hf. by destruct (Hc Hf) as [[? ?] _].
  - destruct (report e c) as [c1|] eqn:Hr; [|done]. injection E as <- <-. cbn.
    apply report_same in Hr as (H1 & _ & _ & _ & H2 & _ & Hfin). by rewrite H1, H2, Hfin.
Qed.

Lemma steps_complete ls : forall c c' out,
  unstopped ls = true -> complete c -> exec_steps ls c = Some (c', out) -> complete c'.
Proof.
  induction ls as [|l ls IH]; intros c c' out Hl Hc E; cbn in E; [by injection E as <- _|].
  apply negb_true_iff, orb_false_iff in Hl as [Hl Hls].
  destruct (exec_step l c) as [[c1 out1]|] eqn:E1; [|discriminate E]. cbn in E.
  destruct (exec_steps ls c1) as [[c2 out2]|] eqn:E2; [|discriminate E]. injection E as <- _.
  eapply IH; [by apply negb_true_iff| |done]. by eapply step_complete.
Qed.

Lemma steps_carry ls : forall c c' taken out sub acc written,
  Forall Frame.wf (sub ++ submitted ls) ->
  carries_out sub written c -> carries_in acc taken c -> exec_steps ls c = Some (c', out) ->
  (exists written', carries_out (sub ++ submitted ls) written' c') /\
  carries_in (union acc (accepted ls)) (taken ++ out) c'.
Proof.
  induction ls as [|l ls IH]; intros c c' taken out sub acc written Hwf Ho Hi E; cbn [exec_steps] in E.
  - injection E as <- <-. unfold submitted, accepted. cbn. rewrite !app_nil_r, (right_id_L None (∪)). eauto.
  - destruct (exec_step l c) as [[c1 out1]|] eqn:E1; [|discriminate E]. cbn in E.
    destruct (exec_steps ls c1) as [[c2 out2]|] eqn:E2; [|discriminate E]. injection E as <- <-.
    unfold submitted in *. cbn [map concat] in *. fold (submitted ls) in *. rewrite app_assoc in Hwf |- *.
    destruct (step_out _ _ _ _ _ _ (proj1 (proj1 (Forall_app _ _ _)
      (proj1 (proj1 (Forall_app _ _ _) Hwf)))) Ho E1) as [w1 Ho1].
    pose proof (step_in _ _ _ _ _ _ Hi E1) as Hi1.
    destruct (IH _ _ _ _ _ _ _ Hwf Ho1 Hi1 E2) as [Ho2 Hi2]. split; [done|].
    rewrite <- app_assoc in Hi2. unfold accepted in *. cbn [omap list_omap].
    destruct acc as [r0|], (accepted_by l) as [r|], (head (omap accepted_by ls)); exact Hi2.
Qed.

(** A frame of which the end is missing is not read. *)
Lemma read_frame_part f part e : Frame.wf f ->
  (length part < length (Frame.wire f))%nat -> part `prefix_of` Frame.wire f ->
  exists r' n err, Stream.read_frame (Stream.mk_recv part e) = (r', n, Err err).
Proof.
  intros Hw Hl [rest Hp]. pose proof Hw as (Hh & _ & Hps).
  destruct (Stream.read_frame (Stream.mk_recv part e)) as [[r' n] [f'|err|]] eqn:E; [|by eexists _, _, _|].
  2:{ by apply Stream.read_frame_no_panic in E. }
  apply Stream.read_frame_Ok in E as (Hw' & Hd & _). cbn in Hd. exfalso.
  pose proof (Frame.decode_wire f [] Hw) as D. rewrite app_nil_r, Hp, Hd, <- app_assoc in D.
  rewrite Frame.decode_wire in D by done. injection D as ->.
  rewrite Hd, length_app in Hl. lia.
Qed.

Lemma read_loop_part fs part e : forall k sent fuel,
  (length fs < fuel)%nat -> Forall Frame.wf fs ->
  (part = [] \/ exists f, Frame.wf f /\ (length part < length (Frame.wire f))%nat /\ part `prefix_of` Frame.wire f) ->
  exists err, Stream.read_frames_loop fuel (fun _ => true) k (Stream.mk_recv (wires fs ++ part) e) sent
    = Some (sent ++ fs, err).
Proof.
  induction fs as [|f fs IH]; intros k sent [|fuel] Hf Hw Hp; cbn [length] in Hf; try lia.
  - cbn [map concat]. change ([] ++ part) with part. rewrite app_nil_r. cbn [Stream.read_frames_loop].
    destruct Hp as [->|(f & Hwf & Hl & Hp)].
    + destruct e; by eexists.
    + destruct (read_frame_part f part e Hwf Hl Hp) as (r' & n & err & ->).
      destruct err as [[[|]|]| | |]; by eexists.
  - inversion Hw as [|? ? Hwf Hwfs]; subst. cbn [Stream.read_frames_loop map concat].
    rewrite <- app_assoc. destruct (Stream.read_frame_wire f (wires fs ++ part) e Hwf) as [n ->].
    destruct (IH (S k) (sent ++ [f]) fuel) as [err ->]; [lia|done..|]. rewrite <- app_assoc. by exists err.
Qed.

Lemma length_wires fs : Forall Frame.wf fs -> (length fs <= length (wires fs))%nat.
Proof.
  induction 1 as [|f fs Hf _ IH]; [done|]. cbn. rewrite length_app.
  pose proof (Stream.length_wire_pos f Hf). lia.
Qed.

(** C14: the connection carries frames faithfully: however the two tasks, the
    application and the network interleave, wherever writes fail and wherever
    [stop] cuts the writing task, within a write too, the frames the application
    has submitted are, in order, those a reader of what has been written to the
    outbound stream gets, at most one whose write failed or was cut, and those
    still in the channel; once the stream is finished, without a failed write and
    without a [stop], nothing that was submitted is missing; and the frames the
    application has taken are the first frames of the server's stream, in order,
    none twice and none left out.  The frames submitted are well formed. *)
Theorem connection_carries ls c taken :
  Forall Frame.wf (submitted ls) -> exec_steps ls start = Some (c, taken) ->
  (exists written, submitted ls = written ++ lost (main c) ++ to_server c /\
    (forall e, exists err, Stream.read_frames_loop (S (length (outbound c))) (fun _ => true) 0
      (Stream.mk_recv (outbound c) e) [] = Some (written, err)) /\
    (finished c = true -> lost (main c) = [] -> unstopped ls = true -> written = submitted ls)) /\
  match accepted ls with
  | None => taken = []
  | Some r => Forall Frame.wf taken /\ exists rest, Stream.rs_data r = wires taken ++ rest
  end.
Proof.
  intros Hwf E.
  destruct (steps_carry ls start c [] taken [] None [] Hwf) as [[written Ho] Hi]; try done.
  { split; [done|]. by exists []. }
  rewrite (left_id_L None (∪)) in Hi. cbn [app] in *.
  split.
  - destruct Ho as (Hs & part & Hb & Hl). exists written. split; [done|].
    split.
    2:{ intros Hf Hn Hu. pose proof (steps_complete ls start c taken Hu ltac:(done) E) as Hcomp.
        rewrite Hs, Hn, (proj2 (Hcomp Hf) Hn). by rewrite !app_nil_r. }
    intros e. rewrite Hb. rewrite Hs in Hwf. apply Forall_app in Hwf as [Hw [Hlost _]%Forall_app].
    pose proof (length_wires written Hw) as Hlen.
    apply (read_loop_part written part e 0 []); [rewrite length_app; lia|done|].
    destruct (lost (main c)) as [|f]; [by left|]. right. exists f. inversion Hlost; subst.
    by destruct Hl.
  - destruct Hi as [Hi _]. destruct (accepted ls) as [r|]; [|by destruct Hi].
    destruct Hi as (_ & gone & rest & Hd & Hw & _). apply Forall_app in Hw as [Hw _].
    split; [done|]. rewrite Stream.wires_app, <- app_assoc in Hd. by eexists.
Qed.

(** [stop] aborts the task that writes and not the one that reads: frames of the
    server are still handed to the application afterwards. *)
Theorem stop_keeps_reading c r f r' :
  (forall l, main c <> MDone l) -> receiver c = RReading r -> read_turn r = inl (f, r') ->
  from_server_closed c = false -> (length (from_server c) < CHANNEL_SIZE)%nat ->
  exists c', exec_steps [LStop; LRead] c = Some (c', []) /\ from_server c' = from_server c ++ [f] /\
    outbound c' = outbound c.
Proof.
  intros Hm Hr Hf Hc Hl. cbn [exec_steps].
  assert (Hstop : exists l o, exec_step LStop c = Some (abort_main l o c, [])).
  { cbn. destruct (main c) as [| |[|] e|l]; [by eexists _, _..|]. by destruct (Hm l). }
  destruct Hstop as (l & o & ->). cbn [mbind option_bind]. cbn [exec_step]. cbn [receiver abort_main
    from_server_closed from_server]. rewrite Hr, Hf, Hc, (proj2 (Nat.ltb_lt _ _) Hl). cbn.
  eexists. split_and!; reflexivity.
Qed.

End tasks.
End ClientConnection.

(** ** Samples *)

Section samples.

#[local] Existing Instance bare_tls.

(** A network that refuses every connection. *)
Definition no_quic : Quic unit := {|
  Endpoint := unit; Connecting := unit; QuicConnection := unit;
  endpoint_client _ q := (q, Ok tt);
  endpoint_connect _ _ _ q := (q, Ok tt);
  handshake _ _ q := (q, None);
  fmt_read_exact_error _ := "read"%string;
|}.

#[local] Existing Instance no_quic.

Example parse_addresses :
  map AddrParser.parse ["127.0.0.1:4433"; "[::1]:4433"; "[2001:db8::1:0:0:1%7]:65535";
                        "[::ffff:10.0.0.1]:80"; "1.2.3.04:1"; "1.2.3.4:65536"; "1.2.3.4"]%string
  = [Some (V4 [127; 0; 0; 1] 4433); Some (V6 [0; 0; 0; 0; 0; 0; 0; 1] 0 4433);
     Some (V6 [0x2001; 0xdb8; 0; 0; 1; 0; 0; 1] 7 65535);
     Some (V6 [0; 0; 0; 0; 0; 0xffff; 0x0a00; 1] 0 80); None; None; None].
Proof. vm_compute. reflexivity. Qed.

(** The default server of the terminal application is not an address. *)
Theorem default_server_refused {Q} {rustls : Rustls} `{!Quic Q} (q : Q) config :
  connect_with_config "localhost:4433" config q
  = (q, Err (TEConnection "invalid address: invalid socket address syntax")).
Proof. reflexivity. Qed.

(** Two frames out, the second cut after three bytes, and one frame in. *)
Definition sample_run : list ClientConnection.label :=
  let open := ClientConnection.LOpen in
  [ClientConnection.LSubmit Frame.sample; open;
   ClientConnection.LAccept (Stream.mk_recv (Frame.wire Frame.sample ++ Frame.wire Frame.sample) Stream.Finished);
   ClientConnection.LSubmit Frame.sample; ClientConnection.LWrite; ClientConnection.LRead;
   ClientConnection.LWriteFails 3 "reset"; ClientConnection.LReportMain; ClientConnection.LTake].

Lemma connection_carries_witness :
  exists c, ClientConnection.exec_steps sample_run ClientConnection.start = Some (c, [Frame.sample]) /\
    ClientConnection.errors c = [TEStream "write failed: reset"] /\
    exists rest, Frame.wire Frame.sample ++ Frame.wire Frame.sample
      = concat (map Frame.wire [Frame.sample]) ++ rest.
Proof.
  destruct (ClientConnection.exec_steps sample_run ClientConnection.start) as [[c taken]|] eqn:E;
    [|vm_compute in E; discriminate E].
  assert (Hp : option_map (fun p => (snd p, ClientConnection.errors (fst p)))
    (ClientConnection.exec_steps sample_run ClientConnection.start)
    = Some ([Frame.sample], [TEStream "write failed: reset"])) by (vm_compute; reflexivity).
  rewrite E in Hp. injection Hp as -> He. exists c. split; [done|]. split; [done|].
  refine (proj2 (proj2 (ClientConnection.connection_carries sample_run c [Frame.sample] _ E))).
  repeat constructor; vm_compute; repeat split; discriminate.
Defined.

Lemma stop_keeps_reading_witness :
  exists c', ClientConnection.exec_steps [ClientConnection.LStop; ClientConnection.LRead]
    (ClientConnection.set_receiver
       (ClientConnection.RReading (Stream.mk_recv (Frame.wire Frame.sample) Stream.Finished))
       ClientConnection.start) = Some (c', []) /\ ClientConnection.from_server c' = [Frame.sample].
Proof.
  destruct (ClientConnection.stop_keeps_reading
    (ClientConnection.set_receiver
       (ClientConnection.RReading (Stream.mk_recv (Frame.wire Frame.sample) Stream.Finished))
       ClientConnection.start) _ Frame.sample (Stream.mk_recv [] Stream.Finished)
    ltac:(done) eq_refl ltac:(vm_compute; reflexivity) eq_refl ltac:(cbn; unfold ClientConnection.CHANNEL_SIZE; lia))
    as (c' & H1 & H2 & _).
  exists c'. exact (conj H1 H2).
Defined.

End samples.
