(* ===== verification/Payloads.v ===== *)
(** * Payloads

    The payload structs and the [Payload] enum of
    [lockframe-proto/src/payloads/], with the conversions between payloads and
    frames.  CBOR serialisation is the [ciborium] crate: its encoder and decoder
    for each struct are the fields of the class [Ciborium], with the round trip
    of a serde codec as their law. *)

From S2P Require Import Prelude Opcodes Header Framing.

Local Open Scope N_scope.

(** ** Session management ([session.rs]) *)

Record Hello := mkHello {
  hello_version : N;
  hello_capabilities : list string;
  hello_sender_id : option N;
  hello_auth_token : option bytes }.

Record HelloReply := mkHelloReply {
  reply_session_id : N;
  reply_capabilities : list string;
  reply_challenge : option bytes }.

Record Goodbye := mkGoodbye { goodbye_reason : string }.

Record SyncRequest := mkSyncRequest { from_log_index : N; limit : N }.

(** The value of a missing [limit]. *)
Definition default_limit : N := 100.

Record SyncResponse := mkSyncResponse {
  sync_frames : list bytes;
  has_more : bool;
  server_epoch : N }.

(** ** MLS operations ([mls.rs]) *)

Record KeyPackageData := mkKeyPackageData { kpd_key_package_bytes : bytes }.

Inductive ProposalType :=
  | PtAdd | PtRemove | PtUpdate | PtPSK | PtReInit | PtExternalInit
  | PtGroupContextExtensions.

Record ProposalData := mkProposalData {
  proposal_bytes : bytes;
  proposal_type : ProposalType }.

Record CommitData := mkCommitData {
  commit_bytes : bytes;
  commit_new_epoch : N;
  commit_tree_hash : bytes;
  commit_is_external : bool }.

Record WelcomeData := mkWelcomeData { welcome_bytes : bytes; welcome_epoch : N }.

Record KeyPackagePublishRequest := mkKeyPackagePublishRequest {
  kpp_key_package_bytes : bytes;
  kpp_hash_ref : bytes }.

Record KeyPackageFetchPayload := mkKeyPackageFetchPayload {
  kpf_user_id : N;
  kpf_key_package_bytes : bytes;
  kpf_hash_ref : bytes }.

Record GroupInfoRequest := mkGroupInfoRequest { gir_room_id : N }.

Record GroupInfoPayload := mkGroupInfoPayload {
  gip_room_id : N;
  gip_epoch : N;
  gip_group_info_bytes : bytes }.

(** ** Application messages ([app.rs]) *)

Record PushKey := mkPushKey { push_recipient_id : N; push_encrypted_key : bytes }.

Record EncryptedMessage := mkEncryptedMessage {
  em_epoch : N;
  em_sender_index : N;
  em_generation : N;
  em_nonce : bytes;
  em_ciphertext : bytes;
  em_push_keys : option (list PushKey) }.

Inductive ReceiptType := Delivered | ReadReceipt.

Record Receipt := mkReceipt {
  receipt_message_log_index : N;
  receipt_kind : ReceiptType;
  receipt_timestamp : N }.

Record Reaction := mkReaction {
  reaction_message_log_index : N;
  reaction_content : string;
  reaction_add : bool }.

(** ** Moderation ([moderation.rs]) *)

Record Redact := mkRedact {
  redact_message_log_index : N;
  redact_reason : string;
  redact_moderator_id : N }.

Record Ban := mkBan {
  ban_user_id : N;
  ban_reason : string;
  ban_duration_secs : option N;
  ban_moderator_id : N }.

Record Kick := mkKick {
  kick_user_id : N;
  kick_reason : string;
  kick_moderator_id : N }.

(** ** Error frames *)

Module ErrorPayload.

Record t := mk {
  code : N;
  message : string;
  retry_after : option N }.

Definition FRAME_REJECTED : N := 0x0001.
Definition ROOM_NOT_FOUND : N := 0x0002.
Definition STORAGE_ERROR : N := 0x0003.
Definition INVALID_PAYLOAD : N := 0x0004.
Definition MLS_ERROR : N := 0x0005.
Definition SEQUENCER_ERROR : N := 0x0006.
Definition KEYPACKAGE_NOT_FOUND : N := 0x0007.

Definition frame_rejected (reason : string) : t := mk FRAME_REJECTED reason None.
Definition room_not_found (room_id : N) : t :=
  mk ROOM_NOT_FOUND ("room not found: " +:+ fmt_hex 32 room_id) None.
Definition storage_error (msg : string) : t := mk STORAGE_ERROR msg None.
Definition invalid_payload (msg : string) : t := mk INVALID_PAYLOAD msg None.
Definition mls_error (msg : string) : t := mk MLS_ERROR msg None.
Definition sequencer_error (msg : string) : t := mk SEQUENCER_ERROR msg None.
Definition keypackage_not_found (user_id : N) : t :=
  mk KEYPACKAGE_NOT_FOUND ("no KeyPackage for user " +:+ pretty user_id) None.

End ErrorPayload.

#[global] Instance hello_eq_dec : EqDecision Hello.
Proof. solve_decision. Defined.
#[global] Instance hello_reply_eq_dec : EqDecision HelloReply.
Proof. solve_decision. Defined.
#[global] Instance goodbye_eq_dec : EqDecision Goodbye.
Proof. solve_decision. Defined.
#[global] Instance sync_request_eq_dec : EqDecision SyncRequest.
Proof. solve_decision. Defined.
#[global] Instance sync_response_eq_dec : EqDecision SyncResponse.
Proof. solve_decision. Defined.
#[global] Instance key_package_data_eq_dec : EqDecision KeyPackageData.
Proof. solve_decision. Defined.
#[global] Instance proposal_type_eq_dec : EqDecision ProposalType.
Proof. solve_decision. Defined.
#[global] Instance proposal_data_eq_dec : EqDecision ProposalData.
Proof. solve_decision. Defined.
#[global] Instance commit_data_eq_dec : EqDecision CommitData.
Proof. solve_decision. Defined.
#[global] Instance welcome_data_eq_dec : EqDecision WelcomeData.
Proof. solve_decision. Defined.
#[global] Instance kpp_eq_dec : EqDecision KeyPackagePublishRequest.
Proof. solve_decision. Defined.
#[global] Instance kpf_eq_dec : EqDecision KeyPackageFetchPayload.
Proof. solve_decision. Defined.
#[global] Instance gir_eq_dec : EqDecision GroupInfoRequest.
Proof. solve_decision. Defined.
#[global] Instance gip_eq_dec : EqDecision GroupInfoPayload.
Proof. solve_decision. Defined.
#[global] Instance push_key_eq_dec : EqDecision PushKey.
Proof. solve_decision. Defined.
#[global] Instance encrypted_message_eq_dec : EqDecision EncryptedMessage.
Proof. solve_decision. Defined.
#[global] Instance receipt_type_eq_dec : EqDecision ReceiptType.
Proof. solve_decision. Defined.
#[global] Instance receipt_eq_dec : EqDecision Receipt.
Proof. solve_decision. Defined.
#[global] Instance reaction_eq_dec : EqDecision Reaction.
Proof. solve_decision. Defined.
#[global] Instance redact_eq_dec : EqDecision Redact.
Proof. solve_decision. Defined.
#[global] Instance ban_eq_dec : EqDecision Ban.
Proof. solve_decision. Defined.
#[global] Instance kick_eq_dec : EqDecision Kick.
Proof. solve_decision. Defined.
#[global] Instance error_payload_eq_dec : EqDecision ErrorPayload.t.
Proof. solve_decision. Defined.

(** ** CBOR

    [ciborium::ser::into_writer] into a fresh buffer and
    [ciborium::de::from_reader]; an error is its message. *)

Class CborCodec (T : Type) := {
  into_writer : T -> string + bytes;
  from_reader : bytes -> string + T;
  from_reader_into_writer x bs : into_writer x = inr bs -> from_reader bs = inr x;
}.

Class Ciborium := {
  cbor_hello :: CborCodec Hello;
  cbor_hello_reply :: CborCodec HelloReply;
  cbor_goodbye :: CborCodec Goodbye;
  cbor_sync_request :: CborCodec SyncRequest;
  cbor_sync_response :: CborCodec SyncResponse;
  cbor_key_package :: CborCodec KeyPackageData;
  cbor_proposal :: CborCodec ProposalData;
  cbor_commit :: CborCodec CommitData;
  cbor_welcome :: CborCodec WelcomeData;
  cbor_key_package_publish :: CborCodec KeyPackagePublishRequest;
  cbor_key_package_fetch :: CborCodec KeyPackageFetchPayload;
  cbor_group_info_request :: CborCodec GroupInfoRequest;
  cbor_group_info :: CborCodec GroupInfoPayload;
  cbor_app_message :: CborCodec EncryptedMessage;
  cbor_receipt :: CborCodec Receipt;
  cbor_reaction :: CborCodec Reaction;
  cbor_redact :: CborCodec Redact;
  cbor_ban :: CborCodec Ban;
  cbor_kick :: CborCodec Kick;
  cbor_error :: CborCodec ErrorPayload.t;

  (** An integer that is read is of the width of its field. *)
  sync_request_typed bs req : from_reader bs = inr req ->
    from_log_index req < 2 ^ 64 /\ limit req < 2 ^ 64;
  group_info_request_typed bs req : from_reader bs = inr req -> gir_room_id req < 2 ^ 128;
  group_info_typed bs info : from_reader bs = inr info ->
    gip_room_id info < 2 ^ 128 /\ gip_epoch info < 2 ^ 64;
  app_message_typed bs msg : from_reader bs = inr msg ->
    em_epoch msg < 2 ^ 64 /\ em_sender_index msg < 2 ^ 32 /\ em_generation msg < 2 ^ 32 /\
    length (em_nonce msg) = 24%nat;

  (** Every byte of a byte string that is read takes a byte of its encoding,
      and a response has bytes of its own. *)
  sync_response_size bs resp : from_reader bs = inr resp ->
    Forall (fun fb => (length fb < length bs)%nat) (sync_frames resp);
}.

(** What the client relies on of the encoder: a message of the client can be
    encoded, and an encoding takes at most two bytes for each byte of a byte
    string, and a few for the names and numbers. *)
Class CborSizes `{Ciborium} := {
  app_message_encodes (m : EncryptedMessage) :
    em_epoch m < 2 ^ 64 -> em_sender_index m < 2 ^ 32 -> em_generation m < 2 ^ 32 ->
    length (em_nonce m) = 24%nat -> em_push_keys m = None -> exists bs, into_writer m = inr bs;
  app_message_size (m : EncryptedMessage) bs :
    into_writer m = inr bs -> em_push_keys m = None ->
    len bs <= 256 + 2 * (len (em_nonce m) + len (em_ciphertext m));
  group_info_size (i : GroupInfoPayload) bs :
    into_writer i = inr bs -> len bs <= 256 + 2 * len (gip_group_info_bytes i);
  group_info_encodes (i : GroupInfoPayload) :
    gip_room_id i < 2 ^ 128 -> gip_epoch i < 2 ^ 64 -> exists bs, into_writer i = inr bs;
  key_package_publish_size (k : KeyPackagePublishRequest) bs :
    into_writer k = inr bs ->
    len bs <= 256 + 2 * (len (kpp_key_package_bytes k) + len (kpp_hash_ref k));
  key_package_fetch_size (k : KeyPackageFetchPayload) bs :
    into_writer k = inr bs ->
    len bs <= 256 + 2 * (len (kpf_key_package_bytes k) + len (kpf_hash_ref k));
  group_info_request_size (r : GroupInfoRequest) bs : into_writer r = inr bs -> len bs <= 256;
  sync_request_size (r : SyncRequest) bs : into_writer r = inr bs -> len bs <= 256;
  hello_size (h : Hello) bs : into_writer h = inr bs -> hello_capabilities h = [] ->
    hello_auth_token h = None -> len bs <= 256;
  hello_reply_size (r : HelloReply) bs : into_writer r = inr bs -> reply_capabilities r = [] ->
    reply_challenge r = None -> len bs <= 256;
  goodbye_size (g : Goodbye) bs : into_writer g = inr bs ->
    len bs <= 256 + 2 * N.of_nat (String.length (goodbye_reason g));
}.

Module Payload.

Inductive t : Type :=
  | Hello (inner : Payloads.Hello)
  | HelloReply (inner : Payloads.HelloReply)
  | Goodbye (inner : Payloads.Goodbye)
  | Ping
  | Pong
  | SyncRequest (inner : Payloads.SyncRequest)
  | SyncResponse (inner : Payloads.SyncResponse)
  | KeyPackage (inner : KeyPackageData)
  | Proposal (inner : ProposalData)
  | Commit (inner : CommitData)
  | Welcome (inner : WelcomeData)
  | KeyPackagePublish (inner : KeyPackagePublishRequest)
  | KeyPackageFetch (inner : KeyPackageFetchPayload)
  | GroupInfoRequest (inner : Payloads.GroupInfoRequest)
  | GroupInfo (inner : GroupInfoPayload)
  | AppMessage (inner : EncryptedMessage)
  | AppReceipt (inner : Receipt)
  | AppReaction (inner : Reaction)
  | Redact (inner : Payloads.Redact)
  | Ban (inner : Payloads.Ban)
  | Kick (inner : Payloads.Kick)
  | Error (inner : ErrorPayload.t).

#[global] Instance payload_eq_dec : EqDecision t.
Proof. solve_decision. Defined.

Definition opcode (p : t) : Opcode.t :=
  match p with
  | Hello _ => Opcode.Hello
  | HelloReply _ => Opcode.HelloReply
  | Goodbye _ => Opcode.Goodbye
  | Ping => Opcode.Ping
  | Pong => Opcode.Pong
  | SyncRequest _ => Opcode.SyncRequest
  | SyncResponse _ => Opcode.SyncResponse
  | KeyPackage _ => Opcode.KeyPackage
  | Proposal _ => Opcode.Proposal
  | Commit _ => Opcode.Commit
  | Welcome _ => Opcode.Welcome
  | KeyPackagePublish _ => Opcode.KeyPackagePublish
  | KeyPackageFetch _ => Opcode.KeyPackageFetch
  | GroupInfoRequest _ => Opcode.GroupInfoRequest
  | GroupInfo _ => Opcode.GroupInfo
  | AppMessage _ => Opcode.AppMessage
  | AppReceipt _ => Opcode.AppReceipt
  | AppReaction _ => Opcode.AppReaction
  | Redact _ => Opcode.Redact
  | Ban _ => Opcode.Ban
  | Kick _ => Opcode.Kick
  | Error _ => Opcode.Error
  end.

Section codec.
Context `{Ciborium}.

(** [encode p dst] is [dst] after [p.encode(&mut dst)]. *)
Definition encode (p : t) (dst : bytes) : res ProtocolError.t bytes :=
  let written :=
    match p with
    | Hello inner => into_writer inner
    | HelloReply inner => into_writer inner
    | Goodbye inner => into_writer inner
    | Ping | Pong => inr []
    | SyncRequest inner => into_writer inner
    | SyncResponse inner => into_writer inner
    | KeyPackage inner => into_writer inner
    | Proposal inner => into_writer inner
    | Commit inner => into_writer inner
    | Welcome inner => into_writer inner
    | KeyPackagePublish inner => into_writer inner
    | KeyPackageFetch inner => into_writer inner
    | GroupInfoRequest inner => into_writer inner
    | GroupInfo inner => into_writer inner
    | AppMessage inner => into_writer inner
    | AppReceipt inner => into_writer inner
    | AppReaction inner => into_writer inner
    | Redact inner => into_writer inner
    | Ban inner => into_writer inner
    | Kick inner => into_writer inner
    | Error inner => into_writer inner
    end in
  match written with
  | inl e => Err (ProtocolError.CborEncode e)
  | inr bs => Ok (dst ++ bs)
  end.

Definition read_as {T} `{CborCodec T} (variant : T -> t) (b : bytes)
    : res ProtocolError.t t :=
  match from_reader b with
  | inl e => Err (ProtocolError.CborDecode e)
  | inr inner => Ok (variant inner)
  end.

Definition decode (opcode : Opcode.t) (b : bytes) : res ProtocolError.t t :=
  if FrameHeader.MAX_PAYLOAD_SIZE <? len b then
    Err (ProtocolError.PayloadTooLarge (len b) FrameHeader.MAX_PAYLOAD_SIZE)
  else
    match opcode with
    | Opcode.Hello => read_as Hello b
    | Opcode.HelloReply => read_as HelloReply b
    | Opcode.Goodbye => read_as Goodbye b
    | Opcode.Ping => Ok Ping
    | Opcode.Pong => Ok Pong
    | Opcode.SyncRequest => read_as SyncRequest b
    | Opcode.SyncResponse => read_as SyncResponse b
    | Opcode.KeyPackage => read_as KeyPackage b
    | Opcode.Proposal => read_as Proposal b
    | Opcode.Commit => read_as Commit b
    | Opcode.Welcome => read_as Welcome b
    | Opcode.KeyPackagePublish => read_as KeyPackagePublish b
    | Opcode.KeyPackageFetch => read_as KeyPackageFetch b
    | Opcode.GroupInfoRequest => read_as GroupInfoRequest b
    | Opcode.GroupInfo => read_as GroupInfo b
    | Opcode.AppMessage => read_as AppMessage b
    | Opcode.AppReceipt => read_as AppReceipt b
    | Opcode.AppReaction => read_as AppReaction b
    | Opcode.Redact => read_as Redact b
    | Opcode.Ban => read_as Ban b
    | Opcode.Kick => read_as Kick b
    | Opcode.Error => read_as Error b
    | _ => Err (ProtocolError.CborDecode
                  ("Unsupported opcode: 0x" +:+ fmt_hex 4 (Opcode.to_u16 opcode)))
    end.

(** [header.opcode = ..] of [into_frame]. *)
Definition set_opcode (op : Opcode.t) (h : FrameHeader.t) : FrameHeader.t :=
  FrameHeader.mk (FrameHeader.f_magic h) (FrameHeader.f_version h)
    (FrameHeader.f_flags h) (to_be_bytes 2 (Opcode.to_u16 op))
    (FrameHeader.f_request_id h) (FrameHeader.f_payload_size h)
    (FrameHeader.f_room_id h) (FrameHeader.f_sender_id h)
    (FrameHeader.f_context_id h) (FrameHeader.f_hlc_timestamp h)
    (FrameHeader.f_epoch h) (FrameHeader.f_signature h).

Definition into_frame (p : t) (header : FrameHeader.t) : res ProtocolError.t Frame.t :=
  buf ← encode p [];
  Frame.new (set_opcode (opcode p) header) buf.

Definition from_frame (frame : Frame.t) : res ProtocolError.t t :=
  op ← ok_or (FrameHeader.opcode_enum (Frame.header frame))
    (ProtocolError.CborDecode
       ("Invalid opcode: 0x" +:+ fmt_hex 4 (FrameHeader.opcode (Frame.header frame))));
  decode op (Frame.payload frame).

(** ** Lemmas *)

Lemma read_as_Ok {T} `{CborCodec T} (variant : T -> t) b p :
  read_as variant b = Ok p -> exists x, from_reader b = inr x /\ p = variant x.
Proof. unfold read_as. case_match; naive_solver. Qed.

Lemma from_frame_sync_request frame req :
  from_frame frame = Ok (SyncRequest req) -> from_log_index req < 2 ^ 64 /\ limit req < 2 ^ 64.
Proof.
  unfold from_frame, decode. destruct (FrameHeader.opcode_enum _) as [[]|]; cbn; try done;
    repeat case_match; try done; intros (x & Hr & [= ->])%read_as_Ok.
  by apply sync_request_typed in Hr.
Qed.

Lemma from_frame_group_info frame info :
  from_frame frame = Ok (GroupInfo info) -> gip_room_id info < 2 ^ 128 /\ gip_epoch info < 2 ^ 64.
Proof.
  unfold from_frame, decode. destruct (FrameHeader.opcode_enum _) as [[]|]; cbn; try done;
    repeat case_match; try done; intros (x & Hr & [= ->])%read_as_Ok.
  by apply group_info_typed in Hr.
Qed.

Lemma from_frame_group_info_request frame req :
  from_frame frame = Ok (GroupInfoRequest req) -> gir_room_id req < 2 ^ 128.
Proof.
  unfold from_frame, decode. destruct (FrameHeader.opcode_enum _) as [[]|]; cbn; try done;
    repeat case_match; try done; intros (x & Hr & [= ->])%read_as_Ok.
  by apply group_info_request_typed in Hr.
Qed.

Lemma read_as_no_panic {T} `{CborCodec T} (variant : T -> t) b :
  read_as variant b <> Panic.
Proof. unfold read_as. by case_match. Qed.

Lemma decode_opcode op b p : decode op b = Ok p -> opcode p = op.
Proof.
  unfold decode. case_match; [done|]. intros E.
  destruct op; try discriminate E;
    try (apply read_as_Ok in E as (x & _ & ->); done); by injection E as <-.
Qed.

Lemma payload_decode_no_panic op b : decode op b <> Panic.
Proof.
  unfold decode. case_match; [done|].
  destruct op; try done; apply read_as_no_panic.
Qed.

Lemma decode_encode p bs :
  encode p [] = Ok bs -> len bs <= FrameHeader.MAX_PAYLOAD_SIZE ->
  decode (opcode p) bs = Ok p.
Proof.
  unfold encode, decode. intros E Hl. rewrite (proj2 (N.ltb_ge _ _)) by done.
  destruct p; simpl in E |- *; try done;
    match type of E with
    | match ?w with _ => _ end = _ => destruct w eqn:Hw; [discriminate|]
    end; injection E as <-; unfold read_as;
    by rewrite (from_reader_into_writer _ _ Hw).
Qed.

Lemma opcode_set_opcode op h : FrameHeader.opcode (set_opcode op h) = Opcode.to_u16 op.
Proof.
  unfold FrameHeader.opcode, set_opcode. simpl FrameHeader.f_opcode.
  apply (from_to_be_bytes 2), Opcode.to_u16_lt.
Qed.

Lemma set_opcode_wf op h : FrameHeader.wf h -> FrameHeader.wf (set_opcode op h).
Proof. intros (?&?&?&?&?&?&?&?&?&?). unfold FrameHeader.wf. simpl. auto 20 with lockframe. Qed.

Lemma encode_no_panic p dst : encode p dst <> Panic.
Proof. unfold encode. by repeat case_match. Qed.

Lemma encode_dst p dst bs : encode p dst = Ok bs ->
  exists bs', encode p [] = Ok bs' /\ bs = dst ++ bs'.
Proof. unfold encode. case_match; [done|]. intros [= <-]. eauto. Qed.

Lemma into_frame_Ok p h f :
  into_frame p h = Ok f ->
  exists bs, encode p [] = Ok bs /\ len bs < 2 ^ 32 /\
    f = Frame.mk (FrameHeader.set_payload_size (len bs) (set_opcode (opcode p) h)) bs.
Proof.
  unfold into_frame. destruct (encode p []) as [bs|e|]; simpl; [|done..].
  unfold Frame.new, u32_MAX. destruct (N.ltb_spec (2 ^ 32 - 1) (len bs)); [done|].
  intros [= <-]. exists bs. split_and!; try done. lia.
Qed.

Lemma opcode_enum_into_frame p h f :
  into_frame p h = Ok f -> FrameHeader.opcode_enum (Frame.header f) = Some (opcode p).
Proof.
  intros (bs & _ & _ & ->)%into_frame_Ok. apply FrameHeader.opcode_enum_Some.
  exact (opcode_set_opcode (opcode p) h).
Qed.

(** ** Properties *)

(** C30: a payload put into a frame comes back out of it: for every payload
    that serialises within the 16 MiB limit, [into_frame] gives a well-formed
    frame on a valid header, carrying the payload's opcode, and [from_frame]
    of that frame is the payload. *)
Theorem payload_roundtrip p h bs :
  FrameHeader.wf h -> FrameHeader.valid h ->
  encode p [] = Ok bs -> len bs <= FrameHeader.MAX_PAYLOAD_SIZE ->
  exists f, into_frame p h = Ok f /\ Frame.wf f /\ Frame.payload f = bs /\
    FrameHeader.opcode (Frame.header f) = Opcode.to_u16 (opcode p) /\
    from_frame f = Ok p.
Proof.
  intros Hw (Hm & Hv & _) He Hl.
  destruct (Frame.new_frame_wf (E := ProtocolError.t) (set_opcode (opcode p) h) bs)
    as (f & Hf & Hwf & Hp); try done.
  { by apply set_opcode_wf. }
  assert (Hi : into_frame p h = Ok f) by (unfold into_frame; by rewrite He).
  exists f. split_and!; try done.
  - by apply FrameHeader.opcode_enum_Some, (opcode_enum_into_frame p h).
  - unfold from_frame. rewrite (opcode_enum_into_frame p h f Hi). cbn.
    rewrite Hp. by apply decode_encode.
Qed.

(** A decoded payload is always of the variant the frame's opcode names,
    so an opcode and a payload of different kinds cannot be combined; decoding
    never panics, and an opcode without a payload type is always refused. *)
Theorem from_frame_opcode f :
  from_frame f <> Panic /\
  (forall p, from_frame f = Ok p ->
     FrameHeader.opcode_enum (Frame.header f) = Some (opcode p) /\
     len (Frame.payload f) <= FrameHeader.MAX_PAYLOAD_SIZE) /\
  (forall op, FrameHeader.opcode_enum (Frame.header f) = Some op ->
     (forall p, opcode p <> op) -> exists e, from_frame f = Err e).
Proof.
  unfold from_frame. destruct (FrameHeader.opcode_enum _) as [op|]; cbn; [|naive_solver].
  split_and!.
  - apply payload_decode_no_panic.
  - intros p Hd. rewrite (decode_opcode _ _ _ Hd). split; [done|].
    unfold decode in Hd. destruct (N.ltb_spec FrameHeader.MAX_PAYLOAD_SIZE (len (Frame.payload f)));
      [done|]. done.
  - intros op' [= <-] Hno. destruct (decode op (Frame.payload f)) as [p|e|] eqn:Hd; [|eauto|].
    + by apply decode_opcode, Hno in Hd.
    + by apply payload_decode_no_panic in Hd.
Qed.

Lemma into_frame_answers (p : t) h :
  (forall bs, encode p [] = Ok bs -> len bs <= u32_MAX) -> encode p [] <> Panic ->
  into_frame p h <> Panic.
Proof.
  intros Hs Hp. unfold into_frame. destruct (encode p []) as [bs| |]; [|done..].
  cbn. unfold Frame.new. case_match; [|done]. bool2prop. specialize (Hs bs eq_refl). lia.
Qed.

End codec.
End Payload.

(** A payload whose size a law bounds fits a frame. *)
Ltac frame_size law :=
  apply Payload.into_frame_answers; unfold Payload.encode; cbv beta iota zeta;
  match goal with |- context [into_writer ?x] =>
    let Hw := fresh in destruct (into_writer x) as [?|?] eqn:Hw; [done|];
    try (intros ? [= <-]; apply law in Hw; cbn in Hw; unfold len, u32_MAX in *; simpl length in Hw; lia); done
  end.

(** ** A concrete codec

    A codec that numbers the values of a finite table, to evaluate the model
    on concrete payloads. *)

Definition table_into_writer {T} `{EqDecision T} (table : list T) (x : T) : string + bytes :=
  match list_find (x =.) table with
  | Some (i, _) => if (i <? 256)%nat then inr [byte_of (N.of_nat i)] else inl "table"%string
  | None => inl "table"%string
  end.

Definition table_from_reader {T} (table : list T) (b : bytes) : string + T :=
  match b with
  | [i] => match table !! N.to_nat (Byte.to_N i) with
           | Some x => inr x
           | None => inl "table"%string
           end
  | _ => inl "table"%string
  end.

Lemma table_round_trip {T} `{EqDecision T} (table : list T) x bs :
  table_into_writer table x = inr bs -> table_from_reader table bs = inr x.
Proof.
  unfold table_into_writer. destruct (list_find _ _) as [[i y]|] eqn:E; [|done].
  apply list_find_Some in E as (Hl & -> & _).
  destruct (Nat.ltb_spec i 256); [|done]. intros [= <-]. unfold table_from_reader.
  rewrite to_N_byte_of, N.mod_small, Nat2N.id by lia. by rewrite Hl.
Qed.

Definition table_codec {T} `{EqDecision T} (table : list T) : CborCodec T :=
  {| into_writer := table_into_writer table;
     from_reader := table_from_reader table;
     from_reader_into_writer := table_round_trip table |}.

Lemma table_from_reader_Forall {T} `{EqDecision T} (table : list T) (P : T -> Prop) bs x :
  Forall P table -> from_reader (CborCodec := table_codec table) bs = inr x -> P x.
Proof.
  intros HP. cbn. unfold table_from_reader. destruct bs as [|i [|]]; try done.
  destruct (table !! _) as [y|] eqn:E; [|done]. intros [= ->].
  by eapply Forall_lookup_1.
Qed.

Definition sample_ciborium : Ciborium.
Proof.
refine {|
  cbor_hello := table_codec [mkHello 1 [] None None; mkHello 1 [] (Some 42) None;
                             mkHello 2 [] None None];
  cbor_hello_reply := table_codec [mkHelloReply 7 [] None; mkHelloReply 8 [] None;
    mkHelloReply 0x1000000000000000 [] None];
  cbor_goodbye := table_codec [mkGoodbye "bye"];
  cbor_sync_request := table_codec [mkSyncRequest 0 10; mkSyncRequest 1 u64_MAX];
  cbor_sync_response := table_codec [];
  cbor_key_package := table_codec [];
  cbor_proposal := table_codec [];
  cbor_commit := table_codec [];
  cbor_welcome := table_codec [];
  cbor_key_package_publish := table_codec [];
  cbor_key_package_fetch := table_codec [];
  cbor_group_info_request := table_codec [mkGroupInfoRequest 5];
  cbor_group_info := table_codec [mkGroupInfoPayload 5 0 [Init.Byte.x2a]];
  cbor_app_message := table_codec [];
  cbor_receipt := table_codec [];
  cbor_reaction := table_codec [];
  cbor_redact := table_codec [];
  cbor_ban := table_codec [];
  cbor_kick := table_codec [];
  cbor_error := table_codec [ErrorPayload.room_not_found 5];
|}.
- intros bs req. apply (table_from_reader_Forall _
    (fun req => from_log_index req < 2 ^ 64 /\ limit req < 2 ^ 64)). repeat constructor.
- intros bs req. apply (table_from_reader_Forall _ (fun req => gir_room_id req < 2 ^ 128)).
  repeat constructor.
- intros bs info. apply (table_from_reader_Forall _
    (fun info => gip_room_id info < 2 ^ 128 /\ gip_epoch info < 2 ^ 64)). repeat constructor.
- intros bs msg. apply (table_from_reader_Forall _ (fun msg =>
    em_epoch msg < 2 ^ 64 /\ em_sender_index msg < 2 ^ 32 /\ em_generation msg < 2 ^ 32 /\
    length (em_nonce msg) = 24%nat)). constructor.
- intros bs resp. apply (table_from_reader_Forall _ (fun resp =>
    Forall (fun fb => (length fb < length bs)%nat) (sync_frames resp))). constructor.
Defined.

Lemma payload_roundtrip_witness :
  exists f, Payload.into_frame (H := sample_ciborium)
              (Payload.SyncRequest (mkSyncRequest 1 u64_MAX))
              (FrameHeader.new Opcode.Hello) = Ok f /\
    Frame.wf f /\ Frame.payload f = [Init.Byte.x01] /\
    FrameHeader.opcode (Frame.header f) = 6 /\
    Payload.from_frame (H := sample_ciborium) f
    = Ok (Payload.SyncRequest (mkSyncRequest 1 u64_MAX)).
Proof.
  apply (Payload.payload_roundtrip (H := sample_ciborium)
           (Payload.SyncRequest (mkSyncRequest 1 u64_MAX))
           (FrameHeader.new Opcode.Hello) [Init.Byte.x01]).
  - vm_compute. repeat split.
  - vm_compute. repeat split; discriminate.
  - reflexivity.
  - vm_compute. discriminate.
Defined.

Lemma from_frame_opcode_witness :
  Payload.from_frame (H := sample_ciborium) Frame.sample <> Panic.
Proof. apply (Payload.from_frame_opcode (H := sample_ciborium) Frame.sample). Defined.
