(* ===== verification/FuzzWire.v ===== *)
(** * The fuzz targets of the wire format

    [fuzz/fuzz_targets/frame_boundary_fuzzer.rs] and [cbor_attack_fuzzer.rs] as
    functions of their inputs, where a failed assertion is a panic: the theorems
    say that no input makes a target fail.  The targets are built with debug
    assertions, so the accessors of the header that have one panic here. *)

From S2P Require Import Prelude Opcodes Header Framing Payloads.

Local Open Scope N_scope.

(** ** Accessors with debug assertions *)

Module DebugHeader.

Definition is_welcome (h : FrameHeader.t) : bool :=
  bool_decide (FrameHeader.opcode_enum h = Some Opcode.Welcome).

Definition log_index {E} (h : FrameHeader.t) : res E N :=
  asserts (negb (is_welcome h));; Ok (FrameHeader.log_index h).

Definition set_log_index {E} (i : N) (h : FrameHeader.t) : res E FrameHeader.t :=
  asserts (negb (is_welcome h));; Ok (FrameHeader.set_log_index i h).

Definition set_recipient_id {E} (i : N) (h : FrameHeader.t) : res E FrameHeader.t :=
  asserts (is_welcome h);; Ok (FrameHeader.set_recipient_id i h).

End DebugHeader.

(** ** [frame_boundary_fuzzer] *)

Module FrameBoundary.

Definition LOCKFRAME_MAGIC : bytes := map byte_of [0x4C; 0x4F; 0x46; 0x52].
Definition MAX_PAYLOAD_SIZE : N := 16 * 1024 * 1024.

Inductive MagicBytes :=
  | MagicValid
  | OffByOne (offset : N)
  | AllZeros
  | AllOnes
  | MagicRandom (bs : bytes).

Inductive VersionBytes := VersionValid | VersionZero | VersionMax | VersionRandom (v : N).

Inductive PayloadSize :=
  | SizeZero
  | SizeSmall (s : N)
  | AtMaxBoundary
  | JustOverMax
  | WayOverMax
  | SizeMaxU32
  | SizeRandom (r : N).

Inductive RoomId := RoomZero | RoomOne | RoomSmall (s : N) | RoomMaxU128 | RoomRandom (r : N).
Inductive SenderId := SenderZero | SenderOne | SenderMaxU64 | SenderRandom (r : N).
Inductive EpochValue := EpochZero | EpochOne | MaxMinus1 | EpochMaxU64 | EpochRandom (r : N).

Record BoundaryFrame := mkBoundaryFrame {
  bf_magic : MagicBytes;
  bf_version : VersionBytes;
  bf_opcode : N;
  bf_payload_size : PayloadSize;
  bf_room_id : RoomId;
  bf_sender_id : SenderId;
  bf_epoch : EpochValue;
  bf_log_index : N }.

Definition payload_size_value (p : PayloadSize) : N :=
  match p with
  | SizeZero => 0
  | SizeSmall s => s
  | AtMaxBoundary => MAX_PAYLOAD_SIZE
  | JustOverMax => saturating_add u32_MAX MAX_PAYLOAD_SIZE 1
  | WayOverMax => saturating_add u32_MAX MAX_PAYLOAD_SIZE 1000000
  | SizeMaxU32 => u32_MAX
  | SizeRandom r => r
  end.

Definition version_value (v : VersionBytes) : N :=
  match v with VersionValid => 1 | VersionZero => 0 | VersionMax => u8_MAX | VersionRandom v => v end.

Definition room_id_value (r : RoomId) : N :=
  match r with
  | RoomZero => 0 | RoomOne => 1 | RoomSmall s => s | RoomMaxU128 => u128_MAX | RoomRandom r => r
  end.

Definition sender_id_value (s : SenderId) : N :=
  match s with SenderZero => 0 | SenderOne => 1 | SenderMaxU64 => u64_MAX | SenderRandom r => r end.

Definition epoch_value (e : EpochValue) : N :=
  match e with
  | EpochZero => 0 | EpochOne => 1 | MaxMinus1 => u64_MAX - 1 | EpochMaxU64 => u64_MAX
  | EpochRandom r => r
  end.

(** [buffer[a..b].copy_from_slice(bs)], with [b - a] the length of [bs]. *)
Definition put_at (a : nat) (bs buffer : bytes) : bytes :=
  take a buffer ++ bs ++ drop (a + length bs) buffer.

Definition magic_bytes (m : MagicBytes) : bytes :=
  match m with
  | MagicValid => LOCKFRAME_MAGIC
  | OffByOne offset =>
      alter (fun b => byte_of (Byte.to_N b + 1)) (N.to_nat (offset mod 4)) LOCKFRAME_MAGIC
  | AllZeros => zeros 4
  | AllOnes => replicate 4 Init.Byte.xff
  | MagicRandom bs => bs
  end.

Definition actual_payload_size (b : BoundaryFrame) : nat :=
  N.to_nat (N.min (payload_size_value (bf_payload_size b)) 100000).

(** The buffer, written field by field. *)
Definition boundary_buffer (b : BoundaryFrame) : bytes :=
  let buffer := zeros (128 + actual_payload_size b) in
  let buffer := put_at 0 (magic_bytes (bf_magic b)) buffer in
  let buffer := put_at 4 [byte_of (version_value (bf_version b))] buffer in
  let buffer := put_at 6 (to_be_bytes 2 (bf_opcode b)) buffer in
  let buffer := put_at 12 (to_be_bytes 4 (payload_size_value (bf_payload_size b))) buffer in
  let buffer := put_at 16 (to_be_bytes 16 (room_id_value (bf_room_id b))) buffer in
  let buffer := put_at 32 (to_be_bytes 8 (sender_id_value (bf_sender_id b))) buffer in
  let buffer := put_at 56 (to_be_bytes 8 (epoch_value (bf_epoch b))) buffer in
  put_at 40 (to_be_bytes 8 (bf_log_index b)) buffer.

(** The first half: what decodes has the magic number and an allowed size. *)
Definition check_decode (b : BoundaryFrame) : res unit unit :=
  let buffer := boundary_buffer b in
  match Frame.decode buffer with
  | Panic => Panic
  | Err _ => Ok tt
  | Ok frame =>
      asserts (bool_decide (slice buffer 0 4 = LOCKFRAME_MAGIC));;
      asserts (payload_size_value (bf_payload_size b) <=? MAX_PAYLOAD_SIZE);;
      if bool_decide (FrameHeader.opcode_enum (Frame.header frame) = Some Opcode.Welcome) then Ok tt
      else discard (DebugHeader.log_index (E := unit) (Frame.header frame))
  end.

(** The second half: a frame with these fields survives the round trip. *)
Definition check_roundtrip (b : BoundaryFrame) : res unit unit :=
  match Opcode.from_u16 (bf_opcode b) with
  | None => Ok tt
  | Some op =>
      if bool_decide (op = Opcode.Welcome) then Ok tt
      else
        let header := FrameHeader.set_epoch (epoch_value (bf_epoch b))
          (FrameHeader.set_sender_id (sender_id_value (bf_sender_id b))
             (FrameHeader.set_room_id (room_id_value (bf_room_id b)) (FrameHeader.new op))) in
        header ← DebugHeader.set_log_index (bf_log_index b) header;
        let small_payload := replicate (Nat.min (actual_payload_size b) 1000) Init.Byte.xaa in
        frame ← Frame.new header small_payload;
        match Frame.encode frame [] with
        | Panic => Panic
        | Err _ => Ok tt
        | Ok encoded =>
            asserts (len encoded =? 128 + len (Frame.payload frame));;
            match Frame.decode encoded with
            | Panic => Panic
            | Err _ => Ok tt
            | Ok decoded =>
                let h := Frame.header decoded in let h' := Frame.header frame in
                asserts (FrameHeader.room_id h =? FrameHeader.room_id h');;
                asserts (FrameHeader.sender_id h =? FrameHeader.sender_id h');;
                asserts (FrameHeader.epoch h =? FrameHeader.epoch h');;
                i ← DebugHeader.log_index h; j ← DebugHeader.log_index h';
                asserts (i =? j)
            end
        end
  end.

Definition target (b : BoundaryFrame) : res unit unit := check_decode b;; check_roundtrip b.

(** The types of the input's fields. *)
Definition typed (b : BoundaryFrame) : Prop :=
  match bf_magic b with MagicRandom bs => length bs = 4%nat | OffByOne o => o < 2 ^ 8 | _ => True end /\
  match bf_version b with VersionRandom v => v < 2 ^ 8 | _ => True end /\
  bf_opcode b < 2 ^ 16 /\
  match bf_payload_size b with SizeSmall s => s < 2 ^ 8 | SizeRandom r => r < 2 ^ 32 | _ => True end /\
  match bf_room_id b with RoomSmall s => s < 2 ^ 8 | RoomRandom r => r < 2 ^ 128 | _ => True end /\
  match bf_sender_id b with SenderRandom r => r < 2 ^ 64 | _ => True end /\
  match bf_epoch b with EpochRandom r => r < 2 ^ 64 | _ => True end /\
  bf_log_index b < 2 ^ 64.

(** ** The frame boundary target never fails *)

Lemma magic_bytes_length b : typed b -> length (magic_bytes (bf_magic b)) = 4%nat.
Proof.
  intros [Hm _]. destruct (bf_magic b); try done. unfold magic_bytes. by rewrite length_alter.
Qed.

Lemma payload_size_value_lt b : typed b -> payload_size_value (bf_payload_size b) < 2 ^ 32.
Proof.
  intros (_ & _ & _ & H & _). destruct (bf_payload_size b); cbn [payload_size_value]; try done. lia.
Qed.

Lemma field_values b : typed b ->
  room_id_value (bf_room_id b) < 2 ^ 128 /\ sender_id_value (bf_sender_id b) < 2 ^ 64 /\
  epoch_value (bf_epoch b) < 2 ^ 64 /\ bf_log_index b < 2 ^ 64.
Proof.
  intros (_ & _ & _ & _ & Hr & Hs & He & Hl). split_and!; [..|done].
  - destruct (bf_room_id b); try done. cbn. lia.
  - by destruct (bf_sender_id b).
  - by destruct (bf_epoch b).
Qed.

(** The buffer is a header and a payload of zeros. *)
Definition boundary_header (b : BoundaryFrame) : FrameHeader.t :=
  FrameHeader.mk (magic_bytes (bf_magic b)) (byte_of (version_value (bf_version b))) Init.Byte.x00
    (to_be_bytes 2 (bf_opcode b)) (zeros 4) (to_be_bytes 4 (payload_size_value (bf_payload_size b)))
    (to_be_bytes 16 (room_id_value (bf_room_id b))) (to_be_bytes 8 (sender_id_value (bf_sender_id b)))
    (to_be_bytes 8 (bf_log_index b)) (zeros 8) (to_be_bytes 8 (epoch_value (bf_epoch b))) (zeros 64).

Lemma boundary_header_wf b : typed b -> FrameHeader.wf (boundary_header b).
Proof. intros H. unfold FrameHeader.wf. cbn -[to_be_bytes zeros]. by rewrite magic_bytes_length. Qed.

Lemma boundary_buffer_header b : typed b ->
  boundary_buffer b = FrameHeader.to_bytes (boundary_header b) ++ zeros (actual_payload_size b).
Proof.
  intros H. pose proof (magic_bytes_length b H) as Hm. unfold boundary_buffer, boundary_header.
  generalize (actual_payload_size b). intros n.
  destruct (magic_bytes (bf_magic b)) as [|m0 [|m1 [|m2 [|m3 []]]]]; try discriminate Hm. reflexivity.
Qed.

Lemma decoded_header b f : typed b -> Frame.decode (boundary_buffer b) = Ok f ->
  Frame.wf f /\ Frame.header f = boundary_header b.
Proof.
  intros H [Hw [rest Hb]]%Frame.decode_Ok. split; [done|].
  rewrite boundary_buffer_header in Hb by done. unfold Frame.wire in Hb. rewrite <- app_assoc in Hb.
  apply (f_equal FrameHeader.of_layout) in Hb.
  rewrite !FrameHeader.of_layout_to_bytes in Hb by (apply Hw || by apply boundary_header_wf). done.
Qed.

Lemma magic_bytes_of m : length m = 4%nat -> from_be_bytes m = FrameHeader.MAGIC -> m = LOCKFRAME_MAGIC.
Proof. intros Hl H. rewrite <- (to_from_be_bytes_n 4 m Hl), H. reflexivity. Qed.

Lemma log_index_not_welcome {E} h : FrameHeader.opcode_enum h <> Some Opcode.Welcome ->
  DebugHeader.log_index (E := E) h = Ok (FrameHeader.log_index h).
Proof. intros H. unfold DebugHeader.log_index, DebugHeader.is_welcome. by rewrite bool_decide_eq_false_2. Qed.

Lemma check_decode_ok b : typed b -> check_decode b = Ok tt.
Proof.
  intros H. unfold check_decode. destruct (Frame.decode (boundary_buffer b)) as [f| |] eqn:Hd; [|done|].
  2:{ by apply Frame.decode_no_panic in Hd. }
  apply decoded_header in Hd as [(Hw & (Hm & _ & Hs) & _) Hh]; [|done].
  assert (Hsl : slice (boundary_buffer b) 0 4 = magic_bytes (bf_magic b)).
  { rewrite boundary_buffer_header by done. unfold slice. rewrite drop_0. cbn [Nat.sub].
    unfold FrameHeader.to_bytes. rewrite <- app_assoc. cbn [FrameHeader.f_magic boundary_header].
    apply take_app_n. by rewrite magic_bytes_length. }
  rewrite Hh in Hm, Hs. unfold FrameHeader.magic in Hm. cbn [FrameHeader.f_magic boundary_header] in Hm.
  rewrite Hsl, (bool_decide_eq_true_2 (_ = LOCKFRAME_MAGIC))
    by (apply magic_bytes_of; [by apply magic_bytes_length|done]).
  unfold FrameHeader.payload_size in Hs. cbn [FrameHeader.f_payload_size boundary_header] in Hs.
  rewrite from_to_be_bytes in Hs by (by apply payload_size_value_lt).
  cbn [asserts mbind res_bind]. rewrite (proj2 (N.leb_le _ _)) by exact Hs.
  case_bool_decide; [done|]. cbn [asserts mbind res_bind]. by rewrite log_index_not_welcome.
Qed.

Lemma check_roundtrip_ok b : typed b -> check_roundtrip b = Ok tt.
Proof.
  intros H. destruct (field_values b H) as (Hr & Hs & He & Hl). unfold check_roundtrip.
  destruct (Opcode.from_u16 (bf_opcode b)) as [op|]; [|done]. case_bool_decide as Hop; [done|].
  set (h := FrameHeader.set_epoch _ _). set (p := replicate _ _).
  assert (Hwel : FrameHeader.opcode_enum h = Some op) by apply (FrameHeader.opcode_enum_new op).
  assert (Hw : FrameHeader.wf h) by (unfold h; auto using FrameHeader.new_wf with lockframe).
  unfold DebugHeader.set_log_index, DebugHeader.is_welcome. rewrite Hwel, bool_decide_eq_false_2 by congruence.
  cbn [asserts mbind res_bind negb]. fold p.
  assert (Hp : len p <= 1000) by (unfold len, p; rewrite length_replicate; lia).
  destruct (Frame.new_frame_wf (E := unit) (FrameHeader.set_log_index (bf_log_index b) h) p)
    as (f & Hf & Hfw & Hfp).
  { by apply FrameHeader.set_log_index_wf. }
  { apply (FrameHeader.new_valid op). }
  { apply (FrameHeader.new_valid op). }
  { unfold FrameHeader.MAX_PAYLOAD_SIZE. lia. }
  rewrite Hf. cbn [mbind res_bind]. rewrite Frame.encode_wf by done. cbn [app].
  rewrite Frame.len_wire, N.eqb_refl by done. cbn [asserts mbind res_bind].
  rewrite <- (app_nil_r (Frame.wire f)), Frame.decode_wire by done.
  rewrite !N.eqb_refl. cbn [asserts mbind res_bind].
  assert (Hfo : FrameHeader.opcode_enum (Frame.header f) = Some op).
  { rewrite Frame.new_Ok in Hf by lia. by injection Hf as <-. }
  rewrite log_index_not_welcome by congruence. cbn [mbind res_bind]. by rewrite N.eqb_refl.
Qed.

(** No input of the right types makes [frame_boundary_fuzzer] fail. *)
Theorem frame_boundary_holds b : typed b -> target b = Ok tt.
Proof. intros H. unfold target. by rewrite check_decode_ok, check_roundtrip_ok. Qed.

End FrameBoundary.

(** ** [cbor_attack_fuzzer] *)

Module CborAttack.

Inductive PayloadType := Array | Map | Bytes | Text.

Inductive CborAttack :=
  | DeeplyNested (depth : N) (payload_type : PayloadType)
  | HugeLength (claimed_len_exponent : N)
  | RandomBytes (bs : bytes)
  | TypeConfusion (opcode : N) (wrong_payload_bytes : bytes)
  | DuplicateKeys (count : N).

Definition lit (ns : list N) : bytes := map byte_of ns.

Definition create_nested_cbor (depth : nat) (payload_type : PayloadType) : bytes :=
  match payload_type with
  | Array => concat (replicate depth (lit [0x81])) ++ lit [0x01]
  | Map => concat (replicate depth (lit [0xA1; 0x61; 97])) ++ lit [0x01]
  | Bytes => concat (replicate depth (lit [0x81])) ++ lit [0x41; 0x00]
  | Text => concat (replicate depth (lit [0x81])) ++ lit [0x61; 120]
  end.

Definition create_huge_byte_string (claimed_length : N) : bytes :=
  lit [0x5A] ++ to_be_bytes 4 claimed_length
  ++ replicate (N.to_nat (N.min claimed_length 10)) (byte_of 0xAA).

Definition create_huge_text_string (claimed_length : N) : bytes :=
  lit [0x7A] ++ to_be_bytes 4 claimed_length
  ++ replicate (N.to_nat (N.min claimed_length 10)) (byte_of 120).

Definition create_huge_array (claimed_length : N) : bytes :=
  lit [0x9A] ++ to_be_bytes 4 claimed_length
  ++ replicate (N.to_nat (N.min claimed_length 5)) (byte_of 0x01).

Definition duplicate_keys (count : N) : bytes :=
  let actual_count := N.max (count mod 10) 2 in
  byte_of (N.lor 0xA0 actual_count)
    :: concat (replicate (N.to_nat actual_count)
         (lit [0x67] ++ String.list_byte_of_string "version" ++ lit [0x01])).

Section cbor.
Context {ciborium : Ciborium}.

(** [let _ = Payload::from_frame(&Frame::new(..))]. *)
Definition read_frame (op : Opcode.t) (bs : bytes) : res unit unit :=
  frame ← Frame.new (FrameHeader.new op) bs;
  discard (Payload.from_frame frame).

Fixpoint read_all (ops : list Opcode.t) (bs : bytes) : res unit unit :=
  match ops with
  | [] => Ok tt
  | op :: rest => read_frame op bs;; read_all rest bs
  end.

Definition claimed_length (claimed_len_exponent : N) : N :=
  let exponent := claimed_len_exponent mod 21 in
  if exponent <? 20 then N.shiftl 1 exponent else u32_MAX.

Definition huge_opcodes : list Opcode.t := [Opcode.Proposal; Opcode.Commit; Opcode.Ban; Opcode.Hello].

Definition target (attack : CborAttack) : res unit unit :=
  match attack with
  | DeeplyNested depth payload_type =>
      read_all [Opcode.Hello; Opcode.AppMessage; Opcode.Commit; Opcode.Welcome]
        (create_nested_cbor (N.to_nat (depth mod 50)) payload_type)
  | HugeLength exponent =>
      let n := claimed_length exponent in
      read_all huge_opcodes (create_huge_byte_string n);;
      read_all huge_opcodes (create_huge_text_string n);;
      read_all huge_opcodes (create_huge_array n)
  | RandomBytes bs =>
      read_all [Opcode.Hello; Opcode.HelloReply; Opcode.Ping; Opcode.Pong; Opcode.Goodbye; Opcode.Error;
                Opcode.AppMessage; Opcode.KeyPackage; Opcode.Proposal; Opcode.Commit; Opcode.Welcome;
                Opcode.Redact; Opcode.Ban; Opcode.Kick] bs
  | TypeConfusion opcode bs =>
      read_frame (default Opcode.AppMessage (Opcode.from_u16 opcode)) bs
  | DuplicateKeys count => read_frame Opcode.Hello (duplicate_keys count)
  end.

(** The inputs of a fuzzer are far below four gigabytes. *)
Definition input_fits (attack : CborAttack) : Prop :=
  match attack with
  | RandomBytes bs | TypeConfusion _ bs => len bs < 2 ^ 32
  | _ => True
  end.

Lemma read_frame_ok op bs : len bs < 2 ^ 32 -> read_frame op bs = Ok tt.
Proof.
  intros H. unfold read_frame. rewrite Frame.new_Ok by done. cbn [mbind res_bind]. unfold discard.
  destruct (Payload.from_frame _) eqn:E; [done..|]. exfalso. revert E. unfold Payload.from_frame.
  destruct (FrameHeader.opcode_enum _); cbn [ok_or mbind res_bind]; [|done].
  apply Payload.payload_decode_no_panic.
Qed.

Lemma read_all_ok ops bs : len bs < 2 ^ 32 -> read_all ops bs = Ok tt.
Proof. intros H. induction ops as [|op ops IH]; [done|]. cbn. by rewrite read_frame_ok. Qed.

Lemma concat_replicate_length {A} n (l : list A) : length (concat (replicate n l)) = (n * length l)%nat.
Proof. induction n as [|n IH]; [done|]. cbn. by rewrite length_app, IH. Qed.

Lemma nested_length depth ty : (length (create_nested_cbor depth ty) <= 3 * depth + 2)%nat.
Proof. destruct ty; cbn; rewrite length_app, concat_replicate_length; cbn; lia. Qed.

(** No attack makes the decoder of the payloads panic. *)
Theorem cbor_attack_holds attack : input_fits attack -> target attack = Ok tt.
Proof.
  intros H. destruct attack as [depth ty|e|bs|op bs|count]; cbn [target].
  - apply read_all_ok. pose proof (nested_length (N.to_nat (depth mod 50)) ty) as Hl.
    pose proof (N.mod_lt depth 50). unfold len. lia.
  - assert (Hrep : forall pre n b k, length pre = 1%nat -> k <= 10 ->
      len (pre ++ to_be_bytes 4 n ++ replicate (N.to_nat (N.min n k)) b) < 2 ^ 32).
    { intros pre n b k Hp Hk. unfold len. rewrite !length_app, length_to_be_bytes, length_replicate. lia. }
    by rewrite !read_all_ok by (apply Hrep; [done|lia]).
  - by apply read_all_ok.
  - by apply read_frame_ok.
  - apply read_frame_ok. unfold duplicate_keys, len. cbn [length].
    rewrite concat_replicate_length. pose proof (N.mod_lt count 10).
    change (length _) with 9%nat at 1. lia.
Qed.

End cbor.
End CborAttack.
