(* ===== verification/Connection.v ===== *)
(** * The connection state machine

    [Connection] of [lockframe-core/src/connection.rs] and [ConnectionError] of
    [lockframe-core/src/error.rs]: handshake, heartbeats and timeouts of one
    connection.  The methods on [&mut self] are computations in the
    state-error monad over the connection; those that cannot fail are plain
    functions on it. *)

From S2P Require Import Prelude Env Opcodes Header Framing Payloads.

Local Open Scope N_scope.

Inductive ConnectionState := Init | Pending | Authenticated | Closed.

#[global] Instance connection_state_eq_dec : EqDecision ConnectionState.
Proof. solve_decision. Defined.

(** [Debug for ConnectionState]. *)
Definition fmt_state (s : ConnectionState) : string :=
  match s with
  | Init => "Init"
  | Pending => "Pending"
  | Authenticated => "Authenticated"
  | Closed => "Closed"
  end.

Module ConnectionError.

Inductive t : Type :=
  | InvalidState (state : ConnectionState) (operation : string)
  | UnexpectedFrame (state : ConnectionState) (opcode : N)
  | HandshakeTimeout (elapsed : Duration)
  | IdleTimeout (elapsed : Duration)
  | UnsupportedVersion (version : N)
  | InvalidPayload (expected : string) (opcode : N)
  | Protocol (msg : string)
  | Transport (msg : string).

#[global] Instance connection_error_eq_dec : EqDecision t.
Proof. solve_decision. Defined.

Definition display (e : t) : string :=
  match e with
  | InvalidState state operation =>
      "invalid state transition: cannot " +:+ operation +:+ " from " +:+ fmt_state state
  | UnexpectedFrame state opcode =>
      "unexpected frame: received opcode 0x" +:+ fmt_hex 4 opcode
        +:+ " in state " +:+ fmt_state state
  | HandshakeTimeout elapsed => "handshake timeout after " +:+ fmt_duration elapsed
  | IdleTimeout elapsed => "idle timeout after " +:+ fmt_duration elapsed
  | UnsupportedVersion v => "unsupported protocol version: " +:+ pretty v
  | InvalidPayload expected opcode =>
      "invalid payload: expected " +:+ expected +:+ " for opcode 0x" +:+ fmt_hex 4 opcode
  | Protocol msg => "protocol error: " +:+ msg
  | Transport msg => "transport error: " +:+ msg
  end.

Definition is_transient (e : t) : bool :=
  match e with
  | HandshakeTimeout _ | IdleTimeout _ => true
  | _ => false
  end.

(** [From<ConnectionError> for io::Error]: the kind of the io error. *)
Inductive io_error_kind := TimedOut | InvalidData | Other.

Definition io_kind (e : t) : io_error_kind :=
  match e with
  | HandshakeTimeout _ | IdleTimeout _ => TimedOut
  | InvalidState _ _ | UnexpectedFrame _ _ | UnsupportedVersion _ | Protocol _
  | InvalidPayload _ _ => InvalidData
  | Transport _ => Other
  end.

(** [From<ProtocolError>]. *)
Definition from_protocol (e : ProtocolError.t) : t := Protocol (ProtocolError.display e).

End ConnectionError.

Inductive ConnectionAction :=
  | SendFrame (frame : Frame.t)
  | Close (reason : string).

#[global] Instance connection_action_eq_dec : EqDecision ConnectionAction.
Proof. solve_decision. Defined.

Definition DEFAULT_HANDSHAKE_TIMEOUT : Duration := from_secs 30.
Definition DEFAULT_IDLE_TIMEOUT : Duration := from_mins 1.
Definition DEFAULT_HEARTBEAT_INTERVAL : Duration := from_secs 20.

Record ConnectionConfig := mkConnectionConfig {
  cc_handshake_timeout : Duration;
  cc_idle_timeout : Duration;
  cc_heartbeat_interval : Duration }.

Definition default_connection_config : ConnectionConfig :=
  mkConnectionConfig DEFAULT_HANDSHAKE_TIMEOUT DEFAULT_IDLE_TIMEOUT
    DEFAULT_HEARTBEAT_INTERVAL.

Module Connection.

Record t := mk {
  state : ConnectionState;
  config : ConnectionConfig;
  last_activity : Instant;
  last_heartbeat : option Instant;
  session_id : option N;
  client_sender_id : option N }.

Definition new (now : Instant) (config : ConnectionConfig) : t :=
  mk Init config now None None None.

Definition handshake_timeout (c : t) : Duration := cc_handshake_timeout (config c).

Definition with_state (s : ConnectionState) (c : t) : t :=
  mk s (config c) (last_activity c) (last_heartbeat c) (session_id c)
    (client_sender_id c).
Definition with_last_activity (now : Instant) (c : t) : t :=
  mk (state c) (config c) now (last_heartbeat c) (session_id c)
    (client_sender_id c).
Definition with_last_heartbeat (now : Instant) (c : t) : t :=
  mk (state c) (config c) (last_activity c) (Some now) (session_id c)
    (client_sender_id c).
Definition with_client_sender_id (id : option N) (c : t) : t :=
  mk (state c) (config c) (last_activity c) (last_heartbeat c) (session_id c) id.

Definition set_session_id (id : N) (c : t) : t :=
  mk (state c) (config c) (last_activity c) (last_heartbeat c) (Some id)
    (client_sender_id c).

(** [close]. *)
Definition close (c : t) : t := with_state Closed c.

(** [update_activity]. *)
Definition update_activity (now : Instant) (c : t) : t := with_last_activity now c.

Definition check_timeout (c : t) (now : Instant) : option Duration :=
  let elapsed := instant_sub now (last_activity c) in
  match state c with
  | Pending =>
      if cc_handshake_timeout (config c) <? elapsed then Some elapsed else None
  | Authenticated =>
      if cc_idle_timeout (config c) <? elapsed then Some elapsed else None
  | _ => None
  end.

Abbreviation conn A := (M t ConnectionError.t A).

(** [Frame::new(header, Vec::new())] of [tick] and [handle_frame]: an empty
    payload. *)
Definition empty_frame (op : Opcode.t) : Frame.t :=
  Frame.mk (FrameHeader.set_payload_size 0 (FrameHeader.new op)) [].

Definition tick (now : Instant) (c : t) : t * list ConnectionAction :=
  match check_timeout c now with
  | Some elapsed =>
      let reason :=
        match state c with
        | Pending => "handshake timeout after " +:+ fmt_duration elapsed
        | Authenticated => "idle timeout after " +:+ fmt_duration elapsed
        | _ => "timeout"
        end in
      (close c, [Close reason])
  | None =>
      if bool_decide (state c = Authenticated) then
        let should_send :=
          match last_heartbeat c with
          | None => true
          | Some last => cc_heartbeat_interval (config c) <=? instant_sub now last
          end in
        if should_send then
          (with_last_activity now (with_last_heartbeat now c),
           [SendFrame (empty_frame Opcode.Ping)])
        else (c, [])
      else (c, [])
  end.

Section handlers.
Context `{Ciborium}.

(** [payload.into_frame(..)?] and [Payload::from_frame(..)?]. *)
Definition try_into_frame (p : Payload.t) (h : FrameHeader.t) : conn Frame.t :=
  lift (map_err ConnectionError.from_protocol (Payload.into_frame p h)).
Definition try_from_frame (f : Frame.t) : conn Payload.t :=
  lift (map_err ConnectionError.from_protocol (Payload.from_frame f)).

Definition send_hello (now : Instant) : conn (list ConnectionAction) :=
  c ← get;
  if negb (bool_decide (state c = Init)) then
    throw (ConnectionError.InvalidState (state c) "send_hello")
  else
    modify (with_state Pending);;
    modify (with_last_activity now);;
    let hello := Payload.Hello (mkHello 1 [] None None) in
    frame ← try_into_frame hello (FrameHeader.new Opcode.Hello);
    mret [SendFrame frame].

Section with_env.
Context `{Environment Env}.

(** [handle_hello] draws the session id from the environment; the environment
    after the call is returned with the connection. *)
Definition handle_hello (hello : Payloads.Hello) (now : Instant)
    : M (Env * t) ConnectionError.t (list ConnectionAction) := fun '(env, c) =>
  if negb (bool_decide (state c = Init)) then
    ((env, c), Err (ConnectionError.InvalidState (state c) "handle_hello"))
  else if negb (hello_version hello =? 1) then
    ((env, c), Err (ConnectionError.UnsupportedVersion (hello_version hello)))
  else
    let '(id, env') := random_u64 env in
    let c' := with_last_activity now (with_state Authenticated (set_session_id id c)) in
    let reply := Payload.HelloReply (mkHelloReply id [] None) in
    match try_into_frame reply (FrameHeader.new Opcode.HelloReply) c' with
    | (c'', Ok frame) => ((env', c''), Ok [SendFrame frame])
    | (c'', Err e) => ((env', c''), Err e)
    | (c'', Panic) => ((env', c''), Panic)
    end.
End with_env.

Definition handle_frame (frame : Frame.t) (now : Instant) : conn (list ConnectionAction) :=
  modify (with_last_activity now);;
  c ← get;
  match FrameHeader.opcode_enum (Frame.header frame) with
  | None =>
      throw (ConnectionError.UnexpectedFrame (state c)
               (FrameHeader.opcode (Frame.header frame)))
  | Some opcode =>
      match state c, opcode with
      | Init, Opcode.Hello =>
          payload ← try_from_frame frame;
          match payload with
          | Payload.Hello hello =>
              if negb (hello_version hello =? 1) then
                throw (ConnectionError.UnsupportedVersion (hello_version hello))
              else
                match session_id c with
                | None =>
                    throw (ConnectionError.Protocol
                             "server must set session_id before handling Hello")
                | Some id =>
                    modify (with_client_sender_id (hello_sender_id hello));;
                    modify (with_state Authenticated);;
                    let reply := Payload.HelloReply (mkHelloReply id [] None) in
                    frame ← try_into_frame reply (FrameHeader.new Opcode.HelloReply);
                    mret [SendFrame frame]
                end
          | _ => throw (ConnectionError.InvalidPayload "Hello"
                          (Opcode.to_u16 Opcode.Hello))
          end
      | Pending, Opcode.HelloReply =>
          payload ← try_from_frame frame;
          match payload with
          | Payload.HelloReply reply =>
              modify (with_state Authenticated);;
              modify (set_session_id (reply_session_id reply));;
              mret []
          | _ => throw (ConnectionError.InvalidPayload "HelloReply"
                          (Opcode.to_u16 Opcode.HelloReply))
          end
      | Authenticated, Opcode.Ping => mret [SendFrame (empty_frame Opcode.Pong)]
      | Authenticated, Opcode.Pong => mret []
      | (Init | Pending | Authenticated), Opcode.Goodbye =>
          payload ← try_from_frame frame;
          match payload with
          | Payload.Goodbye goodbye =>
              modify (with_state Closed);;
              let reply := Payload.Goodbye (mkGoodbye "ack") in
              frame ← try_into_frame reply (FrameHeader.new Opcode.Goodbye);
              mret [SendFrame frame; Close ("peer goodbye: " +:+ goodbye_reason goodbye)]
          | _ => throw (ConnectionError.InvalidPayload "Goodbye"
                          (Opcode.to_u16 Opcode.Goodbye))
          end
      | _, Opcode.Error =>
          modify (with_state Closed);;
          mret [Close "peer error"]
      | state, opcode =>
          throw (ConnectionError.UnexpectedFrame state (Opcode.to_u16 opcode))
      end
  end.

(** ** The machine: what a connection can be made to do *)

Inductive op :=
  | OSetSessionId (id : N)
  | OSendHello (now : Instant)
  | OHandleFrame (frame : Frame.t) (now : Instant)
  | OTick (now : Instant)
  | OUpdateActivity (now : Instant)
  | OClose.

(** The connection after an operation, and the actions it returned. *)
Definition step (c : t) (o : op) : t * list ConnectionAction :=
  let run_conn (m : conn (list ConnectionAction)) :=
    match m c with
    | (c', Ok actions) => (c', actions)
    | (c', _) => (c', [])
    end in
  match o with
  | OSetSessionId id => (set_session_id id c, [])
  | OSendHello now => run_conn (send_hello now)
  | OHandleFrame frame now => run_conn (handle_frame frame now)
  | OTick now => tick now c
  | OUpdateActivity now => (update_activity now c, [])
  | OClose => (close c, [])
  end.

Definition step_state (c : t) (o : op) : t := fst (step c o).

(** Ticks at the given times, and the actions they returned. *)
Fixpoint ticks (c : t) (times : list Instant) : t * list ConnectionAction :=
  match times with
  | [] => (c, [])
  | now :: times' =>
      let '(c', acts) := tick now c in
      let '(c'', acts') := ticks c' times' in (c'', acts ++ acts')
  end.

(** ** Lemmas *)

Lemma empty_frame_new op :
  Frame.new (E := ConnectionError.t) (FrameHeader.new op) [] = Ok (empty_frame op).
Proof. done. Qed.

Ltac run_monad :=
  unfold handle_frame, send_hello, try_into_frame, try_from_frame in *; unfold_M; cbn -[Payload.into_frame Payload.from_frame Opcode.to_u16
    FrameHeader.new fmt_duration] in *.

(** The state a frame leads to, without the error paths' details. *)
Lemma handle_frame_state frame now c :
  let c' := fst (handle_frame frame now c) in
  config c' = config c /\ last_activity c' = now /\
  last_heartbeat c' = last_heartbeat c /\
  (state c' = state c /\ session_id c' = session_id c \/
   state c' = Closed /\ session_id c' = session_id c \/
   state c = Init /\ state c' = Authenticated /\
     (exists hello id, Payload.from_frame frame = Ok (Payload.Hello hello) /\
       hello_version hello = 1 /\ session_id c = Some id /\ session_id c' = Some id) \/
   state c = Pending /\ state c' = Authenticated /\
     (exists reply, Payload.from_frame frame = Ok (Payload.HelloReply reply) /\
       session_id c' = Some (reply_session_id reply))).
Proof.
  destruct c as [st cfg la lh sid csid]. simpl. run_monad.
  destruct (FrameHeader.opcode_enum (Frame.header frame)) as [op|];
    [|split_and!; simpl; auto].
  destruct st, op; simpl; try (split_and!; by auto);
    destruct (Payload.from_frame frame) as [p|e|]; simpl; try (split_and!; by auto);
    destruct p; simpl; try (split_and!; by auto);
    try (destruct (N.eqb_spec (hello_version inner) 1); simpl;
         try (split_and!; by auto); destruct sid; simpl; try (split_and!; by auto));
    try (destruct (Payload.into_frame _ _); simpl); split_and!; eauto 20.
Qed.

Lemma send_hello_state now c :
  let c' := fst (send_hello now c) in
  config c' = config c /\ last_heartbeat c' = last_heartbeat c /\
  session_id c' = session_id c /\
  (state c = Init /\ state c' = Pending /\ last_activity c' = now \/
   state c <> Init /\ c' = c).
Proof.
  simpl. run_monad. case_bool_decide; simpl; [|auto 10].
  destruct (Payload.into_frame _ _); simpl; auto 10.
Qed.

Lemma tick_state now c :
  let c' := fst (tick now c) in
  config c' = config c /\ session_id c' = session_id c /\
  (state c' = state c \/ state c' = Closed /\ is_Some (check_timeout c now)).
Proof.
  simpl. unfold tick. destruct (check_timeout c now); simpl; [naive_solver|].
  repeat case_match; simpl; auto.
Qed.

(** [check_timeout] as a condition on the time elapsed. *)
Lemma check_timeout_Some c now d :
  check_timeout c now = Some d <->
  d = instant_sub now (last_activity c) /\
  (state c = Pending /\ cc_handshake_timeout (config c) < d \/
   state c = Authenticated /\ cc_idle_timeout (config c) < d).
Proof.
  unfold check_timeout. set (e := instant_sub _ _).
  destruct (state c); [by split; [|intros (_ & [[? _]|[? _]])]| | |by split; [|intros (_ & [[? _]|[? _]])]].
  - destruct (N.ltb_spec (cc_handshake_timeout (config c)) e); split; intros; simplify_eq; auto.
    + destruct_and!; simplify_eq; done.
    + exfalso. destruct_and!; subst. destruct_or!; destruct_and!; [lia|done].
  - destruct (N.ltb_spec (cc_idle_timeout (config c)) e); split; intros; simplify_eq; auto.
    + destruct_and!; simplify_eq; done.
    + exfalso. destruct_and!; subst. destruct_or!; destruct_and!; [done|lia].
Qed.

Lemma step_closed c o :
  state c = Closed ->
  state (step_state c o) = Closed /\
  Forall (fun a => forall f, a <> SendFrame f) (snd (step c o)).
Proof.
  intros Hc. destruct c as [st cfg la lh sid csid]. simpl in Hc. subst st.
  destruct o; unfold step_state, step; simpl; auto.
  - run_monad. destruct (FrameHeader.opcode_enum _) as [op|]; simpl; auto.
    destruct op; simpl; auto; split; try done; by repeat constructor.
Qed.

(** An authenticated connection has a session id. *)
Definition inv (c : t) : Prop := state c = Authenticated -> is_Some (session_id c).

Lemma step_inv c o : inv c -> inv (step_state c o).
Proof.
  unfold inv, step_state. intros Hi. destruct o; simpl; auto.
  - pose proof (send_hello_state now c) as (_ & _ & Hs & Hc). simpl in *.
    destruct (send_hello now c) as [c' r]; simpl in *.
    replace (fst _) with c' by (by destruct r). rewrite Hs.
    destruct Hc as [(_ & -> & _)|(_ & ->)]; [done|auto].
  - pose proof (handle_frame_state frame now c) as (_ & _ & _ & Hc). simpl in *.
    destruct (handle_frame frame now c) as [c' r]; simpl in *.
    replace (fst _) with c' by (by destruct r). intros Ha.
    destruct Hc as [[E ->]|[[E _]|[(_&_&hello&id&_&_&_&->)|(_&_&r'&_&->)]]];
      [apply Hi; congruence|congruence|eauto|eauto].
  - pose proof (tick_state now c) as (_ & -> & [->|[-> _]]); [auto|done].
  - done.
Qed.

(** The invariant of the run of ticks below, [t0] being the last tick. *)
Lemma tick_heartbeat c t0 now :
  state c = Authenticated ->
  t0 <= last_activity c + cc_heartbeat_interval (config c) ->
  (forall lh, last_heartbeat c = Some lh -> lh <= last_activity c) ->
  now - t0 + cc_heartbeat_interval (config c) <= cc_idle_timeout (config c) ->
  let '(c', acts) := tick now c in
  state c' = Authenticated /\ config c' = config c /\
  now <= last_activity c' + cc_heartbeat_interval (config c) /\
  (forall lh, last_heartbeat c' = Some lh -> lh <= last_activity c') /\
  Forall (fun a => forall r, a <> Close r) acts.
Proof.
  intros Hs Ht Hl Hi. unfold tick.
  destruct (check_timeout c now) as [d|] eqn:Hc.
  { apply check_timeout_Some in Hc as [-> [[? _]|[_ Hd]]]; [congruence|].
    unfold instant_sub, saturating_sub in Hd. lia. }
  rewrite bool_decide_eq_true_2 by done. destruct (last_heartbeat c) as [lh|] eqn:Hlh.
  - unfold instant_sub, saturating_sub.
    destruct (N.leb_spec (cc_heartbeat_interval (config c)) (now - lh)); simpl.
    + split_and!; try done; [lia|naive_solver lia|by repeat constructor].
    + pose proof (Hl lh eq_refl). split_and!; try done; [lia|].
      intros ? E. rewrite Hlh in E. by simplify_eq.
  - simpl. split_and!; try done; [lia|naive_solver lia|by repeat constructor].
Qed.

Lemma ticks_heartbeat g times : forall c t0,
  state c = Authenticated ->
  t0 <= last_activity c + cc_heartbeat_interval (config c) ->
  (forall lh, last_heartbeat c = Some lh -> lh <= last_activity c) ->
  g + cc_heartbeat_interval (config c) <= cc_idle_timeout (config c) ->
  (forall i a b, (t0 :: times) !! i = Some a -> times !! i = Some b -> b - a <= g) ->
  state (fst (ticks c times)) = Authenticated /\
  Forall (fun a => forall r, a <> Close r) (snd (ticks c times)).
Proof.
  induction times as [|now times IH]; intros c t0 Hs Ht Hl Hg Hgap; [by split|].
  pose proof (Hgap 0%nat t0 now eq_refl eq_refl) as Hg0.
  pose proof (tick_heartbeat c t0 now Hs Ht Hl) as Htick. simpl.
  destruct (tick now c) as [c' acts]. destruct Htick as (Hs' & Hc' & Ht' & Hl' & Hf); [lia|].
  destruct (IH c' now) as [IH1 IH2]; try done; rewrite ?Hc'; try done.
  { intros i a b Ha Hb. by apply (Hgap (S i) a b). }
  destruct (ticks c' times). simpl in *. split; [done|]. by apply Forall_app.
Qed.

(** ** Properties *)

(** a closed connection stays closed and silent: whatever operations
    follow, in any order and at any time, it is still closed and has sent no
    frame. *)
Theorem closed_is_terminal c ops :
  state c = Closed ->
  state (run step_state c ops) = Closed /\
  (forall pre o post, ops = pre ++ o :: post ->
     Forall (fun a => forall f, a <> SendFrame f) (snd (step (run step_state c pre) o))).
Proof.
  intros Hc.
  assert (Hrun : forall l, state (run step_state c l) = Closed).
  { intros l. apply (run_invariant step_state (fun c => state c = Closed)); [|done].
    intros s o Hs. by apply step_closed. }
  split; [apply Hrun|]. intros pre o post _. by apply step_closed.
Qed.

(** A connection becomes authenticated only through the handshake: the
    operation is a frame, received in [Init] as a version 1 Hello once the
    session id is set, or received in [Pending] as a HelloReply, whose session
    id is then the connection's. *)
Theorem authenticated_by_handshake c o :
  state c <> Authenticated -> state (step_state c o) = Authenticated ->
  exists frame now, o = OHandleFrame frame now /\
    (state c = Init /\
       (exists hello id, Payload.from_frame frame = Ok (Payload.Hello hello) /\
          hello_version hello = 1 /\ session_id c = Some id /\
          session_id (step_state c o) = Some id) \/
     state c = Pending /\
       (exists reply, Payload.from_frame frame = Ok (Payload.HelloReply reply) /\
          session_id (step_state c o) = Some (reply_session_id reply))).
Proof.
  intros Hn. unfold step_state. destruct o; simpl; try done.
  - pose proof (send_hello_state now c) as (_ & _ & _ & Hc). simpl in Hc.
    destruct (send_hello now c) as [c' r]; simpl in *.
    replace (fst _) with c' by (by destruct r).
    destruct Hc as [(_ & -> & _)|(_ & ->)]; done.
  - pose proof (handle_frame_state frame now c) as (_ & _ & _ & Hc). simpl in Hc.
    destruct (handle_frame frame now c) as [c' r]; simpl in *.
    replace (fst _) with c' by (by destruct r). intros Ha.
    destruct Hc as [[E _]|[[E _]|[(?&_&hello&id&?&?&?&?)|(?&_&r'&?&?)]]];
      [congruence|congruence| |]; exists frame, now; eauto 15.
  - pose proof (tick_state now c) as (_ & _ & [->|[-> _]]); done.
Qed.

(** In every state reachable from a new connection, an authenticated
    connection has a session id, and the configuration is the one given. *)
Theorem reachable_invariant now cfg ops :
  let c := run step_state (new now cfg) ops in
  (state c = Authenticated -> is_Some (session_id c)) /\ config c = cfg.
Proof.
  simpl. split.
  - apply (run_invariant step_state inv); [apply step_inv|]. unfold inv. done.
  - apply (run_invariant step_state (fun c => config c = cfg)); [|done].
    intros c o <-. unfold step_state. destruct o; simpl; try done.
    + pose proof (send_hello_state now0 c) as (Hc & _). simpl in Hc.
      destruct (send_hello now0 c) as [c' r]; by destruct r.
    + pose proof (handle_frame_state frame now0 c) as (Hc & _). simpl in Hc.
      destruct (handle_frame frame now0 c) as [c' r]; by destruct r.
    + apply tick_state.
Qed.

(** A tick closes the connection exactly when the handshake (in
    [Pending]) or the idle time (in [Authenticated]) has run out, measured from
    the last activity; otherwise the state is unchanged and the only possible
    action is a Ping. *)
Theorem tick_timeout now c :
  let elapsed := now - last_activity c in
  if bool_decide (state c = Pending /\ cc_handshake_timeout (config c) < elapsed \/
                  state c = Authenticated /\ cc_idle_timeout (config c) < elapsed)
  then fst (tick now c) = close c /\ exists reason, snd (tick now c) = [Close reason]
  else state (fst (tick now c)) = state c /\
       (snd (tick now c) = [] \/
        state c = Authenticated /\ snd (tick now c) = [SendFrame (empty_frame Opcode.Ping)]).
Proof.
  simpl. pose proof (check_timeout_Some c now) as Hct.
  unfold instant_sub, saturating_sub in Hct. unfold tick.
  destruct (check_timeout c now) as [d|] eqn:Hc.
  - destruct (Hct d) as [[-> Hd] _]; [done|]. rewrite bool_decide_eq_true_2 by done.
    simpl. eauto.
  - rewrite bool_decide_eq_false_2.
    2:{ intros Hd. destruct (Hct (now - last_activity c)) as [_ Hx]. by discriminate Hx. }
    case_bool_decide; simpl; [|by auto]. repeat case_match; simpl; auto.
Qed.

(** The heartbeat defeats the idle timeout: an authenticated connection
    that receives no frame at all is never closed by its ticks, for as long as
    they come often enough (gaps of at most [g], where [g] plus the heartbeat
    interval is within the idle timeout), because sending a Ping counts as
    activity. *)
Theorem heartbeat_defeats_idle_timeout g times c :
  state c = Authenticated -> last_heartbeat c = None ->
  g + cc_heartbeat_interval (config c) <= cc_idle_timeout (config c) ->
  (forall i a b, (last_activity c :: times) !! i = Some a -> times !! i = Some b ->
     b - a <= g) ->
  state (fst (ticks c times)) = Authenticated /\
  Forall (fun a => forall r, a <> Close r) (snd (ticks c times)).
Proof.
  intros Hs Hl Hg Hgap. apply (ticks_heartbeat g times c (last_activity c)); try done; [lia|].
  by rewrite Hl.
Qed.

End handlers.

(** ** Witnesses *)

Definition sample_conn : t := mk Authenticated default_connection_config 0 None (Some 7) None.

Lemma closed_is_terminal_witness :
  state (run (step_state (H := sample_ciborium)) (close sample_conn)
           [OHandleFrame (empty_frame Opcode.Ping) 5; OTick 6]) = Closed.
Proof.
  apply (closed_is_terminal (H := sample_ciborium) (close sample_conn)). reflexivity.
Defined.

(** A Hello frame of version 1 without a sender id. *)
Definition sample_hello : Frame.t :=
  Frame.mk (FrameHeader.set_payload_size 1 (FrameHeader.new Opcode.Hello)) [Init.Byte.x00].

Lemma authenticated_by_handshake_witness :
  let c := set_session_id 7 (new 0 default_connection_config) in
  let o := OHandleFrame sample_hello 3 in
  exists frame now, o = OHandleFrame frame now /\
    (state c = Init /\
       (exists hello id, Payload.from_frame (H := sample_ciborium) frame
            = Ok (Payload.Hello hello) /\
          hello_version hello = 1 /\ session_id c = Some id /\
          session_id (step_state (H := sample_ciborium) c o) = Some id) \/
     state c = Pending /\
       (exists reply, Payload.from_frame (H := sample_ciborium) frame
            = Ok (Payload.HelloReply reply) /\
          session_id (step_state (H := sample_ciborium) c o)
          = Some (reply_session_id reply))).
Proof.
  apply (authenticated_by_handshake (H := sample_ciborium)
           (set_session_id 7 (new 0 default_connection_config))
           (OHandleFrame sample_hello 3)).
  - discriminate.
  - vm_compute. reflexivity.
Defined.

Lemma heartbeat_defeats_idle_timeout_witness :
  state (fst (ticks sample_conn
    [from_secs 30; from_secs 60; from_secs 90; from_secs 120; from_secs 150]))
  = Authenticated.
Proof.
  apply (heartbeat_defeats_idle_timeout (from_secs 30)
    [from_secs 30; from_secs 60; from_secs 90; from_secs 120; from_secs 150] sample_conn).
  - reflexivity.
  - reflexivity.
  - vm_compute. discriminate.
  - intros i a b Ha Hb.
    do 5 (destruct i as [|i]; [simpl in Ha, Hb; simplify_eq; vm_compute; discriminate|]).
    discriminate Hb.
Defined.

End Connection.
