(* ===== verification/FuzzConnection.v ===== *)
(** * The fuzz target of the connection state machine

    [fuzz/fuzz_targets/connection_state_fuzzer.rs]: any sequence of events drives
    a connection, and the target asserts what a state may become and that the
    session id never changes.  A failed assertion is a panic; the theorem says
    that no input makes the target fail. *)

From S2P Require Import Prelude Env Environments Opcodes Header Framing Payloads Connection.

Local Open Scope N_scope.

Module ConnectionFuzz.
Import Connection.

Inductive FuzzedPayload :=
  | FHello (version : N)
  | FHelloReply (session_id : N)
  | FPing
  | FPong
  | FGoodbye (reason_len : N)
  | FError
  | FRandomBytes (bs : bytes).

Record FuzzedFrame := mkFuzzedFrame { ff_opcode : N; ff_payload : FuzzedPayload }.

Inductive ConnectionEvent :=
  | ESendHello
  | EReceiveFrame (fuzzed : FuzzedFrame)
  | ETick (advance_secs : N)
  | EClose
  | ECheckTimeout (advance_secs : N).

Record FuzzInput := mkFuzzInput { initial_time_secs : N; events : list ConnectionEvent }.

Definition fuzz_config : ConnectionConfig :=
  mkConnectionConfig (from_secs 5) (from_secs 10) (from_secs 3).

(** ["x".repeat(n)]. *)
Fixpoint repeat_x (n : nat) : string :=
  match n with O => EmptyString | S n' => String "x"%char (repeat_x n') end.

Section target.
Context {ciborium : Ciborium}.

(** [into_frame(..).unwrap_or_else(|_| Frame::new(.., Vec::new()))]. *)
Definition or_empty (op : Opcode.t) (r : res ProtocolError.t Frame.t) : res unit Frame.t :=
  match r with
  | Ok f => Ok f
  | Err _ => Frame.new (FrameHeader.new op) []
  | Panic => Panic
  end.

Definition create_frame_from_fuzzed (fuzzed : FuzzedFrame) : res unit Frame.t :=
  match ff_payload fuzzed with
  | FHello version =>
      or_empty Opcode.Hello
        (Payload.into_frame (Payload.Hello (mkHello version [] None None)) (FrameHeader.new Opcode.Hello))
  | FHelloReply id =>
      or_empty Opcode.HelloReply
        (Payload.into_frame (Payload.HelloReply (mkHelloReply id [] None))
           (FrameHeader.new Opcode.HelloReply))
  | FPing => Frame.new (FrameHeader.new Opcode.Ping) []
  | FPong => Frame.new (FrameHeader.new Opcode.Pong) []
  | FGoodbye reason_len =>
      let reason := repeat_x (N.to_nat (reason_len mod 100)) in
      or_empty Opcode.Goodbye
        (Payload.into_frame (Payload.Goodbye (mkGoodbye reason)) (FrameHeader.new Opcode.Goodbye))
  | FError => Frame.new (FrameHeader.new Opcode.Error) []
  | FRandomBytes bs =>
      Frame.new (FrameHeader.new (default Opcode.AppMessage (Opcode.from_u16 (ff_opcode fuzzed)))) bs
  end.

(** The variables of the target. *)
Record fz := mkFz {
  conn : Connection.t;
  current_time : Instant;
  initial_session_id : option N }.

Definition start (input : FuzzInput) : fz :=
  let t := from_secs (initial_time_secs input) in mkFz (Connection.new t fuzz_config) t None.

Definition set_conn (c : Connection.t) (s : fz) : fz := mkFz c (current_time s) (initial_session_id s).

(** [FuzzInstant(current_time.0 + Duration::from_secs(..))]. *)
Definition advanced_time (s : fz) (advance_secs : N) : res unit Instant :=
  VirtualInstant.add (current_time s) (from_secs (advance_secs mod 120)).

Definition on_send_hello (s : fz) : res unit fz :=
  let previous := state (conn s) in
  match send_hello (current_time s) (conn s) with
  | (_, Panic) => Panic
  | (c', r) =>
      (if bool_decide (previous = Init) && is_ok r then asserts (bool_decide (state c' = Pending))
       else asserts (negb (is_ok r) || bool_decide (state c' = previous)));;
      Ok (set_conn c' s)
  end.

Definition on_receive (fuzzed : FuzzedFrame) (s : fz) : res unit fz :=
  let previous := state (conn s) in
  frame ← create_frame_from_fuzzed fuzzed;
  match handle_frame frame (current_time s) (conn s) with
  | (_, Panic) => Panic
  | (c', Ok _) =>
      asserts (negb (bool_decide (previous = Closed) && negb (bool_decide (state c' = Closed))));;
      let initial :=
        if bool_decide (previous = Pending) && bool_decide (state c' = Authenticated) then
          match session_id c', initial_session_id s with
          | Some id, None => Some id
          | _, initial => initial
          end
        else initial_session_id s in
      Ok (mkFz c' (current_time s) initial)
  | (c', Err _) =>
      asserts (bool_decide (state c' = previous) || bool_decide (state c' = Closed));;
      Ok (set_conn c' s)
  end.

Definition is_close (a : ConnectionAction) : bool :=
  match a with Close _ => true | SendFrame _ => false end.

Definition on_event (ev : ConnectionEvent) (s : fz) : res unit fz :=
  match ev with
  | ESendHello => on_send_hello s
  | EReceiveFrame fuzzed => on_receive fuzzed s
  | ETick advance_secs =>
      t ← advanced_time s advance_secs;
      let '(c', actions) := tick t (conn s) in
      asserts (forallb (fun a => negb (is_close a) || bool_decide (state c' = Closed)) actions);;
      Ok (mkFz c' t (initial_session_id s))
  | EClose =>
      let c' := close (conn s) in
      asserts (bool_decide (state c' = Closed));;
      Ok (set_conn c' s)
  | ECheckTimeout advance_secs =>
      _ ← advanced_time s advance_secs;
      Ok s
  end.

(** The check after every event. *)
Definition check_session (s : fz) : res unit fz :=
  if bool_decide (state (conn s) = Authenticated) then
    match session_id (conn s), initial_session_id s with
    | Some id, Some initial => asserts (id =? initial);; Ok s
    | Some id, None => Ok (mkFz (conn s) (current_time s) (Some id))
    | None, _ => Ok s
    end
  else Ok s.

Fixpoint on_events (evs : list ConnectionEvent) (s : fz) : res unit fz :=
  match evs with
  | [] => Ok s
  | ev :: rest => s ← on_event ev s; s ← check_session s; on_events rest s
  end.

Definition check_end (s : fz) : res unit unit :=
  if bool_decide (state (conn s) = Closed) then
    match send_hello (current_time s) (conn s) with
    | (_, Panic) => Panic
    | (c', _) => asserts (bool_decide (state (fst (tick (current_time s) c')) = Closed))
    end
  else Ok tt.

Definition target (input : FuzzInput) : res unit unit :=
  s ← on_events (events input) (start input); check_end s.

(** The types of the input, and its size, which is that of a file. *)
Definition typed_event (ev : ConnectionEvent) : Prop :=
  match ev with
  | EReceiveFrame (mkFuzzedFrame _ (FRandomBytes bs)) => len bs < 2 ^ 32
  | _ => True
  end.
Definition typed (input : FuzzInput) : Prop :=
  initial_time_secs input < 2 ^ 32 /\ Forall typed_event (events input) /\
  len (events input) < 2 ^ 40.

(** ** The target never fails *)

Context {sizes : CborSizes}.

(** What the target and the connection encode is small. *)
Lemma small_answers p h :
  match p with
  | Payload.Hello i => hello_capabilities i = [] /\ hello_auth_token i = None
  | Payload.HelloReply i => reply_capabilities i = [] /\ reply_challenge i = None
  | Payload.Goodbye i => (String.length (goodbye_reason i) <= 100)%nat
  | _ => False
  end -> Payload.into_frame p h <> Panic.
Proof using sizes.
  intros Hp. apply Payload.into_frame_answers; [|apply Payload.encode_no_panic].
  intros bs. unfold Payload.encode, u32_MAX. destruct p; try done; case_match eqn:E; try done; intros [= <-];
    cbn [app].
  - pose proof (hello_size _ _ E (proj1 Hp) (proj2 Hp)). lia.
  - pose proof (hello_reply_size _ _ E (proj1 Hp) (proj2 Hp)). lia.
  - pose proof (goodbye_size _ _ E). lia.
Qed.

Lemma or_empty_Ok op r : r <> Panic -> exists f, or_empty op r = Ok f.
Proof. intros H. destruct r as [f| |]; [by exists f|by eexists|done]. Qed.

Lemma length_repeat_x n : String.length (repeat_x n) = n.
Proof. induction n as [|n IH]; [done|]. cbn. by rewrite IH. Qed.

Lemma create_frame_Ok fuzzed : typed_event (EReceiveFrame fuzzed) ->
  exists f, create_frame_from_fuzzed fuzzed = Ok f.
Proof using sizes.
  destruct fuzzed as [op p]. unfold create_frame_from_fuzzed. cbn [ff_payload ff_opcode typed_event].
  destruct p as [v|id| | |n| |bs]; intros Hb; try (by eexists).
  - by apply or_empty_Ok, small_answers.
  - by apply or_empty_Ok, small_answers.
  - apply or_empty_Ok, small_answers. cbn [goodbye_reason]. rewrite length_repeat_x.
    pose proof (N.mod_lt n 100). lia.
  - rewrite Frame.new_Ok by done. by eexists.
Qed.

Ltac run_conn :=
  unfold handle_frame, send_hello, try_into_frame, try_from_frame in *; unfold_M;
  cbn -[Payload.into_frame Payload.from_frame Opcode.to_u16 FrameHeader.new fmt_duration] in *.

Lemma send_hello_answers now c : snd (send_hello now c) <> Panic.
Proof using sizes.
  run_conn. case_bool_decide; [|done]. cbn.
  pose proof (small_answers (Payload.Hello (mkHello 1 [] None None)) (FrameHeader.new Opcode.Hello)
                (conj eq_refl eq_refl)).
  by destruct (Payload.into_frame _ _).
Qed.

(** A frame is answered; after an error the state is the old one or closed, but
    for the server's side, which has its session id before. *)
Lemma handle_frame_answers frame now c :
  snd (handle_frame frame now c) <> Panic /\
  (is_ok (snd (handle_frame frame now c)) = false -> (state c = Init -> session_id c = None) ->
   let c' := fst (handle_frame frame now c) in state c' = state c \/ state c' = Closed).
Proof using sizes.
  destruct c as [st cfg la lh sid csid]. run_conn.
  pose proof (fun id => small_answers (Payload.HelloReply (mkHelloReply id [] None))
    (FrameHeader.new Opcode.HelloReply) (conj eq_refl eq_refl)) as Hrep.
  pose proof (small_answers (Payload.Goodbye (mkGoodbye "ack")) (FrameHeader.new Opcode.Goodbye)
    ltac:(cbn; lia)) as Hbye.
  pose proof (proj1 (Payload.from_frame_opcode frame)) as Hread.
  destruct (FrameHeader.opcode_enum (Frame.header frame)) as [op|]; [|by split; auto].
  destruct st, op; cbn -[Payload.into_frame Payload.from_frame FrameHeader.new]; try (by split; auto);
    destruct (Payload.from_frame frame) as [p|e|]; cbn -[Payload.into_frame FrameHeader.new]; try done;
    try (by split; auto); destruct p; cbn -[Payload.into_frame FrameHeader.new]; try (by split; auto);
    try (destruct (N.eqb_spec (hello_version inner) 1); cbn -[Payload.into_frame FrameHeader.new];
         [|by split; auto]; destruct sid as [id|]; cbn -[Payload.into_frame FrameHeader.new];
         [specialize (Hrep id)|by split; auto]);
    destruct (Payload.into_frame _ _); cbn; try done; split; try done; intros; auto; naive_solver.
Qed.

(** Before the handshake there is no session id, after it the one that was
    recorded; [k] events have passed. *)
Record fz_inv (k : N) (s : fz) : Prop := mk_fz_inv {
  fi_session :
    match state (conn s) with
    | Init | Pending => session_id (conn s) = None /\ initial_session_id s = None
    | Authenticated => is_Some (session_id (conn s)) /\ session_id (conn s) = initial_session_id s
    | Closed => True
    end;
  fi_time : current_time s <= from_secs (2 ^ 32 + 120 * k) }.

Lemma advanced_time_Ok k s n : fz_inv k s -> k < 2 ^ 40 ->
  exists t, advanced_time s n = Ok t /\ t <= from_secs (2 ^ 32 + 120 * (k + 1)).
Proof.
  intros [_ Ht] Hk. unfold advanced_time, VirtualInstant.add. pose proof (N.mod_lt n 120).
  unfold from_secs in *. rewrite (proj2 (N.ltb_lt _ _)) by lia. eexists. split; [done|]. lia.
Qed.

Lemma send_hello_ok k s : fz_inv k s -> exists s', on_send_hello s = Ok s' /\ fz_inv (k + 1) s'.
Proof using sizes.
  intros [Hs Ht]. unfold on_send_hello. pose proof (send_hello_answers (current_time s) (conn s)) as Hn.
  pose proof (send_hello_state (current_time s) (conn s)) as (_ & _ & Hid & Hst).
  destruct (send_hello (current_time s) (conn s)) as [c' r]. cbn [fst snd] in *.
  assert (Hinv : fz_inv (k + 1) (set_conn c' s)).
  { split; [|cbn; unfold from_secs in *; lia]. cbn [conn set_conn initial_session_id].
    destruct Hst as [(Hi & -> & _)|(_ & ->)]; [|done]. rewrite Hi in Hs. by rewrite Hid. }
  destruct r as [acts|e|]; [..|done]; cbn [is_ok negb orb andb]; rewrite ?andb_false_r, ?andb_true_r;
    [|eexists; split; [done|exact Hinv]].
  destruct Hst as [(Hi & Hp & _)|(Hi & ->)].
  - rewrite Hi, Hp. by eexists.
  - rewrite bool_decide_eq_false_2, bool_decide_eq_true_2 by done. by eexists.
Qed.

Lemma receive_event_ok k s fuzzed : fz_inv k s -> typed_event (EReceiveFrame fuzzed) ->
  exists s', on_receive fuzzed s = Ok s' /\ fz_inv (k + 1) s'.
Proof using sizes.
  intros [Hs Ht] Hty. unfold on_receive. destruct (create_frame_Ok fuzzed Hty) as [f ->].
  cbn [mbind res_bind].
  pose proof (handle_frame_state f (current_time s) (conn s)) as (_ & _ & _ & Hst).
  pose proof (handle_frame_answers f (current_time s) (conn s)) as [Hn Herr].
  destruct (handle_frame f (current_time s) (conn s)) as [c' r]. cbn [fst snd] in *.
  assert (Htime : current_time s <= from_secs (2 ^ 32 + 120 * (k + 1))) by (unfold from_secs in *; lia).
  destruct r as [acts|e|]; [| |done].
  - assert (Hterm : negb (bool_decide (state (conn s) = Closed) && negb (bool_decide (state c' = Closed))) = true).
    { destruct (bool_decide_reflect (state (conn s) = Closed)) as [Hc|]; [|done]. cbn [andb].
      rewrite bool_decide_eq_true_2; [done|]. rewrite Hc in Hst.
      by destruct Hst as [[-> _]|[[-> _]|[(? & _)|(? & _)]]]. }
    rewrite Hterm. cbn [asserts mbind res_bind]. eexists. split; [done|]. split; [|done]. cbn.
    destruct Hst as [[Hsame Hid]|[[Hc Hid]|[(Hi & Ha & hello & id & _ & _ & Hid & _)|(Hp & Ha & reply & _ & Hid)]]].
    + rewrite Hsame, Hid. destruct (state (conn s)) eqn:E; try done.
    + by rewrite Hc.
    + rewrite Hi in Hs. destruct Hs as [Hs _]. congruence.
    + rewrite Hp in Hs. destruct Hs as [_ Hs]. rewrite Hp, Ha, Hid, Hs. cbn. by split.
  - assert (Herr' : state c' = state (conn s) \/ state c' = Closed).
    { apply Herr; [done|]. intros Hi. rewrite Hi in Hs. apply Hs. }
    assert (Hb : bool_decide (state c' = state (conn s)) || bool_decide (state c' = Closed) = true).
    { destruct Herr' as [-> | ->]; [by rewrite bool_decide_eq_true_2|apply orb_true_r]. }
    rewrite Hb. cbn [asserts mbind res_bind]. eexists. split; [done|]. split; [|done]. cbn.
    destruct Herr' as [E|E]; [|by rewrite E].
    destruct Hst as [[_ Hid]|[[Hc _]|[(Hi & Ha & _)|(Hp & Ha & _)]]]; [|by rewrite Hc|congruence..].
    by rewrite E, Hid.
Qed.

Lemma event_ok k s ev : fz_inv k s -> k < 2 ^ 40 -> typed_event ev ->
  exists s', on_event ev s = Ok s' /\ fz_inv (k + 1) s'.
Proof using sizes.
  intros HI Hk Hty. assert (Htime : current_time s <= from_secs (2 ^ 32 + 120 * (k + 1))).
  { destruct HI as [_ Ht]. unfold from_secs in *. lia. }
  destruct ev as [|fuzzed|n| |n]; cbn [on_event].
  - by apply send_hello_ok.
  - by apply receive_event_ok.
  - destruct (advanced_time_Ok k s n HI Hk) as (t & -> & Ht). cbn [mbind res_bind].
    pose proof (tick_state t (conn s)) as (_ & Hid & Hst). unfold tick in *.
    destruct HI as [Hs _]. destruct (check_timeout (conn s) t).
    + cbn. eexists. split; [done|]. by split.
    + destruct (bool_decide (state (conn s) = Authenticated));
        [destruct (match last_heartbeat (conn s) with None => _ | Some _ => _ end)|];
        (eexists; split; [done|]; split; [exact Hs|done]).
  - cbn. eexists. split; [done|]. by split.
  - destruct (advanced_time_Ok k s n HI Hk) as (t & -> & _). cbn [mbind res_bind].
    eexists. split; [done|]. split; [apply HI|done].
Qed.

Lemma check_session_ok k s : fz_inv k s -> check_session s = Ok s.
Proof.
  intros [Hs _]. unfold check_session. case_bool_decide as Ha; [|done]. rewrite Ha in Hs.
  destruct Hs as [[id Hid] E]. rewrite Hid in *. rewrite <- E. cbn. by rewrite N.eqb_refl.
Qed.

Lemma events_ok evs : forall k s, fz_inv k s -> Forall typed_event evs -> k + len evs < 2 ^ 40 ->
  exists s', on_events evs s = Ok s'.
Proof using sizes.
  induction evs as [|ev evs IH]; intros k s HI Hty Hk; [by eexists|].
  apply Forall_cons in Hty as [Hev Hty]. unfold len in Hk. cbn [length] in Hk. cbn [on_events].
  destruct (event_ok k s ev HI ltac:(lia) Hev) as (s1 & -> & HI1). cbn [mbind res_bind].
  rewrite (check_session_ok _ _ HI1). cbn [mbind res_bind]. apply (IH (k + 1)); [done..|]. unfold len. lia.
Qed.

(** C26: no input makes [connection_state_fuzzer] fail: over any sequence of
    frames, ticks, closes and handshakes, a hello is sent only from the initial
    state, an error leaves the state or closes it, a closed connection stays
    closed, a close action closes, and the session id never changes. *)
Theorem connection_fuzz_holds input : typed input -> target input = Ok tt.
Proof using sizes.
  intros (Ht & Hev & Hlen). unfold target.
  destruct (events_ok (events input) 0 (start input)) as [s ->]; [|done|lia|].
  { split; [done|]. cbn. unfold from_secs. lia. }
  cbn [mbind res_bind]. unfold check_end. case_bool_decide as Hc; [|done].
  pose proof (send_hello_answers (current_time s) (conn s)) as Hn.
  pose proof (send_hello_state (current_time s) (conn s)) as (_ & _ & _ & Hst).
  destruct (send_hello (current_time s) (conn s)) as [c' r]. cbn [fst snd] in *.
  destruct Hst as [(Hi & _)|(_ & ->)]; [congruence|].
  assert (Hend : state (fst (tick (current_time s) (conn s))) = Closed).
  { pose proof (tick_state (current_time s) (conn s)) as (_ & _ & [->|[-> _]]); done. }
  rewrite Hend. by destruct r.
Qed.

End target.
End ConnectionFuzz.
