(* ===== verification/Scenario.v ===== *)
(** * Scenarios: a client and a server connection, face to face

    [lockframe-harness/src/scenario]: the world of one client connection and one
    server connection ([world.rs]), the actors that drive one side each
    ([actor.rs]), the oracles ([oracle.rs]) and the scenarios that run the
    handshake, let time pass and ask an oracle ([builder.rs]).  The two ends are
    the [Connection] of the protocol, so what is proved of a scenario is proved of
    the handshake itself. *)

From S2P Require Import Prelude Env Opcodes Header Framing Payloads Connection.

Local Open Scope N_scope.

(** ** The world *)

(** [NetworkEvent]; a rate is the bit pattern of its double. *)
Inductive NetworkEvent :=
  | NEPartition
  | NEPartitionHealed
  | NEPacketLoss (rate : N)
  | NELatency (min_ms max_ms : N).

Module World.

Record t := mk {
  w_client : option Connection.t;
  w_server : option Connection.t;
  client_frames_sent : N;
  client_frames_received : N;
  server_frames_sent : N;
  server_frames_received : N;
  network_events : list NetworkEvent }.

Definition new : t := mk None None 0 0 0 0 [].

Definition with_client (c : option Connection.t) (w : t) : t :=
  mk c (w_server w) (client_frames_sent w) (client_frames_received w)
    (server_frames_sent w) (server_frames_received w) (network_events w).
Definition with_server (c : option Connection.t) (w : t) : t :=
  mk (w_client w) c (client_frames_sent w) (client_frames_received w)
    (server_frames_sent w) (server_frames_received w) (network_events w).

Abbreviation world A := (M t string A).

(** The [assert!] of the setters. *)
Definition set_client (connection : Connection.t) : world unit :=
  w ← get;
  match w_client w with
  | None => modify (with_client (Some connection))
  | Some _ => lift Panic
  end.

Definition set_server (connection : Connection.t) : world unit :=
  w ← get;
  match w_server w with
  | None => modify (with_server (Some connection))
  | Some _ => lift Panic
  end.

(** The [expect] of the getters. *)
Definition client (w : t) : res string Connection.t :=
  match w_client w with Some c => Ok c | None => Panic end.
Definition server (w : t) : res string Connection.t :=
  match w_server w with Some c => Ok c | None => Panic end.

(** A call through [client_mut] or [server_mut]; the error becomes a text. *)
Definition client_mut {A} (m : Connection.conn A) (context : string) : world A :=
  w ← get;
  match w_client w with
  | None => lift Panic
  | Some c =>
      let '(c', r) := m c in
      modify (with_client (Some c'));;
      lift (map_err (fun e => context +:+ ConnectionError.display e) r)
  end.

Definition server_mut {A} (m : Connection.conn A) (context : string) : world A :=
  w ← get;
  match w_server w with
  | None => lift Panic
  | Some c =>
      let '(c', r) := m c in
      modify (with_server (Some c'));;
      lift (map_err (fun e => context +:+ ConnectionError.display e) r)
  end.

Definition record_client_frame_sent (w : t) : t :=
  mk (w_client w) (w_server w) (client_frames_sent w + 1) (client_frames_received w)
    (server_frames_sent w) (server_frames_received w) (network_events w).
Definition record_client_frame_received (w : t) : t :=
  mk (w_client w) (w_server w) (client_frames_sent w) (client_frames_received w + 1)
    (server_frames_sent w) (server_frames_received w) (network_events w).
Definition record_server_frame_sent (w : t) : t :=
  mk (w_client w) (w_server w) (client_frames_sent w) (client_frames_received w)
    (server_frames_sent w + 1) (server_frames_received w) (network_events w).
Definition record_server_frame_received (w : t) : t :=
  mk (w_client w) (w_server w) (client_frames_sent w) (client_frames_received w)
    (server_frames_sent w) (server_frames_received w + 1) (network_events w).
Definition record_network_event (event : NetworkEvent) (w : t) : t :=
  mk (w_client w) (w_server w) (client_frames_sent w) (client_frames_received w)
    (server_frames_sent w) (server_frames_received w) (network_events w ++ [event]).

(** [&&] asks for the server only when the client is authenticated. *)
Definition all_authenticated (w : t) : res string bool :=
  match client w with
  | Ok c =>
      if bool_decide (Connection.state c = Authenticated) then
        match server w with
        | Ok s => Ok (bool_decide (Connection.state s = Authenticated))
        | Err e => Err e
        | Panic => Panic
        end
      else Ok false
  | Err e => Err e
  | Panic => Panic
  end.

Definition session_ids_match (w : t) : res string bool :=
  match client w, server w with
  | Ok c, Ok s =>
      Ok (match Connection.session_id c, Connection.session_id s with
          | Some client_id, Some server_id => client_id =? server_id
          | _, _ => false
          end)
  | _, _ => Panic
  end.

End World.

(** ** Oracles *)

Definition OracleFn : Type := World.t -> res string unit.

(** The answer of an oracle that asks one question. *)
Definition verdict (answer : res string bool) (complaint : string) : res string unit :=
  match answer with
  | Ok true => Ok tt
  | Ok false => Err complaint
  | Err e => Err e
  | Panic => Panic
  end.

Module Oracle.

Definition all_authenticated : OracleFn := fun world =>
  verdict (World.all_authenticated world) "Not all actors are authenticated".

Definition session_ids_match : OracleFn := fun world =>
  verdict (World.session_ids_match world) "Session IDs do not match across actors".

Fixpoint all_of (oracles : list OracleFn) : OracleFn := fun world =>
  match oracles with
  | [] => Ok tt
  | oracle :: rest =>
      match oracle world with
      | Ok _ => all_of rest world
      | Err e => Err e
      | Panic => Panic
      end
  end.

End Oracle.

(** ** Actors *)

(** The actors of the two sides have the same fields. *)
Record Actor := mkActor {
  actor_name : string;
  actor_connection : Connection.t;
  actor_now : Instant }.

Abbreviation actor A := (M Actor string A).

(** A call of the actor's connection; an error is told with the actor's name. *)
Definition drive {A} (m : Connection.conn A) (context : string -> string) : actor A := fun a =>
  let '(c', r) := m (actor_connection a) in
  (mkActor (actor_name a) c' (actor_now a),
   map_err (fun e => context (actor_name a) +:+ ConnectionError.display e) r).

(** The one action of [send_hello] and [handle_hello]. *)
Definition one_frame (operation : string) (actions : list ConnectionAction) : res string Frame.t :=
  match actions with
  | [SendFrame frame] => Ok frame
  | [Close reason] => Err reason
  | _ => Err ("Expected 1 action from " +:+ operation +:+ ", got " +:+ pretty (length actions))
  end.

(** [expect_authenticated] of both actors. *)
Definition expect_authenticated (side : string) (a : Actor) : res string unit :=
  let st := Connection.state (actor_connection a) in
  if bool_decide (st = Authenticated) then Ok tt
  else Err (side +:+ " " +:+ actor_name a +:+ " expected Authenticated, got " +:+ fmt_state st).

Module ClientActor.
Section actor.
Context `{Ciborium}.

Definition new (name : string) (connection : Connection.t) (now : Instant) : Actor :=
  mkActor name connection now.

Definition send_hello : actor Frame.t :=
  a ← get;
  actions ← drive (Connection.send_hello (actor_now a))
              (fun name => "Client " +:+ name +:+ " failed to send_hello: ");
  lift (one_frame "send_hello" actions).

Definition handle_hello_reply (frame : Frame.t) : actor unit :=
  a ← get;
  actions ← drive (Connection.handle_frame frame (actor_now a))
              (fun name => "Client " +:+ name +:+ " failed to handle HelloReply: ");
  match actions with
  | [] => mret tt
  | _ => throw ("Unexpected actions from HelloReply: " +:+ pretty (length actions) +:+ " actions")
  end.

Definition expect_authenticated (a : Actor) : res string unit := expect_authenticated "Client" a.

End actor.
End ClientActor.

Module ServerActor.
Section actor.
Context `{Ciborium}.

Definition new (name : string) (connection : Connection.t) (now : Instant) : Actor :=
  mkActor name connection now.

Definition handle_hello (frame : Frame.t) : actor Frame.t :=
  a ← get;
  actions ← drive (Connection.handle_frame frame (actor_now a))
              (fun name => "Server " +:+ name +:+ " failed to handle Hello: ");
  lift (one_frame "handle_hello" actions).

Definition expect_authenticated (a : Actor) : res string unit := expect_authenticated "Server" a.

End actor.
End ServerActor.

(** ** Scenarios *)

Module Scenario.

Record t := mk {
  client_config : ConnectionConfig;
  server_config : ConnectionConfig;
  time_advance : option Duration }.

Definition new : t := mk default_connection_config default_connection_config None.

Definition with_client_config (config : ConnectionConfig) (s : t) : t :=
  mk config (server_config s) (time_advance s).
Definition with_server_config (config : ConnectionConfig) (s : t) : t :=
  mk (client_config s) config (time_advance s).
Definition with_time_advance (duration : Duration) (s : t) : t :=
  mk (client_config s) (server_config s) (Some duration).

Inductive Side := Client | Server.

Definition process_action (side : Side) (action : ConnectionAction) (w : World.t) : World.t :=
  match action with
  | Close _ => w
  | SendFrame _ =>
      match side with
      | Client => World.record_client_frame_sent w
      | Server => World.record_server_frame_sent w
      end
  end.

Definition process_actions (side : Side) (actions : list ConnectionAction) (w : World.t) : World.t :=
  fold_left (fun w action => process_action side action w) actions w.

(** [tick] cannot fail. *)
Definition ticked (now : Instant) : Connection.conn (list ConnectionAction) := fun c =>
  let '(c', actions) := Connection.tick now c in (c', Ok actions).

Section runs.
Context `{Ciborium}.

Definition tick_connections (now : Instant) : World.world unit :=
  client_actions ← World.client_mut (ticked now) (EmptyString);
  modify (process_actions Client client_actions);;
  server_actions ← World.server_mut (ticked now) (EmptyString);
  modify (process_actions Server server_actions).

Definition execute_handshake (now : Instant) : World.world unit :=
  actions ← World.client_mut (Connection.send_hello now) "client send_hello failed: ";
  hello_frame ← match actions with
                | [SendFrame frame] => mret frame
                | _ => throw "client send_hello returned unexpected actions"%string
                end;
  modify World.record_client_frame_sent;;
  modify World.record_server_frame_received;;
  actions ← World.server_mut (Connection.handle_frame hello_frame now)
              "server handle_frame(Hello) failed: ";
  hello_reply_frame ← match actions with
                      | [SendFrame frame] => mret frame
                      | _ => throw "server handle_frame(Hello) returned unexpected actions"%string
                      end;
  modify World.record_server_frame_sent;;
  modify World.record_client_frame_received;;
  actions ← World.client_mut (Connection.handle_frame hello_reply_frame now)
              "client handle_frame(HelloReply) failed: ";
  match actions with
  | [] => mret tt
  | _ => throw "client handle_frame(HelloReply) returned unexpected actions"%string
  end.

Definition SESSION_ID : N := 0x1000000000000000.

(** [run] up to the oracle; [now] is what the environment's clock gives. *)
Definition play (scenario : t) (now : Instant) : World.world unit :=
  let client := Connection.new now (client_config scenario) in
  let server := Connection.set_session_id SESSION_ID
                  (Connection.new now (server_config scenario)) in
  World.set_client client;;
  World.set_server server;;
  execute_handshake now;;
  match time_advance scenario with
  | Some advance => future ← lift (instant_add now advance); tick_connections future
  | None => mret tt
  end.

Definition run `{Environment Env} (scenario : t) (oracle : OracleFn) (env : Env) : res string unit :=
  let '(now, _) := now env in
  match play scenario now World.new with
  | (world, Ok _) => oracle world
  | (_, Err e) => Err e
  | (_, Panic) => Panic
  end.

End runs.
End Scenario.

(** ** What a scenario comes to *)

Module ScenarioProperties.
Section properties.
Context `{Ciborium}.

Implicit Types (now : Instant) (cfg : ConnectionConfig) (sc : Scenario.t).

(** The payload serialises, within the limit of a frame. *)
Definition carried (p : Payload.t) : Prop :=
  exists bs, Payload.encode p [] = Ok bs /\ len bs <= FrameHeader.MAX_PAYLOAD_SIZE.

Definition hello : Payload.t := Payload.Hello (mkHello 1 [] None None).
Definition reply (id : N) : Payload.t := Payload.HelloReply (mkHelloReply id [] None).

(** The connection of either side after the handshake. *)
Definition established now cfg : Connection.t :=
  Connection.mk Authenticated cfg now None (Some Scenario.SESSION_ID) None.

(** Whether the time that passes after the handshake closes a connection. *)
Definition expired cfg (advance : option Duration) : bool :=
  match advance with Some d => cc_idle_timeout cfg <? d | None => false end.

(** The time that passes leads to an instant of the clock. *)
Definition in_time now (advance : option Duration) : bool :=
  match advance with Some d => now + d <? INSTANT_END | None => true end.

(** Frames a side has sent: one in the handshake, and the first heartbeat. *)
Definition frames_sent cfg (advance : option Duration) : N :=
  match advance with Some d => if cc_idle_timeout cfg <? d then 1 else 2 | None => 1 end.

(** Evaluation up to the frames. *)
Ltac calc :=
  cbn -[Payload.into_frame Payload.from_frame FrameHeader.new Connection.send_hello
    Connection.handle_frame Connection.tick].

Lemma carried_frame p op : carried p ->
  exists f, Payload.into_frame p (FrameHeader.new op) = Ok f /\
    FrameHeader.opcode_enum (Frame.header f) = Some (Payload.opcode p) /\
    Payload.from_frame f = Ok p.
Proof.
  intros (bs & He & Hl).
  destruct (Payload.into_frame p (FrameHeader.new op)) as [f|e|] eqn:Hf.
  - pose proof (Payload.opcode_enum_into_frame _ _ _ Hf) as Ho. exists f. split_and!; try done.
    destruct (Payload.into_frame_Ok _ _ _ Hf) as (bs' & He' & _ & ->).
    rewrite He in He'. injection He' as <-. unfold Payload.from_frame. rewrite Ho. cbn.
    by apply Payload.decode_encode.
  - exfalso. revert Hf. unfold Payload.into_frame. rewrite He. cbn. unfold Frame.new. by case_match.
  - exfalso. revert Hf. apply Payload.into_frame_answers; [|by rewrite He].
    intros ? [= <-]%(eq_trans (eq_sym He)). unfold FrameHeader.MAX_PAYLOAD_SIZE, u32_MAX in *. lia.
Qed.

(** The three steps of the handshake, on the connections of any two parties. *)
Lemma send_hello_new now cfg : carried hello ->
  exists f, Connection.send_hello now (Connection.new now cfg)
      = (Connection.mk Pending cfg now None None None, Ok [SendFrame f]) /\
    FrameHeader.opcode_enum (Frame.header f) = Some Opcode.Hello /\
    Payload.from_frame f = Ok hello.
Proof.
  intros (f & Hf & Ho & Hr)%(carried_frame _ Opcode.Hello). exists f.
  split; [|done]. unfold Connection.send_hello, Connection.try_into_frame. unfold_M. calc.
  change (Payload.Hello _) with hello. by rewrite Hf.
Qed.

Lemma hello_answered now cfg id f : carried (reply id) ->
  FrameHeader.opcode_enum (Frame.header f) = Some Opcode.Hello ->
  Payload.from_frame f = Ok hello ->
  exists f', Connection.handle_frame f now (Connection.set_session_id id (Connection.new now cfg))
      = (Connection.mk Authenticated cfg now None (Some id) None, Ok [SendFrame f']) /\
    FrameHeader.opcode_enum (Frame.header f') = Some Opcode.HelloReply /\
    Payload.from_frame f' = Ok (reply id).
Proof.
  intros (f' & Hf & Ho' & Hr')%(carried_frame _ Opcode.HelloReply) Ho Hr. exists f'.
  split; [|done].
  unfold Connection.handle_frame, Connection.try_into_frame, Connection.try_from_frame. unfold_M.
  calc. rewrite Ho. calc. rewrite Hr. calc.
  change (Payload.HelloReply _) with (reply id). by rewrite Hf.
Qed.

Lemma reply_accepted now cfg id f :
  FrameHeader.opcode_enum (Frame.header f) = Some Opcode.HelloReply ->
  Payload.from_frame f = Ok (reply id) ->
  Connection.handle_frame f now (Connection.mk Pending cfg now None None None)
  = (Connection.mk Authenticated cfg now None (Some id) None, Ok []).
Proof.
  intros Ho Hr. unfold Connection.handle_frame, Connection.try_from_frame. unfold_M.
  calc. rewrite Ho. calc. by rewrite Hr.
Qed.

(** The first tick after the handshake. *)
Lemma tick_established now cfg d :
  exists c, Connection.tick (now + d) (established now cfg)
    = (c, if cc_idle_timeout cfg <? d
          then [Close ("idle timeout after " +:+ fmt_duration d)]
          else [SendFrame (Connection.empty_frame Opcode.Ping)]) /\
    Connection.state c = (if cc_idle_timeout cfg <? d then Closed else Authenticated) /\
    Connection.session_id c = Some Scenario.SESSION_ID.
Proof.
  unfold Connection.tick, Connection.check_timeout, established. cbn [Connection.state
    Connection.config Connection.last_activity].
  replace (instant_sub (now + d) now) with d by (unfold instant_sub, saturating_sub; lia).
  destruct (cc_idle_timeout cfg <? d); eexists; split_and!; reflexivity.
Qed.

Lemma handshake_done sc now :
  carried hello -> carried (reply Scenario.SESSION_ID) ->
  let w := World.mk (Some (Connection.new now (Scenario.client_config sc)))
             (Some (Connection.set_session_id Scenario.SESSION_ID
                      (Connection.new now (Scenario.server_config sc)))) 0 0 0 0 [] in
  Scenario.execute_handshake now w
  = (World.mk (Some (established now (Scenario.client_config sc)))
       (Some (established now (Scenario.server_config sc))) 1 1 1 1 [], Ok tt).
Proof.
  intros Hh Hr w.
  destruct (send_hello_new now (Scenario.client_config sc) Hh) as (f & Hs & Ho & Hd).
  destruct (hello_answered now (Scenario.server_config sc) _ f Hr Ho Hd) as (f' & Ha & Ho' & Hd').
  pose proof (reply_accepted now (Scenario.client_config sc) _ f' Ho' Hd') as Hf.
  unfold Scenario.execute_handshake, World.client_mut, World.server_mut. unfold_M.
  calc. rewrite Hs. calc. rewrite Ha. calc. by rewrite Hf.
Qed.

Lemma play_done sc now :
  carried hello -> carried (reply Scenario.SESSION_ID) ->
  if negb (in_time now (Scenario.time_advance sc))
  then snd (Scenario.play sc now World.new) = Panic
  else exists w c s, Scenario.play sc now World.new = (w, Ok tt) /\
    World.client w = Ok c /\ World.server w = Ok s /\
    Connection.session_id c = Some Scenario.SESSION_ID /\
    Connection.session_id s = Some Scenario.SESSION_ID /\
    Connection.state c = (if expired (Scenario.client_config sc) (Scenario.time_advance sc)
                          then Closed else Authenticated) /\
    Connection.state s = (if expired (Scenario.server_config sc) (Scenario.time_advance sc)
                          then Closed else Authenticated) /\
    World.client_frames_sent w = frames_sent (Scenario.client_config sc) (Scenario.time_advance sc) /\
    World.server_frames_sent w = frames_sent (Scenario.server_config sc) (Scenario.time_advance sc).
Proof.
  intros Hh Hr. pose proof (handshake_done sc now Hh Hr) as Hd.
  destruct sc as [ccfg scfg adv]. cbn [Scenario.client_config Scenario.server_config] in Hd.
  unfold Scenario.play, World.set_client, World.set_server. unfold_M.
  cbn -[Scenario.execute_handshake Scenario.tick_connections Connection.new
    Connection.set_session_id Scenario.SESSION_ID].
  unfold World.with_server, World.with_client, World.new. cbn [World.w_client World.w_server
    World.client_frames_sent World.client_frames_received World.server_frames_sent
    World.server_frames_received World.network_events]. rewrite Hd.
  destruct adv as [d|]; [|eexists _, _, _; split_and!; reflexivity].
  cbn -[Connection.tick Scenario.tick_connections established INSTANT_END N.add].
  unfold instant_add. destruct (now + d <? INSTANT_END); [|reflexivity].
  cbn -[Connection.tick Scenario.tick_connections established].
  destruct (tick_established now ccfg d) as (c & Hc & Hcs & Hci).
  destruct (tick_established now scfg d) as (s & Hs & Hss & Hsi).
  unfold Scenario.tick_connections, World.client_mut, World.server_mut, Scenario.ticked. unfold_M.
  cbn -[Connection.tick established]. rewrite Hc. cbn -[Connection.tick established fmt_duration].
  destruct (cc_idle_timeout ccfg <? d); cbn -[Connection.tick established fmt_duration]; rewrite Hs;
    destruct (cc_idle_timeout scfg <? d); cbn -[fmt_duration];
    eexists _, _, _; split_and!; try reflexivity; done.
Qed.

(** C31: the two ends of a connection agree: whatever their configurations, a
    client that says Hello and a server that answers come to the same session,
    both authenticated; when time then passes, each end closes exactly if the
    time exceeds its own idle timeout and otherwise sends its first heartbeat,
    and they remain ends of the same session.  So a scenario panics exactly when
    the time it lets pass leads past the end of the clock, whatever its oracle;
    otherwise its answer is the oracle's, on a world where the session ids match
    and all are authenticated exactly when no end has timed out.  The payloads of
    the handshake serialise, within the limit of a frame. *)
Theorem scenario_agreement `{Environment Env} sc (env : Env) :
  carried hello -> carried (reply Scenario.SESSION_ID) ->
  let late cfg := expired cfg (Scenario.time_advance sc) in
  let end_state cfg := if late cfg then Closed else Authenticated in
  if negb (in_time (fst (now env)) (Scenario.time_advance sc))
  then forall oracle, Scenario.run sc oracle env = Panic
  else exists w c s, (forall oracle, Scenario.run sc oracle env = oracle w) /\
    World.client w = Ok c /\ World.server w = Ok s /\
    Connection.session_id c = Some Scenario.SESSION_ID /\
    Connection.session_id s = Some Scenario.SESSION_ID /\
    Connection.state c = end_state (Scenario.client_config sc) /\
    Connection.state s = end_state (Scenario.server_config sc) /\
    World.client_frames_sent w = frames_sent (Scenario.client_config sc) (Scenario.time_advance sc) /\
    World.server_frames_sent w = frames_sent (Scenario.server_config sc) (Scenario.time_advance sc) /\
    World.session_ids_match w = Ok true /\
    World.all_authenticated w
    = Ok (negb (late (Scenario.client_config sc) || late (Scenario.server_config sc))).
Proof.
  intros Hh Hr late end_state. unfold Scenario.run. destruct (now env) as [t e']. cbn [fst].
  pose proof (play_done sc t Hh Hr) as Hp. destruct (negb _).
  { by destruct (Scenario.play sc t World.new) as [? []]. }
  destruct Hp as (w & c & s & Hp & Hc & Hs & Hci & Hsi & Hcs & Hss & Hcf & Hsf).
  rewrite Hp. exists w, c, s. split_and!; [done..| |].
  - unfold World.session_ids_match. by rewrite Hc, Hs, Hci, Hsi.
  - unfold World.all_authenticated. rewrite Hc, Hs, Hcs, Hss. unfold late.
    by destruct (expired _ _), (expired _ _).
Qed.

(** Two actors that pass each other's frames on are authenticated. *)
Theorem actors_authenticate n1 n2 now ccfg scfg id :
  carried hello -> carried (reply id) ->
  let a := ClientActor.new n1 (Connection.new now ccfg) now in
  let b := ServerActor.new n2 (Connection.set_session_id id (Connection.new now scfg)) now in
  exists f f' a1 a2 b1, ClientActor.send_hello a = (a1, Ok f) /\
    ServerActor.handle_hello f b = (b1, Ok f') /\
    ClientActor.handle_hello_reply f' a1 = (a2, Ok tt) /\
    ClientActor.expect_authenticated a2 = Ok tt /\ ServerActor.expect_authenticated b1 = Ok tt /\
    Connection.session_id (actor_connection a2) = Connection.session_id (actor_connection b1).
Proof.
  intros Hh Hr a b.
  destruct (send_hello_new now ccfg Hh) as (f & Hs & Ho & Hd).
  destruct (hello_answered now scfg _ f Hr Ho Hd) as (f' & Ha & Ho' & Hd').
  pose proof (reply_accepted now ccfg _ f' Ho' Hd') as Hf.
  exists f, f', (mkActor n1 (Connection.mk Pending ccfg now None None None) now),
    (mkActor n1 (Connection.mk Authenticated ccfg now None (Some id) None) now),
    (mkActor n2 (Connection.mk Authenticated scfg now None (Some id) None) now).
  unfold ClientActor.send_hello, ServerActor.handle_hello,
    ClientActor.handle_hello_reply, drive. unfold_M. calc. rewrite Hs, Ha. calc.
  rewrite Hf. split_and!; reflexivity.
Qed.

End properties.

(** ** A witness: a client that waits longer than the server *)

Definition patient_client : Scenario.t :=
  Scenario.with_time_advance (from_secs 90)
    (Scenario.with_client_config (mkConnectionConfig (from_secs 30) (from_secs 120) (from_secs 20))
       Scenario.new).

(** An oracle that asks the world whether both ends are authenticated. *)
Definition both_authenticated : OracleFn := fun w =>
  verdict (World.all_authenticated w) "an end has gone".

Lemma scenario_agreement_witness :
  Scenario.run (H := sample_ciborium) patient_client both_authenticated (mkTestEnv 5 0 0 0)
  = Err "an end has gone"%string.
Proof.
  destruct (scenario_agreement (H := sample_ciborium) patient_client (mkTestEnv 5 0 0 0))
    as (w & c & s & -> & _ & _ & _ & _ & _ & _ & _ & _ & _ & Ha);
    [eexists; split; [reflexivity|by vm_compute]..|].
  unfold both_authenticated. rewrite Ha. reflexivity.
Defined.

End ScenarioProperties.
