(* ===== verification/Validator.v ===== *)
(** * MLS group state and frame validation

    [MlsGroupState] of [lockframe-core/src/mls/state.rs], the server's view of a
    group, and [MlsValidator] of [lockframe-core/src/mls/validator.rs], the
    check of epoch, membership and signature; the [MlsError]s of
    [mls/error.rs].  Ed25519 is a parameter: the class [Ed25519] holds what the
    code calls of [ed25519_dalek]. *)

From S2P Require Import Prelude Env Opcodes Header Framing.

Local Open Scope N_scope.

Class Ed25519 := {
  VerifyingKey : Type;
  Signature : Type;
  vk_from_bytes : bytes -> option VerifyingKey;
  signature_try_from : bytes -> option Signature;
  verify : VerifyingKey -> bytes -> Signature -> bool;
}.

(** [mls/constants.rs]. *)
Definition MAX_EPOCH : N := 1000000.

Module MlsError.

Inductive t : Type :=
  | Serialization (msg : string)
  | UnexpectedMessage (msg : string)
  | InvalidState (epoch : N) (operation : string)
  | EpochMismatch (expected received : N)
  | MemberNotFound (member_id : N)
  | MemberAlreadyExists (member_id : N)
  | InvalidProposal (reason : string)
  | InvalidCommit (reason : string)
  | Crypto (msg : string)
  | Codec (msg : string)
  | Protocol (msg : string)
  | NotMember
  | Timeout (elapsed : Duration)
  | GroupNotFound
  | ValidationFailed (msg : string).

#[global] Instance mls_error_eq_dec : EqDecision t.
Proof. solve_decision. Defined.

Definition display (e : t) : string :=
  match e with
  | Serialization msg => "serialization error: " +:+ msg
  | UnexpectedMessage msg => "unexpected message type: " +:+ msg
  | InvalidState epoch operation =>
      "invalid state: cannot " +:+ operation +:+ " in epoch " +:+ pretty epoch
  | EpochMismatch expected received =>
      "epoch mismatch: expected " +:+ pretty expected +:+ ", received " +:+ pretty received
  | MemberNotFound id => "member not found: " +:+ pretty id
  | MemberAlreadyExists id => "member already exists: " +:+ pretty id
  | InvalidProposal reason => "invalid proposal: " +:+ reason
  | InvalidCommit reason => "invalid commit: " +:+ reason
  | Crypto msg => "crypto error: " +:+ msg
  | Codec msg => "codec error: " +:+ msg
  | Protocol msg => "protocol violation: " +:+ msg
  | NotMember => "not a member of group"
  | Timeout elapsed => "timeout after " +:+ fmt_duration elapsed
  | GroupNotFound => "group not found"
  | ValidationFailed msg => "validation failed: " +:+ msg
  end.

Definition is_transient (e : t) : bool :=
  match e with EpochMismatch _ _ | Timeout _ => true | _ => false end.

End MlsError.

Module MlsGroupState.

Record t := mk {
  room_id : N;
  epoch : N;
  tree_hash : bytes;
  members : list N;
  member_keys : gmap N bytes }.

#[global] Instance group_state_eq_dec : EqDecision t.
Proof. solve_decision. Defined.

Definition new (room_id epoch : N) (tree_hash : bytes) (members : list N) : t :=
  mk room_id epoch tree_hash members ∅.

Definition with_keys (room_id epoch : N) (tree_hash : bytes) (members : list N)
    (member_keys : gmap N bytes) : t :=
  mk room_id epoch tree_hash members member_keys.

Definition is_member (s : t) (member_id : N) : bool :=
  existsb (N.eqb member_id) (members s).

Definition member_count (s : t) : N := len (members s).

Definition member_key `{Ed25519} (s : t) (member_id : N) : option VerifyingKey :=
  member_keys s !! member_id ≫= vk_from_bytes.

Lemma is_member_spec s id : is_member s id = true <-> id ∈ members s.
Proof.
  unfold is_member. rewrite existsb_exists, list_elem_of_In. split.
  - intros (x & Hx & ->%N.eqb_eq). done.
  - intros Hx. exists id. by rewrite N.eqb_refl.
Qed.

End MlsGroupState.

Inductive ValidationResult := Accept | Reject (reason : string).

Module MlsValidator.
Section validator.
Context `{Ed25519}.

Definition validate_signature (frame : Frame.t) (group_state : MlsGroupState.t)
    : ValidationResult :=
  let sender_id := FrameHeader.sender_id (Frame.header frame) in
  match MlsGroupState.member_key group_state sender_id with
  | None =>
      Reject ("member " +:+ pretty sender_id
                +:+ " has no signature key (group state inconsistency)")
  | Some verifying_key =>
      let signature_bytes := FrameHeader.signature (Frame.header frame) in
      match signature_try_from signature_bytes with
      | None => Reject "invalid signature format"
      | Some signature =>
          let signed_data := FrameHeader.signing_data (Frame.header frame) in
          if negb (verify verifying_key signed_data signature) then
            Reject ("signature verification failed for sender " +:+ pretty sender_id)
          else Accept
      end
  end.

Definition validate_frame (frame : Frame.t) (current_epoch : N)
    (group_state : MlsGroupState.t) : ValidationResult :=
  let frame_epoch := FrameHeader.epoch (Frame.header frame) in
  if negb (frame_epoch =? current_epoch) then
    Reject ("epoch mismatch: expected " +:+ pretty current_epoch
              +:+ ", got " +:+ pretty frame_epoch)
  else
    let sender_id := FrameHeader.sender_id (Frame.header frame) in
    if negb (MlsGroupState.is_member group_state sender_id) then
      Reject ("sender " +:+ pretty sender_id +:+ " not in group")
    else validate_signature frame group_state.

Definition validate_frame_no_state (frame : Frame.t) : ValidationResult :=
  let frame_epoch := FrameHeader.epoch (Frame.header frame) in
  if negb (frame_epoch =? 0) then
    Reject ("no MLS state for room, expected epoch 0, got " +:+ pretty frame_epoch)
  else Accept.

(** ** Lemmas *)

Lemma validate_signature_Accept frame gs :
  validate_signature frame gs = Accept <->
  exists vk sig,
    MlsGroupState.member_key gs (FrameHeader.sender_id (Frame.header frame)) = Some vk /\
    signature_try_from (FrameHeader.signature (Frame.header frame)) = Some sig /\
    verify vk (FrameHeader.signing_data (Frame.header frame)) sig = true.
Proof.
  unfold validate_signature. split.
  - repeat case_match; try done. intros _. bool2prop. eauto.
  - intros (vk & sig & -> & -> & ->). done.
Qed.

(** Same header but for the sequencer's field: same signing data. *)
Lemma signing_data_set_log_index i h :
  FrameHeader.wf h ->
  FrameHeader.signing_data (FrameHeader.set_log_index i h) = FrameHeader.signing_data h.
Proof.
  intros Hw. rewrite !FrameHeader.signing_data_split by auto with lockframe. done.
Qed.

Lemma validate_signature_log_index i frame gs :
  FrameHeader.wf (Frame.header frame) ->
  validate_signature (Frame.mk (FrameHeader.set_log_index i (Frame.header frame))
                        (Frame.payload frame)) gs
  = validate_signature frame gs.
Proof.
  intros Hw. unfold validate_signature. simpl Frame.header.
  by rewrite signing_data_set_log_index.
Qed.

(** ** Properties *)

(** The validator accepts a frame exactly when its epoch is the current
    one, its sender is a member whose stored key parses, and that key verifies
    the frame's signature over the header's signing data. *)
Lemma validate_frame_accepts frame current_epoch gs :
  validate_frame frame current_epoch gs = Accept <->
  FrameHeader.epoch (Frame.header frame) = current_epoch /\
  FrameHeader.sender_id (Frame.header frame) ∈ MlsGroupState.members gs /\
  exists key vk sig,
    MlsGroupState.member_keys gs !! FrameHeader.sender_id (Frame.header frame) = Some key /\
    vk_from_bytes key = Some vk /\
    signature_try_from (FrameHeader.signature (Frame.header frame)) = Some sig /\
    verify vk (FrameHeader.signing_data (Frame.header frame)) sig = true.
Proof.
  unfold validate_frame. rewrite <- MlsGroupState.is_member_spec.
  destruct (N.eqb_spec (FrameHeader.epoch (Frame.header frame)) current_epoch);
    simpl negb; cbv iota; [|naive_solver].
  destruct (MlsGroupState.is_member _ _); simpl negb; cbv iota; [|naive_solver].
  rewrite validate_signature_Accept. unfold MlsGroupState.member_key.
  setoid_rewrite bind_Some. naive_solver.
Qed.

(** Validation commutes with sequencing: assigning a log index to a frame
    changes no verdict of the validator, so that a signature made by the sender
    is still verified after the server has sequenced the frame. *)
Theorem validate_frame_log_index i frame current_epoch gs :
  FrameHeader.wf (Frame.header frame) ->
  validate_frame (Frame.mk (FrameHeader.set_log_index i (Frame.header frame))
                    (Frame.payload frame)) current_epoch gs
  = validate_frame frame current_epoch gs.
Proof.
  intros Hw. unfold validate_frame. rewrite validate_signature_log_index by done. done.
Qed.

End validator.

(** A toy signature scheme for the witnesses: a signature is valid when its
    first byte is the first byte of the key. *)
Definition toy_ed25519 : Ed25519 := {|
  VerifyingKey := bytes;
  Signature := bytes;
  vk_from_bytes := fun b => if (length b =? 32)%nat then Some b else None;
  signature_try_from := fun b => if (length b =? 64)%nat then Some b else None;
  verify := fun vk _ sig => bool_decide (head vk = head sig);
|}.

Lemma validate_frame_log_index_witness :
  let gs := MlsGroupState.with_keys 1 0 (zeros 32) [0] {[ 0 := zeros 32 ]} in
  validate_frame (H := toy_ed25519)
    (Frame.mk (FrameHeader.set_log_index 9 (Frame.header Frame.sample))
       (Frame.payload Frame.sample)) 0 gs
  = validate_frame (H := toy_ed25519) Frame.sample 0 gs.
Proof.
  apply (validate_frame_log_index (H := toy_ed25519) 9 Frame.sample 0
    (MlsGroupState.with_keys 1 0 (zeros 32) [0] {[ 0 := zeros 32 ]})).
  vm_compute. repeat split.
Defined.

End MlsValidator.
