(* ===== verification/Storage.v ===== *)
(** * Storage

    The [Storage] trait of [lockframe-server/src/storage/mod.rs] as a class of
    operations, its contract as the class [StorageSpec] (what each operation
    does to the log, the MLS state, the group info and the metadata of each
    room), and two implementations with the proof of the contract:
    [MemoryStorage] ([memory.rs]) and [ChaoticStorage] ([chaotic.rs]), the
    wrapper that injects failures.  The operations are computations on the
    storage's state: a Rust [Storage] is shared through an [Arc], and every
    clone sees the same state. *)

From S2P Require Import Prelude Env Opcodes Header Framing Validator.

Local Open Scope N_scope.

Module StorageError.

Inductive t : Type :=
  | NotFound (room_id log_index : N)
  | Conflict (expected got : N)
  | Serialization (msg : string)
  | Io (msg : string).

#[global] Instance storage_error_eq_dec : EqDecision t.
Proof. solve_decision. Defined.

Definition display (e : t) : string :=
  match e with
  | NotFound room_id log_index =>
      "frame not found: room " +:+ pretty room_id +:+ ", index " +:+ pretty log_index
  | Conflict expected got =>
      "log index conflict: expected " +:+ pretty expected +:+ ", got " +:+ pretty got
  | Serialization msg => "serialization error: " +:+ msg
  | Io msg => "I/O error: " +:+ msg
  end.

End StorageError.

Record StoredRoomMetadata := mkStoredRoomMetadata {
  creator : N;
  created_at_secs : N }.

#[global] Instance stored_room_metadata_eq_dec : EqDecision StoredRoomMetadata.
Proof. solve_decision. Defined.

Abbreviation storeM St A := (M St StorageError.t A).

Class Storage (St : Type) := {
  store_frame : N -> N -> Frame.t -> storeM St unit;
  latest_log_index : N -> storeM St (option N);
  load_frames : N -> N -> N -> storeM St (list Frame.t);
  store_mls_state : N -> MlsGroupState.t -> storeM St unit;
  load_mls_state : N -> storeM St (option MlsGroupState.t);
  store_group_info : N -> N -> bytes -> storeM St unit;
  load_group_info : N -> storeM St (option (N * bytes));
  list_rooms : storeM St (list N);
  create_room : N -> StoredRoomMetadata -> storeM St unit;
  load_room_metadata : N -> storeM St (option StoredRoomMetadata);
}.

(** ** The contract *)

(** What the trait promises to keep of a room. *)
Record room_view := mk_view {
  rv_log : list Frame.t;
  rv_mls : option MlsGroupState.t;
  rv_group_info : option (N * bytes);
  rv_meta : option StoredRoomMetadata }.

Definition push_frame (f : Frame.t) (v : room_view) : room_view :=
  mk_view (rv_log v ++ [f]) (rv_mls v) (rv_group_info v) (rv_meta v).
Definition set_mls (s : MlsGroupState.t) (v : room_view) : room_view :=
  mk_view (rv_log v) (Some s) (rv_group_info v) (rv_meta v).
Definition set_group_info (epoch : N) (gi : bytes) (v : room_view) : room_view :=
  mk_view (rv_log v) (rv_mls v) (Some (epoch, gi)) (rv_meta v).
(** Metadata is written once. *)
Definition set_meta (m : StoredRoomMetadata) (v : room_view) : room_view :=
  mk_view (rv_log v) (rv_mls v) (rv_group_info v)
    (Some (default m (rv_meta v))).

Definition last_index (log : list Frame.t) : option N :=
  match log with [] => None | _ => Some (len log - 1) end.

Section contract.
Context {St : Type} (view : St -> N -> room_view) (inv : St -> Prop).

Definition unchanged (st st' : St) : Prop := forall r, view st' r = view st r.

Definition changed_at (r : N) (f : room_view -> room_view) (st st' : St) : Prop :=
  view st' r = f (view st r) /\ forall r', r' <> r -> view st' r' = view st r'.

(** An operation that reads: the view is unchanged and an answer satisfies
    [post]. *)
Definition reads {A} (m : storeM St A) (st : St) (post : A -> Prop) : Prop :=
  let '(st', res) := m st in
  inv st' /\ unchanged st st' /\ forall a, res = Ok a -> post a.

(** An operation that writes at [r]: it takes effect entirely or not at all. *)
Definition writes (m : storeM St unit) (st : St) (r : N)
    (f : room_view -> room_view) : Prop :=
  let '(st', res) := m st in
  inv st' /\
  match res with
  | Ok _ => changed_at r f st st'
  | Err _ | Panic => unchanged st st'
  end.
End contract.

Class StorageSpec (St : Type) `{Storage St} := {
  storage_inv : St -> Prop;
  view : St -> N -> room_view;

  store_frame_spec r i f st :
    storage_inv st -> r < 2 ^ 128 -> i < 2 ^ 64 -> Frame.wf f ->
    let '(st', res) := store_frame r i f st in
    storage_inv st' /\
    match res with
    | Ok _ => i = len (rv_log (view st r)) /\ changed_at view r (push_frame f) st st'
    | Err e => unchanged view st st' /\
        forall a b, e = StorageError.Conflict a b ->
          a = len (rv_log (view st r)) /\ b = i /\ a <> b
    | Panic => unchanged view st st'
    end;

  latest_log_index_spec r st :
    storage_inv st -> r < 2 ^ 128 ->
    reads view storage_inv (latest_log_index r) st
      (fun o => o = last_index (rv_log (view st r)));

  load_frames_spec r from limit st :
    storage_inv st -> r < 2 ^ 128 -> from < 2 ^ 64 ->
    reads view storage_inv (load_frames r from limit) st
      (fun fs => fs = take (N.to_nat limit) (drop (N.to_nat from) (rv_log (view st r))));

  store_mls_state_spec r s st :
    storage_inv st -> r < 2 ^ 128 ->
    writes view storage_inv (store_mls_state r s) st r (set_mls s);

  load_mls_state_spec r st :
    storage_inv st -> r < 2 ^ 128 ->
    reads view storage_inv (load_mls_state r) st (fun o => o = rv_mls (view st r));

  store_group_info_spec r epoch gi st :
    storage_inv st -> r < 2 ^ 128 -> epoch < 2 ^ 64 ->
    writes view storage_inv (store_group_info r epoch gi) st r (set_group_info epoch gi);

  load_group_info_spec r st :
    storage_inv st -> r < 2 ^ 128 ->
    reads view storage_inv (load_group_info r) st
      (fun o => o = rv_group_info (view st r));

  list_rooms_spec st :
    storage_inv st ->
    reads view storage_inv list_rooms st
      (fun rs => NoDup rs /\ forall r, r ∈ rs <-> is_Some (rv_meta (view st r)));

  create_room_spec r m st :
    storage_inv st -> r < 2 ^ 128 ->
    writes view storage_inv (create_room r m) st r (set_meta m);

  load_room_metadata_spec r st :
    storage_inv st -> r < 2 ^ 128 ->
    reads view storage_inv (load_room_metadata r) st (fun o => o = rv_meta (view st r));
}.

(** ** Sequences of operations *)

Inductive storage_op :=
  | SStoreFrame (r i : N) (f : Frame.t)
  | SLatestLogIndex (r : N)
  | SLoadFrames (r from limit : N)
  | SStoreMlsState (r : N) (s : MlsGroupState.t)
  | SLoadMlsState (r : N)
  | SStoreGroupInfo (r epoch : N) (gi : bytes)
  | SLoadGroupInfo (r : N)
  | SListRooms
  | SCreateRoom (r : N) (m : StoredRoomMetadata)
  | SLoadRoomMetadata (r : N).

(** The arguments are of the types of the trait's methods. *)
Definition op_typed (o : storage_op) : Prop :=
  match o with
  | SStoreFrame r i f => r < 2 ^ 128 /\ i < 2 ^ 64 /\ Frame.wf f
  | SStoreGroupInfo r epoch _ => r < 2 ^ 128 /\ epoch < 2 ^ 64
  | SLoadFrames r from _ => r < 2 ^ 128 /\ from < 2 ^ 64
  | SLatestLogIndex r | SStoreMlsState r _ | SLoadMlsState r
  | SLoadGroupInfo r | SCreateRoom r _ | SLoadRoomMetadata r => r < 2 ^ 128
  | SListRooms => True
  end.

Definition exec `{Storage St} (st : St) (o : storage_op) : St :=
  match o with
  | SStoreFrame r i f => fst (store_frame r i f st)
  | SLatestLogIndex r => fst (latest_log_index r st)
  | SLoadFrames r from limit => fst (load_frames r from limit st)
  | SStoreMlsState r s => fst (store_mls_state r s st)
  | SLoadMlsState r => fst (load_mls_state r st)
  | SStoreGroupInfo r e gi => fst (store_group_info r e gi st)
  | SLoadGroupInfo r => fst (load_group_info r st)
  | SListRooms => fst (list_rooms st)
  | SCreateRoom r m => fst (create_room r m st)
  | SLoadRoomMetadata r => fst (load_room_metadata r st)
  end.

(** A storage whose operations never panic, for requests whose range is within
    [usize], and whose writes succeed when they are allowed to. *)
Class StorageTotal (St : Type) `{StorageSpec St} := {
  store_frame_total r i f st :
    storage_inv st -> snd (store_frame r i f st) <> Panic;
  store_frame_accepts r f st :
    storage_inv st -> snd (store_frame r (len (rv_log (view st r))) f st) = Ok tt;
  latest_log_index_total r st :
    storage_inv st -> is_ok (snd (latest_log_index r st)) = true;
  load_frames_total r from limit st :
    storage_inv st -> from + limit <= usize_MAX ->
    snd (load_frames r from limit st) <> Panic;
  load_mls_state_total r st :
    storage_inv st -> is_ok (snd (load_mls_state r st)) = true;
  store_mls_state_total r s st :
    storage_inv st -> snd (store_mls_state r s st) = Ok tt;
  store_group_info_total r e gi st :
    storage_inv st -> snd (store_group_info r e gi st) = Ok tt;
  load_group_info_total r st :
    storage_inv st -> is_ok (snd (load_group_info r st)) = true;
  list_rooms_total st :
    storage_inv st -> is_ok (snd (list_rooms st)) = true;
  create_room_total r m st :
    storage_inv st -> snd (create_room r m st) = Ok tt;
  load_room_metadata_total r st :
    storage_inv st -> is_ok (snd (load_room_metadata r st)) = true;
}.

(** ** [MemoryStorage] *)

Module MemoryStorage.

Record t := mk {
  rooms : gmap N StoredRoomMetadata;
  frames : gmap N (list Frame.t);
  mls_states : gmap N MlsGroupState.t;
  group_infos : gmap N (N * bytes) }.

Definition new : t := mk ∅ ∅ ∅ ∅.

Definition room_count (s : t) : N := N.of_nat (size (frames s)).

Definition total_frame_count (s : t) : N :=
  map_fold (fun _ fs n => len fs + n) 0 (frames s).

(** [entry(room_id).or_default()] leaves an empty log behind even when the
    index is refused. *)
Definition store_frame (room_id log_index : N) (frame : Frame.t) : storeM t unit := fun s =>
  let fs := default [] (frames s !! room_id) in
  let expected_index := len fs in
  if negb (log_index =? expected_index) then
    (mk (rooms s) (<[room_id := fs]> (frames s)) (mls_states s) (group_infos s),
     Err (StorageError.Conflict expected_index log_index))
  else
    (mk (rooms s) (<[room_id := fs ++ [frame]]> (frames s)) (mls_states s)
       (group_infos s), Ok tt).

Definition latest_log_index (room_id : N) : storeM t (option N) := fun s =>
  (s, Ok (frames s !! room_id ≫= fun fs =>
            match fs with [] => None | _ => Some (len fs - 1) end)).

(** [start + limit] is checked arithmetic on [usize]. *)
Definition load_frames (room_id from limit : N) : storeM t (list Frame.t) := fun s =>
  (s, fs ← ok_or (frames s !! room_id) (StorageError.NotFound room_id from);
      let start := from in
      sum ← add_panic usize_MAX start limit;
      let end_ := N.min sum (len fs) in
      if len fs <? start then Ok []
      else Ok (slice fs (N.to_nat start) (N.to_nat end_))).

Definition store_mls_state (room_id : N) (state : MlsGroupState.t) : storeM t unit := fun s =>
  (mk (rooms s) (frames s) (<[room_id := state]> (mls_states s)) (group_infos s), Ok tt).

Definition load_mls_state (room_id : N) : storeM t (option MlsGroupState.t) := fun s =>
  (s, Ok (mls_states s !! room_id)).

Definition store_group_info (room_id epoch : N) (group_info : bytes) : storeM t unit := fun s =>
  (mk (rooms s) (frames s) (mls_states s)
     (<[room_id := (epoch, group_info)]> (group_infos s)), Ok tt).

Definition load_group_info (room_id : N) : storeM t (option (N * bytes)) := fun s =>
  (s, Ok (group_infos s !! room_id)).

Definition list_rooms : storeM t (list N) := fun s =>
  (s, Ok (map_to_list (rooms s)).*1).

Definition create_room (room_id : N) (metadata : StoredRoomMetadata) : storeM t unit := fun s =>
  match rooms s !! room_id with
  | Some _ => (s, Ok tt)
  | None => (mk (<[room_id := metadata]> (rooms s)) (frames s) (mls_states s)
               (group_infos s), Ok tt)
  end.

Definition load_room_metadata (room_id : N) : storeM t (option StoredRoomMetadata) := fun s =>
  (s, Ok (rooms s !! room_id)).

#[global] Instance memory_storage : Storage t := {|
  Storage.store_frame := store_frame;
  Storage.latest_log_index := latest_log_index;
  Storage.load_frames := load_frames;
  Storage.store_mls_state := store_mls_state;
  Storage.load_mls_state := load_mls_state;
  Storage.store_group_info := store_group_info;
  Storage.load_group_info := load_group_info;
  Storage.list_rooms := list_rooms;
  Storage.create_room := create_room;
  Storage.load_room_metadata := load_room_metadata;
|}.

Definition view (s : t) (r : N) : room_view :=
  mk_view (default [] (frames s !! r)) (mls_states s !! r) (group_infos s !! r)
    (rooms s !! r).

(** ** Lemmas *)

Lemma view_unchanged s s' :
  mls_states s' = mls_states s -> group_infos s' = group_infos s ->
  rooms s' = rooms s ->
  (forall r, default [] (frames s' !! r) = default [] (frames s !! r)) ->
  unchanged view s s'.
Proof. intros H1 H2 H3 H4 r. unfold view. by rewrite H1, H2, H3, H4. Qed.

Ltac changed_at_solve :=
  split; unfold view; simpl; [by rewrite lookup_insert_eq|];
  intros; by rewrite lookup_insert_ne by done.

Lemma load_frames_slice (fs : list Frame.t) from limit :
  from <= len fs ->
  slice fs (N.to_nat from) (N.to_nat (N.min (from + limit) (len fs)))
  = take (N.to_nat limit) (drop (N.to_nat from) fs).
Proof.
  intros H. unfold slice, len in *.
  destruct (N.le_gt_cases (from + limit) (N.of_nat (length fs))).
  - rewrite N.min_l by lia. f_equal. lia.
  - rewrite N.min_r by lia. rewrite !take_ge; [done| |]; rewrite length_drop; lia.
Qed.

#[global] Program Instance memory_storage_spec : StorageSpec t := {|
  Storage.storage_inv _ := True;
  Storage.view := view |}.
Next Obligation.
  intros r i f st _ _ _ _. simpl. unfold store_frame.
  destruct (N.eqb_spec i (len (default [] (frames st !! r)))) as [->|Hne]; simpl negb; cbv iota.
  - split; [done|]. split; [done|]. changed_at_solve.
  - split; [done|]. split.
    + apply view_unchanged; try done. intros r'. simpl.
      destruct (decide (r' = r)) as [->|]; [by rewrite lookup_insert_eq|].
      by rewrite lookup_insert_ne.
    + intros a b [= <- <-]. auto.
Qed.
Next Obligation.
  intros r st _ _. unfold reads. simpl. split; [done|]. split; [done|].
  intros a [= <-]. by destruct (frames st !! r) as [[|]|].
Qed.
Next Obligation.
  intros r from limit st _ _. unfold reads. simpl. split; [done|]. split; [done|].
  destruct (frames st !! r) as [fs|]; simpl; [|done]. unfold add_panic.
  destruct (checked_add usize_MAX from limit) as [n|] eqn:Ha; simpl; [|done].
  apply checked_add_Some in Ha as [-> _].
  destruct (N.ltb_spec (len fs) from) as [Hl|Hl]; intros a [= <-].
  - rewrite drop_ge by (unfold len in Hl; lia). by rewrite take_nil.
  - by rewrite <- load_frames_slice.
Qed.
Next Obligation. intros r x st _ _. split; [done|]. changed_at_solve. Qed.
Next Obligation.
  intros r st _ _. unfold reads. simpl. split; [done|]. split; [done|]. by intros a [= <-].
Qed.
Next Obligation. intros r e gi st _ _ _. split; [done|]. changed_at_solve. Qed.
Next Obligation.
  intros r st _ _. unfold reads. simpl. split; [done|]. split; [done|]. by intros a [= <-].
Qed.
Next Obligation.
  intros st _. unfold reads. simpl. split; [done|]. split; [done|]. intros a [= <-].
  split; [apply NoDup_fst_map_to_list|]. intros r. rewrite list_elem_of_fmap. split.
  - intros ((k & m) & -> & Hin%elem_of_map_to_list). simpl. eauto.
  - intros [m Hm]. exists (r, m). split; [done|]. by apply elem_of_map_to_list.
Qed.
Next Obligation.
  intros r m st _ _. unfold writes. simpl. unfold create_room.
  destruct (rooms st !! r) as [m0|] eqn:Hm; (split; [done|]).
  - split; [|done]. unfold view, set_meta. simpl. by rewrite Hm.
  - split; unfold view, set_meta; simpl.
    + by rewrite lookup_insert_eq, Hm.
    + intros r' Hr. by rewrite lookup_insert_ne.
Qed.
Next Obligation.
  intros r st _ _. unfold reads. simpl. split; [done|]. split; [done|]. by intros a [= <-].
Qed.

#[global] Instance memory_storage_total : StorageTotal t.
Proof.
  split; intros; simpl; try done.
  - unfold store_frame. by case_match.
  - unfold store_frame, view. simpl. by rewrite N.eqb_refl.
  - destruct (frames st !! r) as [fs|]; simpl; [|done]. unfold add_panic.
    rewrite (proj2 (checked_add_Some usize_MAX from limit (from + limit))) by done.
    simpl. by case_match.
  - unfold create_room. by case_match.
Qed.

End MemoryStorage.

(** ** [ChaoticStorage] *)

Module ChaoticStorage.

(** [ChaoticRng::next]: a linear congruential generator; its output is the
    state divided by 2^32. *)
Definition A : N := 1664525.
Definition C : N := 1013904223.
Definition MODULUS : N := 2 ^ 32.

Definition rng_next (state : N) : N :=
  (((A * state) mod 2 ^ 64 + C) mod 2 ^ 64) mod MODULUS.

(** The failure rate, an [f64] in [[0, 1]], is the fraction [rate_num / rate_den]. *)
Record t (S : Type) := mk {
  inner : S;
  rate_num : N;
  rate_den : N;
  rng : N;
  operation_count : N }.
Arguments mk {S}.
Arguments inner {S}.
Arguments rate_num {S}.
Arguments rate_den {S}.
Arguments rng {S}.
Arguments operation_count {S}.

(** The rate is checked to be at most one. *)
Definition with_seed {S} (inner : S) (num den seed : N) : res unit (t S) :=
  if num <=? den then Ok (mk inner num den seed 0) else Panic.

Definition new {S} (inner : S) (num den : N) : res unit (t S) :=
  if num <=? den then with_seed inner num den 0x123456789ABCDEF0 else Panic.

Section chaotic.
Context {S : Type} `{!Storage S}.

(** Every operation counts itself, draws from the generator, and fails when
    the draw is below the failure rate. *)
Definition chaos {A} (op : storeM S A) : storeM (t S) A := fun s =>
  match checked_add usize_MAX (operation_count s) 1 with
  | None => (s, Panic)
  | Some count =>
      let state := rng_next (rng s) in
      if state * rate_den s <? rate_num s * MODULUS then
        (mk (inner s) (rate_num s) (rate_den s) state count,
         Err (StorageError.Io "chaotic failure injection"))
      else
        let '(inner', res) := op (inner s) in
        (mk inner' (rate_num s) (rate_den s) state count, res)
  end.

#[global] Instance chaotic_storage : Storage (t S) := {|
  Storage.store_frame r i f := chaos (Storage.store_frame r i f);
  Storage.latest_log_index r := chaos (Storage.latest_log_index r);
  Storage.load_frames r from limit := chaos (Storage.load_frames r from limit);
  Storage.store_mls_state r s := chaos (Storage.store_mls_state r s);
  Storage.load_mls_state r := chaos (Storage.load_mls_state r);
  Storage.store_group_info r e gi := chaos (Storage.store_group_info r e gi);
  Storage.load_group_info r := chaos (Storage.load_group_info r);
  Storage.list_rooms := chaos Storage.list_rooms;
  Storage.create_room r m := chaos (Storage.create_room r m);
  Storage.load_room_metadata r := chaos (Storage.load_room_metadata r);
|}.

(** ** Lemmas *)

Lemma chaos_cases {A} (op : storeM S A) s :
  (fst (chaos op s) = s /\ snd (chaos op s) = Panic) \/
  (inner (fst (chaos op s)) = inner s /\
   snd (chaos op s) = Err (StorageError.Io "chaotic failure injection")) \/
  (inner (fst (chaos op s)), snd (chaos op s)) = op (inner s).
Proof.
  unfold chaos. destruct (checked_add _ _ _); [|by left].
  case_match; simpl; [auto|]. destruct (op (inner s)); simpl. auto.
Qed.

Context `{!StorageSpec S}.

Definition chaotic_view (s : t S) : N -> room_view := Storage.view (inner s).
Definition chaotic_inv (s : t S) : Prop := storage_inv (inner s).

Lemma chaos_reads {A} (op : storeM S A) s post :
  chaotic_inv s -> reads Storage.view storage_inv op (inner s) post ->
  reads chaotic_view chaotic_inv (chaos op) s post.
Proof.
  intros Hi Hr. unfold reads in *. pose proof (chaos_cases op s) as Hc.
  destruct (chaos op s) as [s' res]. simpl in Hc.
  unfold chaotic_view, chaotic_inv, unchanged in *.
  destruct Hc as [[-> ->]|[[-> ->]|Hc]]; [naive_solver..|]. by rewrite <- Hc in Hr.
Qed.

Lemma chaos_writes (op : storeM S unit) s r f :
  chaotic_inv s -> writes Storage.view storage_inv op (inner s) r f ->
  writes chaotic_view chaotic_inv (chaos op) s r f.
Proof.
  intros Hi Hr. unfold writes in *. pose proof (chaos_cases op s) as Hc.
  destruct (chaos op s) as [s' res]. simpl in Hc.
  unfold chaotic_view, chaotic_inv, unchanged, changed_at in *.
  destruct Hc as [[-> ->]|[[-> ->]|Hc]]; [naive_solver..|]. by rewrite <- Hc in Hr.
Qed.

#[global] Program Instance chaotic_storage_spec : StorageSpec (t S) := {|
  Storage.storage_inv := chaotic_inv;
  Storage.view := chaotic_view |}.
Next Obligation.
  intros r i f s Hi Hr Hlt Hw. simpl.
  pose proof (store_frame_spec r i f (inner s) Hi Hr Hlt Hw) as Hs.
  pose proof (chaos_cases (Storage.store_frame r i f) s) as Hc.
  destruct (chaos (Storage.store_frame r i f) s) as [s' res]. simpl in Hc.
  unfold chaotic_view, chaotic_inv, unchanged, changed_at in *.
  destruct Hc as [[-> ->]|[[-> ->]|Hc]]; [naive_solver..|]. by rewrite <- Hc in Hs.
Qed.
Next Obligation. intros. apply chaos_reads; auto using latest_log_index_spec. Qed.
Next Obligation. intros. apply chaos_reads; auto using load_frames_spec. Qed.
Next Obligation. intros. apply chaos_writes; auto using store_mls_state_spec. Qed.
Next Obligation. intros. apply chaos_reads; auto using load_mls_state_spec. Qed.
Next Obligation. intros. apply chaos_writes; auto using store_group_info_spec. Qed.
Next Obligation. intros. apply chaos_reads; auto using load_group_info_spec. Qed.
Next Obligation. intros. apply chaos_reads; auto using list_rooms_spec. Qed.
Next Obligation. intros. apply chaos_writes; auto using create_room_spec. Qed.
Next Obligation. intros. apply chaos_reads; auto using load_room_metadata_spec. Qed.

End chaotic.
End ChaoticStorage.

(** ** Lemmas on the contract *)

Section contract_lemmas.
Context `{StorageSpec St}.

Lemma reads_fst {A} (m : storeM St A) st post :
  reads view storage_inv m st post ->
  storage_inv (fst (m st)) /\ unchanged view st (fst (m st)).
Proof. unfold reads. destruct (m st). naive_solver. Qed.

Lemma writes_fst (m : storeM St unit) st r f :
  writes view storage_inv m st r f ->
  (forall v, rv_log (f v) = rv_log v) ->
  storage_inv (fst (m st)) /\ forall r', rv_log (view (fst (m st)) r') = rv_log (view st r').
Proof.
  unfold writes, unchanged, changed_at. intros Hw Hf. destruct (m st) as [st' res]. simpl.
  destruct Hw as [Hi Hw]. split; [done|]. intros r'.
  destruct res; [|by rewrite Hw..]. destruct Hw as [Hr Ho].
  destruct (decide (r' = r)) as [->|]; [by rewrite Hr, Hf|by rewrite Ho].
Qed.

Ltac read_case H :=
  destruct (reads_fst _ _ _ H) as [? Hu]; split; [done|]; intros; left; by rewrite Hu.
Ltac write_case H :=
  destruct (writes_fst _ _ _ _ H) as [? Hu]; [done|]; split; [done|]; by auto.

(** One operation: the invariant is kept and every log is extended by at most
    one frame, stored at the index that is its position. *)
Lemma exec_log st o :
  storage_inv st -> op_typed o ->
  storage_inv (exec st o) /\
  forall r, rv_log (view (exec st o) r) = rv_log (view st r) \/
    exists f, o = SStoreFrame r (len (rv_log (view st r))) f /\
      rv_log (view (exec st o) r) = rv_log (view st r) ++ [f].
Proof.
  intros Hi Ht. destruct o; simpl in Ht |- *.
  2: read_case (latest_log_index_spec r st Hi Ht).
  2: destruct Ht as [Hr Hf]; read_case (load_frames_spec r from limit st Hi Hr Hf).
  2: write_case (store_mls_state_spec r s st Hi Ht).
  2: read_case (load_mls_state_spec r st Hi Ht).
  2: destruct Ht as [Hr He]; write_case (store_group_info_spec r epoch gi st Hi Hr He).
  2: read_case (load_group_info_spec r st Hi Ht).
  2: read_case (list_rooms_spec st Hi).
  2: write_case (create_room_spec r m st Hi Ht).
  2: read_case (load_room_metadata_spec r st Hi Ht).
  destruct Ht as (Hr & Hlt & Hw). pose proof (store_frame_spec r i f st Hi Hr Hlt Hw) as Hs.
  destruct (store_frame r i f st) as [st' res]. simpl.
  destruct Hs as [Hi' Hs]. split; [done|]. intros r'.
  destruct res as [u|e|]; unfold unchanged, changed_at in Hs.
  - destruct Hs as (-> & Hv & Ho). destruct (decide (r' = r)) as [->|].
    + right. exists f. by rewrite Hv.
    + left. by rewrite Ho.
  - left. destruct Hs as [Hs _]. by rewrite Hs.
  - left. by rewrite Hs.
Qed.
(** The frames of room [r] that a sequence of calls stores: those of the
    [store_frame] calls that succeed. *)
Fixpoint accepted (r : N) (st : St) (ops : list storage_op) : list Frame.t :=
  match ops with
  | [] => []
  | o :: ops' =>
      match o with
      | SStoreFrame r' i f =>
          if bool_decide (r' = r) && is_ok (snd (store_frame r' i f st)) then [f] else []
      | _ => []
      end ++ accepted r (exec st o) ops'
  end.

Lemma run_accepted ops : forall st r,
  storage_inv st -> Forall op_typed ops ->
  storage_inv (run exec st ops) /\
  rv_log (view (run exec st ops) r) = rv_log (view st r) ++ accepted r st ops.
Proof.
  induction ops as [|o ops IH]; intros st r Hi Ht.
  { split; [done|]. by rewrite app_nil_r. }
  inversion Ht as [|? ? Ho Hops]; subst. destruct (exec_log st o Hi Ho) as [Hi' Hl].
  destruct (IH (exec st o) r Hi' Hops) as [Hi2 IHl].
  change (run exec st (o :: ops)) with (run exec (exec st o) ops). split; [done|].
  rewrite IHl. cbn [accepted]. rewrite (assoc_L (++)). f_equal.
  destruct o; try (destruct (Hl r) as [->|(g & [=] & _)]; by rewrite app_nil_r).
  cbn in Ho |- *. destruct Ho as (Hr & Hlt & Hw).
  pose proof (store_frame_spec r0 i f st Hi Hr Hlt Hw) as Hs.
  destruct (store_frame r0 i f st) as [st' [u|e|]]; cbn [fst snd is_ok]; destruct Hs as [_ Hs].
  - destruct Hs as (_ & Hv & Hother). rewrite andb_true_r. case_bool_decide as E.
    + subst r0. by rewrite Hv.
    + rewrite app_nil_r, Hother; [done|congruence].
  - destruct Hs as [Hs _]. by rewrite Hs, andb_false_r, app_nil_r.
  - by rewrite Hs, andb_false_r, app_nil_r.
Qed.

End contract_lemmas.

(** ** Properties *)

(** logs are append-only and dense under any sequence of storage calls on
    any storage that meets the contract: the log of a room grows by exactly the
    frames of the [store_frame] calls that succeed, in their order, and the
    frame that comes to stand at position [i] was stored by a call that named
    index [i]. *)
Theorem storage_log_append_only `{StorageSpec St} st ops r :
  storage_inv st -> Forall op_typed ops ->
  rv_log (view (run exec st ops) r) = rv_log (view st r) ++ accepted r st ops /\
  forall k f, accepted r st ops !! k = Some f ->
    SStoreFrame r (len (rv_log (view st r)) + N.of_nat k) f ∈ ops.
Proof.
  intros Hi Ht. split; [by apply run_accepted|]. revert st Hi.
  induction Ht as [|o ops Ho Hops IH]; intros st Hi k f; [done|].
  destruct (exec_log st o Hi Ho) as [Hi' Hl]. specialize (IH (exec st o) Hi').
  pose proof (proj2 (run_accepted [o] st r Hi (Forall_cons_2 _ _ _ Ho (Forall_nil_2 _)))) as H1.
  change (run exec st [o]) with (exec st o) in H1. cbn [accepted] in H1 |- *.
  rewrite app_nil_r in H1. set (new := match o with SStoreFrame _ _ _ => _ | _ => _ end) in *.
  rewrite H1, len_app in IH. intros [Hk|[Hge Hk]]%lookup_app_Some.
  - rewrite elem_of_cons. left. destruct (Hl r) as [Hsame|(g & -> & Hpush)].
    + exfalso. rewrite Hsame in H1. apply (f_equal length) in H1. rewrite length_app in H1.
      apply lookup_lt_Some in Hk. lia.
    + rewrite Hpush in H1. apply app_inv_head in H1. rewrite <- H1 in Hk.
      apply list_lookup_singleton_Some in Hk as [-> ->]. f_equal. lia.
  - right. specialize (IH _ _ Hk).
    replace (len (rv_log (view st r)) + N.of_nat k)
      with (len (rv_log (view st r)) + len new + N.of_nat (k - length new)) by (unfold len; lia).
    done.
Qed.

Lemma storage_log_append_only_witness :
  rv_log (view (run exec MemoryStorage.new
        [SStoreFrame 5 0 Frame.sample; SStoreFrame 5 7 Frame.sample]) 5) = [Frame.sample].
Proof.
  assert (Hi : storage_inv MemoryStorage.new) by exact I.
  assert (Ho : Forall op_typed [SStoreFrame 5 0 Frame.sample; SStoreFrame 5 7 Frame.sample]).
  { repeat constructor; vm_compute; try done; repeat split; discriminate. }
  destruct (storage_log_append_only MemoryStorage.new _ 5 Hi Ho) as [-> _].
  vm_compute. reflexivity.
Defined.

(** A storage with injected failures behaves as the storage it wraps on a
    subsequence of the calls: an injected failure only omits a call, it never
    half-executes or alters one. *)
Theorem chaotic_storage_omits {S} `{Storage S} (s : ChaoticStorage.t S) ops :
  exists ops', ops' `sublist_of` ops /\
    ChaoticStorage.inner (run exec s ops) = run exec (ChaoticStorage.inner s) ops'.
Proof.
  revert s. induction ops as [|o ops IH]; intros s; [by exists []|].
  assert (Ho : ChaoticStorage.inner (exec s o) = ChaoticStorage.inner s \/
               ChaoticStorage.inner (exec s o) = exec (ChaoticStorage.inner s) o).
  { assert (Hc : forall A (op : storeM S A),
      ChaoticStorage.inner (fst (ChaoticStorage.chaos op s)) = ChaoticStorage.inner s \/
      ChaoticStorage.inner (fst (ChaoticStorage.chaos op s)) = fst (op (ChaoticStorage.inner s))).
    { intros A op. destruct (ChaoticStorage.chaos_cases op s) as [[-> _]|[[-> _]|E]]; auto.
      right. by rewrite <- E. }
    destruct o; apply Hc. }
  change (run exec s (o :: ops)) with (run exec (exec s o) ops).
  destruct (IH (exec s o)) as (ops' & Hsub & ->). destruct Ho as [->| ->].
  - exists ops'. by split; [apply sublist_cons|].
  - exists (o :: ops'). by split; [apply sublist_skip|].
Qed.

(** Loading a range of the in-memory log, on every branch: an unknown
    room is [NotFound]; a range whose end overflows [usize] panics; otherwise
    the answer is the part of the log within the range, empty when the range
    starts past the end. *)
Lemma memory_load_frames r from limit s :
  MemoryStorage.load_frames r from limit s
  = (s, match MemoryStorage.frames s !! r with
        | None => Err (StorageError.NotFound r from)
        | Some fs =>
            if usize_MAX <? from + limit then Panic
            else Ok (take (N.to_nat limit) (drop (N.to_nat from) fs))
        end).
Proof.
  unfold MemoryStorage.load_frames. f_equal.
  destruct (MemoryStorage.frames s !! r) as [fs|]; simpl; [|done]. unfold add_panic.
  destruct (checked_add usize_MAX from limit) as [n|] eqn:Ha; simpl.
  - apply checked_add_Some in Ha as [-> Hle].
    rewrite (proj2 (N.ltb_ge usize_MAX (from + limit)) Hle).
    destruct (N.ltb_spec (len fs) from).
    + rewrite drop_ge by (unfold len in *; lia). by rewrite take_nil.
    + by rewrite MemoryStorage.load_frames_slice.
  - apply checked_add_None in Ha. by rewrite (proj2 (N.ltb_lt usize_MAX (from + limit)) Ha).
Qed.
