(* ===== verification/Redb.v ===== *)
(** * The durable storage

    [RedbStorage] of [lockframe-server/src/storage/redb.rs]: the tables, their
    keys and values, and the operations as transactions.  The [redb] engine is
    the class [RedbEngine]: every call may fail, a transaction works on a
    snapshot and only its commit, as a whole, changes what is stored.  The
    storage meets the contract of [Storage.v], whatever calls of the engine
    fail, when a commit that fails has kept nothing ([AtomicCommit]). *)

From stdpp Require Import sorting.
From S2P Require Import Prelude Opcodes Header Framing Payloads Validator Storage.

Local Open Scope N_scope.

Inductive table := FRAMES | MLS_STATE | GROUP_INFO | ROOMS.

#[global] Instance table_eq_dec : EqDecision table.
Proof. solve_decision. Defined.

(** The order of byte strings. *)
Fixpoint lex_le (a b : bytes) : bool :=
  match a, b with
  | [], _ => true
  | _, [] => false
  | x :: a', y :: b' =>
      (Byte.to_N x <? Byte.to_N y) || ((Byte.to_N x =? Byte.to_N y) && lex_le a' b')
  end.

(** The entries of a table between two keys, in the order of the keys. *)
Definition sorted_range (m : gmap bytes bytes) (inside : bytes -> Prop)
    (l : list (bytes * bytes)) : Prop :=
  StronglySorted (fun p q : bytes * bytes => lex_le p.1 q.1 = true /\ p.1 <> q.1) l /\
  forall k v, (k, v) ∈ l <-> m !! k = Some v /\ inside k.

(** What an iterator yields: the entries, cut short by an error if there is
    one. *)
Definition yields_items (l : list (bytes * bytes)) (items : list (res string (bytes * bytes)))
    : Prop :=
  items = map Ok l \/
  exists n e rest, (n <= length l)%nat /\ items = map Ok (take n l) ++ Err e :: rest.

(** ** The engine

    [Database], [WriteTransaction] and [ReadTransaction] with the calls
    [redb.rs] makes; an error is its message. *)

Class RedbEngine (Db Txn : Type) := {
  begin_write : M Db string Txn;
  begin_read : M Db string Txn;
  open_table : Txn -> table -> M Db string unit;
  get_key : Txn -> table -> bytes -> M Db string (option bytes);
  insert_key : Txn -> table -> bytes -> bytes -> M Db string Txn;
  range : Txn -> table -> bytes -> bytes -> M Db string (list (res string (bytes * bytes)));
  iter : Txn -> table -> M Db string (list (res string (bytes * bytes)));
  commit : Txn -> M Db string unit;

  (** What is stored, and what a transaction sees. *)
  committed : Db -> table -> gmap bytes bytes;
  seen : Txn -> table -> gmap bytes bytes;

  begin_write_spec db : let '(db', r) := begin_write db in
    committed db' = committed db /\
    match r with Ok x => seen x = committed db | Err _ => True | Panic => False end;
  begin_read_spec db : let '(db', r) := begin_read db in
    committed db' = committed db /\
    match r with Ok x => seen x = committed db | Err _ => True | Panic => False end;
  open_table_spec x t db : let '(db', r) := open_table x t db in
    committed db' = committed db /\ r <> Panic;
  get_key_spec x t k db : let '(db', r) := get_key x t k db in
    committed db' = committed db /\
    match r with Ok o => o = seen x t !! k | Err _ => True | Panic => False end;
  insert_key_spec x t k v db : let '(db', r) := insert_key x t k v db in
    committed db' = committed db /\
    match r with
    | Ok x' => seen x' t = <[k := v]> (seen x t) /\ forall t', t' <> t -> seen x' t' = seen x t'
    | Err _ => True
    | Panic => False
    end;
  range_spec x t lo hi db : let '(db', r) := range x t lo hi db in
    committed db' = committed db /\
    match r with
    | Ok items => exists l,
        sorted_range (seen x t) (fun k => lex_le lo k = true /\ lex_le k hi = true) l /\
        yields_items l items
    | Err _ => True
    | Panic => False
    end;
  iter_spec x t db : let '(db', r) := iter x t db in
    committed db' = committed db /\
    match r with
    | Ok items => exists l, sorted_range (seen x t) (fun _ => True) l /\ yields_items l items
    | Err _ => True
    | Panic => False
    end;
  commit_spec x db : let '(db', r) := commit x db in
    match r with
    | Ok _ => committed db' = seen x
    | Err _ => committed db' = committed db \/ committed db' = seen x
    | Panic => False
    end;
}.

(** A commit is atomic; an engine could still fail after the changes are kept,
    while it confirms them.  That this does not happen is a condition of its
    own. *)
Class AtomicCommit (Db Txn : Type) `{!RedbEngine Db Txn} : Prop :=
  failed_commit : forall x db db' e,
    commit x db = (db', Err e) -> committed db' = committed db.

(** ** Keys *)

Definition encode_frame_key (room_id log_index : N) : bytes :=
  to_be_bytes 16 room_id ++ to_be_bytes 8 log_index.

(** A slice that is too short panics; the length check is a debug assertion. *)
Definition decode_frame_key {E} (key : bytes) : res E (N * N) :=
  if (len key =? 24) then Ok (from_be_bytes (slice key 0 16), from_be_bytes (slice key 16 24))
  else Panic.

Definition encode_room_key (room_id : N) : bytes := to_be_bytes 16 room_id.

(** [size_of::<Frame>()]: the 128 bytes of the header and the four words of a
    [Bytes]. *)
Definition FRAME_MEM : N := 160.
Definition isize_MAX : N := 2 ^ 63 - 1.

Module RedbStorage.

Section redb.
Context {Db Txn : Type} `{!RedbEngine Db Txn}
  `{!CborCodec MlsGroupState.t} `{!CborCodec StoredRoomMetadata}.

(** [.map_err(|e| StorageError::Io(e.to_string()))?]. *)
Definition io {A} (m : M Db string A) : storeM Db A := fun db =>
  let '(db', r) := m db in (db', map_err StorageError.Io r).

(** A CBOR call with [.map_err(|e| StorageError::Serialization(e.to_string()))?]. *)
Definition serde {A} (x : string + A) : storeM Db A :=
  match x with inl e => throw (StorageError.Serialization e) | inr a => mret a end.

(** The tables [open] creates, once the database is. *)
Definition open : storeM Db unit :=
  txn ← io begin_write;
  io (open_table txn FRAMES);;
  io (open_table txn MLS_STATE);;
  io (open_table txn GROUP_INFO);;
  io (open_table txn ROOMS);;
  io (commit txn).

(** The loop of [compute_latest_log_index]. *)
Fixpoint scan_latest (latest : option N) (items : list (res string (bytes * bytes)))
    : res StorageError.t (option N) :=
  match items with
  | [] => Ok latest
  | item :: items' =>
      kv ← map_err StorageError.Io item;
      ri ← decode_frame_key (fst kv);
      scan_latest (Some (snd ri)) items'
  end.

Definition compute_latest_log_index (txn : Txn) (room_id : N) : storeM Db (option N) :=
  let start_key := encode_frame_key room_id 0 in
  let end_key := encode_frame_key room_id u64_MAX in
  results ← io (range txn FRAMES start_key end_key);
  lift (scan_latest None results).

Definition compute_next_log_index (txn : Txn) (room_id : N) : storeM Db N :=
  latest ← compute_latest_log_index txn room_id;
  match latest with
  | None => mret 0
  | Some latest => lift (add_panic u64_MAX latest 1)
  end.

Definition store_frame (room_id log_index : N) (frame : Frame.t) : storeM Db unit :=
  txn ← io begin_write;
  io (open_table txn FRAMES);;
  expected_index ← compute_next_log_index txn room_id;
  if negb (log_index =? expected_index) then
    throw (StorageError.Conflict expected_index log_index)
  else
    frame_bytes ← lift (map_err (fun e => StorageError.Serialization (ProtocolError.display e))
                          (Frame.encode frame []));
    txn' ← io (insert_key txn FRAMES (encode_frame_key room_id log_index) frame_bytes);
    io (commit txn').

Definition latest_log_index (room_id : N) : storeM Db (option N) :=
  txn ← io begin_read;
  io (open_table txn FRAMES);;
  compute_latest_log_index txn room_id.

(** The loop of [load_frames]. *)
Fixpoint read_frames (room_id limit : N) (frames : list Frame.t)
    (items : list (res string (bytes * bytes))) : res StorageError.t (list Frame.t) :=
  match items with
  | [] => Ok frames
  | item :: items' =>
      if limit <=? len frames then Ok frames
      else
        kv ← map_err StorageError.Io item;
        ri ← decode_frame_key (fst kv);
        if negb (fst ri =? room_id) then Ok frames
        else
          frame ← map_err (fun e => StorageError.Serialization (ProtocolError.display e))
                    (Frame.decode (snd kv));
          read_frames room_id limit (frames ++ [frame]) items'
  end.

(** [Vec::with_capacity(limit)] panics when the capacity overflows. *)
Definition load_frames (room_id from limit : N) : storeM Db (list Frame.t) :=
  txn ← io begin_read;
  io (open_table txn FRAMES);;
  let start_key := encode_frame_key room_id from in
  let end_key := encode_frame_key room_id u64_MAX in
  results ← io (range txn FRAMES start_key end_key);
  (if isize_MAX <? limit * FRAME_MEM then lift Panic else mret tt);;
  lift (read_frames room_id limit [] results).

(** Opening a table in a write transaction, inserting and committing. *)
Definition write_value (t : table) (room_id : N) (value : string + bytes) : storeM Db unit :=
  txn ← io begin_write;
  io (open_table txn t);;
  bytes ← serde value;
  txn' ← io (insert_key txn t (encode_room_key room_id) bytes);
  io (commit txn').

Definition read_value (t : table) (room_id : N) : storeM Db (option bytes) :=
  txn ← io begin_read;
  io (open_table txn t);;
  io (get_key txn t (encode_room_key room_id)).

Definition store_mls_state (room_id : N) (state : MlsGroupState.t) : storeM Db unit :=
  write_value MLS_STATE room_id (into_writer state).

Definition load_mls_state (room_id : N) : storeM Db (option MlsGroupState.t) :=
  value ← read_value MLS_STATE room_id;
  match value with
  | Some v => state ← serde (from_reader v); mret (Some state)
  | None => mret None
  end.

Definition store_group_info (room_id epoch : N) (group_info : bytes) : storeM Db unit :=
  write_value GROUP_INFO room_id (inr (to_be_bytes 8 epoch ++ group_info)).

Definition load_group_info (room_id : N) : storeM Db (option (N * bytes)) :=
  value ← read_value GROUP_INFO room_id;
  match value with
  | Some v =>
      if len v <? 8 then throw (StorageError.Serialization "group_info value too short")
      else mret (Some (from_be_bytes (take 8 v), drop 8 v))
  | None => mret None
  end.

(** The loop of [list_rooms]. *)
Fixpoint read_rooms (rooms : list N) (items : list (res string (bytes * bytes)))
    : res StorageError.t (list N) :=
  match items with
  | [] => Ok rooms
  | item :: items' =>
      kv ← map_err StorageError.Io item;
      if len (fst kv) =? 16 then read_rooms (rooms ++ [from_be_bytes (fst kv)]) items'
      else Panic
  end.

Definition list_rooms : storeM Db (list N) :=
  txn ← io begin_read;
  io (open_table txn ROOMS);;
  results ← io (iter txn ROOMS);
  lift (read_rooms [] results).

Definition create_room (room_id : N) (metadata : StoredRoomMetadata) : storeM Db unit :=
  txn ← io begin_write;
  io (open_table txn ROOMS);;
  existing ← io (get_key txn ROOMS (encode_room_key room_id));
  match existing with
  | Some _ => mret tt
  | None =>
      bytes ← serde (into_writer metadata);
      txn' ← io (insert_key txn ROOMS (encode_room_key room_id) bytes);
      io (commit txn')
  end.

Definition load_room_metadata (room_id : N) : storeM Db (option StoredRoomMetadata) :=
  value ← read_value ROOMS room_id;
  match value with
  | Some v => metadata ← serde (from_reader v); mret (Some metadata)
  | None => mret None
  end.

#[global] Instance redb_storage : Storage Db := {|
  Storage.store_frame := store_frame;
  Storage.latest_log_index := latest_log_index;
  Storage.load_frames := load_frames;
  Storage.store_mls_state := store_mls_state;
  Storage.load_mls_state := load_mls_state;
  Storage.store_group_info := store_group_info;
  Storage.load_group_info := load_group_info;
  Storage.list_rooms := list_rooms;
  Storage.create_room := create_room;
  Storage.load_room_metadata := load_room_metadata;
|}.

End redb.
End RedbStorage.

(** ** Lemmas: keys and their order *)

Lemma lex_le_from_be a : forall b,
  length a = length b -> lex_le a b = (from_be_bytes a <=? from_be_bytes b).
Proof.
  induction a as [|x a IH]; intros [|y b] Hl; try done. injection Hl as Hl.
  cbn [lex_le]. rewrite (IH b Hl), !from_be_bytes_cons, Hl.
  pose proof (from_be_bytes_lt a) as Ha. pose proof (from_be_bytes_lt b) as Hb. rewrite Hl in Ha.
  set (P := 256 ^ N.of_nat (length b)) in *.
  destruct (N.ltb_spec (Byte.to_N x) (Byte.to_N y)) as [Hlt|Hge]; cbn [orb].
  - symmetry. apply N.leb_le. nia.
  - destruct (N.eqb_spec (Byte.to_N x) (Byte.to_N y)) as [->|Hne]; cbn [andb].
    + destruct (N.leb_spec (from_be_bytes a) (from_be_bytes b)); symmetry;
        [apply N.leb_le; lia|apply N.leb_gt; lia].
    + symmetry. apply N.leb_gt. nia.
Qed.

Lemma lex_le_antisym a : forall b, lex_le a b = true -> lex_le b a = true -> a = b.
Proof.
  induction a as [|x a IH]; intros [|y b]; try done. cbn [lex_le].
  rewrite !orb_true_iff, !andb_true_iff, !N.ltb_lt, !N.eqb_eq.
  intros [?|[? ?]] [?|[? ?]]; try lia. f_equal; [by apply to_N_byte_inj|auto].
Qed.

Lemma length_encode_frame_key r i : length (encode_frame_key r i) = 24%nat.
Proof. unfold encode_frame_key. by rewrite length_app, !length_to_be_bytes. Qed.

Lemma from_be_bytes_app a b :
  from_be_bytes (a ++ b) = from_be_bytes a * 256 ^ N.of_nat (length b) + from_be_bytes b.
Proof.
  induction a as [|x a IH]; [done|]. cbn [app]. rewrite !from_be_bytes_cons, IH, length_app.
  rewrite Nat2N.inj_add, N.pow_add_r. lia.
Qed.

Lemma from_be_frame_key r i :
  r < 2 ^ 128 -> i < 2 ^ 64 -> from_be_bytes (encode_frame_key r i) = r * 2 ^ 64 + i.
Proof.
  intros Hr Hi. unfold encode_frame_key.
  rewrite from_be_bytes_app, length_to_be_bytes, !from_to_be_bytes by done. done.
Qed.

Lemma decode_encode_frame_key {E} r i :
  r < 2 ^ 128 -> i < 2 ^ 64 -> decode_frame_key (E := E) (encode_frame_key r i) = Ok (r, i).
Proof.
  intros Hr Hi. unfold decode_frame_key. unfold len. rewrite length_encode_frame_key.
  cbn [N.of_nat N.eqb Pos.eqb Pos.of_succ_nat Pos.succ]. unfold encode_frame_key.
  rewrite slice_app_hd by apply length_to_be_bytes.
  rewrite (slice_app_skip _ _ 16 24 16) by (apply length_to_be_bytes || done).
  change (slice (to_be_bytes 8 i) (16 - 16) (24 - 16)) with (take 8 (to_be_bytes 8 i)).
  rewrite take_ge by (by rewrite length_to_be_bytes).
  by rewrite !from_to_be_bytes.
Qed.

Lemma encode_frame_key_inj r i r' i' :
  r < 2 ^ 128 -> i < 2 ^ 64 -> r' < 2 ^ 128 -> i' < 2 ^ 64 ->
  encode_frame_key r i = encode_frame_key r' i' -> r = r' /\ i = i'.
Proof.
  intros ? ? ? ? E. assert (Ok (E := unit) (r, i) = Ok (r', i')) as [= -> ->]; [|done].
  by rewrite <- (decode_encode_frame_key r i), E, decode_encode_frame_key.
Qed.

Lemma encode_room_key_inj r r' :
  r < 2 ^ 128 -> r' < 2 ^ 128 -> encode_room_key r = encode_room_key r' -> r = r'.
Proof. apply (to_be_bytes_inj 16). Qed.

Lemma frame_key_le r i r' i' :
  r < 2 ^ 128 -> i < 2 ^ 64 -> r' < 2 ^ 128 -> i' < 2 ^ 64 ->
  lex_le (encode_frame_key r i) (encode_frame_key r' i') = true <-> r < r' \/ r = r' /\ i <= i'.
Proof.
  intros. rewrite lex_le_from_be by (by rewrite !length_encode_frame_key).
  rewrite !from_be_frame_key by done. rewrite N.leb_le. nia.
Qed.

(** The range of a room's keys from an index on. *)
Lemma frame_key_range r from r' i' :
  r < 2 ^ 128 -> from < 2 ^ 64 -> r' < 2 ^ 128 -> i' < 2 ^ 64 ->
  (lex_le (encode_frame_key r from) (encode_frame_key r' i') = true /\
   lex_le (encode_frame_key r' i') (encode_frame_key r u64_MAX) = true)
  <-> r' = r /\ from <= i'.
Proof.
  intros. rewrite !frame_key_le by (done || (unfold u64_MAX; lia)). unfold u64_MAX. lia.
Qed.

(** Two sorted lists of the same entries are equal. *)
Definition before (p q : bytes * bytes) : Prop := lex_le p.1 q.1 = true /\ p.1 <> q.1.

#[global] Instance before_antisym : AntiSymm (=) before.
Proof. intros p q [H1 H2] [H3 _]. destruct H2. by apply lex_le_antisym. Qed.

Lemma before_NoDup l : StronglySorted before l -> NoDup l.
Proof.
  induction 1 as [|p l Hs IH Hf]; [by apply NoDup_nil|]. apply NoDup_cons. split; [|done].
  intros Hin. rewrite Forall_forall in Hf. by destruct (Hf p Hin).
Qed.

Lemma sorted_range_unique m P l l' : sorted_range m P l -> sorted_range m P l' -> l = l'.
Proof.
  intros [Hs Hin] [Hs' Hin']. apply (StronglySorted_unique before); [done..|].
  apply NoDup_Permutation; [by apply before_NoDup..|]. intros [k v]. by rewrite Hin, Hin'.
Qed.

(** ** The table of frames *)

Section frames.

(** The table holds the logs [L]. *)
Definition frames_ok (L : N -> list Frame.t) (m : gmap bytes bytes) : Prop :=
  (forall r, Forall Frame.wf (L r) /\ len (L r) <= 2 ^ 64) /\
  forall k v, m !! k = Some v <->
    exists r i f, r < 2 ^ 128 /\ k = encode_frame_key r (N.of_nat i) /\
      L r !! i = Some f /\ v = Frame.wire f.

(** The entries of room [r] from index [n] on. *)
Fixpoint entries (r : N) (n : nat) (fs : list Frame.t) : list (bytes * bytes) :=
  match fs with
  | [] => []
  | f :: fs' => (encode_frame_key r (N.of_nat n), Frame.wire f) :: entries r (S n) fs'
  end.

Lemma elem_of_entries r k v fs : forall n,
  (k, v) ∈ entries r n fs <->
  exists i f, k = encode_frame_key r (N.of_nat (n + i)) /\ fs !! i = Some f /\ v = Frame.wire f.
Proof.
  induction fs as [|f fs IH]; intros n; cbn [entries].
  - rewrite elem_of_nil. split; [done|]. by intros (i & f & _ & ? & _).
  - rewrite elem_of_cons, IH. split.
    + intros [[= -> ->]|(i & g & -> & Hi & ->)].
      * exists 0%nat, f. by rewrite Nat.add_0_r.
      * exists (S i), g. by replace (n + S i)%nat with (S n + i)%nat by lia.
    + intros ([|i] & g & -> & Hi & ->); simpl in Hi.
      * left. injection Hi as ->. by rewrite Nat.add_0_r.
      * right. exists i, g. by replace (n + S i)%nat with (S n + i)%nat by lia.
Qed.

Lemma entries_sorted r fs : forall n,
  r < 2 ^ 128 -> N.of_nat n + len fs <= 2 ^ 64 -> StronglySorted before (entries r n fs).
Proof.
  induction fs as [|f fs IH]; intros n Hr Hn; cbn [entries]; [constructor|].
  unfold len in *. cbn [length] in Hn. constructor; [apply IH; [done|lia]|].
  apply Forall_forall. intros [k v] (i & g & -> & Hi & ->)%elem_of_entries.
  apply lookup_lt_Some in Hi. split; cbn [fst].
  - apply frame_key_le; [done|lia|done|lia|]. right. split; [done|lia].
  - intros E. apply encode_frame_key_inj in E; [|done|lia|done|lia]. lia.
Qed.

Lemma range_entries L m r from l :
  frames_ok L m -> r < 2 ^ 128 -> from < 2 ^ 64 ->
  sorted_range m (fun k => lex_le (encode_frame_key r from) k = true /\
                           lex_le k (encode_frame_key r u64_MAX) = true) l ->
  l = entries r (N.to_nat from) (drop (N.to_nat from) (L r)).
Proof.
  intros [HL Hm] Hr Hf Hl. eapply sorted_range_unique; [exact Hl|].
  assert (Hlen : forall r i g, L r !! i = Some g -> N.of_nat i < 2 ^ 64).
  { intros r' i g Hi. apply lookup_lt_Some in Hi. destruct (HL r') as [_ Hlr].
    unfold len in Hlr. lia. }
  split.
  - destruct (HL r) as [_ Hlr]. unfold len in Hlr.
    destruct (decide (length (L r) <= N.to_nat from)%nat) as [Hge|Hlt].
    { rewrite drop_ge by done. constructor. }
    apply entries_sorted; [done|]. unfold len. rewrite length_drop. lia.
  - intros k v. rewrite elem_of_entries, Hm. split.
    + intros (i & f & -> & Hi & ->). rewrite lookup_drop in Hi. split; [by eauto 10|].
      apply frame_key_range; [done|done|done|by eapply Hlen|]. split; [done|lia].
    + intros [(r' & i & f & Hr' & -> & Hi & ->) Hin].
      apply frame_key_range in Hin as [-> Hge]; [|done|done|done|by eapply Hlen].
      exists (i - N.to_nat from)%nat, f. rewrite lookup_drop.
      by replace (N.to_nat from + (i - N.to_nat from))%nat with i by lia.
Qed.

(** The frame the table holds for a room at an index, and the room's log. *)
Definition frame_at (m : gmap bytes bytes) (r : N) (i : nat) : option Frame.t :=
  if N.of_nat i <? 2 ^ 64 then
    m !! encode_frame_key r (N.of_nat i) ≫= fun v =>
      match Frame.decode v with Ok f => Some f | _ => None end
  else None.

Definition log_in (m : gmap bytes bytes) (r : N) : list Frame.t :=
  omap (frame_at m r) (seq 0 (size m)).

Lemma decode_frame_wire f : Frame.wf f -> Frame.decode (Frame.wire f) = Ok f.
Proof. intros Hf. rewrite <- (app_nil_r (Frame.wire f)). by apply Frame.decode_wire. Qed.

Lemma frame_at_ok L m r i : frames_ok L m -> r < 2 ^ 128 -> frame_at m r i = L r !! i.
Proof.
  intros [HL Hm] Hr. unfold frame_at. destruct (L r !! i) as [f|] eqn:Hf.
  - destruct (HL r) as [Hw Hlr]. unfold len in Hlr. apply lookup_lt_Some in Hf as Hi.
    rewrite (proj2 (N.ltb_lt (N.of_nat i) (2 ^ 64))) by lia.
    rewrite (proj2 (Hm _ (Frame.wire f))) by eauto 10. simpl. rewrite decode_frame_wire; [done|].
    by eapply Forall_lookup_1.
  - destruct (N.ltb_spec (N.of_nat i) (2 ^ 64)) as [Hi|]; [|done].
    destruct (m !! _) as [v|] eqn:Hv; [|done].
    apply Hm in Hv as (r' & i' & f & Hr' & E & Hl & ->). exfalso.
    apply encode_frame_key_inj in E as [-> Hii]; [|done..|].
    + apply Nat2N.inj in Hii. congruence.
    + apply lookup_lt_Some in Hl. destruct (HL r') as [_ Hlr]. unfold len in Hlr. lia.
Qed.

Lemma log_size L m r : frames_ok L m -> r < 2 ^ 128 -> (length (L r) <= size m)%nat.
Proof.
  intros [HL Hm] Hr. destruct (HL r) as [_ Hlr]. unfold len in Hlr.
  set (ks := (entries r 0 (L r)).*1).
  assert (Hlk : forall n fs, length (entries r n fs).*1 = length fs).
  { intros n fs. revert n. induction fs as [|f fs IH]; intros n; simpl; [done|]. by rewrite IH. }
  assert (Hnd : NoDup ks).
  { apply NoDup_fmap_fst.
    - intros k v v' (i & f & -> & Hi & ->)%elem_of_entries (i' & f' & E & Hi' & ->)%elem_of_entries.
      apply lookup_lt_Some in Hi as ?. apply lookup_lt_Some in Hi' as ?.
      apply encode_frame_key_inj in E as [_ E]; [|done|lia|done|lia].
      assert (i = i') as <- by lia. congruence.
    - apply before_NoDup, entries_sorted; [done|]. unfold len. lia. }
  rewrite <- (Hlk 0%nat (L r)). fold ks. rewrite <- (size_dom (D := gset bytes) m).
  rewrite <- (size_list_to_set (C := gset bytes) ks Hnd). apply subseteq_size. intros k.
  rewrite elem_of_list_to_set. intros ([k' v] & -> & Hin)%list_elem_of_fmap.
  apply elem_of_entries in Hin as (i & f & -> & Hi & ->). apply elem_of_dom. cbn [fst].
  exists (Frame.wire f). apply Hm. eauto 10.
Qed.

Lemma log_in_ok L m r : frames_ok L m -> r < 2 ^ 128 -> log_in m r = L r.
Proof.
  intros Hok Hr. pose proof (log_size L m r Hok Hr) as Hs. pose proof Hok as [HL _].
  destruct (HL r) as [_ Hlr]. unfold len in Hlr. unfold log_in.
  replace (size m) with (length (L r) + (size m - length (L r)))%nat by lia.
  rewrite seq_app, omap_app. cbn [Nat.add].
  assert (H1 : forall n k, (n + k <= length (L r))%nat ->
    omap (frame_at m r) (seq n k) = take k (drop n (L r))).
  { intros n k. revert n. induction k as [|k IH]; intros n Hn; [done|]. cbn [seq omap list_omap].
    rewrite (frame_at_ok L) by done. destruct (lookup_lt_is_Some_2 (L r) n ltac:(lia)) as [f Hf].
    rewrite Hf, IH by lia. by rewrite (drop_S _ _ _ Hf). }
  assert (H2 : forall n k, (length (L r) <= n)%nat -> omap (frame_at m r) (seq n k) = []).
  { intros n k. revert n. induction k as [|k IH]; intros n Hn; [done|]. cbn [seq omap list_omap].
    rewrite (frame_at_ok L) by done. rewrite lookup_ge_None_2 by done. apply IH. lia. }
  rewrite H1, H2 by lia. by rewrite drop_0, take_ge, app_nil_r by lia.
Qed.

Lemma frames_ok_push L m r f :
  frames_ok L m -> r < 2 ^ 128 -> len (L r) < 2 ^ 64 -> Frame.wf f ->
  frames_ok (fun r' => if decide (r' = r) then L r ++ [f] else L r')
    (<[encode_frame_key r (len (L r)) := Frame.wire f]> m).
Proof.
  intros [HL Hm] Hr Hlen Hf. split.
  - intros r'. case_decide as E; [subst r'|apply HL]. destruct (HL r) as [Hw _].
    split; [by apply Forall_app; auto|]. rewrite len_app. unfold len in *. simpl. lia.
  - intros k v. rewrite lookup_insert_Some, Hm. split.
    + intros [[<- <-]|[Hk (r' & i & g & Hr' & -> & Hi & ->)]].
      * exists r, (length (L r)), f. rewrite decide_True by done.
        split_and!; try done. by rewrite lookup_app_r, Nat.sub_diag by lia.
      * exists r', i, g. split_and!; try done. case_decide as E; [subst r'|done].
        by apply lookup_app_l_Some.
    + intros (r' & i & g & Hr' & -> & Hi & ->). case_decide as E; [subst r'|].
      * apply lookup_app_Some in Hi as [Hi|[Hge Hi]].
        -- right. split; [|by eauto 10]. intros E.
           apply lookup_lt_Some in Hi. unfold len in *.
           apply encode_frame_key_inj in E as [_ E]; [|done|lia|done|lia]. lia.
        -- apply list_lookup_singleton_Some in Hi as [Hz <-]. left. split; [|done].
           unfold len. f_equal. lia.
      * right. split; [|by eauto 10]. intros E'.
        apply lookup_lt_Some in Hi. destruct (HL r') as [_ Hlr]. unfold len in *.
        apply encode_frame_key_inj in E' as [E' _]; [|done|lia|done|lia]. congruence.
Qed.

(** ** Lemmas: what the loops read *)

Lemma yields_items_nil items : yields_items [] items ->
  items = [] \/ exists e rest, items = Err e :: rest.
Proof.
  intros [->|(n & e & rest & _ & ->)]; [by left|]. right. rewrite take_nil. eauto.
Qed.

Lemma yields_items_cons p l items : yields_items (p :: l) items ->
  (exists items', items = Ok p :: items' /\ yields_items l items') \/
  exists e rest, items = Err e :: rest.
Proof.
  intros [->|(n & e & rest & Hn & ->)].
  - left. exists (map Ok l). split; [done|]. by left.
  - destruct n as [|n]; [right; simpl; eauto|]. left. simpl. eexists. split; [done|].
    right. exists n, e, rest. simpl in Hn. split; [lia|done].
Qed.

Lemma scan_latest_items r fs : forall n latest items o,
  r < 2 ^ 128 -> N.of_nat n + len fs <= 2 ^ 64 -> yields_items (entries r n fs) items ->
  RedbStorage.scan_latest latest items = Ok o ->
  o = match fs with [] => latest | _ => Some (N.of_nat n + len fs - 1) end.
Proof.
  induction fs as [|f fs IH]; intros n latest items o Hr Hn Hy; cbn [entries] in Hy.
  - apply yields_items_nil in Hy as [->|(e & rest & ->)]; [by intros [= <-]|done].
  - apply yields_items_cons in Hy as [(items' & -> & Hy)|(e & rest & ->)]; [|done].
    unfold len in *. cbn [length] in *. cbn [RedbStorage.scan_latest map_err fst mbind res_bind].
    rewrite decode_encode_frame_key by (done || lia). cbn [snd].
    intros Ho. apply (IH (S n) _ items') in Ho; [|done|lia|done]. subst o.
    destruct fs; unfold len; cbn [length snd]; f_equal; lia.
Qed.

Lemma read_frames_items r limit fs : forall n acc items a,
  r < 2 ^ 128 -> N.of_nat n + len fs <= 2 ^ 64 -> Forall Frame.wf fs ->
  yields_items (entries r n fs) items -> RedbStorage.read_frames r limit acc items = Ok a ->
  a = acc ++ take (N.to_nat (limit - len acc)) fs.
Proof.
  induction fs as [|f fs IH]; intros n acc items a Hr Hn Hw Hy; cbn [entries] in Hy.
  - rewrite take_nil, app_nil_r.
    apply yields_items_nil in Hy as [->|(e & rest & ->)]; cbn [RedbStorage.read_frames].
    + by intros [= <-].
    + destruct (limit <=? len acc); [by intros [= <-]|done].
  - apply yields_items_cons in Hy as [(items' & -> & Hy)|(e & rest & ->)]; cbn [RedbStorage.read_frames];
      destruct (N.leb_spec limit (len acc)) as [Hle|Hlt]; try done.
    1,3: replace (limit - len acc) with 0 by lia; intros [= <-]; by rewrite app_nil_r.
    inversion Hw as [|? ? Hf Hw']; subst. unfold len in Hn. cbn [length] in Hn.
    cbn [map_err fst snd mbind res_bind]. rewrite decode_encode_frame_key by (done || lia).
    cbn [fst mbind res_bind]. rewrite N.eqb_refl. cbn [negb]. rewrite decode_frame_wire by done. cbn [map_err].
    intros Ha. apply (IH (S n) _ items') in Ha; [|done|unfold len; lia|done|done]. subst a.
    rewrite len_app, <- (assoc_L (++)). unfold len at 2. cbn [length app].
    replace (N.to_nat (limit - len acc)) with (S (N.to_nat (limit - (len acc + N.of_nat 1)))) by lia.
    done.
Qed.

Lemma read_rooms_items l : forall acc items rs,
  Forall (fun p : bytes * bytes => length p.1 = 16%nat) l -> yields_items l items ->
  RedbStorage.read_rooms acc items = Ok rs -> rs = acc ++ map (fun p => from_be_bytes p.1) l.
Proof.
  induction l as [|[k v] l IH]; intros acc items rs Hk Hy.
  - rewrite app_nil_r. apply yields_items_nil in Hy as [->|(e & rest & ->)]; [by intros [= <-]|done].
  - inversion Hk as [|? ? Hk1 Hk2]; subst.
    apply yields_items_cons in Hy as [(items' & -> & Hy)|(e & rest & ->)]; [|done].
    cbn [RedbStorage.read_rooms map_err fst mbind res_bind]. unfold len. cbn [fst] in Hk1.
    rewrite Hk1. cbn [N.of_nat N.eqb Pos.eqb Pos.of_succ_nat Pos.succ]. intros Hrs.
    apply (IH _ items') in Hrs; [|done..]. subst rs. by rewrite <- (assoc_L (++)).
Qed.

End frames.

(** ** The contract *)

Module RedbContract.
Import RedbStorage.

Section contract.
Context {Db Txn : Type} `{!RedbEngine Db Txn} {atomic : AtomicCommit Db Txn}
  `{!CborCodec MlsGroupState.t} `{!CborCodec StoredRoomMetadata}.

(** A computation that commits nothing, and what it answers. *)
Definition reading {A} (m : storeM Db A) (db : Db) (P : A -> Prop) : Prop :=
  let '(db', r) := m db in
  committed db' = committed db /\ forall a, r = Ok a -> P a.

(** A computation that commits [new] when it succeeds and nothing otherwise. *)
Definition writing (m : storeM Db unit) (db : Db)
    (new : (table -> gmap bytes bytes) -> Prop) : Prop :=
  let '(db', r) := m db in
  match r with Ok _ => new (committed db') | _ => committed db' = committed db end.

Lemma reading_bind {A B} (P : A -> Prop) (Q : B -> Prop) (m : storeM Db A) (f : A -> storeM Db B) db :
  reading m db P ->
  (forall a db', committed db' = committed db -> P a -> reading (f a) db' Q) ->
  reading (m ≫= f) db Q.
Proof.
  unfold reading, mbind, M_bind. destruct (m db) as [db1 [a|e|]]; intros [Hdb Hp] Hf; [|done..].
  specialize (Hf a db1 Hdb (Hp a eq_refl)). destruct (f a db1). by rewrite Hdb in Hf.
Qed.

Lemma writing_bind {A} (P : A -> Prop) new (m : storeM Db A) (f : A -> storeM Db unit) db :
  reading m db P ->
  (forall a db', committed db' = committed db -> P a -> writing (f a) db' new) ->
  writing (m ≫= f) db new.
Proof.
  unfold reading, writing, mbind, M_bind. destruct (m db) as [db1 [a|e|]]; intros [Hdb Hp] Hf; [|done..].
  specialize (Hf a db1 Hdb (Hp a eq_refl)). destruct (f a db1) as [db2 []]; by rewrite ?Hf, ?Hdb.
Qed.

Lemma reading_lift {A} (r : res StorageError.t A) db P :
  (forall a, r = Ok a -> P a) -> reading (lift r) db P.
Proof. done. Qed.

Lemma reading_ret {A} (a : A) db (P : A -> Prop) : P a -> reading (mret a) db P.
Proof. intros H. split; [done|]. by intros b [= <-]. Qed.

Lemma reading_throw {A} e db (P : A -> Prop) : reading (throw e) db P.
Proof. by split. Qed.

Lemma reading_begin_write db : reading (io begin_write) db (fun x => seen x = committed db).
Proof.
  unfold reading, io. pose proof (begin_write_spec db) as H. destruct (begin_write db) as [db' [x|e|]];
    destruct H as [? ?]; (split; [done|]); [by intros ? [= <-]|done..].
Qed.

Lemma reading_begin_read db : reading (io begin_read) db (fun x => seen x = committed db).
Proof.
  unfold reading, io. pose proof (begin_read_spec db) as H. destruct (begin_read db) as [db' [x|e|]];
    destruct H as [? ?]; (split; [done|]); [by intros ? [= <-]|done..].
Qed.

Lemma reading_open_table x t db : reading (io (open_table x t)) db (fun _ => True).
Proof.
  unfold reading, io. pose proof (open_table_spec x t db) as H.
  destruct (open_table x t db) as [db' r]. by destruct H.
Qed.

Lemma reading_get x t k db : reading (io (get_key x t k)) db (fun o => o = seen x t !! k).
Proof.
  unfold reading, io. pose proof (get_key_spec x t k db) as H. destruct (get_key x t k db) as [db' [o|e|]];
    destruct H as [? ?]; (split; [done|]); [by intros ? [= <-]|done..].
Qed.

Lemma reading_insert x t k v db : reading (io (insert_key x t k v)) db
  (fun x' => seen x' t = <[k := v]> (seen x t) /\ forall t', t' <> t -> seen x' t' = seen x t').
Proof.
  unfold reading, io. pose proof (insert_key_spec x t k v db) as H.
  destruct (insert_key x t k v db) as [db' [o|e|]];
    destruct H as [? ?]; (split; [done|]); [by intros ? [= <-]|done..].
Qed.

Lemma reading_range x t lo hi db : reading (io (range x t lo hi)) db
  (fun items => exists l,
     sorted_range (seen x t) (fun k => lex_le lo k = true /\ lex_le k hi = true) l /\
     yields_items l items).
Proof.
  unfold reading, io. pose proof (range_spec x t lo hi db) as H.
  destruct (range x t lo hi db) as [db' [o|e|]];
    destruct H as [? ?]; (split; [done|]); [by intros ? [= <-]|done..].
Qed.

Lemma reading_iter x t db : reading (io (iter x t)) db
  (fun items => exists l, sorted_range (seen x t) (fun _ => True) l /\ yields_items l items).
Proof.
  unfold reading, io. pose proof (iter_spec x t db) as H. destruct (iter x t db) as [db' [o|e|]];
    destruct H as [? ?]; (split; [done|]); [by intros ? [= <-]|done..].
Qed.

Lemma reading_serde {A} (x : string + A) db : reading (serde x) db (fun a => x = inr a).
Proof. destruct x; [apply reading_throw|by apply reading_ret]. Qed.

Lemma writing_commit x db : writing (io (commit x)) db (fun c => c = seen x).
Proof using atomic.
  unfold writing, io. pose proof (commit_spec x db) as H.
  destruct (commit x db) as [db' [|e|]] eqn:Hc; [done| |done]. exact (atomic x db db' e Hc).
Qed.

(** ** What a room's tables hold *)

Definition decoded {A} (x : string + A) : option A :=
  match x with inr a => Some a | inl _ => None end.

Definition group_info_of (v : bytes) : option (N * bytes) :=
  if len v <? 8 then None else Some (from_be_bytes (take 8 v), drop 8 v).

Definition tables_view (c : table -> gmap bytes bytes) (r : N) : room_view :=
  if r <? 2 ^ 128 then
    mk_view (log_in (c FRAMES) r)
      (c MLS_STATE !! encode_room_key r ≫= fun v => decoded (from_reader v))
      (c GROUP_INFO !! encode_room_key r ≫= group_info_of)
      (c ROOMS !! encode_room_key r ≫= fun v => decoded (from_reader v))
  else mk_view [] None None None.

(** Every frame is stored under its index, and every room has a key of its
    width and metadata that can be read. *)
Definition tables_inv (c : table -> gmap bytes bytes) : Prop :=
  (exists L, frames_ok L (c FRAMES)) /\
  forall k v, c ROOMS !! k = Some v ->
    length k = 16%nat /\ exists md : StoredRoomMetadata, from_reader v = inr md.

Lemma tables_view_lt c r : r < 2 ^ 128 ->
  tables_view c r = mk_view (log_in (c FRAMES) r)
      (c MLS_STATE !! encode_room_key r ≫= fun v => decoded (from_reader v))
      (c GROUP_INFO !! encode_room_key r ≫= group_info_of)
      (c ROOMS !! encode_room_key r ≫= fun v => decoded (from_reader v)).
Proof. intros Hr. unfold tables_view. by rewrite (proj2 (N.ltb_lt r (2 ^ 128)) Hr). Qed.

Definition db_view (db : Db) : N -> room_view := tables_view (committed db).
Definition db_inv (db : Db) : Prop := tables_inv (committed db).

Lemma reading_reads {A} (m : storeM Db A) db P :
  reading m db P -> db_inv db -> reads db_view db_inv m db P.
Proof.
  unfold reading, reads, db_inv, unchanged, db_view. destruct (m db) as [db' r].
  intros [Hc HP] Hi. by rewrite Hc.
Qed.

(** The effect of a value written under a room's key. *)
Lemma writing_writes (m : storeM Db unit) db r f new :
  writing m db new ->
  (forall c, new c -> tables_inv c /\ changed_at tables_view r f (committed db) c) ->
  db_inv db -> writes db_view db_inv m db r f.
Proof.
  unfold writing, writes, db_inv, db_view. destruct (m db) as [db' [a|e|]]; intros Hw Hn Hi.
  - by apply Hn in Hw.
  - unfold unchanged. by rewrite Hw.
  - unfold unchanged. by rewrite Hw.
Qed.

(** ** Lemmas: the operations *)

(** The tables [c] with [b] under the key of room [r] in table [t]. *)
Definition updated (c : table -> gmap bytes bytes) (t : table) (k b : bytes)
    (c' : table -> gmap bytes bytes) : Prop :=
  c' t = <[k := b]> (c t) /\ forall t', t' <> t -> c' t' = c t'.

Lemma write_value_writing t r v db :
  writing (write_value t r v) db
    (fun c => exists b, v = inr b /\ updated (committed db) t (encode_room_key r) b c).
Proof using atomic.
  unfold write_value. eapply writing_bind; [apply reading_begin_write|]. intros x db1 E1 Hx.
  eapply writing_bind; [apply reading_open_table|]. intros _ db2 E2 _.
  eapply writing_bind; [apply reading_serde|]. intros b db3 E3 ->.
  eapply writing_bind; [apply reading_insert|]. intros x' db4 E4 [Ht Ho].
  pose proof (writing_commit x' db4) as Hc. unfold writing in *.
  destruct (io (commit x') db4) as [db5 [[]|e|]]; [|done..].
  exists b. split; [done|]. rewrite Hc. split; [by rewrite Ht, Hx|].
  intros t' Hne. by rewrite Ho, Hx by done.
Qed.

Lemma read_value_reading t r db :
  reading (read_value t r) db (fun o => o = committed db t !! encode_room_key r).
Proof.
  unfold read_value. eapply reading_bind; [apply reading_begin_read|]. intros x db1 E1 Hx.
  eapply reading_bind; [apply reading_open_table|]. intros _ db2 E2 _.
  rewrite <- Hx. apply reading_get.
Qed.

(** Another room's key is another key. *)
Lemma updated_other c t r b c' r' :
  updated c t (encode_room_key r) b c' -> r < 2 ^ 128 -> r' < 2 ^ 128 -> r' <> r ->
  forall t', c' t' !! encode_room_key r' = c t' !! encode_room_key r'.
Proof.
  intros [Ht Ho] Hr Hr' Hne t'. destruct (decide (t' = t)) as [->|]; [|by rewrite Ho].
  rewrite Ht, lookup_insert_ne; [done|]. intros E. by apply encode_room_key_inj in E.
Qed.

Lemma updated_view c t r b c' f :
  t <> FRAMES -> updated c t (encode_room_key r) b c' -> r < 2 ^ 128 ->
  tables_view c' r = f (tables_view c r) -> changed_at tables_view r f c c'.
Proof.
  intros Hf Hup Hr Hv. split; [done|]. intros r' Hne. unfold tables_view.
  destruct (N.ltb_spec r' (2 ^ 128)) as [Hr'|]; [|done].
  pose proof (updated_other c t r b c' r' Hup Hr Hr' Hne) as Ho. rewrite !Ho.
  destruct Hup as [_ Hup]. by rewrite Hup by done.
Qed.

Lemma frames_write_inv c t k b c' :
  t = MLS_STATE \/ t = GROUP_INFO -> updated c t k b c' -> tables_inv c -> tables_inv c'.
Proof.
  intros Ht [_ Ho] [Hf Hr].
  split; [rewrite Ho by (by destruct Ht; subst)|rewrite Ho by (by destruct Ht; subst)]; done.
Qed.

Lemma store_mls_state_contract r s db :
  db_inv db -> r < 2 ^ 128 -> writes db_view db_inv (store_mls_state r s) db r (set_mls s).
Proof using atomic.
  intros Hi Hr. unfold store_mls_state. eapply writing_writes; [apply write_value_writing| |done].
  intros c (b & Hb & Hup). split; [exact (frames_write_inv _ _ _ _ _ (or_introl eq_refl) Hup Hi)|].
  apply (updated_view _ MLS_STATE _ b); try done. rewrite !tables_view_lt by done. destruct Hup as [Ht Ho].
  rewrite Ht, lookup_insert_eq, !Ho by done. simpl.
  by rewrite (from_reader_into_writer _ _ Hb).
Qed.

Lemma group_info_of_app e gi :
  e < 2 ^ 64 -> group_info_of (to_be_bytes 8 e ++ gi) = Some (e, gi).
Proof.
  intros He. unfold group_info_of. rewrite len_app. unfold len at 1. rewrite length_to_be_bytes.
  rewrite (proj2 (N.ltb_ge (N.of_nat 8 + len gi) 8)) by lia.
  rewrite (take_app_length' (to_be_bytes 8 e)) by (by rewrite length_to_be_bytes).
  rewrite (drop_app_length' (to_be_bytes 8 e)) by (by rewrite length_to_be_bytes).
  by rewrite from_to_be_bytes.
Qed.

Lemma store_group_info_contract r e gi db :
  db_inv db -> r < 2 ^ 128 -> e < 2 ^ 64 ->
  writes db_view db_inv (store_group_info r e gi) db r (set_group_info e gi).
Proof using atomic.
  intros Hi Hr He. unfold store_group_info. eapply writing_writes; [apply write_value_writing| |done].
  intros c (b & Hb & Hup). split; [exact (frames_write_inv _ _ _ _ _ (or_intror eq_refl) Hup Hi)|].
  apply (updated_view _ GROUP_INFO _ b); try done. rewrite !tables_view_lt by done.
  destruct Hup as [Ht Ho]. rewrite Ht, lookup_insert_eq, !Ho by done.
  assert (to_be_bytes 8 e ++ gi = b) as <- by congruence. cbn [mbind option_bind].
  by rewrite group_info_of_app.
Qed.

Lemma create_room_contract r md db :
  db_inv db -> r < 2 ^ 128 -> writes db_view db_inv (create_room r md) db r (set_meta md).
Proof using atomic.
  intros Hi Hr. unfold create_room.
  apply (writing_writes _ _ _ _ (fun c => (committed db ROOMS !! encode_room_key r <> None /\ c = committed db) \/
    exists b, committed db ROOMS !! encode_room_key r = None /\ into_writer md = inr b /\
      updated (committed db) ROOMS (encode_room_key r) b c)); [|intros c Hc|done].
  - eapply writing_bind; [apply reading_begin_write|]. intros x db1 E1 Hx.
    eapply writing_bind; [apply reading_open_table|]. intros _ db2 E2 _.
    eapply writing_bind; [apply reading_get|]. intros o db3 E3 Ho. rewrite Hx in Ho. subst o.
    destruct (committed db ROOMS !! encode_room_key r) as [v|] eqn:Hv.
    { cbn. left. split; [done|]. by rewrite E3, E2, E1. }
    eapply writing_bind; [apply reading_serde|]. intros b db4 E4 Hb.
    eapply writing_bind; [apply reading_insert|]. intros x' db5 E5 [Ht Ho].
    pose proof (writing_commit x' db5) as Hc. unfold writing in *.
    destruct (io (commit x') db5) as [db6 [[]|e|]]; [|done..].
    right. exists b. split_and!; try done. rewrite Hc. split; [by rewrite Ht, Hx|].
    intros t' Hne. by rewrite Ho, Hx by done.
  - destruct Hi as [Hf Hrooms]. destruct Hc as [[Hv ->]|(b & Hv & Hb & Hup)].
    + destruct (committed db ROOMS !! encode_room_key r) as [v|] eqn:E; [|done].
      destruct (Hrooms _ _ E) as (_ & md' & Hmd). split; [done|]. split; [|done].
      rewrite tables_view_lt by done. unfold set_meta. cbn [rv_log rv_mls rv_group_info rv_meta].
      rewrite E. cbn [mbind option_bind]. by rewrite Hmd.
    + pose proof (from_reader_into_writer _ _ Hb) as Hmd. split.
      * destruct Hup as [Ht Ho]. split; [by rewrite Ho|]. rewrite Ht. intros k v.
        rewrite lookup_insert_Some. intros [[<- <-]|[_ Hk]]; [|by apply Hrooms].
        split; [apply length_to_be_bytes|by exists md].
      * apply (updated_view _ ROOMS _ b); try done. rewrite !tables_view_lt by done. destruct Hup as [Ht Ho].
        rewrite Ht, lookup_insert_eq, !Ho, Hv by done. unfold set_meta. simpl. by rewrite Hmd.
Qed.

Lemma load_mls_state_contract r db :
  db_inv db -> r < 2 ^ 128 ->
  reads db_view db_inv (load_mls_state r) db (fun o => o = rv_mls (db_view db r)).
Proof.
  intros Hi Hr. apply reading_reads; [|done]. unfold db_view. rewrite tables_view_lt by done.
  eapply reading_bind; [apply read_value_reading|]. intros o db1 E1 ->.
  simpl. destruct (committed db MLS_STATE !! encode_room_key r) as [v|]; [|by apply reading_ret].
  eapply reading_bind; [apply reading_serde|]. intros s db2 E2 Hs. apply reading_ret.
  simpl. by rewrite Hs.
Qed.

Lemma load_room_metadata_contract r db :
  db_inv db -> r < 2 ^ 128 ->
  reads db_view db_inv (load_room_metadata r) db (fun o => o = rv_meta (db_view db r)).
Proof.
  intros Hi Hr. apply reading_reads; [|done]. unfold db_view. rewrite tables_view_lt by done.
  eapply reading_bind; [apply read_value_reading|]. intros o db1 E1 ->.
  simpl. destruct (committed db ROOMS !! encode_room_key r) as [v|]; [|by apply reading_ret].
  eapply reading_bind; [apply reading_serde|]. intros s db2 E2 Hs. apply reading_ret.
  simpl. by rewrite Hs.
Qed.

Lemma load_group_info_contract r db :
  db_inv db -> r < 2 ^ 128 ->
  reads db_view db_inv (load_group_info r) db (fun o => o = rv_group_info (db_view db r)).
Proof.
  intros Hi Hr. apply reading_reads; [|done]. unfold db_view. rewrite tables_view_lt by done.
  eapply reading_bind; [apply read_value_reading|]. intros o db1 E1 ->.
  simpl. destruct (committed db GROUP_INFO !! encode_room_key r) as [v|]; [|by apply reading_ret].
  simpl. unfold group_info_of. destruct (len v <? 8); [apply reading_throw|by apply reading_ret].
Qed.

Lemma compute_latest_reading L txn r db :
  frames_ok L (seen txn FRAMES) -> r < 2 ^ 128 ->
  reading (compute_latest_log_index txn r) db (fun o => o = last_index (L r)).
Proof.
  intros HL Hr. unfold compute_latest_log_index.
  eapply reading_bind; [apply reading_range|]. intros items db1 E1 (l & Hl & Hy).
  apply reading_lift. intros o Ho. apply (range_entries L) in Hl; [|done..].
  rewrite drop_0 in Hl. subst l. destruct HL as [HL _]. destruct (HL r) as [_ Hlen].
  apply (scan_latest_items r (L r) 0 None items) in Ho; [|done|lia|done]. subst o.
  unfold last_index. by destruct (L r).
Qed.

Lemma compute_next_reading L txn r db :
  frames_ok L (seen txn FRAMES) -> r < 2 ^ 128 ->
  reading (compute_next_log_index txn r) db (fun n => n = len (L r) /\ n <= u64_MAX).
Proof.
  intros HL Hr. unfold compute_next_log_index.
  eapply reading_bind; [by apply (compute_latest_reading L)|]. intros o db1 E1 ->.
  unfold last_index. destruct (L r) as [|f fs] eqn:El.
  { apply reading_ret. split; [done|]. unfold u64_MAX. lia. }
  apply reading_lift. intros n. unfold add_panic.
  destruct (checked_add _ _ _) as [k|] eqn:Ha; [|done]. intros [= <-].
  apply checked_add_Some in Ha as [-> Ha]. unfold len in *. cbn [length] in *. split; lia.
Qed.

(** The steps of [store_frame] up to the index check. *)
Lemma compute_next_no_conflict txn r db a b :
  snd (compute_next_log_index txn r db) <> Err (StorageError.Conflict a b).
Proof.
  unfold compute_next_log_index, compute_latest_log_index, io, mbind, M_bind.
  destruct (range _ _ _ _ _) as [db1 [items|e|]]; simpl; [|done..].
  assert (Hs : forall latest, scan_latest latest items <> Err (StorageError.Conflict a b)).
  { induction items as [|[kv|e|] items IH]; intros latest; simpl; try done.
    unfold decode_frame_key. case_match; simpl; [apply IH|done]. }
  specialize (Hs None). destruct (scan_latest None items) as [o|e|]; simpl; [|congruence|done].
  destruct o; simpl; [|done]. unfold add_panic, expect. by case_match.
Qed.

Lemma push_inv_view L c c' r f :
  frames_ok L (c FRAMES) -> r < 2 ^ 128 -> len (L r) < 2 ^ 64 -> Frame.wf f -> tables_inv c ->
  updated c FRAMES (encode_frame_key r (len (L r))) (Frame.wire f) c' ->
  tables_inv c' /\ changed_at tables_view r (push_frame f) c c'.
Proof.
  intros HL Hr Hlen Hf [_ Hrooms] [Ht Ho].
  pose proof (frames_ok_push L _ r f HL Hr Hlen Hf) as HL'. rewrite <- Ht in HL'. split.
  { split; [by eexists|]. by rewrite Ho. }
  split.
  - rewrite !tables_view_lt by done. rewrite (Ho MLS_STATE), (Ho GROUP_INFO), (Ho ROOMS) by done.
    unfold push_frame. cbn [rv_log rv_mls rv_group_info rv_meta].
    rewrite (log_in_ok _ _ r HL' Hr), (log_in_ok L _ r HL Hr). by rewrite decide_True.
  - intros r' Hne. unfold tables_view. destruct (N.ltb_spec r' (2 ^ 128)) as [Hr'|]; [|done].
    rewrite (Ho MLS_STATE), (Ho GROUP_INFO), (Ho ROOMS) by done. f_equal.
    rewrite (log_in_ok _ _ r' HL' Hr'), (log_in_ok L _ r' HL Hr').
    by rewrite decide_False.
Qed.

Lemma store_frame_contract r i f db :
  db_inv db -> r < 2 ^ 128 -> i < 2 ^ 64 -> Frame.wf f ->
  let '(db', res) := store_frame r i f db in
  db_inv db' /\
  match res with
  | Ok _ => i = len (rv_log (db_view db r)) /\ changed_at db_view r (push_frame f) db db'
  | Err e => unchanged db_view db db' /\
      forall a b, e = StorageError.Conflict a b -> a = len (rv_log (db_view db r)) /\ b = i /\ a <> b
  | Panic => unchanged db_view db db'
  end.
Proof using atomic.
  intros Hi Hr Hlt Hf. pose proof Hi as [[L HL] _].
  assert (Hlog : rv_log (db_view db r) = L r).
  { unfold db_view. rewrite tables_view_lt by done. by apply log_in_ok. }
  rewrite Hlog. unfold db_inv, unchanged, db_view.
  assert (Hsame : forall db', committed db' = committed db ->
    tables_inv (committed db') /\ forall r', tables_view (committed db') r' = tables_view (committed db) r').
  { intros db' ->. done. }
  unfold store_frame, mbind at 1, M_bind at 1. pose proof (reading_begin_write db) as H1.
  unfold reading, io in H1 |- *. destruct (begin_write db) as [db1 [x|e|]]; cbn [map_err] in *;
    destruct H1 as [E1 H1]; [|destruct (Hsame db1 E1); done..]. specialize (H1 x eq_refl).
  unfold mbind at 1, M_bind at 1. pose proof (reading_open_table x FRAMES db1) as H2.
  unfold reading, io in H2. destruct (open_table x FRAMES db1) as [db2 [[]|e|]]; cbn [map_err] in *;
    destruct H2 as [E2 _]; rewrite E1 in E2; [|destruct (Hsame db2 E2); done..].
  unfold mbind at 1, M_bind at 1.
  assert (HLx : frames_ok L (seen x FRAMES)) by (by rewrite H1).
  pose proof (compute_next_reading L x r db2 HLx Hr) as H3.
  pose proof (compute_next_no_conflict x r db2) as Hnc. unfold reading in H3.
  destruct (compute_next_log_index x r db2) as [db3 [n|e|]]; destruct H3 as [E3 H3]; rewrite E2 in E3;
    [|destruct (Hsame db3 E3); split_and!; try done; intros a b ->; by destruct (Hnc a b)
     |destruct (Hsame db3 E3); done].
  destruct (H3 n eq_refl) as [-> Hn]. clear H3 Hnc.
  destruct (N.eqb_spec i (len (L r))) as [->|Hne]; cbn [negb].
  2:{ destruct (Hsame db3 E3). cbn. split_and!; try done. intros a b [= <- <-]. by split_and!. }
  unfold mbind at 1, M_bind at 1, lift at 1. rewrite Frame.encode_wf by done. cbn [map_err app].
  unfold mbind at 1, M_bind at 1.
  pose proof (reading_insert x FRAMES (encode_frame_key r (len (L r))) (Frame.wire f) db3) as H4.
  unfold reading, io in H4. destruct (insert_key x FRAMES _ _ db3) as [db4 [x'|e|]]; cbn [map_err] in *;
    destruct H4 as [E4 H4]; rewrite E3 in E4; [|destruct (Hsame db4 E4); done..].
  destruct (H4 x' eq_refl) as [Ht Ho]. rewrite H1 in Ht, Ho.
  pose proof (writing_commit x' db4) as H5. unfold writing, io in H5.
  destruct (commit x' db4) as [db5 [[]|e|]]; cbn [map_err] in *;
    [|rewrite E4 in H5; by destruct (Hsame db5 H5)..].
  destruct (push_inv_view L (committed db) (committed db5) r f HL Hr Hlt Hf Hi) as [Hi' Hv];
    [by rewrite H5; split|]. done.
Qed.

Lemma latest_log_index_contract r db :
  db_inv db -> r < 2 ^ 128 ->
  reads db_view db_inv (latest_log_index r) db (fun o => o = last_index (rv_log (db_view db r))).
Proof.
  intros Hi Hr. pose proof Hi as [[L HL] _]. apply reading_reads; [|done].
  unfold db_view. rewrite tables_view_lt by done. cbn [rv_log]. rewrite (log_in_ok L) by done.
  eapply reading_bind; [apply reading_begin_read|]. intros x db1 E1 Hx.
  eapply reading_bind; [apply reading_open_table|]. intros _ db2 E2 _.
  apply compute_latest_reading; [by rewrite Hx|done].
Qed.

Lemma load_frames_contract r from limit db :
  db_inv db -> r < 2 ^ 128 -> from < 2 ^ 64 ->
  reads db_view db_inv (load_frames r from limit) db
    (fun fs => fs = take (N.to_nat limit) (drop (N.to_nat from) (rv_log (db_view db r)))).
Proof.
  intros Hi Hr Hfrom. pose proof Hi as [[L HL] _]. apply reading_reads; [|done].
  unfold db_view. rewrite tables_view_lt by done. cbn [rv_log]. rewrite (log_in_ok L) by done.
  eapply reading_bind; [apply reading_begin_read|]. intros x db1 E1 Hx.
  eapply reading_bind; [apply reading_open_table|]. intros _ db2 E2 _.
  eapply reading_bind; [apply reading_range|]. intros items db3 E3 (l & Hl & Hy).
  eapply (reading_bind (fun _ => True)); [by case_match|]. intros _ db4 E4 _.
  apply reading_lift. intros fs Hfs. rewrite Hx in Hl. apply (range_entries L) in Hl; [|done..]. subst l.
  destruct HL as [HL _]. destruct (HL r) as [Hw Hlen].
  apply (read_frames_items r limit (drop (N.to_nat from) (L r)) (N.to_nat from) [] items) in Hfs; try done.
  - by rewrite N.sub_0_r in Hfs.
  - destruct (decide (length (L r) <= N.to_nat from)%nat) as [Hge|Hlt].
    { rewrite drop_ge by done. unfold len. simpl. lia. }
    unfold len in *. rewrite length_drop. lia.
  - by apply Forall_drop.
Qed.

Lemma list_rooms_contract db :
  db_inv db -> reads db_view db_inv list_rooms db
    (fun rs => NoDup rs /\ forall r, r ∈ rs <-> is_Some (rv_meta (db_view db r))).
Proof.
  intros Hi. pose proof Hi as [_ Hrooms]. apply reading_reads; [|done]. unfold list_rooms.
  eapply reading_bind; [apply reading_begin_read|]. intros x db1 E1 Hx.
  eapply reading_bind; [apply reading_open_table|]. intros _ db2 E2 _.
  eapply reading_bind; [apply reading_iter|]. intros items db3 E3 (l & [Hs Hl] & Hy).
  rewrite Hx in Hl. apply reading_lift. intros rs Hrs.
  assert (H16 : Forall (fun p : bytes * bytes => length p.1 = 16%nat) l).
  { apply Forall_forall. intros [k v] [Hk _]%Hl. by apply Hrooms in Hk as [? _]. }
  apply (read_rooms_items l [] items) in Hrs; [|done..]. subst rs. cbn [app]. split.
  - rewrite Forall_forall in H16. apply NoDup_fmap_2_strong; [|by apply before_NoDup].
    intros [k v] [k' v'] Hin Hin' E. pose proof (H16 _ Hin). pose proof (H16 _ Hin'). cbn [fst] in *.
    apply from_be_bytes_inj in E; [|congruence]. subst k'.
    apply Hl in Hin as [Hin _]. apply Hl in Hin' as [Hin' _]. congruence.
  - intros r. rewrite list_elem_of_fmap. unfold db_view. split.
    + intros ([k v] & -> & Hin). rewrite Forall_forall in H16. pose proof (H16 _ Hin) as Hk. cbn [fst] in *.
      apply Hl in Hin as [Hin _]. rewrite tables_view_lt by (by apply (from_be_bytes_lt_n _ 16)).
      cbn [rv_meta]. unfold encode_room_key. rewrite (to_from_be_bytes_n 16 k Hk), Hin.
      destruct (Hrooms _ _ Hin) as (_ & md & Hmd). cbn [mbind option_bind]. rewrite Hmd. by eexists.
    + unfold tables_view. destruct (N.ltb_spec r (2 ^ 128)) as [Hr|]; [|by intros [? ?]].
      cbn [rv_meta]. destruct (committed db ROOMS !! encode_room_key r) as [v|] eqn:Hv; [|by intros [? ?]].
      intros _. exists (encode_room_key r, v). split; [|by apply Hl].
      cbn [fst]. unfold encode_room_key. by rewrite from_to_be_bytes.
Qed.

#[global] Instance redb_storage_spec : StorageSpec Db := {|
  storage_inv := db_inv;
  Storage.view := db_view;
  store_frame_spec r i f db := store_frame_contract r i f db;
  latest_log_index_spec r db := latest_log_index_contract r db;
  load_frames_spec r from limit db := load_frames_contract r from limit db;
  store_mls_state_spec r s db := store_mls_state_contract r s db;
  load_mls_state_spec r db := load_mls_state_contract r db;
  store_group_info_spec r e gi db := store_group_info_contract r e gi db;
  load_group_info_spec r db := load_group_info_contract r db;
  list_rooms_spec db := list_rooms_contract db;
  create_room_spec r m db := create_room_contract r m db;
  load_room_metadata_spec r db := load_room_metadata_contract r db;
|}.

Lemma read_frames_no_panic r limit fs : forall n acc items,
  r < 2 ^ 128 -> N.of_nat n + len fs <= 2 ^ 64 -> Forall Frame.wf fs ->
  yields_items (entries r n fs) items -> read_frames r limit acc items <> Panic.
Proof.
  induction fs as [|f fs IH]; intros n acc items Hr Hn Hw Hy; cbn [entries] in Hy.
  - apply yields_items_nil in Hy as [->|(e & rest & ->)]; cbn [read_frames]; [done|].
    by destruct (limit <=? len acc).
  - apply yields_items_cons in Hy as [(items' & -> & Hy)|(e & rest & ->)]; cbn [read_frames];
      destruct (limit <=? len acc); try done.
    inversion Hw as [|? ? Hf Hw']; subst. unfold len in Hn. cbn [length] in Hn.
    cbn [map_err fst snd mbind res_bind]. rewrite decode_encode_frame_key by (done || lia).
    cbn [fst mbind res_bind]. rewrite N.eqb_refl. cbn [negb]. rewrite decode_frame_wire by done.
    cbn [map_err]. apply (IH (S n)); [done|unfold len; lia|done..].
Qed.

Lemma drop_len_bound (fs : list Frame.t) from :
  from < 2 ^ 64 -> len fs <= 2 ^ 64 ->
  N.of_nat (N.to_nat from) + len (drop (N.to_nat from) fs) <= 2 ^ 64.
Proof. intros Hf Hl. unfold len in *. rewrite length_drop. lia. Qed.

(** Loading frames panics on the capacity and on nothing else. *)
Lemma load_frames_panic r from limit db :
  db_inv db -> r < 2 ^ 128 -> from < 2 ^ 64 ->
  snd (load_frames r from limit db) = Panic -> isize_MAX < limit * FRAME_MEM.
Proof.
  intros [[L HL] _] Hr Hfrom. unfold load_frames, io, mbind, M_bind.
  pose proof (begin_read_spec db) as H1. destruct (begin_read db) as [db1 [x|e|]]; [|done|by destruct H1].
  destruct H1 as [_ Hx]. cbn [map_err].
  pose proof (open_table_spec x FRAMES db1) as H2.
  destruct (open_table x FRAMES db1) as [db2 [[]|e|]]; [|done|by destruct H2]. cbn [map_err].
  match goal with |- context [range x FRAMES ?lo ?hi db2] =>
    pose proof (range_spec x FRAMES lo hi db2) as H3;
    destruct (range x FRAMES lo hi db2) as [db3 [items|e|]]; [|done|by destruct H3] end.
  destruct H3 as (_ & l & Hl & Hy). cbn [map_err]. rewrite Hx in Hl.
  apply (range_entries L) in Hl; [|done..]. subst l.
  destruct (N.ltb_spec isize_MAX (limit * FRAME_MEM)) as [Hp|Hp]; [done|]. cbn. intros Hbad. exfalso.
  destruct HL as [HL _]. destruct (HL r) as [Hw Hlen].
  revert Hbad. apply (read_frames_no_panic r limit (drop (N.to_nat from) (L r)) (N.to_nat from)); try done.
  - by apply drop_len_bound.
  - by apply Forall_drop.
Qed.

(** How an engine's call fails within [load_frames], with its message. *)
Inductive read_fails (r from : N) (db : Db) (msg : string) : Prop :=
  | fails_begin db1 : begin_read db = (db1, Err msg) -> read_fails r from db msg
  | fails_open db1 x db2 :
      begin_read db = (db1, Ok x) -> open_table x FRAMES db1 = (db2, Err msg) ->
      read_fails r from db msg
  | fails_range db1 x db2 db3 :
      begin_read db = (db1, Ok x) -> open_table x FRAMES db1 = (db2, Ok tt) ->
      range x FRAMES (encode_frame_key r from) (encode_frame_key r u64_MAX) db2 = (db3, Err msg) ->
      read_fails r from db msg
  | fails_item db1 x db2 db3 items :
      begin_read db = (db1, Ok x) -> open_table x FRAMES db1 = (db2, Ok tt) ->
      range x FRAMES (encode_frame_key r from) (encode_frame_key r u64_MAX) db2 = (db3, Ok items) ->
      Err msg ∈ items -> read_fails r from db msg.

Lemma read_frames_err r limit fs : forall n acc items e,
  r < 2 ^ 128 -> N.of_nat n + len fs <= 2 ^ 64 -> Forall Frame.wf fs ->
  yields_items (entries r n fs) items -> read_frames r limit acc items = Err e ->
  exists msg, e = StorageError.Io msg /\ Err msg ∈ items.
Proof.
  induction fs as [|f fs IH]; intros n acc items e Hr Hn Hw Hy; cbn [entries] in Hy.
  - apply yields_items_nil in Hy as [->|(msg & rest & ->)]; cbn [read_frames]; [done|].
    destruct (limit <=? len acc); [done|]. intros [= <-]. exists msg. split; [done|left].
  - apply yields_items_cons in Hy as [(items' & -> & Hy)|(msg & rest & ->)]; cbn [read_frames];
      destruct (limit <=? len acc); try done.
    2:{ intros [= <-]. exists msg. split; [done|left]. }
    inversion Hw as [|? ? Hf Hw']; subst. unfold len in Hn. cbn [length] in Hn.
    cbn [map_err fst snd mbind res_bind]. rewrite decode_encode_frame_key by (done || lia).
    cbn [fst mbind res_bind]. rewrite N.eqb_refl. cbn [negb]. rewrite decode_frame_wire by done.
    cbn [map_err]. intros He. apply (IH (S n)) in He as (msg & -> & Hin); [|done|unfold len; lia|done..].
    exists msg. split; [done|by right].
Qed.

(** Loading frames answers an error only when a call of the engine fails. *)
Lemma load_frames_err r from limit db e :
  db_inv db -> r < 2 ^ 128 -> from < 2 ^ 64 ->
  snd (load_frames r from limit db) = Err e ->
  exists msg, e = StorageError.Io msg /\ read_fails r from db msg.
Proof.
  intros [[L HL] _] Hr Hfrom. unfold load_frames, io, mbind, M_bind.
  pose proof (begin_read_spec db) as H1. destruct (begin_read db) as [db1 [x|e1|]] eqn:E1; [| |done].
  2:{ intros [= <-]. eexists. split; [done|]. by eapply fails_begin. }
  destruct H1 as [_ Hx]. cbn [map_err].
  destruct (open_table x FRAMES db1) as [db2 [[]|e2|]] eqn:E2; [| |done].
  2:{ intros [= <-]. eexists. split; [done|]. by eapply fails_open. }
  cbn [map_err].
  match goal with |- context [range x FRAMES ?lo ?hi db2] =>
    pose proof (range_spec x FRAMES lo hi db2) as H3;
    destruct (range x FRAMES lo hi db2) as [db3 [items|e3|]] eqn:E3 end; [| |done].
  2:{ intros [= <-]. eexists. split; [done|]. by eapply fails_range. }
  destruct H3 as (_ & l & Hl & Hy). cbn [map_err]. rewrite Hx in Hl.
  apply (range_entries L) in Hl; [|done..]. subst l.
  destruct (N.ltb_spec isize_MAX (limit * FRAME_MEM)) as [Hp|Hp]; [done|]. cbn. intros He.
  pose proof (proj1 HL r) as [Hw Hlen].
  apply (read_frames_err r limit (drop (N.to_nat from) (L r)) (N.to_nat from)) in He as (msg & -> & Hin);
    try done.
  - exists msg. split; [done|]. by eapply fails_item.
  - by apply drop_len_bound.
  - by apply Forall_drop.
Qed.

(** ** Properties *)

(** C11: the durable storage loses and invents nothing.  Over any sequence of
    storage calls, on a database whose tables are well formed and with ids and
    indices of their widths, whichever of the engine's calls fail on the way, and
    where a commit that fails has kept nothing: loading frames of a room
    afterwards answers with the requested part of the log, which is the old log
    followed by exactly the frames of the [store_frame] calls that succeeded, in
    order; it answers an error only when one of the engine's calls within it
    fails, with that call's message; and it panics only when the requested number
    of frames overflows the capacity of a [Vec]. *)
Theorem redb_reads_back db ops r from limit :
  db_inv db -> Forall Storage.op_typed ops -> r < 2 ^ 128 -> from < 2 ^ 64 ->
  let db' := run exec db ops in
  match snd (load_frames r from limit db') with
  | Ok fs => fs = take (N.to_nat limit) (drop (N.to_nat from) (rv_log (db_view db r) ++ accepted r db ops))
  | Err e => exists msg, e = StorageError.Io msg /\ read_fails r from db' msg
  | Panic => isize_MAX < limit * FRAME_MEM
  end.
Proof using atomic.
  intros Hi Ho Hr Hf db'. assert (Hi0 : Storage.storage_inv db) by exact Hi.
  destruct (run_accepted ops db r Hi0 Ho) as [Hi' Hlog].
  pose proof (load_frames_contract r from limit db' Hi' Hr Hf) as Hl. unfold reads in Hl.
  pose proof (load_frames_panic r from limit db' Hi' Hr Hf) as Hp.
  pose proof (fun e => load_frames_err r from limit db' e Hi' Hr Hf) as He.
  destruct (load_frames r from limit db') as [db2 [fs|e|]]; cbn [snd] in *; [|auto..].
  destruct Hl as (_ & _ & Hfs). rewrite (Hfs fs eq_refl). fold db' in Hlog.
  change (db_view db' r) with (Storage.view db' r). by rewrite Hlog.
Qed.

End contract.
(** ** A concrete engine

    Maps in memory, and a list that says which of the next calls fail. *)

Record MapDb := mkMapDb { md_tables : table -> gmap bytes bytes; md_faults : list bool }.

Definition faulty {A} (a : MapDb -> A) (m : MapDb -> MapDb) : M MapDb string A := fun db =>
  match md_faults db with
  | true :: fs => (mkMapDb (md_tables db) fs, Err "fault"%string)
  | _ :: fs => (mkMapDb (md_tables (m db)) fs, Ok (a db))
  | [] => (m db, Ok (a db))
  end.

Definition key_le (p q : bytes * bytes) : Prop := lex_le p.1 q.1 = true.

#[global] Instance key_le_dec p q : Decision (key_le p q).
Proof. unfold key_le. apply _. Defined.

Lemma lex_le_total a b : lex_le a b = true \/ lex_le b a = true.
Proof.
  revert b. induction a as [|x a IH]; intros [|y b]; cbn [lex_le]; auto.
  destruct (N.lt_trichotomy (Byte.to_N x) (Byte.to_N y)) as [H|[H|H]].
  - left. by rewrite (proj2 (N.ltb_lt _ _) H).
  - rewrite H, N.ltb_irrefl, N.eqb_refl. apply IH.
  - right. by rewrite (proj2 (N.ltb_lt _ _) H).
Qed.

Lemma lex_le_trans a b c : lex_le a b = true -> lex_le b c = true -> lex_le a c = true.
Proof.
  revert b c. induction a as [|x a IH]; intros [|y b] [|z c]; cbn [lex_le]; try done.
  rewrite !orb_true_iff, !andb_true_iff, !N.ltb_lt, !N.eqb_eq.
  intros [H1|[H1 H2]] [H3|[H3 H4]]; [left; lia|left; lia|left; lia|right]. split; [lia|eauto].
Qed.

Definition sorted_entries (m : gmap bytes bytes) (inside : bytes -> bool) : list (bytes * bytes) :=
  filter (fun p => inside p.1 = true) (merge_sort key_le (map_to_list m)).

Lemma StronglySorted_filter {A} (R : A -> A -> Prop) (P : A -> Prop) `{!forall x, Decision (P x)} l :
  StronglySorted R l -> StronglySorted R (filter P l).
Proof.
  induction 1 as [|x l Hs IH Hf]; [constructor|]. rewrite filter_cons. case_decide; [|done].
  constructor; [done|]. rewrite Forall_forall in Hf |- *.
  intros y [_ Hy]%list_elem_of_filter. by apply Hf.
Qed.

Lemma sorted_entries_range m inside (P : bytes -> Prop) :
  (forall k, inside k = true <-> P k) -> sorted_range m P (sorted_entries m inside).
Proof.
  intros HP. assert (Hin : forall k v, (k, v) ∈ merge_sort key_le (map_to_list m) <-> m !! k = Some v).
  { intros k v. rewrite merge_sort_Permutation. apply elem_of_map_to_list. }
  split.
  - apply StronglySorted_filter.
    assert (Hs : StronglySorted key_le (merge_sort key_le (map_to_list m))).
    { apply StronglySorted_merge_sort.
      - intros p q r. apply lex_le_trans.
      - intros p q. apply lex_le_total. }
    assert (Hnd : NoDup (merge_sort key_le (map_to_list m))).
    { rewrite merge_sort_Permutation. apply NoDup_map_to_list. }
    revert Hin Hs Hnd. generalize (merge_sort key_le (map_to_list m)). intros l Hin Hs Hnd.
    assert (Hfun : forall p q, p ∈ l -> q ∈ l -> p.1 = q.1 -> p = q).
    { intros [k v] [k' v'] Hp%Hin Hq%Hin E. cbn in E. subst. congruence. }
    clear Hin. induction Hs as [|p l Hs IH Hf]; [constructor|].
    apply NoDup_cons in Hnd as [Hnin Hnd]. constructor.
    { apply IH; [done|]. intros q q' Hq Hq'. apply Hfun; by right. }
    rewrite Forall_forall in Hf |- *. intros q Hq. split; [by apply Hf|].
    intros E. apply Hnin. rewrite (Hfun p q); [done|left|by right|done].
  - intros k v. unfold sorted_entries. rewrite list_elem_of_filter, Hin, HP. cbn. tauto.
Qed.

#[global] Program Instance map_engine : RedbEngine MapDb (table -> gmap bytes bytes) := {|
  begin_write := faulty md_tables id;
  begin_read := faulty md_tables id;
  open_table x t := faulty (fun _ => tt) id;
  get_key x t k := faulty (fun _ => x t !! k) id;
  insert_key x t k v :=
    faulty (fun _ t' => if decide (t' = t) then <[k := v]> (x t) else x t') id;
  range x t lo hi := faulty (fun _ =>
    map Ok (sorted_entries (x t) (fun k => lex_le lo k && lex_le k hi))) id;
  iter x t := faulty (fun _ => map Ok (sorted_entries (x t) (fun _ => true))) id;
  commit x := faulty (fun _ => tt) (fun db => mkMapDb x (md_faults db));
  committed := md_tables;
  seen x := x;
|}.
Next Obligation. intros db. unfold faulty. by destruct (md_faults db) as [|[] fs]. Qed.
Next Obligation. intros db. unfold faulty. by destruct (md_faults db) as [|[] fs]. Qed.
Next Obligation. intros x t db. unfold faulty. by destruct (md_faults db) as [|[] fs]. Qed.
Next Obligation. intros x t k db. unfold faulty. by destruct (md_faults db) as [|[] fs]. Qed.
Next Obligation.
  intros x t k v db. unfold faulty.
  destruct (md_faults db) as [|[] fs]; (split; [done|]); try done;
    (split; [by rewrite decide_True|intros t' Ht; by rewrite decide_False]).
Qed.
Next Obligation.
  intros x t lo hi db. unfold faulty.
  destruct (md_faults db) as [|[] fs]; (split; [done|]); try done;
    (eexists; split; [apply sorted_entries_range|by left]); intros k; apply andb_true_iff.
Qed.
Next Obligation.
  intros x t db. unfold faulty.
  destruct (md_faults db) as [|[] fs]; (split; [done|]); try done;
    (eexists; split; [by apply sorted_entries_range|by left]).
Qed.
Next Obligation. intros x db. unfold faulty. destruct (md_faults db) as [|[] fs]; by auto. Qed.

#[global] Instance map_engine_atomic : AtomicCommit MapDb (table -> gmap bytes bytes).
Proof.
  intros x db db' e. cbn. unfold faulty. destruct (md_faults db) as [|[] fs]; by intros [= <-].
Qed.

(** ** Witnesses *)

Definition sample_mls_codec : CborCodec MlsGroupState.t := table_codec [].
Definition sample_meta_codec : CborCodec StoredRoomMetadata :=
  table_codec [mkStoredRoomMetadata 1 0].
#[local] Existing Instance sample_mls_codec.
#[local] Existing Instance sample_meta_codec.

(** An empty database, where the commit of the second [store_frame] fails. *)
Definition sample_db : MapDb :=
  mkMapDb (fun _ => ∅) (replicate 5 false ++ replicate 4 false ++ [true]).

Lemma sample_db_inv : db_inv sample_db.
Proof.
  split.
  - exists (fun _ => []). split; [intros r; split; [constructor|vm_compute; discriminate]|].
    intros k v. cbn. rewrite lookup_empty. split; [done|]. by intros (r & i & f & _ & _ & ? & _).
  - intros k v. cbn. by rewrite lookup_empty.
Qed.

Lemma redb_reads_back_witness :
  snd (load_frames 5 0 10 (run exec sample_db
        [SStoreFrame 5 0 Frame.sample; SStoreFrame 5 1 Frame.sample])) = Ok [Frame.sample].
Proof.
  assert (Ho : Forall Storage.op_typed [SStoreFrame 5 0 Frame.sample; SStoreFrame 5 1 Frame.sample]).
  { repeat constructor; vm_compute; try done; repeat split; discriminate. }
  pose proof (redb_reads_back sample_db _ 5 0 10 sample_db_inv Ho ltac:(vm_compute; reflexivity)
    ltac:(vm_compute; reflexivity)) as H. cbv zeta in H.
  assert (Hok : is_ok (snd (load_frames 5 0 10 (run exec sample_db
        [SStoreFrame 5 0 Frame.sample; SStoreFrame 5 1 Frame.sample]))) = true)
    by (vm_compute; reflexivity).
  destruct (snd (load_frames 5 0 10 _)) as [fs| |]; [|discriminate Hok..].
  rewrite H. vm_compute. reflexivity.
Defined.

End RedbContract.
