(* ===== verification/Sequencer.v ===== *)
(** * The sequencer

    [Sequencer] of [lockframe-server/src/sequencer.rs]: it checks the structure
    of a frame and assigns it the next log index of its room, from a cache that
    is filled from storage.  The theorems are proved against the [Storage]
    interface. *)

From S2P Require Import Prelude Env Opcodes Header Framing Validator Storage.

Local Open Scope N_scope.

Module SequencerError.

Inductive t : Type :=
  | Storage (msg : string)
  | Validation (msg : string)
  | Rejected (msg : string).

#[global] Instance sequencer_error_eq_dec : EqDecision t.
Proof. solve_decision. Defined.

Definition display (e : t) : string :=
  match e with
  | Storage msg => "storage error: " +:+ msg
  | Validation msg => "validation error: " +:+ msg
  | Rejected msg => "frame rejected: " +:+ msg
  end.

(** [From<StorageError>]. *)
Definition from_storage (e : StorageError.t) : t := Storage (StorageError.display e).

End SequencerError.

Inductive SequencerAction :=
  | AcceptFrame (room_id log_index : N) (frame : Frame.t)
  | RejectFrame (room_id : N) (reason : string) (original_frame : Frame.t)
  | StoreFrame (room_id log_index : N) (frame : Frame.t)
  | BroadcastToRoom (room_id : N) (frame : Frame.t).

#[global] Instance sequencer_action_eq_dec : EqDecision SequencerAction.
Proof. solve_decision. Defined.

Definition validate_frame_structure (frame : Frame.t) : res SequencerError.t unit :=
  let h := Frame.header frame in
  if negb (FrameHeader.magic h =? FrameHeader.MAGIC) then
    Err (SequencerError.Validation
           ("invalid magic: got 0x" +:+ fmt_hex 8 (FrameHeader.magic h)
              +:+ ", expected 0x" +:+ fmt_hex 8 FrameHeader.MAGIC))
  else if negb (bool_decide (FrameHeader.version h = FrameHeader.VERSION)) then
    Err (SequencerError.Validation
           ("unsupported version: got " +:+ pretty (Byte.to_N (FrameHeader.version h))
              +:+ ", expected " +:+ pretty (Byte.to_N FrameHeader.VERSION)))
  else if negb (len (Frame.payload frame) =? FrameHeader.payload_size h) then
    Err (SequencerError.Validation
           ("payload size mismatch: header claims " +:+ pretty (FrameHeader.payload_size h)
              +:+ ", actual " +:+ pretty (len (Frame.payload frame))))
  else if FrameHeader.room_id h =? 0 then
    Err (SequencerError.Validation "room_id is zero (uninitialized?)")
  else if MAX_EPOCH <? FrameHeader.epoch h then
    Err (SequencerError.Validation
           ("epoch " +:+ pretty (FrameHeader.epoch h) +:+ " exceeds MAX_EPOCH "
              +:+ pretty MAX_EPOCH))
  else Ok tt.

Definition rebuild_frame_with_index {E} (original : Frame.t) (log_index : N) : res E Frame.t :=
  let new_header := FrameHeader.set_log_index log_index (Frame.header original) in
  Frame.new new_header (Frame.payload original).

Module Sequencer.

(** [rooms]: the next log index of each cached room ([RoomSequencer]). *)
Record t := mk { rooms : gmap N N }.

Definition new : t := mk ∅.

Section sequencer.
Context `{Storage St}.

Abbreviation seqM A := (M (t * St) SequencerError.t A).

(** A storage call whose error is converted by [?]. *)
Definition storage_call {A} (m : storeM St A) : seqM A := fun '(s, st) =>
  let '(st', r) := m st in ((s, st'), map_err SequencerError.from_storage r).

Definition set_next (room_id next : N) : seqM unit := fun '(s, st) =>
  ((mk (<[room_id := next]> (rooms s)), st), Ok tt).

(** [latest_index.map_or(0, |i| i + 1)]. *)
Definition next_after (latest_index : option N) : res SequencerError.t N :=
  match latest_index with
  | None => Ok 0
  | Some i => add_panic u64_MAX i 1
  end.

Definition log_index_overflow (room_id : N) : SequencerError.t :=
  SequencerError.Validation
    ("log_index overflow for room " +:+ pretty room_id
       +:+ ": attempted to increment beyond u64::MAX").

Definition process_frame (frame : Frame.t) : seqM (list SequencerAction) :=
  lift (validate_frame_structure frame);;
  let room_id := FrameHeader.room_id (Frame.header frame) in
  if bool_decide (FrameHeader.opcode_enum (Frame.header frame) = Some Opcode.Welcome) then
    mret [BroadcastToRoom room_id frame]
  else
    s ← get;
    log_index ←
      (match rooms (fst s) !! room_id with
       | Some next => mret next
       | None =>
           latest_index ← storage_call (latest_log_index room_id);
           next_log_index ← lift (next_after latest_index);
           set_next room_id next_log_index;;
           mret next_log_index
       end);
    next ← lift (ok_or (checked_add u64_MAX log_index 1)
      (log_index_overflow room_id));
    set_next room_id next;;
    sequenced ← lift (rebuild_frame_with_index frame log_index);
    mret [AcceptFrame room_id log_index sequenced;
          StoreFrame room_id log_index sequenced;
          BroadcastToRoom room_id sequenced].

Definition clear_room (room_id : N) (s : t) : t * bool :=
  (mk (delete room_id (rooms s)), bool_decide (is_Some (rooms s !! room_id))).

Definition initialize_room (room_id : N) : seqM unit :=
  s ← get;
  match rooms (fst s) !! room_id with
  | Some _ => mret tt
  | None =>
      latest_index ← storage_call (latest_log_index room_id);
      next_log_index ← lift (next_after latest_index);
      set_next room_id next_log_index
  end.

End sequencer.

(** The frame the sequencer sends on: the same frame at its log index. *)
Definition at_index (i : N) (frame : Frame.t) : Frame.t :=
  Frame.mk (FrameHeader.set_log_index i (Frame.header frame)) (Frame.payload frame).

(** What [validate_frame_structure] requires of a well-formed frame. *)
Definition sequenceable (frame : Frame.t) : Prop :=
  FrameHeader.room_id (Frame.header frame) <> 0 /\
  FrameHeader.epoch (Frame.header frame) <= MAX_EPOCH.

#[global] Instance sequenceable_dec f : Decision (sequenceable f) := _.

(** ** Lemmas *)

Lemma validate_frame_structure_Ok frame :
  validate_frame_structure frame = Ok tt <->
  FrameHeader.magic (Frame.header frame) = FrameHeader.MAGIC /\
  FrameHeader.version (Frame.header frame) = FrameHeader.VERSION /\
  FrameHeader.payload_size (Frame.header frame) = len (Frame.payload frame) /\
  sequenceable frame.
Proof.
  unfold validate_frame_structure, sequenceable.
  destruct (N.eqb_spec (FrameHeader.magic (Frame.header frame)) FrameHeader.MAGIC); simpl negb;
    cbv iota; [|naive_solver].
  case_bool_decide; simpl negb; cbv iota; [|naive_solver].
  destruct (N.eqb_spec (len (Frame.payload frame)) (FrameHeader.payload_size (Frame.header frame)));
    simpl negb; cbv iota; [|naive_solver].
  destruct (N.eqb_spec (FrameHeader.room_id (Frame.header frame)) 0); [naive_solver|].
  destruct (N.ltb_spec MAX_EPOCH (FrameHeader.epoch (Frame.header frame)));
    [split; [done|]; intros; destruct_and!; lia|]. naive_solver.
Qed.

Lemma validate_frame_structure_wf frame :
  Frame.wf frame -> validate_frame_structure frame = Ok tt <-> sequenceable frame.
Proof.
  intros (_ & (?&?&_) & ?). rewrite validate_frame_structure_Ok. naive_solver.
Qed.

Lemma validate_frame_structure_no_panic frame : validate_frame_structure frame <> Panic.
Proof. unfold validate_frame_structure. by repeat case_match. Qed.

(** Setting the payload size to what it is changes nothing. *)
Lemma set_payload_size_same h :
  FrameHeader.wf h -> FrameHeader.set_payload_size (FrameHeader.payload_size h) h = h.
Proof.
  intros (_&_&_&Hp&_). destruct h. unfold FrameHeader.set_payload_size,
    FrameHeader.payload_size in *. cbn -[to_be_bytes] in *. by rewrite to_from_be_bytes_n.
Qed.

Lemma rebuild_frame_with_index_wf {E} frame i :
  Frame.wf frame -> rebuild_frame_with_index (E := E) frame i = Ok (at_index i frame).
Proof.
  intros (Hw & Hv & Hp). unfold rebuild_frame_with_index.
  pose proof (FrameHeader.payload_size_lt _ Hw) as Hlt.
  rewrite Frame.new_Ok by (rewrite <- Hp; done). rewrite <- Hp.
  unfold at_index. do 2 f_equal.
  apply (set_payload_size_same (FrameHeader.set_log_index i (Frame.header frame))).
  auto with lockframe.
Qed.

Lemma at_index_wf i frame : Frame.wf frame -> Frame.wf (at_index i frame).
Proof.
  intros (Hw & Hv & Hp). unfold Frame.wf. simpl. split_and!; [auto with lockframe|done..].
Qed.

Lemma log_index_at_index i frame :
  i < 2 ^ 64 -> FrameHeader.log_index (Frame.header (at_index i frame)) = i.
Proof. apply FrameHeader.log_index_set. Qed.

Lemma next_after_last_index log :
  len log < 2 ^ 64 -> next_after (last_index log) = Ok (len log).
Proof.
  intros Hl. destruct log as [|f log]; [done|]. unfold next_after, last_index, add_panic.
  assert (1 <= len (f :: log)) by (unfold len; simpl; lia).
  rewrite (proj2 (checked_add_Some u64_MAX (len (f :: log) - 1) 1 (len (f :: log)))); [done|].
  unfold u64_MAX. lia.
Qed.

(** Every outcome of [process_frame] on a well-formed frame. *)
Section outcomes.
Context `{StorageSpec St}.

(** The index the sequencer holds, or reads from storage, for a room. *)
Definition next_index (s : t) (st : St) (r i : N) : Prop :=
  rooms s !! r = Some i \/
  rooms s !! r = None /\ next_after (last_index (rv_log (view st r))) = Ok i.

Inductive outcome (s : t) (st : St) (frame : Frame.t)
    : t -> res SequencerError.t (list SequencerAction) -> Prop :=
  | OutInvalid e :
      validate_frame_structure frame = Err e -> ~ sequenceable frame -> outcome s st frame s (Err e)
  | OutWelcome :
      sequenceable frame ->
      FrameHeader.opcode_enum (Frame.header frame) = Some Opcode.Welcome ->
      outcome s st frame s
        (Ok [BroadcastToRoom (FrameHeader.room_id (Frame.header frame)) frame])
  | OutStorage res :
      sequenceable frame ->
      FrameHeader.opcode_enum (Frame.header frame) <> Some Opcode.Welcome ->
      rooms s !! FrameHeader.room_id (Frame.header frame) = None ->
      (is_ok (snd (latest_log_index (FrameHeader.room_id (Frame.header frame)) st)) = true ->
       u64_MAX < len (rv_log (view st (FrameHeader.room_id (Frame.header frame))))) ->
      is_ok res = false -> outcome s st frame s res
  | OutOverflow :
      sequenceable frame ->
      FrameHeader.opcode_enum (Frame.header frame) <> Some Opcode.Welcome ->
      next_index s st (FrameHeader.room_id (Frame.header frame)) u64_MAX ->
      outcome s st frame
        (mk (<[FrameHeader.room_id (Frame.header frame) := u64_MAX]> (rooms s)))
        (Err (log_index_overflow (FrameHeader.room_id (Frame.header frame))))
  | OutSequenced i :
      sequenceable frame ->
      FrameHeader.opcode_enum (Frame.header frame) <> Some Opcode.Welcome ->
      next_index s st (FrameHeader.room_id (Frame.header frame)) i -> i < u64_MAX ->
      outcome s st frame
        (mk (<[FrameHeader.room_id (Frame.header frame) := i + 1]> (rooms s)))
        (Ok [AcceptFrame (FrameHeader.room_id (Frame.header frame)) i (at_index i frame);
             StoreFrame (FrameHeader.room_id (Frame.header frame)) i (at_index i frame);
             BroadcastToRoom (FrameHeader.room_id (Frame.header frame)) (at_index i frame)]).

(** The last part of [process_frame]: the index is known. *)
Lemma process_frame_tail (s : t) (st : St) (r i : N) frame e :
  Frame.wf frame -> i <= u64_MAX ->
  (next ← lift (ok_or (checked_add u64_MAX i 1) e);
   set_next r next;;
   sequenced ← lift (rebuild_frame_with_index frame i);
   mret [AcceptFrame r i sequenced; StoreFrame r i sequenced; BroadcastToRoom r sequenced])
    (s, st)
  = if i =? u64_MAX then ((s, st), Err e)
    else ((mk (<[r := i + 1]> (rooms s)), st),
          Ok [AcceptFrame r i (at_index i frame); StoreFrame r i (at_index i frame);
              BroadcastToRoom r (at_index i frame)]).
Proof.
  intros Hw Hi. unfold_M. destruct (N.eqb_spec i u64_MAX) as [->|Hne].
  - rewrite (proj2 (checked_add_None u64_MAX u64_MAX 1)); [done|]. unfold u64_MAX. lia.
  - rewrite (proj2 (checked_add_Some u64_MAX i 1 (i + 1))) by lia. simpl.
    by rewrite rebuild_frame_with_index_wf.
Qed.

Lemma next_after_le o i : next_after o = Ok i -> i <= u64_MAX.
Proof.
  unfold next_after, add_panic. destruct o as [j|]; [|intros [= <-]; unfold u64_MAX; lia].
  destruct (checked_add u64_MAX j 1) as [k|] eqn:Ha; [|done]. intros [= <-].
  by apply checked_add_Some in Ha as [-> ?].
Qed.

Lemma next_after_stuck log :
  is_ok (next_after (last_index log)) = false -> u64_MAX < len log.
Proof.
  destruct log as [|f log]; [done|]. unfold next_after, last_index, add_panic.
  destruct (checked_add _ _ _) as [k|] eqn:Ha; [done|]. intros _.
  apply checked_add_None in Ha. assert (1 <= len (f :: log)) by (unfold len; simpl; lia). lia.
Qed.

Lemma process_frame_outcome s st frame :
  storage_inv st -> Frame.wf frame ->
  (forall n, rooms s !! FrameHeader.room_id (Frame.header frame) = Some n -> n <= u64_MAX) ->
  let '((s', st'), res) := process_frame frame (s, st) in
  storage_inv st' /\ unchanged view st st' /\ outcome s st frame s' res.
Proof.
  intros Hi Hw Hb. unfold process_frame. unfold mbind at 1, M_bind at 1, lift at 1.
  pose proof (validate_frame_structure_wf frame Hw) as Hv.
  destruct (validate_frame_structure frame) as [[]|e|] eqn:Hvf.
  2:{ split_and!; try done. apply OutInvalid; [done|]. intros Hs%Hv. done. }
  2:{ by apply validate_frame_structure_no_panic in Hvf. }
  destruct Hv as [Hseq _]. specialize (Hseq eq_refl). cbv zeta.
  set (r := FrameHeader.room_id (Frame.header frame)) in *. case_bool_decide as Hop.
  { unfold mret, M_ret. split_and!; try done. by apply OutWelcome. }
  unfold mbind at 1, M_bind at 1, get at 1. simpl fst.
  unfold mbind at 1, M_bind at 1.
  destruct (rooms s !! r) as [n|] eqn:Hr.
  - unfold mret at 1, M_ret at 1. rewrite process_frame_tail by auto.
    destruct (N.eqb_spec n u64_MAX) as [->|Hne]; (split_and!; [done..|]).
    + replace s with (mk (<[r := u64_MAX]> (rooms s))) at 2.
      { apply OutOverflow; [done..|]. by left. }
      destruct s. simpl in *. f_equal. by apply insert_id.
    + apply OutSequenced; [done..| |]; [by left|]. specialize (Hb n eq_refl). lia.
  - assert (Hr128 : r < 2 ^ 128).
    { destruct Hw as (Hw & _). by apply FrameHeader.room_id_lt. }
    pose proof (latest_log_index_spec r st Hi Hr128) as Hl. unfold reads in Hl.
    unfold mbind at 1, M_bind at 1, storage_call.
    destruct (latest_log_index r st) as [st' [o|e|]] eqn:Hlatest;
      destruct Hl as (Hi' & Hu & Hpost); simpl map_err.
    2-3: split_and!; [done..|]; apply OutStorage; try done; fold r; by rewrite Hlatest.
    specialize (Hpost o eq_refl) as ->. unfold mbind at 1, M_bind at 1, lift at 1.
    destruct (next_after (last_index (rv_log (view st r)))) as [i|e|] eqn:Hn.
    2-3: split_and!; [done..|]; apply OutStorage; try done; intros _; apply next_after_stuck;
      fold r; by rewrite Hn.
    unfold mbind at 1, M_bind at 1, set_next at 1, mret at 1, M_ret at 1.
    pose proof (next_after_le _ _ Hn). rewrite process_frame_tail by done. simpl rooms.
    destruct (N.eqb_spec i u64_MAX) as [->|Hne]; (split_and!; [done..|]).
    + apply OutOverflow; [done..|]. by right.
    + rewrite insert_insert_eq. apply OutSequenced; [done..| |]; [by right|lia].
Qed.

(** The next index of a room, from the cache or else from the log. *)
Definition start (s : t) (st : St) (r : N) : N :=
  match rooms s !! r with Some n => n | None => len (rv_log (view st r)) end.

(** The cached indices are [u64]s. *)
Definition bounded (s : t) : Prop := map_Forall (fun _ n => n <= u64_MAX) (rooms s).

Lemma next_after_len log i : next_after (last_index log) = Ok i -> i = len log.
Proof.
  destruct log as [|f log]; [by intros [= <-]|]. unfold next_after, last_index, add_panic.
  destruct (checked_add _ _ _) as [k|] eqn:Ha; [|done]. intros [= <-].
  apply checked_add_Some in Ha as [-> _].
  assert (1 <= len (f :: log)) by (unfold len; simpl; lia). lia.
Qed.

Lemma next_index_start s st r i : next_index s st r i -> start s st r = i.
Proof.
  unfold start. intros [->|[-> Hn]]; [done|]. symmetry. by apply next_after_len.
Qed.

Lemma start_insert s st st' r n r' :
  unchanged view st st' ->
  start (mk (<[r := n]> (rooms s))) st' r' = if decide (r' = r) then n else start s st r'.
Proof.
  intros Hu. unfold start. simpl. rewrite Hu. case_decide as Hr.
  - subst. by rewrite lookup_insert_eq.
  - by rewrite lookup_insert_ne.
Qed.

Lemma bounded_insert s r n : bounded s -> n <= u64_MAX -> bounded (mk (<[r := n]> (rooms s))).
Proof. intros Hb Hn. by apply map_Forall_insert_2. Qed.

(** The indices an answer of the sequencer assigns in room [r]. *)
Definition assigned (r : N) (res : res SequencerError.t (list SequencerAction)) : list N :=
  match res with
  | Ok actions =>
      omap (fun a => match a with
                     | AcceptFrame r' i _ => if decide (r' = r) then Some i else None
                     | _ => None
                     end) actions
  | _ => []
  end.

(** The sequencer on a list of frames, one after another. *)
Fixpoint process_all (frames : list Frame.t) (σ : t * St)
    : (t * St) * list (res SequencerError.t (list SequencerAction)) :=
  match frames with
  | [] => (σ, [])
  | f :: frames' =>
      let '(σ1, r) := process_frame f σ in
      let '(σ2, rs) := process_all frames' σ1 in (σ2, r :: rs)
  end.

Lemma outcome_assigned s st st' frame s' res r :
  outcome s st frame s' res -> bounded s -> unchanged view st st' ->
  bounded s' /\
  (assigned r res = [] /\ start s' st' r = start s st r \/
   assigned r res = [start s st r] /\ start s' st' r = start s st r + 1).
Proof.
  intros Ho Hb Hu. assert (Hs : start s st' r = start s st r) by (unfold start; by rewrite Hu).
  destruct Ho as [|? |res' ? ? ? ? Hr|? ? Hn|i ? ? Hn Hlt]; simpl; auto.
  - split; [done|]. left. by destruct res'.
  - split; [apply bounded_insert; [done|unfold u64_MAX; lia]|]. left. split; [done|].
    rewrite (start_insert s st st') by done. case_decide as Heq; [subst|done].
    by rewrite (next_index_start _ _ _ _ Hn).
  - split; [apply bounded_insert; [done|lia]|]. rewrite (start_insert s st st') by done.
    destruct (decide (FrameHeader.room_id (Frame.header frame) = r)) as [<-|Hne].
    + right. rewrite decide_True by done. by rewrite (next_index_start _ _ _ _ Hn).
    + left. by rewrite decide_False.
Qed.

Lemma outcome_answer s1 st1 s1' s2 st2 s2' frame res1 res2 :
  let r := FrameHeader.room_id (Frame.header frame) in
  outcome s1 st1 frame s1' res1 -> outcome s2 st2 frame s2' res2 ->
  is_ok (snd (latest_log_index r st1)) = true ->
  is_ok (snd (latest_log_index r st2)) = true ->
  len (rv_log (view st1 r)) <= u64_MAX -> len (rv_log (view st2 r)) <= u64_MAX ->
  start s1 st1 r = start s2 st2 r -> res1 = res2.
Proof.
  intros r H1 H2 Hk1 Hk2 Hl1 Hl2 Hst.
  destruct H1 as [e1 ? ?|? ?|res1 ? ? ? Hs1 ?|? ? Hn1|i1 ? ? Hn1 ?];
    try (specialize (Hs1 Hk1); fold r in Hs1; lia); try (fold r in Hn1; apply next_index_start in Hn1);
    destruct H2 as [e2 ? ?|? ?|res2 ? ? ? Hs2 ?|? ? Hn2|i2 ? ? Hn2 ?];
    try (specialize (Hs2 Hk2); fold r in Hs2; lia); try (fold r in Hn2; apply next_index_start in Hn2);
    try done; try congruence; exfalso; lia.
Qed.

Lemma initialize_room_start s st r' :
  storage_inv st -> r' < 2 ^ 128 ->
  let '((s', st'), res) := initialize_room r' (s, st) in
  storage_inv st' /\ unchanged view st st' /\
  (bounded s -> bounded s') /\ (forall r, start s' st' r = start s st r) /\
  (is_ok (snd (latest_log_index r' st)) = true -> len (rv_log (view st r')) <= u64_MAX ->
   res = Ok tt).
Proof.
  intros Hi Hr. unfold initialize_room. unfold mbind at 1, M_bind at 1, get at 1.
  cbv beta iota. cbn [fst].
  destruct (rooms s !! r') as [n|] eqn:Hn; [cbn; split_and!; done|].
  pose proof (latest_log_index_spec r' st Hi Hr) as Hl. unfold reads in Hl.
  unfold mbind at 1, M_bind at 1, storage_call.
  destruct (latest_log_index r' st) as [st' [o|e|]] eqn:Hlatest;
    destruct Hl as (Hi' & Hu & Hpost); simpl map_err;
    [|by split_and!; try done; intros; unfold start; rewrite Hu..].
  specialize (Hpost o eq_refl) as ->. unfold mbind at 1, M_bind at 1, lift at 1.
  destruct (next_after (last_index (rv_log (view st r')))) as [i|e|] eqn:Hna.
  - unfold set_next. split_and!; try done.
    + intros Hb. apply bounded_insert; [done|]. by eapply next_after_le.
    + intros r. rewrite (start_insert s st st') by done. case_decide as E; [subst r|done].
      unfold start. rewrite Hn. by apply next_after_len in Hna.
  - split_and!; try done; [by intros; unfold start; rewrite Hu|]. intros _ Hle.
    pose proof (next_after_stuck (rv_log (view st r'))) as Hs. rewrite Hna in Hs.
    specialize (Hs eq_refl). lia.
  - split_and!; try done; [by intros; unfold start; rewrite Hu|]. intros _ Hle.
    pose proof (next_after_stuck (rv_log (view st r'))) as Hs. rewrite Hna in Hs.
    specialize (Hs eq_refl). lia.
Qed.

(** ** Properties *)

(** C24: the sequencer assigns consecutive indices: over any list of
    well-formed frames for any rooms, whatever fails on the way, the indices
    given out in a room are exactly [n], [n+1], [n+2], ..., without gap or
    repetition, where [n] is the cached next index or, without one, the length
    of the stored log. *)
Theorem assigned_indices_consecutive s st frames r :
  storage_inv st -> bounded s -> Forall Frame.wf frames ->
  let '((s', st'), rs) := process_all frames (s, st) in
  exists k, concat (map (assigned r) rs)
            = (fun j => start s st r + N.of_nat j) <$> seq 0 k /\
    start s' st' r = start s st r + N.of_nat k.
Proof.
  intros Hi Hb Hf. revert s st Hi Hb.
  induction Hf as [|f frames Hw Hfs IH]; intros s st Hi Hb; cbn [process_all].
  { exists 0%nat. simpl. by rewrite N.add_0_r. }
  pose proof (process_frame_outcome s st f Hi Hw (fun n => Hb _ n)) as Ho.
  destruct (process_frame f (s, st)) as [[s1 st1] res1]. destruct Ho as (Hi1 & Hu & Ho).
  destruct (outcome_assigned s st st1 f s1 res1 r Ho Hb Hu) as [Hb1 Has].
  specialize (IH s1 st1 Hi1 Hb1). destruct (process_all frames (s1, st1)) as [[s2 st2] rs].
  destruct IH as (k & Hk & Hend). cbn [map concat]. rewrite Hk, Hend.
  destruct Has as [[-> ->]|[-> ->]].
  - exists k. done.
  - exists (S k). simpl. rewrite N.add_0_r. split; [|lia]. f_equal.
    rewrite <- fmap_S_seq, <- list_fmap_compose. apply list_fmap_ext. intros i x _.
    simpl. lia.
Qed.

(** Progress: on a storage whose reads succeed, a well-formed frame with
    a room id and an admissible epoch that is not a Welcome is always sequenced
    (no error, no panic) as long as the room's log has room for one more index;
    the three actions carry the frame unchanged but for its log index. *)
Theorem process_frame_progress `{!StorageTotal St} s st frame :
  storage_inv st -> bounded s -> Frame.wf frame -> sequenceable frame ->
  FrameHeader.opcode_enum (Frame.header frame) <> Some Opcode.Welcome ->
  let r := FrameHeader.room_id (Frame.header frame) in
  let i := start s st r in
  i < u64_MAX ->
  let '((s', st'), res) := process_frame frame (s, st) in
  res = Ok [AcceptFrame r i (at_index i frame); StoreFrame r i (at_index i frame);
            BroadcastToRoom r (at_index i frame)] /\
  start s' st' r = i + 1 /\ unchanged view st st' /\
  FrameHeader.log_index (Frame.header (at_index i frame)) = i /\
  FrameHeader.signing_data (Frame.header (at_index i frame))
  = FrameHeader.signing_data (Frame.header frame).
Proof.
  intros Hi Hb Hw Hs Hop. cbv zeta. set (r := FrameHeader.room_id (Frame.header frame)).
  intros Hlt. pose proof (process_frame_outcome s st frame Hi Hw (fun n => Hb _ n)) as Ho.
  destruct (process_frame frame (s, st)) as [[s' st'] res]. destruct Ho as (_ & Hu & Ho).
  destruct Ho as [|? |res' ? ? Hnone Hst Hr|? ? Hn|i ? ? Hn Hi64]; try done.
  - exfalso. fold r in Hnone, Hst. unfold start in Hlt. rewrite Hnone in Hlt.
    specialize (Hst (latest_log_index_total r st Hi)). lia.
  - exfalso. fold r in Hn. apply next_index_start in Hn. lia.
  - fold r in Hn |- *. rewrite (next_index_start _ _ _ _ Hn). split_and!; try done.
    + rewrite (start_insert s st st') by done. by rewrite decide_True.
    + apply log_index_at_index. unfold u64_MAX in Hi64. lia.
    + apply MlsValidator.signing_data_set_log_index. by destruct Hw.
Qed.

(** Warming the cache changes nothing: on a storage whose reads succeed,
    the answer to a frame is the same with and without an
    [initialize_room] of any room before it. *)
Theorem initialize_room_transparent `{!StorageTotal St} s st frame r' :
  storage_inv st -> bounded s -> Frame.wf frame -> r' < 2 ^ 128 ->
  len (rv_log (view st r')) <= u64_MAX ->
  len (rv_log (view st (FrameHeader.room_id (Frame.header frame)))) <= u64_MAX ->
  let '(σ1, res1) := initialize_room r' (s, st) in
  res1 = Ok tt /\ snd (process_frame frame σ1) = snd (process_frame frame (s, st)).
Proof.
  intros Hi Hb Hw Hr' Hl' Hl. pose proof (initialize_room_start s st r' Hi Hr') as Hini.
  destruct (initialize_room r' (s, st)) as [[s1 st1] res1].
  destruct Hini as (Hi1 & Hu & Hb1 & Hst & Hok). split.
  { apply Hok; [by apply latest_log_index_total|done]. }
  pose proof (process_frame_outcome s st frame Hi Hw (fun n => Hb _ n)) as H1.
  pose proof (process_frame_outcome s1 st1 frame Hi1 Hw (fun n => Hb1 Hb _ n)) as H2.
  destruct (process_frame frame (s, st)) as [[s2 st2] res2].
  destruct (process_frame frame (s1, st1)) as [[s3 st3] res3]. simpl.
  destruct H1 as (_ & _ & H1). destruct H2 as (_ & _ & H2).
  eapply outcome_answer; [exact H2|exact H1|by apply latest_log_index_total..|by rewrite Hu|done|].
  apply Hst.
Qed.

End outcomes.

(** ** Witnesses *)

Definition room_sample : Frame.t :=
  Frame.mk (FrameHeader.set_room_id 5 (Frame.header Frame.sample)) (Frame.payload Frame.sample).

Lemma room_sample_wf : Frame.wf room_sample.
Proof. vm_compute. repeat split; discriminate. Qed.

Lemma assigned_indices_consecutive_witness :
  let '((s', st'), rs) := process_all [room_sample; Frame.sample; room_sample]
                            (mk {[ 5 := 9 ]}, MemoryStorage.new) in
  exists k, concat (map (assigned 5) rs)
            = (fun j => start (mk {[ 5 := 9 ]}) MemoryStorage.new 5 + N.of_nat j) <$> seq 0 k /\
    start s' st' 5 = start (mk {[ 5 := 9 ]}) MemoryStorage.new 5 + N.of_nat k.
Proof.
  apply (assigned_indices_consecutive (mk {[ 5 := 9 ]}) MemoryStorage.new
           [room_sample; Frame.sample; room_sample] 5).
  - exact I.
  - apply map_Forall_singleton. vm_compute. discriminate.
  - repeat constructor; vm_compute; repeat split; discriminate.
Defined.

Lemma process_frame_progress_witness :
  let '((s', st'), res) := process_frame room_sample (new, MemoryStorage.new) in
  is_ok res = true.
Proof.
  assert (Hi : storage_inv MemoryStorage.new) by exact I.
  pose proof (process_frame_progress new MemoryStorage.new room_sample Hi
    (map_Forall_empty _) room_sample_wf) as H.
  destruct (process_frame room_sample (new, MemoryStorage.new)) as [[s' st'] res].
  destruct H as (-> & _).
  - vm_compute. split; discriminate.
  - vm_compute. discriminate.
  - vm_compute. reflexivity.
  - reflexivity.
Defined.

Lemma initialize_room_transparent_witness :
  let '(σ1, res1) := initialize_room 5 (new, MemoryStorage.new) in
  res1 = Ok tt /\ snd (process_frame room_sample σ1)
                  = snd (process_frame room_sample (new, MemoryStorage.new)).
Proof.
  apply (initialize_room_transparent new MemoryStorage.new room_sample 5).
  - exact I.
  - apply map_Forall_empty.
  - apply room_sample_wf.
  - reflexivity.
  - vm_compute. discriminate.
  - vm_compute. discriminate.
Defined.

End Sequencer.
