(* ===== verification/Registry.v ===== *)
(** * The connection registry

    [ConnectionRegistry] of [lockframe-server/src/registry.rs]: sessions, room
    subscriptions in both directions and the user index.  [Spec] is the
    abstract registry (sessions and a set of subscriptions), and the registry
    refines it. *)

From S2P Require Import Prelude.

Local Open Scope N_scope.

Module SessionInfo.

Record t := mk { user_id : option N; authenticated : bool }.

#[global] Instance session_info_eq_dec : EqDecision t.
Proof. solve_decision. Defined.

Definition new : t := mk None false.

(** [SessionInfo::authenticated(user_id)]. *)
Definition authenticated_as (user_id : N) : t := mk (Some user_id) true.

End SessionInfo.

Module ConnectionRegistry.

Record t := mk {
  sessions : gmap N SessionInfo.t;
  room_subscriptions : gmap N (gset N);
  session_rooms : gmap N (gset N);
  user_sessions : gmap N N }.

Definition new : t := mk ∅ ∅ ∅ ∅.

Definition register_session (session_id : N) (info : SessionInfo.t) (g : t) : t * bool :=
  if decide (is_Some (sessions g !! session_id)) then (g, false)
  else
    let insert_session (us : gmap N N) :=
      mk (<[session_id := info]> (sessions g)) (room_subscriptions g)
         (<[session_id := ∅]> (session_rooms g)) us in
    match SessionInfo.user_id info with
    | Some user_id =>
        if decide (is_Some (user_sessions g !! user_id)) then (g, false)
        else (insert_session (<[user_id := session_id]> (user_sessions g)), true)
    | None => (insert_session (user_sessions g), true)
    end.

(** The body of the loop of [unregister_session] for one room. *)
Definition remove_subscriber (session_id room_id : N) (subs : gmap N (gset N))
    : gmap N (gset N) :=
  match subs !! room_id with
  | Some subscribers =>
      let subscribers' := subscribers ∖ {[ session_id ]} in
      if decide (subscribers' = ∅) then delete room_id subs
      else <[room_id := subscribers']> subs
  | None => subs
  end.

Definition unregister_session (session_id : N) (g : t)
    : t * option (SessionInfo.t * gset N) :=
  match sessions g !! session_id with
  | None => (g, None)
  | Some info =>
      let rooms := default ∅ (session_rooms g !! session_id) in
      let us :=
        match SessionInfo.user_id info with
        | Some user_id => delete user_id (user_sessions g)
        | None => user_sessions g
        end in
      (mk (delete session_id (sessions g))
          (foldr (remove_subscriber session_id) (room_subscriptions g) (elements rooms))
          (delete session_id (session_rooms g)) us,
       Some (info, rooms))
  end.

(** [sessions(session_id)]. *)
Definition session_info (g : t) (session_id : N) : option SessionInfo.t :=
  sessions g !! session_id.

(** [sessions_mut(session_id)]: what the caller makes of the metadata it borrows,
    and whether there is any. *)
Definition sessions_mut (session_id : N) (f : SessionInfo.t -> SessionInfo.t) (g : t) : t * bool :=
  match sessions g !! session_id with
  | Some info =>
      (mk (<[session_id := f info]> (sessions g)) (room_subscriptions g) (session_rooms g)
         (user_sessions g), true)
  | None => (g, false)
  end.

Definition has_session (g : t) (session_id : N) : bool :=
  bool_decide (is_Some (sessions g !! session_id)).

Definition update_session_info (session_id : N) (new_info : SessionInfo.t) (g : t) : t * bool :=
  match sessions g !! session_id with
  | None => (g, false)
  | Some old_info =>
      let conflict :=
        match SessionInfo.user_id new_info with
        | Some new_user_id =>
            bool_decide (Some new_user_id <> SessionInfo.user_id old_info) &&
            bool_decide (is_Some (user_sessions g !! new_user_id))
        | None => false
        end in
      if conflict then (g, false)
      else
        let us1 :=
          match SessionInfo.user_id old_info with
          | Some old_user_id => delete old_user_id (user_sessions g)
          | None => user_sessions g
          end in
        let us2 :=
          match SessionInfo.user_id new_info with
          | Some new_user_id => <[new_user_id := session_id]> us1
          | None => us1
          end in
        (mk (<[session_id := new_info]> (sessions g)) (room_subscriptions g)
            (session_rooms g) us2, true)
  end.

Definition subscribe (session_id room_id : N) (g : t) : t * bool :=
  if decide (is_Some (sessions g !! session_id)) then
    (mk (sessions g)
        (<[room_id := {[ session_id ]} ∪ default ∅ (room_subscriptions g !! room_id)]>
           (room_subscriptions g))
        (<[session_id := {[ room_id ]} ∪ default ∅ (session_rooms g !! session_id)]>
           (session_rooms g))
        (user_sessions g), true)
  else (g, false).

(** [map.get_mut(&k).is_some_and(|s| s.remove(&x))]. *)
Definition remove_from (k x : N) (m : gmap N (gset N)) : gmap N (gset N) * bool :=
  match m !! k with
  | Some s => (<[k := s ∖ {[ x ]}]> m, bool_decide (x ∈ s))
  | None => (m, false)
  end.

Definition unsubscribe (session_id room_id : N) (g : t) : t * bool :=
  let '(subs, removed_from_room) := remove_from room_id session_id (room_subscriptions g) in
  let '(rooms, removed_from_session) := remove_from session_id room_id (session_rooms g) in
  let subs' := if decide (subs !! room_id = Some ∅) then delete room_id subs else subs in
  (mk (sessions g) subs' rooms (user_sessions g),
   removed_from_room && removed_from_session).

Definition is_subscribed (g : t) (session_id room_id : N) : bool :=
  match room_subscriptions g !! room_id with
  | Some s => bool_decide (session_id ∈ s)
  | None => false
  end.

(** The iterators are lists, in the order of the set's elements. *)
Definition sessions_in_room (g : t) (room_id : N) : list N :=
  elements (default ∅ (room_subscriptions g !! room_id)).

Definition rooms_for_session (g : t) (session_id : N) : list N :=
  elements (default ∅ (session_rooms g !! session_id)).

Definition session_id_for_user (g : t) (user_id : N) : option N :=
  user_sessions g !! user_id.

Definition session_count (g : t) : N := N.of_nat (size (sessions g)).

Definition room_session_count (g : t) (room_id : N) : N :=
  match room_subscriptions g !! room_id with
  | Some s => N.of_nat (size s)
  | None => 0
  end.

(** ** The invariant *)

Definition subs (g : t) (room_id : N) : gset N := default ∅ (room_subscriptions g !! room_id).
Definition rooms_of (g : t) (session_id : N) : gset N := default ∅ (session_rooms g !! session_id).

Record inv (g : t) : Prop := mk_inv {
  (* the two directions agree *)
  inv_both s r : s ∈ subs g r <-> r ∈ rooms_of g s;
  (* every session, and only a session, has a set of rooms *)
  inv_dom : dom (session_rooms g) = dom (sessions g);
  (* the user index is exactly the user ids of the sessions *)
  inv_users u s : user_sessions g !! u = Some s <->
    exists info, sessions g !! s = Some info /\ SessionInfo.user_id info = Some u;
  (* no room is kept with no subscriber *)
  inv_nonempty r : room_subscriptions g !! r <> Some ∅;
}.

(** ** The operations, as one type *)

Inductive op :=
  | RegisterSession (s : N) (info : SessionInfo.t)
  | UnregisterSession (s : N)
  | UpdateSessionInfo (s : N) (info : SessionInfo.t)
  | Subscribe (s r : N)
  | Unsubscribe (s r : N).

Inductive answer :=
  | ABool (b : bool)
  | ASession (o : option (SessionInfo.t * gset N)).

Definition apply (o : op) (g : t) : t * answer :=
  match o with
  | RegisterSession s info => let '(g', b) := register_session s info g in (g', ABool b)
  | UnregisterSession s => let '(g', o) := unregister_session s g in (g', ASession o)
  | UpdateSessionInfo s info => let '(g', b) := update_session_info s info g in (g', ABool b)
  | Subscribe s r => let '(g', b) := subscribe s r g in (g', ABool b)
  | Unsubscribe s r => let '(g', b) := unsubscribe s r g in (g', ABool b)
  end.

End ConnectionRegistry.

(** ** The abstract registry *)

Module Spec.

Record t := mk { sessions : gmap N SessionInfo.t; subscriptions : gset (N * N) }.

Definition new : t := mk ∅ ∅.

(** A user is taken when some session other than [s] has it. *)
Definition user_free (a : t) (s : N) (info : SessionInfo.t) : Prop :=
  match SessionInfo.user_id info with
  | Some u => map_Forall (fun s' i => SessionInfo.user_id i = Some u -> s' = s) (sessions a)
  | None => True
  end.

#[global] Instance user_free_dec a s info : Decision (user_free a s info).
Proof. unfold user_free. case_match; apply _. Defined.

Definition rooms_of (a : t) (s : N) : gset N :=
  set_map snd (filter (fun p : N * N => p.1 = s) (subscriptions a)).

Definition apply (o : ConnectionRegistry.op) (a : t) : t * ConnectionRegistry.answer :=
  match o with
  | ConnectionRegistry.RegisterSession s info =>
      if decide (sessions a !! s = None /\ user_free a s info)
      then (mk (<[s := info]> (sessions a)) (subscriptions a), ConnectionRegistry.ABool true)
      else (a, ConnectionRegistry.ABool false)
  | ConnectionRegistry.UnregisterSession s =>
      match sessions a !! s with
      | Some info =>
          (mk (delete s (sessions a)) (filter (fun p : N * N => p.1 <> s) (subscriptions a)),
           ConnectionRegistry.ASession (Some (info, rooms_of a s)))
      | None => (a, ConnectionRegistry.ASession None)
      end
  | ConnectionRegistry.UpdateSessionInfo s info =>
      if decide (is_Some (sessions a !! s) /\ user_free a s info)
      then (mk (<[s := info]> (sessions a)) (subscriptions a), ConnectionRegistry.ABool true)
      else (a, ConnectionRegistry.ABool false)
  | ConnectionRegistry.Subscribe s r =>
      if decide (is_Some (sessions a !! s))
      then (mk (sessions a) ({[ (s, r) ]} ∪ subscriptions a), ConnectionRegistry.ABool true)
      else (a, ConnectionRegistry.ABool false)
  | ConnectionRegistry.Unsubscribe s r =>
      (mk (sessions a) (subscriptions a ∖ {[ (s, r) ]}),
       ConnectionRegistry.ABool (bool_decide ((s, r) ∈ subscriptions a)))
  end.

End Spec.

(** ** Lemmas *)

Module RegistryLemmas.
Import ConnectionRegistry.

Lemma remove_subscriber_subs s r m r' :
  default ∅ (remove_subscriber s r m !! r')
  = if decide (r' = r) then default ∅ (m !! r) ∖ {[ s ]} else default ∅ (m !! r').
Proof.
  unfold remove_subscriber. destruct (m !! r) as [x|] eqn:Hm; simpl.
  - case_decide as Hx; (case_decide; [subst|by rewrite ?lookup_delete_ne, ?lookup_insert_ne]).
    + by rewrite lookup_delete_eq.
    + by rewrite lookup_insert_eq.
  - case_decide; [subst|done]. rewrite Hm. simpl. set_solver.
Qed.

Lemma remove_subscriber_nonempty s r m :
  (forall r', m !! r' <> Some ∅) -> forall r', remove_subscriber s r m !! r' <> Some ∅.
Proof.
  intros Hn r'. unfold remove_subscriber. destruct (m !! r) as [x|]; [|done].
  case_decide; destruct (decide (r' = r)) as [->|].
  - by rewrite lookup_delete_eq.
  - by rewrite lookup_delete_ne.
  - rewrite lookup_insert_eq. naive_solver.
  - by rewrite lookup_insert_ne.
Qed.

Lemma foldr_remove_subs s rs m r :
  default ∅ (foldr (remove_subscriber s) m rs !! r)
  = if decide (r ∈ rs) then default ∅ (m !! r) ∖ {[ s ]} else default ∅ (m !! r).
Proof.
  induction rs as [|x rs IH]; simpl; [done|]. rewrite remove_subscriber_subs.
  destruct (decide (r = x)) as [->|Hne].
  - rewrite decide_True by left. rewrite IH. case_decide; set_solver.
  - rewrite IH. destruct (decide (r ∈ rs)).
    + by rewrite decide_True by (by right).
    + rewrite decide_False; [done|]. by intros [|]%elem_of_cons.
Qed.

Lemma foldr_remove_nonempty s rs m :
  (forall r, m !! r <> Some ∅) -> forall r, foldr (remove_subscriber s) m rs !! r <> Some ∅.
Proof.
  intros Hn. induction rs as [|x rs IH]; simpl; [done|].
  by apply remove_subscriber_nonempty.
Qed.

Lemma remove_from_fst k x m k' :
  default ∅ (fst (remove_from k x m) !! k')
  = if decide (k' = k) then default ∅ (m !! k) ∖ {[ x ]} else default ∅ (m !! k').
Proof.
  unfold remove_from. destruct (m !! k) as [y|] eqn:Hm; simpl.
  - case_decide; [subst; by rewrite lookup_insert_eq|by rewrite lookup_insert_ne].
  - case_decide; [subst|done]. rewrite Hm. simpl. set_solver.
Qed.

Lemma remove_from_snd k x m :
  snd (remove_from k x m) = bool_decide (x ∈ default ∅ (m !! k)).
Proof.
  unfold remove_from. destruct (m !! k); simpl; [done|].
  symmetry. apply bool_decide_eq_false. set_solver.
Qed.

Lemma remove_from_dom k x m : dom (fst (remove_from k x m)) = dom m.
Proof.
  unfold remove_from. destruct (m !! k) eqn:Hm; simpl; [|done].
  rewrite dom_insert_L. apply elem_of_dom_2 in Hm. set_solver.
Qed.

Lemma delete_if_empty k (m : gmap N (gset N)) k' :
  default ∅ ((if decide (m !! k = Some ∅) then delete k m else m) !! k')
  = default ∅ (m !! k').
Proof.
  case_decide as Hm; [|done]. destruct (decide (k' = k)) as [->|].
  - by rewrite lookup_delete_eq, Hm.
  - by rewrite lookup_delete_ne.
Qed.

(** The relation between the registry and its abstraction. *)
Definition refines (g : t) (a : Spec.t) : Prop :=
  inv g /\ sessions g = Spec.sessions a /\
  forall s r, (s, r) ∈ Spec.subscriptions a <-> s ∈ subs g r.

(** A session that is not registered has no rooms. *)
Lemma inv_no_rooms g s : inv g -> sessions g !! s = None -> rooms_of g s = ∅.
Proof.
  intros Hi Hs. unfold rooms_of. replace (session_rooms g !! s) with (@None (gset N)); [done|].
  symmetry. apply not_elem_of_dom. rewrite (inv_dom g Hi). by apply not_elem_of_dom.
Qed.

Lemma inv_dom_insert g s (X : gset N) info :
  inv g -> dom (<[s := X]> (session_rooms g)) = dom (<[s := info]> (sessions g)).
Proof. intros Hi. by rewrite !dom_insert_L, (inv_dom g Hi). Qed.

(** The user index decides whether a user is free. *)
Lemma user_index_free g a s info :
  inv g -> sessions g = Spec.sessions a ->
  Spec.user_free a s info <->
  forall u s', SessionInfo.user_id info = Some u -> user_sessions g !! u = Some s' -> s' = s.
Proof.
  intros Hi Hs. unfold Spec.user_free. rewrite <- Hs.
  destruct (SessionInfo.user_id info) as [u|]; [|naive_solver]. split.
  - intros Hf u' s' [= <-] (i & Hsi & Hu)%(inv_users g Hi). by eapply Hf.
  - intros Hf s' i Hsi Hu. apply (Hf u); [done|]. apply (inv_users g Hi). eauto.
Qed.

Lemma inv_users_self g s info u :
  inv g -> sessions g !! s = Some info -> SessionInfo.user_id info = Some u ->
  user_sessions g !! u = Some s.
Proof. intros Hi Hs Hu. apply (inv_users g Hi). eauto. Qed.

(** Replacing or adding the info of session [s], with the index updated. *)
Lemma users_update g s info (us1 us2 : gmap N N) :
  inv g ->
  (forall u s', us1 !! u = Some s' <-> user_sessions g !! u = Some s' /\ s' <> s) ->
  (forall u s', SessionInfo.user_id info = Some u -> us1 !! u <> Some s') ->
  us2 = match SessionInfo.user_id info with Some u => <[u := s]> us1 | None => us1 end ->
  forall u s', us2 !! u = Some s' <->
    exists i, <[s := info]> (sessions g) !! s' = Some i /\ SessionInfo.user_id i = Some u.
Proof.
  intros Hi H1 Hfree -> u s'.
  assert (Hother : us1 !! u = Some s' <->
    s' <> s /\ exists i, sessions g !! s' = Some i /\ SessionInfo.user_id i = Some u).
  { rewrite H1, (inv_users g Hi). naive_solver. }
  destruct (SessionInfo.user_id info) as [v|] eqn:Hv.
  - destruct (decide (u = v)) as [->|Huv].
    + rewrite lookup_insert_eq. split.
      * intros [= <-]. exists info. by rewrite lookup_insert_eq.
      * intros (i & Hl & Hui). destruct (decide (s' = s)) as [->|Hne]; [done|].
        rewrite lookup_insert_ne in Hl by done. exfalso. eapply Hfree; [done|].
        apply Hother. eauto.
    + rewrite lookup_insert_ne by done. rewrite Hother. split.
      * intros (Hne & i & Hl & Hui). exists i. by rewrite lookup_insert_ne.
      * intros (i & Hl & Hui). destruct (decide (s' = s)) as [->|Hne].
        { rewrite lookup_insert_eq in Hl. naive_solver. }
        rewrite lookup_insert_ne in Hl by done. eauto.
  - rewrite Hother. split.
    + intros (Hne & i & Hl & Hui). exists i. by rewrite lookup_insert_ne.
    + intros (i & Hl & Hui). destruct (decide (s' = s)) as [->|Hne].
      { rewrite lookup_insert_eq in Hl. naive_solver. }
      rewrite lookup_insert_ne in Hl by done. eauto.
Qed.

(** ** Each operation refines its abstraction *)

Lemma register_refines s info g a :
  refines g a ->
  snd (apply (RegisterSession s info) g) = snd (Spec.apply (RegisterSession s info) a) /\
  refines (fst (apply (RegisterSession s info) g)) (fst (Spec.apply (RegisterSession s info) a)).
Proof.
  intros (Hi & Hs & Hsub). simpl. unfold register_session.
  pose proof (user_index_free g a s info Hi Hs) as Hfree. rewrite <- Hs.
  destruct (sessions g !! s) as [i|] eqn:Hreg.
  { rewrite decide_True by eauto. rewrite decide_False by naive_solver. done. }
  rewrite decide_False by (by intros [? ?]).
  pose (insert_session := fun us => mk (<[s := info]> (sessions g)) (room_subscriptions g)
    (<[s := ∅]> (session_rooms g)) us).
  assert (Hgood : forall us, us = match SessionInfo.user_id info with
      | Some u => <[u := s]> (user_sessions g) | None => user_sessions g end ->
    (forall u s', SessionInfo.user_id info = Some u -> user_sessions g !! u <> Some s') ->
    refines (insert_session us) (Spec.mk (<[s := info]> (sessions g)) (Spec.subscriptions a))).
  { intros us Hus Hnone. pose proof (inv_no_rooms g s Hi Hreg) as Hnr.
    split; [|split; [done|exact Hsub]]. constructor.
    - intros s' r. change (s' ∈ subs g r <-> r ∈ rooms_of (insert_session us) s').
      rewrite (inv_both g Hi). unfold rooms_of at 2. simpl.
      destruct (decide (s' = s)) as [->|]; [by rewrite lookup_insert_eq, Hnr|].
      by rewrite lookup_insert_ne.
    - by apply inv_dom_insert.
    - apply (users_update g s info (user_sessions g)); try done.
      intros u s'. split; [|naive_solver]. intros Hu. split; [done|]. intros ->.
      apply (inv_users g Hi) in Hu as (i & Hl & _). congruence.
    - apply (inv_nonempty g Hi). }
  destruct (SessionInfo.user_id info) as [u|] eqn:Hu.
  - destruct (user_sessions g !! u) as [s'|] eqn:Hus.
    + rewrite decide_True by eauto. rewrite decide_False; [done|].
      intros [_ Hf]. pose proof (proj1 Hfree Hf u s' eq_refl Hus) as ->.
      apply (inv_users g Hi) in Hus as (i & Hl & _). congruence.
    + rewrite decide_False by (by intros [? ?]). rewrite decide_True.
      2:{ split; [done|]. apply Hfree. naive_solver congruence. }
      split; [done|]. apply Hgood; [done|]. naive_solver congruence.
  - rewrite decide_True by (split; [done|]; apply Hfree; naive_solver).
    split; [done|]. apply Hgood; naive_solver.
Qed.

Lemma update_refines s info g a :
  refines g a ->
  snd (apply (UpdateSessionInfo s info) g) = snd (Spec.apply (UpdateSessionInfo s info) a) /\
  refines (fst (apply (UpdateSessionInfo s info) g))
    (fst (Spec.apply (UpdateSessionInfo s info) a)).
Proof.
  intros (Hi & Hs & Hsub). simpl. unfold update_session_info.
  pose proof (user_index_free g a s info Hi Hs) as Hfree. rewrite <- Hs.
  destruct (sessions g !! s) as [old|] eqn:Hreg.
  2:{ rewrite decide_False by (by intros [[? ?] _]). done. }
  set (conflict := match SessionInfo.user_id info with Some _ => _ | None => _ end).
  set (us1 := match SessionInfo.user_id old with Some _ => _ | None => _ end).
  assert (Hc : conflict = false <-> Spec.user_free a s info).
  { rewrite Hfree. unfold conflict. destruct (SessionInfo.user_id info) as [u|] eqn:Hu; [|naive_solver].
    rewrite andb_false_iff, !bool_decide_eq_false. split.
    - intros [Hold|Hno] u' s' [= <-] Hus.
      + apply dec_stable in Hold. symmetry in Hold.
        rewrite (inv_users_self g s old u Hi Hreg Hold) in Hus. congruence.
      + exfalso. apply Hno. eauto.
    - intros Hf. destruct (user_sessions g !! u) as [s'|] eqn:Hus; [|right; by intros [? ?]].
      left. pose proof (Hf u s' eq_refl Hus) as ->.
      apply (inv_users g Hi) in Hus as (i & Hl & Hi'). rewrite Hreg in Hl. naive_solver. }
  assert (Hus1 : forall u s', us1 !! u = Some s' <-> user_sessions g !! u = Some s' /\ s' <> s).
  { intros u s'. unfold us1. destruct (SessionInfo.user_id old) as [v|] eqn:Hv.
    - pose proof (inv_users_self g s old v Hi Hreg Hv) as Hvs.
      destruct (decide (u = v)) as [->|]; [rewrite lookup_delete_eq; naive_solver|].
      rewrite lookup_delete_ne by done. split; [|naive_solver]. intros Hus.
      split; [done|]. intros ->. apply (inv_users g Hi) in Hus as (i & Hl & Hiu). congruence.
    - split; [|naive_solver]. intros Hus. split; [done|]. intros ->.
      apply (inv_users g Hi) in Hus as (i & Hl & Hiu). congruence. }
  destruct conflict eqn:Hcf.
  { rewrite decide_False; [done|]. intros [_ Hf%Hc]. done. }
  rewrite decide_True by (split; [eauto|by apply Hc]). split; [done|].
  split; [|split; [done|exact Hsub]]. constructor; simpl.
  - apply (inv_both g Hi).
  - rewrite dom_insert_L, (inv_dom g Hi). apply elem_of_dom_2 in Hreg. set_solver.
  - apply (users_update g s info us1); try done.
    intros u s' Hu [Hl Hne]%Hus1. apply Hne.
    apply (proj1 Hfree (proj1 Hc eq_refl) u s' Hu Hl).
  - apply (inv_nonempty g Hi).
Qed.

Lemma subscribe_refines s r g a :
  refines g a ->
  snd (apply (Subscribe s r) g) = snd (Spec.apply (Subscribe s r) a) /\
  refines (fst (apply (Subscribe s r) g)) (fst (Spec.apply (Subscribe s r) a)).
Proof.
  intros (Hi & Hs & Hsub). simpl. unfold subscribe. rewrite <- Hs.
  case_decide as Hreg; [|done]. split; [done|].
  assert (Hsubs : forall s' r', s' ∈ default ∅
      (<[r := {[ s ]} ∪ subs g r]> (room_subscriptions g) !! r') <->
      (s' = s /\ r' = r) \/ s' ∈ subs g r').
  { intros s' r'. destruct (decide (r' = r)) as [->|].
    - rewrite lookup_insert_eq. simpl. set_solver.
    - rewrite lookup_insert_ne by done. unfold subs. set_solver. }
  split; [constructor|split; [done|]]; simpl.
  - intros s' r'. unfold subs at 1, rooms_of at 1. simpl. fold (subs g r) (rooms_of g s).
    rewrite Hsubs, (inv_both g Hi). destruct (decide (s' = s)) as [->|].
    + rewrite lookup_insert_eq. simpl. set_solver.
    + rewrite lookup_insert_ne by done. fold (rooms_of g s'). naive_solver.
  - rewrite dom_insert_L, (inv_dom g Hi). apply elem_of_dom in Hreg. set_solver.
  - apply (inv_users g Hi).
  - intros r'. destruct (decide (r' = r)) as [->|].
    + rewrite lookup_insert_eq. intros [= E]. set_solver.
    + rewrite lookup_insert_ne by done. apply (inv_nonempty g Hi).
  - intros s' r'. unfold subs. simpl. fold (subs g r). rewrite Hsubs, <- Hsub. set_solver.
Qed.

Lemma unsubscribe_refines s r g a :
  refines g a ->
  snd (apply (Unsubscribe s r) g) = snd (Spec.apply (Unsubscribe s r) a) /\
  refines (fst (apply (Unsubscribe s r) g)) (fst (Spec.apply (Unsubscribe s r) a)).
Proof.
  intros (Hi & Hs & Hsub). simpl. unfold unsubscribe.
  pose proof (remove_from_fst r s (room_subscriptions g)) as H1.
  pose proof (remove_from_snd r s (room_subscriptions g)) as H2.
  pose proof (remove_from_fst s r (session_rooms g)) as H3.
  pose proof (remove_from_snd s r (session_rooms g)) as H4.
  pose proof (remove_from_dom s r (session_rooms g)) as H5.
  assert (Hne : forall r', r' <> r ->
    fst (remove_from r s (room_subscriptions g)) !! r' = room_subscriptions g !! r').
  { intros r' Hr. unfold remove_from. case_match; simpl; [by rewrite lookup_insert_ne|done]. }
  destruct (remove_from r s (room_subscriptions g)) as [m1 b1].
  destruct (remove_from s r (session_rooms g)) as [m2 b2]. simpl in *.
  fold (subs g r) in H1, H2. fold (rooms_of g s) in H3, H4. split.
  { f_equal. rewrite H2, H4. pose proof (inv_both g Hi s r). pose proof (Hsub s r).
    repeat case_bool_decide; naive_solver. }
  assert (Hm1 : forall s' r', s' ∈ default ∅
     ((if decide (m1 !! r = Some ∅) then delete r m1 else m1) !! r') <->
     s' ∈ subs g r' /\ (s', r') <> (s, r)).
  { intros s' r'. rewrite delete_if_empty, H1. destruct (decide (r' = r)) as [->|Hr].
    - rewrite elem_of_difference, elem_of_singleton. split; intros [? ?]; split; congruence.
    - fold (subs g r'). split; [|tauto]. intros ?. split; congruence. }
  split; [constructor|split; [done|]]; simpl.
  - intros s' r'. unfold subs at 1, rooms_of at 1. simpl. rewrite Hm1, H3, (inv_both g Hi).
    destruct (decide (s' = s)) as [->|Hd].
    + rewrite elem_of_difference, elem_of_singleton. split; intros [? ?]; split; congruence.
    + fold (rooms_of g s'). split; [tauto|]. intros ?. split; congruence.
  - by rewrite H5, (inv_dom g Hi).
  - apply (inv_users g Hi).
  - intros r'. case_decide as Hd; destruct (decide (r' = r)) as [->|].
    + by rewrite lookup_delete_eq.
    + rewrite lookup_delete_ne, Hne by done. apply (inv_nonempty g Hi).
    + done.
    + rewrite Hne by done. apply (inv_nonempty g Hi).
  - intros s' r'. unfold subs. simpl.
    by rewrite Hm1, <- Hsub, elem_of_difference, elem_of_singleton.
Qed.

Lemma unregister_refines s g a :
  refines g a ->
  snd (apply (UnregisterSession s) g) = snd (Spec.apply (UnregisterSession s) a) /\
  refines (fst (apply (UnregisterSession s) g)) (fst (Spec.apply (UnregisterSession s) a)).
Proof.
  intros (Hi & Hs & Hsub). simpl. unfold unregister_session. rewrite <- Hs.
  destruct (sessions g !! s) as [info|] eqn:Hreg; [|done]. fold (rooms_of g s).
  assert (Hrooms : Spec.rooms_of a s = rooms_of g s).
  { apply set_eq. intros r. rewrite <- (inv_both g Hi), <- Hsub. unfold Spec.rooms_of. set_solver. }
  simpl. rewrite Hrooms. split; [done|].
  assert (Hm : forall s' r', s' ∈ default ∅ (foldr (remove_subscriber s) (room_subscriptions g)
      (elements (rooms_of g s)) !! r') <-> s' ∈ subs g r' /\ s' <> s).
  { intros s' r'. rewrite foldr_remove_subs. fold (subs g r'). case_decide as Hin; [set_solver|].
    split; [|naive_solver]. intros Hs'. split; [done|]. intros ->. apply Hin.
    by apply elem_of_elements, (inv_both g Hi). }
  split; [constructor|split; [done|]]; simpl.
  - intros s' r'. change (subs (mk _ ?m _ _) ?r) with (default ∅ (m !! r)).
    change (rooms_of (mk _ _ ?m _) ?s) with (default ∅ (m !! s)).
    rewrite Hm, (inv_both g Hi). destruct (decide (s' = s)) as [->|].
    + rewrite lookup_delete_eq. simpl. split; [by intros [_ ?]|]. by intros ?%elem_of_empty.
    + rewrite lookup_delete_ne by done. fold (rooms_of g s'). tauto.
  - by rewrite !dom_delete_L, (inv_dom g Hi).
  - intros u s'.
    assert (Hd : (exists i, delete s (sessions g) !! s' = Some i /\ SessionInfo.user_id i = Some u)
      <-> user_sessions g !! u = Some s' /\ s' <> s).
    { rewrite (inv_users g Hi). destruct (decide (s' = s)) as [->|].
      - setoid_rewrite lookup_delete_eq. naive_solver.
      - setoid_rewrite lookup_delete_ne; [|done]. naive_solver. }
    rewrite Hd. destruct (SessionInfo.user_id info) as [v|] eqn:Hv.
    + pose proof (inv_users_self g s info v Hi Hreg Hv) as Hvs.
      destruct (decide (u = v)) as [->|]; [rewrite lookup_delete_eq; naive_solver congruence|].
      rewrite lookup_delete_ne by done. split; [|tauto]. intros Hu. split; [done|]. intros ->.
      apply (inv_users g Hi) in Hu as (i & Hl & ?). congruence.
    + split; [|tauto]. intros Hu. split; [done|]. intros ->.
      apply (inv_users g Hi) in Hu as (i & Hl & ?). congruence.
  - apply foldr_remove_nonempty, (inv_nonempty g Hi).
  - intros s' r'. change (subs (mk _ ?m _ _) ?r) with (default ∅ (m !! r)).
    rewrite Hm, <- Hsub, elem_of_filter. simpl. tauto.
Qed.

Lemma apply_refines o g a :
  refines g a ->
  snd (apply o g) = snd (Spec.apply o a) /\ refines (fst (apply o g)) (fst (Spec.apply o a)).
Proof.
  destruct o; auto using register_refines, unregister_refines, update_refines,
    subscribe_refines, unsubscribe_refines.
Qed.

Lemma new_refines : refines ConnectionRegistry.new Spec.new.
Proof.
  split; [constructor|split; [done|]]; simpl.
  - intros s r. unfold subs, rooms_of. simpl. rewrite !lookup_empty. simpl. set_solver.
  - by rewrite !dom_empty_L.
  - intros u s. rewrite !lookup_empty. naive_solver.
  - intros r. by rewrite lookup_empty.
  - intros s r. unfold subs. simpl. rewrite lookup_empty. simpl. set_solver.
Qed.

End RegistryLemmas.

Module RegistryProperties.
Import ConnectionRegistry RegistryLemmas.

Definition apply_all (g : t) (ops : list op) : t := run (fun g o => fst (apply o g)) g ops.
Definition answers (g : t) (ops : list op) : list answer :=
  (fix go g ops := match ops with
                   | [] => []
                   | o :: ops' => snd (apply o g) :: go (fst (apply o g)) ops'
                   end) g ops.
Definition spec_all (a : Spec.t) (ops : list op) : Spec.t :=
  run (fun a o => fst (Spec.apply o a)) a ops.
Definition spec_answers (a : Spec.t) (ops : list op) : list answer :=
  (fix go a ops := match ops with
                   | [] => []
                   | o :: ops' => snd (Spec.apply o a) :: go (fst (Spec.apply o a)) ops'
                   end) a ops.

Lemma run_refines ops : forall g a, refines g a ->
  answers g ops = spec_answers a ops /\ refines (apply_all g ops) (spec_all a ops).
Proof.
  induction ops as [|o ops IH]; intros g a Hr; [done|]. simpl.
  destruct (apply_refines o g a Hr) as [-> Hr']. destruct (IH _ _ Hr') as [IH1 IH2].
  split; [by f_equal|done].
Qed.

(** ** Properties *)

(** C9: the registry refines its abstract specification: over any sequence of
    operations from the empty registry, every answer is the one of the abstract
    registry (a map of sessions and a set of subscriptions), and so are, at the
    end, the sessions, the subscriptions seen from a room and from a session,
    and the session of a user. *)
Theorem registry_refines_spec ops :
  let g := apply_all ConnectionRegistry.new ops in
  let a := spec_all Spec.new ops in
  answers ConnectionRegistry.new ops = spec_answers Spec.new ops /\
  sessions g = Spec.sessions a /\
  (forall s r, s ∈ sessions_in_room g r <-> (s, r) ∈ Spec.subscriptions a) /\
  (forall s r, r ∈ rooms_for_session g s <-> (s, r) ∈ Spec.subscriptions a) /\
  (forall s r, is_subscribed g s r = bool_decide ((s, r) ∈ Spec.subscriptions a)) /\
  (forall u s, session_id_for_user g u = Some s <->
     exists info, Spec.sessions a !! s = Some info /\ SessionInfo.user_id info = Some u).
Proof.
  simpl. destruct (run_refines ops _ _ new_refines) as [Ha (Hi & Hs & Hsub)].
  split_and!; try done.
  - intros s r. unfold sessions_in_room. rewrite elem_of_elements. by rewrite Hsub.
  - intros s r. unfold rooms_for_session. rewrite elem_of_elements.
    rewrite Hsub. symmetry. apply (inv_both _ Hi).
  - intros s r. unfold is_subscribed. rewrite (bool_decide_ext _ _ (Hsub s r)). unfold subs.
    case_match; simpl; [done|]. symmetry. apply bool_decide_eq_false. set_solver.
  - intros u s. rewrite <- Hs. apply (inv_users _ Hi).
Qed.

(** The borrowed metadata is outside of this: a caller of [sessions_mut] that
    changes the user of a session leaves the index of users wrong. *)
Theorem sessions_mut_breaks_index :
  let g := apply_all ConnectionRegistry.new [RegisterSession 1 (SessionInfo.authenticated_as 7)] in
  let '(g', found) := sessions_mut 1 (fun _ => SessionInfo.new) g in
  found = true /\ session_info g' 1 = Some SessionInfo.new /\ session_id_for_user g' 7 = Some 1.
Proof. vm_compute. done. Qed.

(** After a session is unregistered nothing of it is left: it is in no
    room, it has no rooms and no user resolves to it, in whatever registry the
    operations have led to; every other session keeps its subscriptions. *)
Theorem unregister_leaves_nothing ops s :
  let g := apply_all ConnectionRegistry.new ops in
  let g' := fst (unregister_session s g) in
  has_session g' s = false /\ rooms_for_session g' s = [] /\
  (forall r, s ∉ sessions_in_room g' r) /\
  (forall u, session_id_for_user g' u <> Some s) /\
  (forall s' r, s' <> s -> s' ∈ sessions_in_room g' r <-> s' ∈ sessions_in_room g r).
Proof.
  simpl. destruct (run_refines ops _ _ new_refines) as [_ Hr].
  destruct (apply_refines (UnregisterSession s) _ _ Hr) as [_ Hr'].
  set (g := apply_all _ _) in *. set (a := spec_all _ _) in *.
  assert (E : fst (apply (UnregisterSession s) g) = fst (unregister_session s g)).
  { simpl. by destruct (unregister_session s g). }
  rewrite E in Hr'. set (g' := fst (unregister_session s g)) in *.
  destruct Hr as (Hi & Hs & Hsub). destruct Hr' as (Hi' & Hs' & Hsub').
  simpl in Hs', Hsub'. rewrite <- Hs in Hs', Hsub'.
  assert (Hgone : sessions g' !! s = None).
  { rewrite Hs'. destruct (sessions g !! s) eqn:Hg; simpl; [by rewrite lookup_delete_eq|].
    by rewrite <- Hs. }
  pose proof (inv_no_rooms g' s Hi' Hgone) as Hnr. split_and!.
  - unfold has_session. rewrite Hgone. by apply bool_decide_eq_false; intros [? ?].
  - unfold rooms_for_session. fold (rooms_of g' s). by rewrite Hnr.
  - intros r. unfold sessions_in_room. rewrite elem_of_elements. fold (subs g' r).
    rewrite (inv_both g' Hi'), Hnr. set_solver.
  - intros u Hu. apply (inv_users g' Hi') in Hu as (i & Hl & _). congruence.
  - intros s' r Hne. unfold sessions_in_room. rewrite !elem_of_elements.
    fold (subs g' r) (subs g r). rewrite <- Hsub, <- Hsub'.
    destruct (sessions g !! s); simpl; [set_solver|done].
Qed.

End RegistryProperties.
