(* ===== verification/KeyPackages.v ===== *)
(** * The KeyPackage registry

    [KeyPackageRegistry] of [lockframe-server/src/key_package_registry.rs]: one
    KeyPackage per user, consumed on fetch, with a bounded number of entries and
    eviction of the entry stored longest ago. *)

From S2P Require Import Prelude.

Local Open Scope N_scope.

Definition DEFAULT_MAX_CAPACITY : N := 1000.

Inductive StoreResult := Success | Evicted | Full.

#[global] Instance store_result_eq_dec : EqDecision StoreResult.
Proof. solve_decision. Defined.

Module KeyPackageEntry.

Record t := mk { key_package_bytes : bytes; hash_ref : bytes; timestamp : N }.

#[global] Instance entry_eq_dec : EqDecision t.
Proof. solve_decision. Defined.

Definition new (key_package_bytes hash_ref : bytes) : t := mk key_package_bytes hash_ref 0.

Definition set_timestamp (n : N) (e : t) : t := mk (key_package_bytes e) (hash_ref e) n.

End KeyPackageEntry.

Module KeyPackageRegistry.

Record t := mk {
  entries : gmap N KeyPackageEntry.t;
  lru_order : list N;
  max_capacity : N;
  timestamp_counter : N }.

Definition with_capacity (max_capacity : N) : t := mk ∅ [] max_capacity 0.

Definition new : t := with_capacity DEFAULT_MAX_CAPACITY.

(** [lru_order.retain(|&id| id != user_id)]. *)
Definition retain_not (user_id : N) (l : list N) : list N := filter (fun id => id <> user_id) l.

(** The counter is a [u64]: its increment panics on overflow. *)
Definition store (user_id : N) (entry : KeyPackageEntry.t) : M t Empty_set StoreResult := fun g =>
  let entry' := KeyPackageEntry.set_timestamp (timestamp_counter g) entry in
  match checked_add u64_MAX (timestamp_counter g) 1 with
  | None => (g, Panic)
  | Some counter =>
      let is_new_entry := bool_decide (entries g !! user_id = None) in
      let lru := if negb is_new_entry then retain_not user_id (lru_order g) else lru_order g in
      if is_new_entry && (max_capacity g <=? N.of_nat (size (entries g))) then
        match lru with
        | oldest_id :: lru' =>
            (mk (<[user_id := entry']> (delete oldest_id (entries g))) (lru' ++ [user_id])
               (max_capacity g) counter, Ok Evicted)
        | [] => (mk (entries g) lru (max_capacity g) counter, Ok Full)
        end
      else
        (mk (<[user_id := entry']> (entries g)) (lru ++ [user_id]) (max_capacity g) counter,
         Ok Success)
  end.

Definition take (user_id : N) (g : t) : t * option KeyPackageEntry.t :=
  let entry := entries g !! user_id in
  let lru := if bool_decide (is_Some entry) then retain_not user_id (lru_order g)
             else lru_order g in
  (mk (delete user_id (entries g)) lru (max_capacity g) (timestamp_counter g), entry).

Definition has (user_id : N) (g : t) : bool := bool_decide (is_Some (entries g !! user_id)).

Definition count (g : t) : N := N.of_nat (size (entries g)).

Definition capacity (g : t) : N := max_capacity g.

Definition is_full (g : t) : bool := max_capacity g <=? N.of_nat (size (entries g)).

(** ** The invariant

    The order lists exactly the users that have an entry, from the one stored
    first to the one stored last, and there are at most [max_capacity]. *)

Definition stamp (g : t) (u : N) : N :=
  match entries g !! u with Some e => KeyPackageEntry.timestamp e | None => 0 end.

Record inv (g : t) : Prop := mk_inv {
  inv_order u : u ∈ lru_order g <-> is_Some (entries g !! u);
  inv_nodup : NoDup (lru_order g);
  inv_capacity : N.of_nat (size (entries g)) <= max_capacity g;
  inv_sorted i j u v : (i < j)%nat -> lru_order g !! i = Some u -> lru_order g !! j = Some v ->
    stamp g u < stamp g v;
  inv_counter u : is_Some (entries g !! u) -> stamp g u < timestamp_counter g;
}.

Inductive op := Store (u : N) (e : KeyPackageEntry.t) | Take (u : N).

Definition step (g : t) (o : op) : t :=
  match o with
  | Store u e => fst (store u e g)
  | Take u => fst (take u g)
  end.

(** ** Lemmas *)

Lemma elem_of_retain_not u l v : v ∈ retain_not u l <-> v <> u /\ v ∈ l.
Proof. unfold retain_not. by rewrite list_elem_of_filter. Qed.

(** An order-preserving map of positions from a filtered list. *)
Lemma filter_lookup_mono {A} (P : A -> Prop) `{!forall x, Decision (P x)} (l : list A) :
  exists f, (forall i j, (i < j)%nat -> (f i < f j)%nat) /\
    forall i x, filter P l !! i = Some x -> l !! f i = Some x.
Proof.
  induction l as [|y l (f & Hf & Hl)].
  - exists id. split; [done|]. intros i x. by rewrite lookup_nil.
  - rewrite filter_cons. destruct (decide (P y)).
    + exists (fun i => match i with O => O | S i' => S (f i') end). split.
      * intros [|i] [|j] Hij; try lia. specialize (Hf i j). lia.
      * intros [|i] x; simpl; [done|apply Hl].
    + exists (fun i => S (f i)). split; [intros i j Hij; specialize (Hf i j Hij); lia|].
      intros i x. apply Hl.
Qed.

Lemma stamp_insert u e g l c n v :
  stamp (mk (<[u := KeyPackageEntry.set_timestamp n e]> (entries g)) l (max_capacity g) c) v
  = if decide (v = u) then n else stamp g v.
Proof.
  unfold stamp. simpl. case_decide; [subst; by rewrite lookup_insert_eq|].
  by rewrite lookup_insert_ne.
Qed.

Lemma stamp_delete u g l c v :
  v <> u -> stamp (mk (delete u (entries g)) l (max_capacity g) c) v = stamp g v.
Proof. intros. unfold stamp. simpl. by rewrite lookup_delete_ne. Qed.

(** Dropping a user from the order and from the entries. *)
Lemma drop_inv u g l :
  inv g -> l = retain_not u (lru_order g) ->
  inv (mk (delete u (entries g)) l (max_capacity g) (timestamp_counter g)).
Proof.
  intros Hi ->. destruct Hi as [Ho Hn Hc Hs Hk]. constructor; simpl.
  - intros v. rewrite elem_of_retain_not, Ho. destruct (decide (v = u)) as [->|].
    + rewrite lookup_delete_eq. split; [tauto|]. by intros [? ?].
    + rewrite lookup_delete_ne by done. tauto.
  - by apply NoDup_filter.
  - destruct (entries g !! u) eqn:Hu.
    + rewrite map_size_delete, Hu. simpl. lia.
    + by rewrite delete_id.
  - intros i j v w Hij Hv Hw.
    assert (v <> u) by (apply list_elem_of_lookup_2, elem_of_retain_not in Hv; tauto).
    assert (w <> u) by (apply list_elem_of_lookup_2, elem_of_retain_not in Hw; tauto).
    rewrite !stamp_delete by done.
    destruct (filter_lookup_mono (fun id => id <> u) (lru_order g)) as (f & Hf & Hl).
    apply (Hs (f i) (f j)); auto.
  - intros v Hv. destruct (decide (v = u)) as [->|].
    + rewrite lookup_delete_eq in Hv. by destruct Hv.
    + rewrite lookup_delete_ne in Hv by done. rewrite stamp_delete by done. auto.
Qed.

(** Adding at the end of the order a user that is not in it. *)
Lemma push_inv u e g :
  inv g -> entries g !! u = None -> N.of_nat (size (entries g)) < max_capacity g ->
  inv (mk (<[u := KeyPackageEntry.set_timestamp (timestamp_counter g) e]> (entries g))
         (lru_order g ++ [u]) (max_capacity g) (timestamp_counter g + 1)).
Proof.
  intros [Ho Hn Hc Hs Hk] Hu Hlt.
  assert (Hni : u ∉ lru_order g) by (rewrite Ho, Hu; by intros [? ?]).
  constructor; simpl.
  - intros v. rewrite elem_of_app, list_elem_of_singleton, Ho.
    destruct (decide (v = u)) as [->|].
    + rewrite lookup_insert_eq. split; eauto.
    + rewrite lookup_insert_ne by done. tauto.
  - apply NoDup_app. split_and!; [done| |by apply NoDup_singleton].
    intros v Hv ->%list_elem_of_singleton. done.
  - rewrite map_size_insert_None by done. lia.
  - intros i j v w Hij Hv Hw. rewrite !stamp_insert.
    assert (Hvold : v <> u -> stamp g v < timestamp_counter g).
    { intros Hne. apply Hk, Ho. apply list_elem_of_lookup_2 in Hv.
      rewrite elem_of_app, list_elem_of_singleton in Hv. tauto. }
    assert (Hi' : (i < length (lru_order g))%nat).
    { apply lookup_lt_Some in Hw. rewrite length_app in Hw. simpl in Hw. lia. }
    rewrite lookup_app_l in Hv by done.
    assert (v <> u) by (intros ->; by apply list_elem_of_lookup_2 in Hv).
    rewrite decide_False by done. case_decide as Hwu; [auto|].
    destruct (decide (j < length (lru_order g))%nat).
    + rewrite lookup_app_l in Hw by done. by apply (Hs i j).
    + rewrite lookup_app_r in Hw by lia. apply list_lookup_singleton_Some in Hw as [_ ?]. congruence.
  - intros v Hv. rewrite stamp_insert. case_decide as E; [lia|].
    rewrite lookup_insert_ne in Hv by done. specialize (Hk v Hv). lia.
Qed.

Lemma retain_not_id u l : u ∉ l -> retain_not u l = l.
Proof.
  unfold retain_not. induction l as [|v l IH]; [done|].
  intros [Hv Hl]%not_elem_of_cons. rewrite filter_cons, decide_True by done. by rewrite IH.
Qed.

Lemma retain_not_head u l : NoDup (u :: l) -> retain_not u (u :: l) = l.
Proof.
  intros [Hu _]%NoDup_cons. unfold retain_not. rewrite filter_cons.
  rewrite decide_False by tauto. by apply retain_not_id.
Qed.

Lemma size_pos g u : is_Some (entries g !! u) -> (0 < size (entries g))%nat.
Proof.
  intros [e He]. assert (size (entries g) <> 0)%nat; [|lia].
  intros E%map_size_empty_inv. by rewrite E, lookup_empty in He.
Qed.

Lemma size_delete_lt g u :
  inv g -> is_Some (entries g !! u) ->
  N.of_nat (size (delete u (entries g))) < max_capacity g.
Proof.
  intros Hi Hu. pose proof (size_pos g u Hu). pose proof (inv_capacity g Hi).
  destruct Hu as [e He]. rewrite map_size_delete, He. simpl. lia.
Qed.

(** Dropping [v] and then adding [u], which has no other entry. *)
Lemma replace_inv u v e g :
  inv g -> is_Some (entries g !! v) -> (u = v \/ entries g !! u = None) ->
  inv (mk (<[u := KeyPackageEntry.set_timestamp (timestamp_counter g) e]>
             (delete v (entries g)))
         (retain_not v (lru_order g) ++ [u]) (max_capacity g) (timestamp_counter g + 1)).
Proof.
  intros Hi Hv Hu. pose proof (drop_inv v g _ Hi eq_refl) as Hd.
  pose proof (push_inv u e _ Hd) as Hp. simpl in Hp. apply Hp.
  - destruct Hu as [->|Hu]; [by rewrite lookup_delete_eq|]. by rewrite lookup_delete_None; right.
  - by apply size_delete_lt.
Qed.

(** The first user of the order is the one stored longest ago. *)
Lemma head_oldest g u l v :
  inv g -> lru_order g = u :: l -> is_Some (entries g !! v) -> v <> u -> stamp g u < stamp g v.
Proof.
  intros Hi Hl Hv Hne. apply (inv_order g Hi), list_elem_of_lookup in Hv as [j Hj].
  destruct j as [|j]; [rewrite Hl in Hj; simpl in Hj; congruence|].
  apply (inv_sorted g Hi 0 (S j)); [lia|by rewrite Hl|done].
Qed.

(** What [store] does in each case, for a counter that has not run out. *)
Lemma store_cases u e g :
  inv g -> timestamp_counter g < u64_MAX ->
  let e' := KeyPackageEntry.set_timestamp (timestamp_counter g) e in
  let put m l := mk (<[u := e']> m) (l ++ [u]) (max_capacity g) (timestamp_counter g + 1) in
  (is_Some (entries g !! u) /\
     store u e g = (put (delete u (entries g)) (retain_not u (lru_order g)), Ok Success)) \/
  (entries g !! u = None /\ N.of_nat (size (entries g)) < max_capacity g /\
     store u e g = (put (entries g) (lru_order g), Ok Success)) \/
  (entries g !! u = None /\ N.of_nat (size (entries g)) = max_capacity g /\
     exists oldest l, lru_order g = oldest :: l /\ is_Some (entries g !! oldest) /\
     store u e g = (put (delete oldest (entries g)) (retain_not oldest (lru_order g)), Ok Evicted)) \/
  (entries g !! u = None /\ max_capacity g = 0 /\
     store u e g = (mk (entries g) (lru_order g) (max_capacity g) (timestamp_counter g + 1), Ok Full)).
Proof.
  intros Hi Hlt. pose proof (inv_capacity g Hi) as Hc. unfold store. cbv zeta.
  rewrite (proj2 (checked_add_Some u64_MAX (timestamp_counter g) 1 (timestamp_counter g + 1))) by lia.
  destruct (entries g !! u) as [e0|] eqn:Hu.
  - left. rewrite bool_decide_eq_false_2 by done. simpl. split; [eauto|].
    by rewrite insert_delete_eq.
  - rewrite bool_decide_eq_true_2 by done. cbn [negb andb]. right.
    destruct (N.leb_spec (max_capacity g) (N.of_nat (size (entries g)))); [right|by left].
    destruct (lru_order g) as [|o l] eqn:Hl.
    + right. split_and!; try done. assert (Hz : size (entries g) = 0%nat); [|lia].
      apply map_size_empty_iff, map_empty. intros v. apply eq_None_not_Some.
      rewrite <- (inv_order g Hi), Hl. apply not_elem_of_nil.
    + left. split_and!; [done|lia|]. exists o, l. split; [done|]. split.
      { apply (inv_order g Hi). rewrite Hl. left. }
      pose proof (inv_nodup g Hi) as Hn. rewrite Hl in Hn. by rewrite retain_not_head.
Qed.

Lemma registry_step_inv g o : inv g -> inv (step g o).
Proof.
  intros Hi. destruct o as [u e|u]; simpl.
  - destruct (N.lt_ge_cases (timestamp_counter g) u64_MAX) as [Hlt|Hge].
    + destruct (store_cases u e g Hi Hlt) as [(Hu & ->)|[(Hu & Hc & ->)|[(Hu & Hc & o & l & Hl & Ho & ->)|(Hu & Hc & ->)]]];
        simpl.
      * apply replace_inv; auto.
      * by apply push_inv.
      * apply replace_inv; auto.
      * destruct Hi as [H1 H2 H3 H4 H5]. constructor; try done.
        intros v Hv. specialize (H5 v Hv). simpl. unfold stamp in *. simpl. lia.
    + unfold store. replace (checked_add _ _ _) with (@None N); [done|].
      symmetry. apply checked_add_None. lia.
  - unfold take. simpl. case_bool_decide as Hu; [by apply drop_inv|].
    apply drop_inv; [done|]. symmetry. apply retain_not_id. by rewrite (inv_order g Hi).
Qed.

Lemma with_capacity_inv n : inv (with_capacity n).
Proof.
  constructor; simpl.
  - intros u. rewrite lookup_empty. split; [by intros ?%not_elem_of_nil|by intros [? ?]].
  - by apply NoDup_nil.
  - rewrite map_size_empty. lia.
  - intros i j u v _ Hu. by rewrite lookup_nil in Hu.
  - intros u. rewrite lookup_empty. by intros [? ?].
Qed.

Lemma run_inv n ops : inv (run step (with_capacity n) ops).
Proof. apply run_invariant; [apply registry_step_inv|apply with_capacity_inv]. Qed.

(** ** Properties *)

(** C36: over any sequence of stores and takes the registry never holds more
    entries than its capacity, and its eviction order lists exactly the users
    that have an entry, each once, in the order in which they were last
    stored. *)
Theorem registry_bounded n ops :
  let g := run step (with_capacity n) ops in
  count g <= n /\ NoDup (lru_order g) /\
  (forall u, u ∈ lru_order g <-> has u g = true) /\
  (forall i j u v, (i < j)%nat -> lru_order g !! i = Some u -> lru_order g !! j = Some v ->
     stamp g u < stamp g v).
Proof.
  simpl. pose proof (run_inv n ops) as Hi. set (g := run step _ _) in *.
  assert (Hcap : max_capacity g = n).
  { unfold g. apply (run_invariant step (fun g => max_capacity g = n)); [|done].
    intros s o <-. destruct o as [u e|u]; simpl; [|done]. unfold store.
    by repeat case_match. }
  split_and!; [rewrite <- Hcap; apply (inv_capacity g Hi)|apply (inv_nodup g Hi)| |apply (inv_sorted g Hi)].
  intros u. unfold has. rewrite bool_decide_eq_true. apply (inv_order g Hi).
Qed.

(** Storing never loses more than the oldest entry: in every reachable
    registry with some capacity and an unexhausted counter, a store succeeds,
    the stored package is then the user's, and every other user keeps their
    package, except that a store for a new user in a full registry removes the
    package that was stored longest ago. *)
Theorem store_evicts_only_oldest n ops u e :
  let g := run step (with_capacity n) ops in
  0 < n -> timestamp_counter g < u64_MAX ->
  let '(g', res) := store u e g in
  entries g' !! u = Some (KeyPackageEntry.set_timestamp (timestamp_counter g) e) /\
  ((res = Ok Success /\ forall v, v <> u -> entries g' !! v = entries g !! v) \/
   (res = Ok Evicted /\ has u g = false /\ is_full g = true /\
    exists oldest, has oldest g = true /\ has oldest g' = false /\
      (forall v, has v g = true -> v <> oldest -> stamp g oldest < stamp g v) /\
      forall v, v <> u -> v <> oldest -> entries g' !! v = entries g !! v)).
Proof.
  simpl. intros Hn Hlt. pose proof (run_inv n ops) as Hi.
  assert (Hcap : max_capacity (run step (with_capacity n) ops) = n).
  { apply (run_invariant step (fun g => max_capacity g = n)); [|done].
    intros s o <-. destruct o as [v f|v]; simpl; [|done]. unfold store. by repeat case_match. }
  set (g := run step _ _) in *.
  destruct (store_cases u e g Hi Hlt) as [(Hu & ->)|[(Hu & Hc & ->)|[(Hu & Hc & o & l & Hl & Ho & ->)|(Hu & Hc & ->)]]];
    simpl; [| | |lia]; (split; [by rewrite lookup_insert_eq|]).
  - left. split; [done|]. intros v Hv. by rewrite lookup_insert_ne, lookup_delete_ne.
  - left. split; [done|]. intros v Hv. by rewrite lookup_insert_ne.
  - right. split; [done|]. unfold has, is_full. simpl.
    assert (Hou : o <> u) by (intros ->; rewrite Hu in Ho; by destruct Ho).
    split_and!; [rewrite Hu; by apply bool_decide_eq_false; intros [? ?]|by apply N.leb_le; lia|].
    exists o. split_and!.
    + by apply bool_decide_eq_true.
    + apply bool_decide_eq_false. rewrite lookup_insert_ne, lookup_delete_eq by done.
      by intros [? ?].
    + intros v Hv%bool_decide_eq_true Hne. by eapply head_oldest.
    + intros v Hv Hvo. by rewrite lookup_insert_ne, lookup_delete_ne.
Qed.

(** A KeyPackage is used once: a fetch hands out the package stored last
    for the user, removes it, touches no other user's, and the next fetch for
    the same user finds nothing. *)
Theorem take_consumes g u :
  let '(g1, r1) := take u g in
  r1 = entries g !! u /\ has u g1 = false /\
  (forall v, v <> u -> entries g1 !! v = entries g !! v) /\
  snd (take u g1) = None.
Proof.
  unfold take, has. simpl. rewrite lookup_delete_eq. split_and!; try done.
  intros v Hv. by rewrite lookup_delete_ne.
Qed.

Lemma store_evicts_only_oldest_witness :
  let e := KeyPackageEntry.new [Init.Byte.x01] [Init.Byte.x02] in
  let g := run step (with_capacity 2) [Store 1 e; Store 2 e; Store 1 e] in
  let '(g', res) := store 3 e g in
  entries g' !! 3 = Some (KeyPackageEntry.set_timestamp (timestamp_counter g) e) /\
  ((res = Ok Success /\ forall v, v <> 3 -> entries g' !! v = entries g !! v) \/
   (res = Ok Evicted /\ has 3 g = false /\ is_full g = true /\
    exists oldest, has oldest g = true /\ has oldest g' = false /\
      (forall v, has v g = true -> v <> oldest -> stamp g oldest < stamp g v) /\
      forall v, v <> 3 -> v <> oldest -> entries g' !! v = entries g !! v)).
Proof.
  apply (store_evicts_only_oldest 2 [Store 1 (KeyPackageEntry.new [Init.Byte.x01] [Init.Byte.x02]);
    Store 2 (KeyPackageEntry.new [Init.Byte.x01] [Init.Byte.x02]);
    Store 1 (KeyPackageEntry.new [Init.Byte.x01] [Init.Byte.x02])]);
    vm_compute; reflexivity.
Defined.

End KeyPackageRegistry.
