(* ===== verification/RoomManager.v ===== *)
(** * The room manager

    [RoomManager] of [lockframe-server/src/room_manager.rs]: the table of rooms
    over the sequencer.  A method that also takes the storage (or the
    environment) is a computation on the pair of the manager and the storage
    (the triple with the environment). *)

From S2P Require Import Prelude Env Opcodes Header Framing Validator Storage Sequencer.

Local Open Scope N_scope.

Record RoomMetadata := mkRoomMetadata { rm_creator : N; rm_created_at_secs : N }.

Inductive RoomAction :=
  | RABroadcast (room_id : N) (frame : Frame.t) (exclude_sender : bool) (processed_at : Instant)
  | RAPersistFrame (room_id log_index : N) (frame : Frame.t) (processed_at : Instant)
  | RAReject (sender_id : N) (reason : string) (processed_at : Instant)
  | RASendSyncResponse (sender_id room_id : N) (frames : list bytes) (has_more : bool)
      (processed_at : Instant).

Module RoomError.

Inductive t : Type :=
  | Sequencing (e : SequencerError.t)
  | Storage (e : StorageError.t)
  | RoomNotFound (room_id : N)
  | RoomAlreadyExists (room_id : N).

#[global] Instance room_error_eq_dec : EqDecision t.
Proof. solve_decision. Defined.

Definition display (e : t) : string :=
  match e with
  | Sequencing e => "Sequencer error: " +:+ SequencerError.display e
  | Storage e => "Storage error: " +:+ StorageError.display e
  | RoomNotFound r => "Room not found: " +:+ fmt_hex 32 r
  | RoomAlreadyExists r => "Room already exists: " +:+ fmt_hex 32 r
  end.

End RoomError.

Module RoomManager.

Record t := mk {
  sequencer : Sequencer.t;
  room_metadata : gmap N RoomMetadata }.

Definition new : t := mk Sequencer.new ∅.

Definition has_room (m : t) (room_id : N) : bool :=
  bool_decide (is_Some (room_metadata m !! room_id)).

(** [clear_room_sequencer]. *)
Definition clear_room_sequencer (room_id : N) (m : t) : t * bool :=
  let '(s, b) := Sequencer.clear_room room_id (sequencer m) in
  (mk s (room_metadata m), b).

Section manager.
Context `{Storage St}.

Abbreviation mgrM A := (M (t * St) RoomError.t A).

(** A storage call and a sequencer call, with their errors converted by [?]. *)
Definition storage_call {A} (c : storeM St A) : mgrM A := fun '(m, st) =>
  let '(st', r) := c st in ((m, st'), map_err RoomError.Storage r).

Definition sequencer_call {A} (c : M (Sequencer.t * St) SequencerError.t A) : mgrM A :=
  fun '(m, st) =>
    let '((s', st'), r) := c (sequencer m, st) in
    ((mk s' (room_metadata m), st'), map_err RoomError.Sequencing r).

Definition insert_metadata (room_id : N) (md : RoomMetadata) : mgrM unit := fun '(m, st) =>
  ((mk (sequencer m) (<[room_id := md]> (room_metadata m)), st), Ok tt).

Definition create_room `{Environment Env} (room_id creator : N)
    : M (Env * (t * St)) RoomError.t unit := fun '(env, (m, st)) =>
  if has_room m room_id then
    ((env, (m, st)), Err (RoomError.RoomAlreadyExists room_id))
  else
    let '(created_at_secs, env') := wall_clock_secs env in
    let '(σ, r) :=
      (storage_call (Storage.create_room room_id
         (mkStoredRoomMetadata creator created_at_secs));;
       insert_metadata room_id (mkRoomMetadata creator created_at_secs)) (m, st) in
    ((env', σ), r).

(** [f.encode(&mut buf).expect(..)] for each frame. *)
Fixpoint encode_frames (fs : list Frame.t) : res RoomError.t (list bytes) :=
  match fs with
  | [] => Ok []
  | f :: fs' =>
      match Frame.encode f [] with
      | Ok buf => bufs ← encode_frames fs'; mret (buf :: bufs)
      | _ => Panic
      end
  end.

Definition handle_sync_request (room_id sender_id from_log_index limit : N) (now : Instant)
    : mgrM RoomAction :=
  σ ← get;
  if negb (has_room (fst σ) room_id) then throw (RoomError.RoomNotFound room_id)
  else
    frames ← storage_call (load_frames room_id from_log_index limit);
    frame_bytes ← lift (encode_frames frames);
    latest_index ← storage_call (latest_log_index room_id);
    last_loaded_index ← lift
      (match frames with
       | [] => Ok (saturating_sub from_log_index 1)
       | _ => sum ← add_panic u64_MAX from_log_index (len frames); mret (sum - 1)
       end);
    let has_more :=
      match latest_index with
      | Some latest => last_loaded_index <? latest
      | None => false
      end in
    mret (RASendSyncResponse sender_id room_id frame_bytes has_more now).

Definition recover_room (room_id : N) : mgrM unit :=
  σ ← get;
  if has_room (fst σ) room_id then mret tt
  else
    stored ← storage_call (load_room_metadata room_id);
    stored' ← lift (ok_or stored (RoomError.RoomNotFound room_id));
    insert_metadata room_id (mkRoomMetadata (creator stored') (created_at_secs stored'));;
    sequencer_call (Sequencer.initialize_room room_id).

(** The [filter_map] of [process_frame]. *)
Definition to_room_action (now : Instant) (a : SequencerAction) : option RoomAction :=
  match a with
  | AcceptFrame _ _ _ => None
  | StoreFrame room_id log_index frame => Some (RAPersistFrame room_id log_index frame now)
  | BroadcastToRoom room_id frame => Some (RABroadcast room_id frame false now)
  | RejectFrame _ reason original_frame =>
      Some (RAReject (FrameHeader.sender_id (Frame.header original_frame)) reason now)
  end.

Definition process_frame (frame : Frame.t) (now : Instant) : mgrM (list RoomAction) :=
  let room_id := FrameHeader.room_id (Frame.header frame) in
  σ ← get;
  if negb (has_room (fst σ) room_id) then throw (RoomError.RoomNotFound room_id)
  else
    sequencer_actions ← sequencer_call (Sequencer.process_frame frame);
    mret (omap (to_room_action now) sequencer_actions).

End manager.

(** ** Lemmas *)

Section lemmas.
Context `{StorageSpec St}.

Lemma has_room_spec m r : has_room m r = true <-> is_Some (room_metadata m !! r).
Proof. unfold has_room. apply bool_decide_eq_true. Qed.

(** [process_frame] in terms of the sequencer's outcomes. *)
Lemma process_frame_cases m (st : St) frame now :
  let r := FrameHeader.room_id (Frame.header frame) in
  storage_inv st -> Frame.wf frame -> Sequencer.bounded (sequencer m) ->
  let '((m', st'), res) := process_frame frame now (m, st) in
  storage_inv st' /\ unchanged view st st' /\ room_metadata m' = room_metadata m /\
  (has_room m r = false /\ m' = m /\ res = Err (RoomError.RoomNotFound r) \/
   has_room m r = true /\
   exists sres, Sequencer.outcome (sequencer m) st frame (sequencer m') sres /\
     res = match sres with
           | Ok acts => Ok (omap (to_room_action now) acts)
           | Err e => Err (RoomError.Sequencing e)
           | Panic => Panic
           end).
Proof.
  intros r Hi Hw Hb. unfold process_frame. fold r. unfold mbind at 1, M_bind at 1, get at 1.
  cbv beta iota. cbn [fst]. destruct (has_room m r) eqn:Hr; cbn [negb].
  - unfold mbind at 1, M_bind at 1, sequencer_call.
    pose proof (Sequencer.process_frame_outcome (sequencer m) st frame Hi Hw (fun n => Hb _ n)) as Ho.
    destruct (Sequencer.process_frame frame (sequencer m, st)) as [[s' st'] sres].
    destruct Ho as (Hi' & Hu & Ho).
    destruct sres as [acts|e|]; cbn; split_and!; try done; right; (split; [done|]); eauto.
  - cbn. split_and!; try done. by left.
Qed.

(** A sync only reads. *)
Lemma handle_sync_request_reads m (st : St) r sender from limit now :
  storage_inv st -> r < 2 ^ 128 -> from < 2 ^ 64 ->
  let '((m', st'), res) := handle_sync_request r sender from limit now (m, st) in
  m' = m /\ storage_inv st' /\ unchanged view st st'.
Proof.
  intros Hi Hr Hfrom. unfold handle_sync_request, mbind at 1, M_bind at 1, get at 1.
  cbv beta iota. cbn [fst]. destruct (negb _); [done|].
  unfold mbind at 1, M_bind at 1, storage_call at 1.
  pose proof (load_frames_spec r from limit st Hi Hr Hfrom) as Hload. unfold reads in Hload.
  destruct (load_frames r from limit st) as [st1 [fs|e|]]; destruct Hload as (Hi1 & Hu1 & _);
    cbn [map_err]; [|done..].
  unfold mbind at 1, M_bind at 1, lift at 1. destruct (encode_frames fs) as [bufs|e|]; [|done..].
  unfold mbind at 1, M_bind at 1, storage_call at 1.
  pose proof (latest_log_index_spec r st1 Hi1 Hr) as Hlat. unfold reads in Hlat.
  assert (Htrans : forall st2, unchanged view st1 st2 -> unchanged view st st2).
  { intros st2 H2 r'. by rewrite H2, Hu1. }
  destruct (latest_log_index r st1) as [st2 [o|e|]]; destruct Hlat as (Hi2 & Hu2 & _);
    cbn [map_err]; [|by split_and!; eauto..].
  unfold mbind at 1, M_bind at 1, lift at 1.
  destruct (match fs with [] => _ | _ => _ end) as [l|e|]; [|by split_and!; eauto..].
  cbn. split_and!; eauto.
Qed.

Lemma handle_sync_request_yields r sender from limit now :
  yields (fun a => exists fs more, a = RASendSyncResponse sender r fs more now)
    (handle_sync_request (St := St) r sender from limit now).
Proof.
  unfold handle_sync_request. apply (yields_bind (fun _ => True)); [done|]. intros σ _.
  destruct (negb _); [apply yields_throw|].
  do 4 (apply (yields_bind (fun _ => True)); [done|]; intros ? _).
  apply yields_ret. eauto.
Qed.

Lemma create_room_cases `{Environment Env} r creator (env : Env) m (st : St) :
  storage_inv st -> r < 2 ^ 128 ->
  let '((env', (m', st')), res) := create_room r creator (env, (m, st)) in
  storage_inv st' /\
  ((is_ok res = false /\ m' = m /\ unchanged view st st') \/
   (exists md, res = Ok tt /\ has_room m r = false /\ changed_at view r (set_meta md) st st' /\
      m' = mk (sequencer m)
             (<[r := mkRoomMetadata (Storage.creator md) (Storage.created_at_secs md)]>
                (room_metadata m)))).
Proof.
  intros Hi Hr. unfold create_room. destruct (has_room m r) eqn:Hroom.
  { cbn. split; [done|]. by left. }
  destruct (wall_clock_secs env) as [secs env']. unfold mbind, M_bind, storage_call.
  pose proof (create_room_spec r (mkStoredRoomMetadata creator secs) st Hi Hr) as Hc.
  unfold writes in Hc.
  destruct (Storage.create_room r _ st) as [st' [[]|e|]]; destruct Hc as [Hi' Hc];
    cbn; (split; [done|]); [|by left..].
  right. by eexists (mkStoredRoomMetadata creator secs).
Qed.

Lemma recover_room_cases `{!StorageTotal St} m (st : St) r :
  storage_inv st -> r < 2 ^ 128 -> is_Some (rv_meta (view st r)) ->
  len (rv_log (view st r)) <= u64_MAX ->
  let '((m', st'), res) := recover_room r (m, st) in
  res = Ok tt /\ storage_inv st' /\ unchanged view st st' /\
  (forall r', Sequencer.start (sequencer m') st' r' = Sequencer.start (sequencer m) st r') /\
  (forall r', has_room m' r' = true <-> has_room m r' = true \/ r' = r).
Proof.
  intros Hi Hr [md Hmd] Hlen. unfold recover_room, mbind at 1, M_bind at 1, get at 1.
  cbv beta iota. cbn [fst]. destruct (has_room m r) eqn:Hroom.
  { cbn. split_and!; try done. intros r'. split; [by left|]. by intros [ | ->]. }
  unfold mbind at 1, M_bind at 1, storage_call at 1.
  pose proof (load_room_metadata_spec r st Hi Hr) as Hl. unfold reads in Hl.
  pose proof (load_room_metadata_total r st Hi) as Ht.
  destruct (load_room_metadata r st) as [st1 [o|e|]]; try done. destruct Hl as (Hi1 & Hu1 & Ho).
  rewrite (Ho o eq_refl), Hmd. cbn [map_err].
  unfold mbind at 1, M_bind at 1, lift at 1. cbn [ok_or].
  unfold mbind at 1, M_bind at 1, insert_metadata at 1, sequencer_call. cbn [sequencer].
  pose proof (Sequencer.initialize_room_start (sequencer m) st1 r Hi1 Hr) as Hini.
  destruct (Sequencer.initialize_room r (sequencer m, st1)) as [[s2 st2] res2].
  destruct Hini as (Hi2 & Hu2 & _ & Hstart & Hok).
  rewrite (Hok (latest_log_index_total r st1 Hi1)) by (by rewrite Hu1).
  cbn. split_and!; try done.
  - intros r'. by rewrite Hu2, Hu1.
  - intros r'. rewrite Hstart. unfold Sequencer.start. by rewrite Hu1.
  - intros r'. rewrite !has_room_spec. cbn. destruct (decide (r' = r)) as [->|].
    + rewrite lookup_insert_eq. split; eauto.
    + rewrite lookup_insert_ne by done. naive_solver.
Qed.

Lemma encode_frames_wf fs :
  Forall Frame.wf fs -> encode_frames fs = Ok (map Frame.wire fs).
Proof.
  induction 1 as [|f fs Hf Hfs IH]; [done|]. cbn [encode_frames map].
  rewrite Frame.encode_wf by done. rewrite IH. done.
Qed.

(** Which frames are left after the slice [[from, from + limit)] of a log. *)
Lemma sync_last_loaded (log fs : list Frame.t) from limit :
  fs = take (N.to_nat limit) (drop (N.to_nat from) log) -> len log <= u64_MAX ->
  exists last,
    (match fs with
     | [] => Ok (saturating_sub from 1)
     | _ => sum ← add_panic (E := RoomError.t) u64_MAX from (len fs); mret (sum - 1)
     end) = Ok last /\
    (match last_index log with Some latest => last <? latest | None => false end
     = (from + len fs <? len log)
       && negb (bool_decide (fs = [] /\ from = 0 /\ len log = 1))).
Proof.
  intros Hfs Hlen.
  assert (Hl : len fs <= len log - from).
  { rewrite Hfs. unfold len. rewrite length_take, length_drop. lia. }
  destruct fs as [|f fs].
  - exists (saturating_sub from 1). split; [done|]. unfold saturating_sub.
    destruct log as [|g log].
    { cbn [last_index]. by rewrite (proj2 (N.ltb_ge (from + len []) (len []))) by (unfold len; simpl; lia). }
    unfold last_index. set (L := len (g :: log)) in *.
    assert (1 <= L) by (unfold L, len; simpl; lia). unfold len at 1. cbn [length].
    case_bool_decide as Hc; destruct_and?.
    + rewrite andb_false_r. apply N.ltb_ge. lia.
    + rewrite andb_true_r. destruct (N.ltb_spec (from + N.of_nat 0) L).
      * apply N.ltb_lt. assert (from <> 0 \/ L <> 1) by (destruct (decide (from = 0)); [right|left]; naive_solver).
        lia.
      * apply N.ltb_ge. lia.
  - exists (from + len (f :: fs) - 1). set (k := len (f :: fs)) in *.
    assert (1 <= k) by (unfold k, len; simpl; lia). split.
    { unfold add_panic. by rewrite (proj2 (checked_add_Some u64_MAX from k (from + k))) by lia. }
    rewrite bool_decide_eq_false_2 by (by intros [? _]). rewrite andb_true_r.
    destruct log as [|g log]; [rewrite (len_nil (A := Frame.t)) in Hl; lia|]. unfold last_index.
    set (L := len (g :: log)) in *.
    destruct (N.ltb_spec (from + k) L); [apply N.ltb_lt; lia|apply N.ltb_ge; lia].
Qed.

(** ** Properties *)

(** C29: a sync answers with exactly the requested part of the log.  On any
    storage that meets its contract, whatever calls of it fail, for a room whose
    log is of well-formed frames and shorter than 2^64, and a 64-bit index: the
    call changes nothing; an answer carries the encodings of the stored frames
    [from], ..., [from + limit - 1] (as far as they exist), each of which decodes
    to the stored frame, and [has_more] says whether the log goes on, but for the
    request of no frames from index 0 of a log of one frame, where it is [false];
    an error is that the room is unknown, or the error of one of the two reads of
    the storage; and the call panics only when one of these reads does. *)
Theorem sync_answers_log_slice m st r sender from limit now :
  storage_inv st -> r < 2 ^ 128 -> from < 2 ^ 64 ->
  Forall Frame.wf (rv_log (view st r)) -> len (rv_log (view st r)) <= u64_MAX ->
  let log := rv_log (view st r) in
  let fs := take (N.to_nat limit) (drop (N.to_nat from) log) in
  let '(st1, loaded) := load_frames r from limit st in
  let latest := snd (latest_log_index r st1) in
  let '((m', st'), res) := handle_sync_request r sender from limit now (m, st) in
  m' = m /\ unchanged view st st' /\
  match res with
  | Ok a =>
      has_room m r = true /\
      a = RASendSyncResponse sender r (map Frame.wire fs)
            ((from + len fs <? len log)
             && negb (bool_decide (fs = [] /\ from = 0 /\ len log = 1))) now /\
      map Frame.decode (map Frame.wire fs) = map Ok fs
  | Err e => e = RoomError.RoomNotFound r /\ has_room m r = false \/
      exists se, e = RoomError.Storage se /\ (loaded = Err se \/ latest = Err se)
  | Panic => loaded = Panic \/ latest = Panic
  end.
Proof.
  intros Hi Hr Hfrom Hw Hlen log fs.
  pose proof (load_frames_spec r from limit st Hi Hr Hfrom) as Hload. unfold reads in Hload.
  destruct (load_frames r from limit st) as [st1 loaded] eqn:Hl. destruct Hload as (Hi1 & Hu1 & Hpost).
  intros latest. unfold handle_sync_request.
  unfold mbind at 1, M_bind at 1, get at 1. cbv beta iota. cbn [fst].
  destruct (has_room m r) eqn:Hroom; cbn [negb]; [|cbn; split_and!; try done; by left].
  unfold mbind at 1, M_bind at 1, storage_call at 1. rewrite Hl.
  destruct loaded as [fs1|e|]; cbn [map_err]; [|cbn; split_and!; try done; eauto..].
  specialize (Hpost fs1 eq_refl). fold log fs in Hpost. subst fs1.
  assert (Hfs : Forall Frame.wf fs) by (by apply Forall_take, Forall_drop).
  unfold mbind at 1, M_bind at 1, lift at 1. rewrite encode_frames_wf by done.
  pose proof (latest_log_index_spec r st1 Hi1 Hr) as Hlat. unfold reads in Hlat.
  unfold mbind at 1, M_bind at 1, storage_call at 1. unfold latest. clear latest.
  destruct (latest_log_index r st1) as [st2 [o|e|]]; destruct Hlat as (Hi2 & Hu2 & Hpost2); cbn [map_err].
  2,3: cbn; split_and!; eauto; intros r'; by rewrite Hu2, Hu1. rewrite (Hpost2 o eq_refl), Hu1. fold log.
  destruct (sync_last_loaded log fs from limit eq_refl Hlen) as (last & Hlast & Hmore).
  unfold mbind at 1, M_bind at 1, lift at 1. rewrite Hlast. cbv zeta. rewrite Hmore.
  cbn -[len]. split_and!; try done.
  - intros r'. by rewrite Hu2, Hu1.
  - clear -Hfs. induction Hfs as [|f fs Hf Hfs IH]; [done|]. cbn [map]. rewrite IH. f_equal.
    pose proof (Frame.decode_wire f [] Hf) as E. by rewrite app_nil_r in E.
Qed.

End lemmas.
(** ** Witnesses *)

Definition sample_manager : t := mk Sequencer.new {[ 5 := mkRoomMetadata 1 0 ]}.

(** A storage whose room 5 has three frames. *)
Definition sample_storage : MemoryStorage.t :=
  MemoryStorage.mk {[ 5 := mkStoredRoomMetadata 1 0 ]}
    {[ 5 := [Sequencer.at_index 0 Sequencer.room_sample;
             Sequencer.at_index 1 Sequencer.room_sample;
             Sequencer.at_index 2 Sequencer.room_sample] ]} ∅ ∅.

Lemma sync_answers_log_slice_witness :
  let '((m', st'), res) := handle_sync_request 5 9 1 1 0 (sample_manager, sample_storage) in
  m' = sample_manager /\
  exists bufs, res = Ok (RASendSyncResponse 9 5 bufs true 0).
Proof.
  assert (Hw : Forall Frame.wf (rv_log (view sample_storage 5))).
  { repeat constructor; vm_compute; repeat split; discriminate. }
  assert (Hi : storage_inv sample_storage) by exact I.
  pose proof (sync_answers_log_slice sample_manager sample_storage 5 9 1 1 0 Hi
    ltac:(vm_compute; reflexivity) ltac:(vm_compute; reflexivity) Hw
    ltac:(vm_compute; discriminate)) as H.
  cbv zeta in H. destruct (load_frames 5 1 1 sample_storage) as [st1 loaded].
  destruct (handle_sync_request 5 9 1 1 0 (sample_manager, sample_storage)) as [[m' st'] res] eqn:E.
  destruct H as (-> & _ & H). split; [done|].
  destruct res as [a|e|]; [|exfalso; vm_compute in E; discriminate E..].
  destruct H as (_ & -> & _). eexists. vm_compute. reflexivity.
Defined.

End RoomManager.
