(* ===== verification/FuzzSequencer.v ===== *)
(** * The fuzz target of the sequencer

    [fuzz/fuzz_targets/sequencer_state_fuzzer.rs] as a function of its input,
    where a failed assertion is a panic, and the theorem that no input makes it
    fail. *)

From S2P Require Import Prelude Env Opcodes Header Framing Payloads Validator Storage Sequencer.
From S2P Require Import FuzzWire.

Local Open Scope N_scope.

(** Frames are checked to stand at their positions, from [i] on. *)
Fixpoint check_indices (i : N) (frames : list Frame.t) : res unit unit :=
  match frames with
  | [] => Ok tt
  | f :: rest =>
      j ← DebugHeader.log_index (Frame.header f);
      asserts (j =? i);;
      check_indices (i + 1) rest
  end.

(** The frames of a log stand at their indices, and none is a Welcome. *)
Definition indexed (log : list Frame.t) : Prop :=
  forall i f, log !! i = Some f ->
    FrameHeader.log_index (Frame.header f) = N.of_nat i /\
    FrameHeader.opcode_enum (Frame.header f) <> Some Opcode.Welcome.

Lemma check_indices_ok frames : forall k,
  (forall i f, frames !! i = Some f ->
     FrameHeader.log_index (Frame.header f) = k + N.of_nat i /\
     FrameHeader.opcode_enum (Frame.header f) <> Some Opcode.Welcome) ->
  check_indices k frames = Ok tt.
Proof.
  induction frames as [|f frames IH]; intros k H; [done|]. cbn [check_indices].
  destruct (H 0%nat f eq_refl) as [Hi Hw].
  rewrite FrameBoundary.log_index_not_welcome by done. cbn [mbind res_bind].
  rewrite Hi, N.add_0_r, N.eqb_refl. cbn [asserts mbind res_bind]. apply IH. intros i g Hg.
  destruct (H (S i) g Hg) as [-> ?]. split; [lia|done].
Qed.

Lemma check_indexed frames : indexed frames -> check_indices 0 frames = Ok tt.
Proof. intros H. by apply check_indices_ok. Qed.

Lemma indexed_nil : indexed [].
Proof. by intros i f. Qed.

Lemma indexed_snoc log f : indexed log ->
  FrameHeader.log_index (Frame.header f) = len log ->
  FrameHeader.opcode_enum (Frame.header f) <> Some Opcode.Welcome -> indexed (log ++ [f]).
Proof.
  intros Hl Hi Hw i g. rewrite lookup_app. destruct (log !! i) as [x|] eqn:E.
  - intros [= <-]. by apply Hl.
  - apply lookup_ge_None in E. intros [E' ->]%list_lookup_singleton_Some. split; [|done].
    rewrite Hi. unfold len. lia.
Qed.

Lemma indexed_take n log : indexed log -> indexed (take n log).
Proof. intros H i f [? _]%lookup_take_Some. by apply H. Qed.

(** A frame without payload around a header that [new] and the setters made. *)
Lemma empty_frame op h :
  FrameHeader.wf h -> FrameHeader.f_magic h = FrameHeader.f_magic (FrameHeader.new op) ->
  FrameHeader.f_version h = FrameHeader.f_version (FrameHeader.new op) ->
  Frame.new (E := unit) h [] = Ok (Frame.mk (FrameHeader.set_payload_size 0 h) []) /\
  Frame.wf (Frame.mk (FrameHeader.set_payload_size 0 h) []).
Proof.
  intros Hw Hm Hv. destruct (FrameHeader.new_valid op) as (Hm' & Hv' & _).
  destruct (Frame.new_frame_wf (E := unit) h []) as (f & Hf & Hfw & _); [done| | |done|].
  { unfold FrameHeader.magic in *. by rewrite Hm. }
  { unfold FrameHeader.version in *. by rewrite Hv. }
  rewrite Frame.new_Ok in Hf |- * by done. by injection Hf as <-.
Qed.

(** A header with the fields that [set_room_id] or [set_epoch] wrote. *)
Lemma room_id_field r h : r < 2 ^ 128 ->
  FrameHeader.f_room_id h = to_be_bytes 16 r -> FrameHeader.room_id h = r.
Proof.
  intros Hr Hh. rewrite <- (FrameHeader.room_id_set r h Hr). unfold FrameHeader.room_id.
  cbn [FrameHeader.f_room_id FrameHeader.set_room_id]. by rewrite Hh.
Qed.

Lemma epoch_field e h : e < 2 ^ 64 ->
  FrameHeader.f_epoch h = to_be_bytes 8 e -> FrameHeader.epoch h = e.
Proof.
  intros He Hh. rewrite <- (FrameHeader.epoch_set e h He). unfold FrameHeader.epoch.
  cbn [FrameHeader.f_epoch FrameHeader.set_epoch]. by rewrite Hh.
Qed.

(** ** [sequencer_state_fuzzer] *)

Module SequencerFuzz.

Inductive RoomIdChoice := RZero | RSmall (v : N) | RMaxU128.
Inductive FrameType := Valid (opcode epoch : N) | EpochOverflow.
Inductive SequencerOp :=
  | ProcessFrame (room_id : RoomIdChoice) (frame_type : FrameType)
  | CheckLogIndex (room_id : RoomIdChoice).

Definition get_room_id (choice : RoomIdChoice) : N :=
  match choice with
  | RZero => 0
  | RSmall v => N.min (N.max v 1) 10
  | RMaxU128 => u128_MAX
  end.

Definition create_frame (frame_type : FrameType) (room_id : N) : res unit Frame.t :=
  match frame_type with
  | Valid opcode epoch =>
      let op := default Opcode.AppMessage (Opcode.from_u16 opcode) in
      let header := FrameHeader.set_sender_id 100 (FrameHeader.set_epoch epoch
        (FrameHeader.set_room_id room_id (FrameHeader.new op))) in
      header ← (if bool_decide (op = Opcode.Welcome) then Ok header else DebugHeader.set_log_index 0 header);
      Frame.new header []
  | EpochOverflow =>
      let header := FrameHeader.set_sender_id 100 (FrameHeader.set_epoch u64_MAX
        (FrameHeader.set_room_id room_id (FrameHeader.new Opcode.AppMessage))) in
      Frame.new header []
  end.

(** The variables of the target. *)
Record sq := mkSq {
  sq_sequencer : Sequencer.t;
  sq_storage : MemoryStorage.t;
  expected_indices : gmap N N }.

Definition on_action (room_id : N) (a : SequencerAction) (s : sq) : res unit sq :=
  match a with
  | AcceptFrame action_room log_index _ =>
      asserts (action_room =? room_id);;
      let expected := default 0 (expected_indices s !! room_id) in
      asserts (log_index =? expected);;
      next ← add_panic u64_MAX expected 1;
      Ok (mkSq (sq_sequencer s) (sq_storage s) (<[room_id := next]> (expected_indices s)))
  | RejectFrame _ _ _ => Panic
  | StoreFrame action_room log_index frame =>
      asserts (action_room =? room_id);;
      let '(st', r) := store_frame action_room log_index frame (sq_storage s) in
      discard r;;
      Ok (mkSq (sq_sequencer s) st' (expected_indices s))
  | BroadcastToRoom _ _ => Ok s
  end.

Fixpoint on_actions (room_id : N) (acts : list SequencerAction) (s : sq) : res unit sq :=
  match acts with
  | [] => Ok s
  | a :: rest => s ← on_action room_id a s; on_actions room_id rest s
  end.

Definition on_frame (room_id : N) (frame_type : FrameType) (s : sq) : res unit sq :=
  frame ← create_frame frame_type room_id;
  let '((q', st'), r) := Sequencer.process_frame frame (sq_sequencer s, sq_storage s) in
  let s' := mkSq q' st' (expected_indices s) in
  match r with
  | Panic => Panic
  | Err _ => Ok s'
  | Ok actions =>
      asserts (negb (room_id =? 0));;
      asserts (match frame_type with Valid _ _ => true | EpochOverflow => false end);;
      on_actions room_id actions s'
  end.

Definition check_latest (room_id : N) (s : sq) : res unit sq :=
  let '(st', r) := latest_log_index room_id (sq_storage s) in
  let expected := default 0 (expected_indices s !! room_id) in
  match r with
  | Panic => Panic
  | Err _ => Ok tt
  | Ok (Some latest) => if 0 <? expected then asserts (latest =? expected - 1) else Ok tt
  | Ok None => asserts (expected =? 0)
  end;;
  Ok (mkSq (sq_sequencer s) st' (expected_indices s)).

Definition on_op (o : SequencerOp) (s : sq) : res unit sq :=
  match o with
  | ProcessFrame room_id frame_type => on_frame (get_room_id room_id) frame_type s
  | CheckLogIndex room_id => check_latest (get_room_id room_id) s
  end.

Fixpoint on_ops (ops : list SequencerOp) (s : sq) : res unit sq :=
  match ops with
  | [] => Ok s
  | o :: rest => s ← on_op o s; on_ops rest s
  end.

Definition verify_sequential_indices (room_id expected_count : N) (st : MemoryStorage.t)
    : res unit unit :=
  match snd (load_frames room_id 0 (N.max expected_count 1) st) with
  | Panic => Panic
  | Err _ => Ok tt
  | Ok frames => asserts (len frames =? expected_count);; check_indices 0 frames
  end.

Fixpoint verify_rooms (rooms : list (N * N)) (st : MemoryStorage.t) : res unit unit :=
  match rooms with
  | [] => Ok tt
  | (room_id, count) :: rest => verify_sequential_indices room_id count st;; verify_rooms rest st
  end.

Definition target (ops : list SequencerOp) : res unit unit :=
  s ← on_ops ops (mkSq Sequencer.new MemoryStorage.new ∅);
  verify_rooms (map_to_list (expected_indices s)) (sq_storage s).

(** ** The sequencer meets its target *)

Definition typed_frame (frame_type : FrameType) : Prop :=
  match frame_type with Valid opcode epoch => opcode < 2 ^ 16 /\ epoch < 2 ^ 8 | _ => True end.
Definition typed_op (o : SequencerOp) : Prop :=
  match o with ProcessFrame _ frame_type => typed_frame frame_type | _ => True end.
Definition typed (ops : list SequencerOp) : Prop := Forall typed_op ops /\ len ops < u64_MAX.

Lemma get_room_id_lt choice : get_room_id choice < 2 ^ 128.
Proof. destruct choice; cbn [get_room_id]; [done| |done]. lia. Qed.

Lemma create_frame_ok frame_type r : r < 2 ^ 128 -> typed_frame frame_type ->
  exists f, create_frame frame_type r = Ok f /\ Frame.wf f /\
    FrameHeader.room_id (Frame.header f) = r /\
    (frame_type = EpochOverflow -> FrameHeader.epoch (Frame.header f) = u64_MAX).
Proof.
  intros Hr Ht. destruct frame_type as [opcode epoch|]; cbn [create_frame].
  - set (op := default _ _). set (h := FrameHeader.set_sender_id _ _).
    assert (Hw : FrameHeader.wf h) by (unfold h; auto using FrameHeader.new_wf with lockframe).
    assert (Ho : FrameHeader.opcode_enum h = Some op) by apply (FrameHeader.opcode_enum_new op).
    assert (Hh : exists h', (if bool_decide (op = Opcode.Welcome) then Ok h
        else DebugHeader.set_log_index (E := unit) 0 h) = Ok h' /\ FrameHeader.wf h' /\
        FrameHeader.f_magic h' = FrameHeader.f_magic h /\
        FrameHeader.f_version h' = FrameHeader.f_version h /\
        FrameHeader.f_room_id h' = FrameHeader.f_room_id h).
    { case_bool_decide as E; [by exists h|]. unfold DebugHeader.set_log_index, DebugHeader.is_welcome.
      rewrite Ho, bool_decide_eq_false_2 by congruence. eexists. split; [done|].
      split; [by apply FrameHeader.set_log_index_wf|done]. }
    destruct Hh as (h' & -> & Hw' & Hm & Hv & Hrm). cbn [mbind res_bind].
    destruct (empty_frame op h' Hw') as [-> Hf]; [by rewrite Hm|by rewrite Hv|].
    eexists. split; [done|]. split; [done|]. split; [|done].
    apply room_id_field; [done|]. exact Hrm.
  - set (h := FrameHeader.set_sender_id _ _).
    assert (Hw : FrameHeader.wf h) by (unfold h; auto using FrameHeader.new_wf with lockframe).
    destruct (empty_frame Opcode.AppMessage h Hw) as [-> Hf]; [done..|].
    eexists. split; [done|]. split; [done|].
    split; [by apply room_id_field|intros _; by apply epoch_field].
Qed.

(** After [k] operations: the log of a room, the sequencer's next index and the
    target's counter agree, and the log is indexed. *)
Record sq_inv (k : N) (s : sq) : Prop := {
  inv_bounded : Sequencer.bounded (sq_sequencer s);
  inv_keys r : is_Some (expected_indices s !! r) -> r < 2 ^ 128;
  inv_room r :
    let log := rv_log (view (sq_storage s) r) in
    default 0 (expected_indices s !! r) = len log /\
    Sequencer.start (sq_sequencer s) (sq_storage s) r = len log /\
    indexed log /\ len log <= k }.

Lemma sq_inv_reads k s st' : sq_inv k s -> unchanged view (sq_storage s) st' ->
  sq_inv (k + 1) (mkSq (sq_sequencer s) st' (expected_indices s)).
Proof.
  intros [Hb Hk Hr] Hu. split; [done..|]. intros r. cbn [sq_storage sq_sequencer expected_indices].
  destruct (Hr r) as (He & Hs & Hi & Hl). rewrite Hu. split_and!; [done| |done|lia].
  unfold Sequencer.start in *. by rewrite Hu.
Qed.

(** What a sequenced frame does to the three: accepted, counted and stored. *)
Lemma sequenced_ok k s st' f i :
  let r := FrameHeader.room_id (Frame.header f) in
  sq_inv k s -> k < u64_MAX -> Frame.wf f -> unchanged view (sq_storage s) st' ->
  FrameHeader.opcode_enum (Frame.header f) <> Some Opcode.Welcome ->
  Sequencer.next_index (sq_sequencer s) (sq_storage s) r i -> i < u64_MAX ->
  exists s', on_actions r [AcceptFrame r i (Sequencer.at_index i f); StoreFrame r i (Sequencer.at_index i f);
                           BroadcastToRoom r (Sequencer.at_index i f)]
      (mkSq (Sequencer.mk (<[r := i + 1]> (Sequencer.rooms (sq_sequencer s)))) st'
         (expected_indices s)) = Ok s' /\ sq_inv (k + 1) s'.
Proof.
  intros r [Hb Hk Hr] Hlt Hw Hu Hwel Hn Hi. destruct (Hr r) as (He & Hs & Hix & Hl).
  rewrite (Sequencer.next_index_start _ _ _ _ Hn) in Hs.
  assert (Hr128 : r < 2 ^ 128) by (apply FrameHeader.room_id_lt, Hw).
  assert (Hi64 : i < 2 ^ 64) by (unfold u64_MAX in Hi; lia).
  pose proof (store_frame_spec r i (Sequencer.at_index i f) st' I Hr128 Hi64 (Sequencer.at_index_wf i f Hw)) as Hst.
  pose proof (store_frame_accepts r (Sequencer.at_index i f) st' I) as Hacc. rewrite Hu, <- Hs in Hacc.
  cbn [on_actions on_action expected_indices sq_storage sq_sequencer].
  rewrite N.eqb_refl, He, Hs, N.eqb_refl. cbn [asserts mbind res_bind]. unfold add_panic.
  rewrite <- Hs, (proj2 (checked_add_Some u64_MAX i 1 (i + 1))) by lia. cbn [expect mbind res_bind].
  cbn [sq_storage].
  destruct (store_frame r i (Sequencer.at_index i f) st') as [st2 res]. cbn in Hacc. subst res.
  cbn [discard mbind res_bind]. eexists. split; [done|].
  destruct Hst as (_ & _ & Hv & Ho). split; cbn [sq_storage sq_sequencer expected_indices].
  - apply Sequencer.bounded_insert; [done|lia].
  - intros r' [x Hx]. destruct (decide (r' = r)) as [->|]; [done|].
    rewrite lookup_insert_ne in Hx by done. eauto.
  - intros r'. destruct (decide (r' = r)) as [->|Hne].
    + rewrite Hv, Hu. unfold Sequencer.start. cbn [Sequencer.rooms rv_log push_frame].
      rewrite !lookup_insert_eq, len_app, <- Hs. split_and!; [done..| |change (len [Sequencer.at_index i f]) with 1; lia].
      apply indexed_snoc; [done|rewrite <- Hs; by apply Sequencer.log_index_at_index|exact Hwel].
    + destruct (Hr r') as (He' & Hs' & Hix' & Hl'). unfold Sequencer.start in *.
      cbn [Sequencer.rooms]. rewrite !lookup_insert_ne, Ho, Hu by done. split_and!; [done..|lia].
Qed.

Lemma on_frame_ok k s r frame_type :
  sq_inv k s -> k < u64_MAX -> r < 2 ^ 128 -> typed_frame frame_type ->
  exists s', on_frame r frame_type s = Ok s' /\ sq_inv (k + 1) s'.
Proof.
  intros Hinv Hk Hr Ht. unfold on_frame.
  destruct (create_frame_ok frame_type r Hr Ht) as (f & -> & Hw & <- & Hep). cbn [mbind res_bind].
  pose proof (Sequencer.process_frame_outcome (sq_sequencer s) (sq_storage s) f I Hw
                (fun n => inv_bounded k s Hinv _ n)) as Ho.
  destruct (Sequencer.process_frame f (sq_sequencer s, sq_storage s)) as [[q' st'] res].
  destruct Ho as (_ & Hu & Ho). pose proof (sq_inv_reads k s st' Hinv Hu) as Hsame.
  destruct (inv_room k s Hinv (FrameHeader.room_id (Frame.header f))) as (_ & Hstart & _ & Hl).
  assert (Hvalid : Sequencer.sequenceable f ->
    negb (FrameHeader.room_id (Frame.header f) =? 0) = true /\
    (match frame_type with Valid _ _ => true | EpochOverflow => false end) = true).
  { intros [H0 He]. split; [by apply negb_true_iff, N.eqb_neq|]. destruct frame_type; [done|].
    rewrite Hep in He by done. by vm_compute in He. }
  destruct Ho as [e _ _|Hs _|res Hs _ _ Hlatest Hres|Hs _ Hn|i Hs Hwel Hn Hi].
  - eauto.
  - destruct (Hvalid Hs) as [-> ->]. cbn. eauto.
  - specialize (Hlatest (latest_log_index_total _ _ I)). lia.
  - apply Sequencer.next_index_start in Hn. lia.
  - destruct (Hvalid Hs) as [-> ->]. cbn [asserts mbind res_bind]. by apply sequenced_ok.
Qed.

Lemma check_latest_ok k s r : sq_inv k s -> r < 2 ^ 128 ->
  exists s', check_latest r s = Ok s' /\ sq_inv (k + 1) s'.
Proof.
  intros Hinv Hr. unfold check_latest.
  pose proof (latest_log_index_spec r (sq_storage s) I Hr) as Hl. unfold reads in Hl.
  pose proof (latest_log_index_total r (sq_storage s) I) as Ht.
  destruct (latest_log_index r (sq_storage s)) as [st' [o|e|]]; [|done..].
  destruct Hl as (_ & Hu & Ho). specialize (Ho o eq_refl) as ->.
  destruct (inv_room k s Hinv r) as (-> & _). eexists. split; [|by eapply sq_inv_reads].
  unfold last_index. destruct (rv_log (view (sq_storage s) r)) as [|f log]; [done|].
  case_match; [|done]. by rewrite N.eqb_refl.
Qed.

Lemma on_ops_ok ops : forall k s, sq_inv k s -> Forall typed_op ops -> k + len ops < u64_MAX ->
  exists s', on_ops ops s = Ok s' /\ sq_inv (k + len ops) s'.
Proof.
  induction ops as [|o ops IH]; intros k s Hs Ht Hk.
  { exists s. by rewrite N.add_0_r. }
  inversion Ht as [|? ? Ho Hops]; subst. rewrite len_cons in Hk |- *. cbn [on_ops].
  assert (H : exists s', on_op o s = Ok s' /\ sq_inv (k + 1) s').
  { pose proof get_room_id_lt. destruct o; cbn [on_op].
    - apply on_frame_ok; [done|lia|done|done].
    - by apply check_latest_ok. }
  destruct H as (s1 & -> & H1). cbn [mbind res_bind].
  destruct (IH (k + 1) s1 H1 Hops) as (s2 & -> & H2); [lia|]. exists s2. split; [done|].
  by replace (k + (1 + len ops)) with (k + 1 + len ops) by lia.
Qed.

Lemma verify_sequential_ok k s r n : sq_inv k s -> k < u64_MAX -> expected_indices s !! r = Some n ->
  verify_sequential_indices r n (sq_storage s) = Ok tt.
Proof.
  intros Hinv Hk Hr. pose proof (inv_keys k s Hinv r (mk_is_Some _ _ Hr)) as Hr128.
  destruct (inv_room k s Hinv r) as (He & _ & Hix & Hl). rewrite Hr in He. cbn [default from_option id] in He.
  unfold verify_sequential_indices.
  pose proof (load_frames_spec r 0 (N.max n 1) (sq_storage s) I Hr128 eq_refl) as Hs.
  pose proof (load_frames_total r 0 (N.max n 1) (sq_storage s) I) as Hp. unfold reads in Hs.
  destruct (load_frames r 0 (N.max n 1) (sq_storage s)) as [st' [fs|e|]]; cbn [snd] in *; [|done|].
  - destruct Hs as (_ & _ & Hs). specialize (Hs fs eq_refl). rewrite drop_0 in Hs.
    rewrite take_ge in Hs by (unfold len in He; lia). subst fs.
    rewrite He, N.eqb_refl. by apply check_indexed.
  - exfalso. apply Hp; [|done]. unfold usize_MAX, u64_MAX in *. lia.
Qed.

(** No input of the right types makes [sequencer_state_fuzzer] fail: an index is
    given once, in order and per room, room 0 and the epochs past the maximum are
    refused, and the stored logs are what was counted. *)
Theorem sequencer_fuzz_holds ops : typed ops -> target ops = Ok tt.
Proof.
  intros [Ht Hn]. unfold target.
  assert (H0 : sq_inv 0 (mkSq Sequencer.new MemoryStorage.new ∅)).
  { split; [by apply map_Forall_empty|by intros r [? ?]|]. intros r. cbn. by split_and!; try apply indexed_nil. }
  destruct (on_ops_ok ops 0 _ H0 Ht) as (s & -> & Hs); [lia|]. cbn [mbind res_bind].
  assert (Hall : Forall (fun '(r, n) => expected_indices s !! r = Some n)
                   (map_to_list (expected_indices s))).
  { apply Forall_forall. intros [r n]. by rewrite elem_of_map_to_list. }
  induction Hall as [|[r n] rooms Hr _ IH]; [done|]. cbn [verify_rooms].
  by rewrite (verify_sequential_ok _ s r n Hs) by done.
Qed.

End SequencerFuzz.
