(* ===== verification/FuzzRooms.v ===== *)
(** * The fuzz targets of the room manager

    [room_manager_fuzzer], [e2e_pipeline_fuzzer] and [storage_chaos_fuzzer] of
    [fuzz/fuzz_targets], as functions of their inputs where a failed assertion is
    a panic.  The theorems say that no input makes a target fail, and what their
    stated invariants come to: the first two never store a frame, so what they
    assert of the stored frames is asserted of none, and the room manager
    sequences every frame of the first, from a member or not, whatever its epoch
    and signature. *)

From S2P Require Import Prelude Env Opcodes Header Framing Payloads Validator Storage Sequencer.
From S2P Require Import RoomManager FuzzWire FuzzSequencer.

Local Open Scope N_scope.

(** ed25519-dalek's signing keys. *)
Class SigningKeys := {
  SigningKey : Type;
  signing_key_from_bytes : bytes -> SigningKey;
  verifying_key_bytes : SigningKey -> bytes;
  sign : SigningKey -> bytes -> bytes;
  sign_length k data : length (sign k data) = 64%nat;
}.

(** ** The members of a scenario *)

Module Members.
Section members.
Context {signing : SigningKeys}.

Definition member_ids (member_count : nat) : list N :=
  (fun i => 100 + N.of_nat i) <$> List.seq 1 member_count.

Definition key_bytes (seed : bytes) (i : nat) : bytes :=
  imap (fun j byte =>
    byte_of (N.lxor (Byte.to_N byte) ((N.of_nat i + N.of_nat j) mod 256))) seed.

Definition signing_keys (seed : bytes) (ids : list N) : list (N * SigningKey) :=
  imap (fun i member_id => (member_id, signing_key_from_bytes (key_bytes seed i))) ids.

Definition member_keys (seed : bytes) (ids : list N) : gmap N SigningKey :=
  list_to_map (signing_keys seed ids).

Definition member_verifying_keys (seed : bytes) (ids : list N) : gmap N bytes :=
  verifying_key_bytes <$> member_keys seed ids.

(** [members[idx % members.len()]]; the remainder by zero panics. *)
Definition member_at (members : list N) (idx : N) : res unit N :=
  asserts (negb (len members =? 0));;
  expect (members !! N.to_nat (idx mod len members)).

Definition create_signed_frame (signing_key : SigningKey) (sender_id epoch room_id : N)
    (op : Opcode.t) : res unit Frame.t :=
  let header := FrameHeader.set_room_id room_id (FrameHeader.set_epoch epoch
    (FrameHeader.set_sender_id sender_id (FrameHeader.new op))) in
  header ← (if bool_decide (op = Opcode.Welcome) then DebugHeader.set_recipient_id 0 header
            else DebugHeader.set_log_index 0 header);
  let signature := sign signing_key (FrameHeader.signing_data header) in
  Frame.new (FrameHeader.set_signature signature header) [].

(** [sig_array[i] ^= mask] on the signature of the frame. *)
Definition flip_signature (i : N) (mask : N) (frame : Frame.t) : Frame.t :=
  let sig := FrameHeader.signature (Frame.header frame) in
  let sig' := alter (fun b => byte_of (N.lxor (Byte.to_N b) mask)) (N.to_nat i) sig in
  Frame.mk (FrameHeader.set_signature sig' (Frame.header frame)) (Frame.payload frame).

(** A frame under a signature that nobody made. *)
Definition create_forged_frame (sender_id epoch room_id : N) : res unit Frame.t :=
  Frame.new (FrameHeader.set_signature (replicate 64 (byte_of 0xAA))
    (FrameHeader.set_room_id room_id (FrameHeader.set_epoch epoch
      (FrameHeader.set_sender_id sender_id (FrameHeader.new Opcode.AppMessage))))) [].

Lemma create_signed_frame_ok signing_key sender_id epoch r op :
  epoch < 2 ^ 64 -> r < 2 ^ 128 ->
  exists f, create_signed_frame signing_key sender_id epoch r op = Ok f /\ Frame.wf f /\
    FrameHeader.room_id (Frame.header f) = r /\ FrameHeader.epoch (Frame.header f) = epoch /\
    FrameHeader.opcode_enum (Frame.header f) = Some op.
Proof.
  intros He Hr. unfold create_signed_frame. cbv zeta. set (h := FrameHeader.set_room_id _ _).
  assert (Hw : FrameHeader.wf h) by (unfold h; auto using FrameHeader.new_wf with lockframe).
  assert (Ho : FrameHeader.opcode_enum h = Some op) by apply (FrameHeader.opcode_enum_new op).
  assert (Hh : exists h', (if bool_decide (op = Opcode.Welcome)
        then DebugHeader.set_recipient_id 0 h
        else DebugHeader.set_log_index (E := unit) 0 h) = Ok h' /\ FrameHeader.wf h' /\
      FrameHeader.f_magic h' = FrameHeader.f_magic h /\
      FrameHeader.f_version h' = FrameHeader.f_version h /\
      FrameHeader.f_opcode h' = FrameHeader.f_opcode h /\
      FrameHeader.f_room_id h' = FrameHeader.f_room_id h /\
      FrameHeader.f_epoch h' = FrameHeader.f_epoch h).
  { unfold DebugHeader.set_recipient_id, DebugHeader.set_log_index, DebugHeader.is_welcome. rewrite Ho.
    case_bool_decide as E; [rewrite bool_decide_eq_true_2 by congruence
                           |rewrite bool_decide_eq_false_2 by congruence];
      (eexists; split; [reflexivity|]); by auto with lockframe. }
  destruct Hh as (h' & -> & Hw' & Hm & Hv & Hop & Hrm & Hep). cbn [mbind res_bind].
  set (sig := sign _ _).
  destruct (empty_frame op (FrameHeader.set_signature sig h')) as [-> Hf].
  { apply FrameHeader.set_signature_wf; [apply sign_length|done]. }
  { exact Hm. }
  { exact Hv. }
  eexists. split; [done|]. split; [done|].
  split; [by apply room_id_field|]. split; [by apply epoch_field|].
  rewrite <- Ho. unfold FrameHeader.opcode_enum, FrameHeader.opcode. do 2 f_equal. exact Hop.
Qed.

Lemma create_forged_frame_ok sender_id epoch r :
  epoch < 2 ^ 64 -> r < 2 ^ 128 ->
  exists f, create_forged_frame sender_id epoch r = Ok f /\ Frame.wf f /\
    FrameHeader.room_id (Frame.header f) = r /\ FrameHeader.epoch (Frame.header f) = epoch /\
    FrameHeader.opcode_enum (Frame.header f) = Some Opcode.AppMessage.
Proof.
  intros He Hr. unfold create_forged_frame. set (h := FrameHeader.set_room_id _ _).
  assert (Hw : FrameHeader.wf h) by (unfold h; auto using FrameHeader.new_wf with lockframe).
  destruct (empty_frame Opcode.AppMessage
    (FrameHeader.set_signature (replicate 64 (byte_of 0xAA)) h)) as [-> Hf]; [|reflexivity..|].
  { by apply FrameHeader.set_signature_wf. }
  eexists. split; [done|]. split; [done|].
  split; [by apply room_id_field|]. split; [by apply epoch_field|].
  apply (FrameHeader.opcode_enum_new Opcode.AppMessage).
Qed.

Lemma flip_signature_wf i mask f : Frame.wf f -> Frame.wf (flip_signature i mask f).
Proof.
  intros (Hw & Hv & Hp). unfold flip_signature. split; [|done].
  apply FrameHeader.set_signature_wf; [|done]. rewrite length_alter. apply Hw.
Qed.

Lemma member_at_ok seed n idx : (0 < n)%nat ->
  exists id k, member_at (member_ids n) idx = Ok id /\
    member_keys seed (member_ids n) !! id = Some k.
Proof.
  intros Hn. set (ids := member_ids n).
  assert (Hl : length ids = n) by (unfold ids, member_ids; by rewrite length_fmap, length_seq).
  unfold member_at. assert (Hz : len ids <> 0) by (unfold len; lia).
  rewrite (proj2 (N.eqb_neq _ _) Hz). cbn [negb asserts mbind res_bind].
  destruct (lookup_lt_is_Some_2 ids (N.to_nat (idx mod len ids))) as [id Hid].
  { pose proof (N.mod_lt idx (len ids) Hz). unfold len in *. lia. }
  rewrite Hid. exists id. eexists. split; [done|]. unfold member_keys.
  apply elem_of_list_to_map_1.
  - unfold signing_keys. rewrite fmap_imap. unfold compose. cbn [fst].
    rewrite (imap_const Datatypes.id), list_fmap_id. unfold ids, member_ids.
    apply NoDup_fmap_2; [intros x y ?; lia|apply NoDup_seq].
  - apply list_elem_of_lookup. exists (N.to_nat (idx mod len ids)). unfold signing_keys.
    rewrite list_lookup_imap, Hid. done.
Qed.

End members.
End Members.

(** ** The room manager over a memory nothing is stored in *)

(** The storage is left alone or asked once for the latest index; the manager
    panics only if that call does, or answers what has no successor. *)
Lemma sequencer_storage `{Storage St} f s (st : St) :
  let r := FrameHeader.room_id (Frame.header f) in
  Frame.wf f -> Sequencer.bounded s ->
  let '((_, st'), res) := Sequencer.process_frame f (s, st) in
  st' = st /\ res <> Panic \/
  st' = fst (latest_log_index r st) /\
    (forall e, snd (latest_log_index r st) = Err e -> res <> Panic).
Proof.
  intros r Hw Hb. unfold Sequencer.process_frame. unfold mbind at 1, M_bind at 1, lift at 1.
  destruct (Sequencer.validate_frame_structure f) as [[]|e|] eqn:Hv; [|by left|].
  2:{ by apply Sequencer.validate_frame_structure_no_panic in Hv. }
  cbv zeta. fold r. case_bool_decide; [by left|].
  unfold mbind at 1, M_bind at 1, get at 1. cbn [fst]. unfold mbind at 1, M_bind at 1.
  destruct (Sequencer.rooms s !! r) as [n|] eqn:Hr.
  - unfold mret at 1, M_ret at 1. rewrite Sequencer.process_frame_tail by eauto. destruct (n =? u64_MAX); by left.
  - unfold mbind at 1, M_bind at 1, Sequencer.storage_call.
    destruct (latest_log_index r st) as [st' [o|e|]]; cbn [map_err fst snd]; [|by right..].
    unfold mbind at 1, M_bind at 1, lift at 1.
    destruct (Sequencer.next_after o) as [i| |] eqn:Hn; [|by right..].
    unfold mbind at 1, M_bind at 1, Sequencer.set_next at 1, mret at 1, M_ret at 1.
    pose proof (Sequencer.next_after_le _ _ Hn). rewrite Sequencer.process_frame_tail by done.
    destruct (i =? u64_MAX); by right.
Qed.

Lemma manager_storage `{Storage St} f time m (st : St) :
  let r := FrameHeader.room_id (Frame.header f) in
  Frame.wf f -> Sequencer.bounded (RoomManager.sequencer m) ->
  let '((_, st'), res) := RoomManager.process_frame f time (m, st) in
  st' = st /\ res <> Panic \/
  st' = fst (latest_log_index r st) /\
    (forall e, snd (latest_log_index r st) = Err e -> res <> Panic).
Proof.
  intros r Hw Hb. unfold RoomManager.process_frame. unfold mbind at 1, M_bind at 1, get at 1.
  cbv beta iota. cbn [fst]. destruct (negb _); [by left|].
  unfold mbind at 1, M_bind at 1, RoomManager.sequencer_call.
  pose proof (sequencer_storage f (RoomManager.sequencer m) st Hw Hb) as Hs.
  destruct (Sequencer.process_frame f (RoomManager.sequencer m, st)) as [[s' st'] res].
  cbv zeta in Hs. fold r in Hs. destruct res; cbn; destruct Hs as [[? ?]|[? He]]; try done.
  1,3: by left.
  all: right; split; [done|]; intros x E; by specialize (He x E).
Qed.

(** One frame: what is sequenced, and that nothing else changes. *)
Lemma memory_process m (st : MemoryStorage.t) f time :
  let r := FrameHeader.room_id (Frame.header f) in
  MemoryStorage.frames st = ∅ -> Sequencer.bounded (RoomManager.sequencer m) -> Frame.wf f ->
  let '((m', st'), res) := RoomManager.process_frame f time (m, st) in
  let start := Sequencer.start (RoomManager.sequencer m) st in
  let start' := Sequencer.start (RoomManager.sequencer m') st in
  st' = st /\ RoomManager.room_metadata m' = RoomManager.room_metadata m /\
  Sequencer.bounded (RoomManager.sequencer m') /\
  match res with
  | Panic => False
  | Err _ =>
      (RoomManager.has_room m r = true -> start r < u64_MAX -> ~ Sequencer.sequenceable f) /\
      forall r', start' r' = start r'
  | Ok acts =>
      Sequencer.sequenceable f /\
      if decide (FrameHeader.opcode_enum (Frame.header f) = Some Opcode.Welcome) then
        acts = [RABroadcast r f false time] /\ forall r', start' r' = start r'
      else
        start r < u64_MAX /\
        acts = [RAPersistFrame r (start r) (Sequencer.at_index (start r) f) time;
                RABroadcast r (Sequencer.at_index (start r) f) false time] /\
        forall r', start' r' = if decide (r' = r) then start r + 1 else start r'
  end.
Proof.
  intros r Hf Hb Hw. pose proof (manager_storage f time m st Hw Hb) as Hst.
  pose proof (RoomManager.process_frame_cases m st f time I Hw Hb) as Hc. fold r in Hc.
  destruct (RoomManager.process_frame f time (m, st)) as [[m' st'] res].
  assert (st' = st) as -> by (by destruct Hst as [[? _]|[? _]]). clear Hst. destruct Hc as (_ & Hu & Hmd & Hc). cbv zeta. split; [done|]. split; [done|].
  assert (Hlog : forall r', len (rv_log (view st r')) = 0).
  { intros r'. cbn. by rewrite Hf, lookup_empty. }
  destruct Hc as [(Hno & -> & ->)|(Hroom & sres & Ho & ->)]; [by rewrite Hno|].
  destruct (Sequencer.outcome_assigned _ _ st _ _ _ r Ho Hb Hu) as [Hb' _]. split; [done|].
  destruct Ho as [e _ Hs|Hs Hwel|sres Hs _ _ Hlatest _|Hs Hwel Hn|i Hs Hwel Hn Hi].
  - by split.
  - split; [done|]. by rewrite decide_True.
  - specialize (Hlatest (latest_log_index_total _ _ I)). by rewrite Hlog in Hlatest.
  - pose proof (Sequencer.next_index_start _ _ _ _ Hn) as Hstart. fold r in Hstart.
    split; [intros _ Hlt; rewrite Hstart in Hlt; lia|]. intros r'.
    rewrite (Sequencer.start_insert _ st st) by done. fold r. case_decide as E; [by subst|done].
  - pose proof (Sequencer.next_index_start _ _ _ _ Hn) as Hstart. fold r in Hstart.
    split; [done|]. rewrite decide_False by done. rewrite Hstart. split_and!; [done..|]. intros r'.
    by rewrite (Sequencer.start_insert _ st st) by done.
Qed.

(** The room of a scenario: created, with its group state. *)
Lemma setup_room {Env} `{Environment Env} r creator (env : Env) state :
  exists env' secs,
    RoomManager.create_room r creator (env, (RoomManager.new, MemoryStorage.new))
    = ((env', (RoomManager.mk Sequencer.new {[ r := mkRoomMetadata creator secs ]},
               MemoryStorage.mk {[ r := mkStoredRoomMetadata creator secs ]} ∅ ∅ ∅)), Ok tt) /\
    store_mls_state r state
      (MemoryStorage.mk {[ r := mkStoredRoomMetadata creator secs ]} ∅ ∅ ∅)
    = (MemoryStorage.mk {[ r := mkStoredRoomMetadata creator secs ]} ∅ {[ r := state ]} ∅, Ok tt).
Proof.
  unfold RoomManager.create_room, RoomManager.has_room. cbn [RoomManager.room_metadata RoomManager.new].
  rewrite lookup_empty, (bool_decide_eq_false_2 (is_Some None)) by (by intros [? ?]).
  destruct (wall_clock_secs env) as [secs env']. exists env', secs. by rewrite <- insert_empty.
Qed.

Lemma member_ids_head n : (0 < n)%nat -> exists first, head (Members.member_ids n) = Some first.
Proof. destruct n; [lia|by eexists]. Qed.

(** ** [room_manager_fuzzer] *)

Module RoomManagerFuzz.
Section target.
Context {signing : SigningKeys} {Env : Type} {environment : Environment Env}.

Inductive RoomIdChoice := RValid (v : N) | RZero | RMaxU128.

Inductive FrameAttack :=
  | ValidFromMember (member_idx : N)
  | FromNonMember (fake_sender_id : N)
  | WrongEpoch (member_idx : N) (epoch_offset : Z)
  | InvalidOpcode (member_idx opcode : N)
  | CorruptedSignature (member_idx bit_flip : N).

Record RoomScenario := mkScenario {
  seed : bytes;
  sc_room_id : RoomIdChoice;
  initial_members : N;
  frame_sequence : list FrameAttack }.

Definition room_id_of (choice : RoomIdChoice) : N :=
  match choice with RValid v => v | RZero => 0 | RMaxU128 => u128_MAX end.

Definition create_frame_from_attack (attack : FrameAttack) (room_id epoch : N)
    (members : list N) (keys : gmap N SigningKey) : res unit Frame.t :=
  match attack with
  | ValidFromMember member_idx =>
      sender_id ← Members.member_at members member_idx;
      signing_key ← expect (keys !! sender_id);
      Members.create_signed_frame signing_key sender_id epoch room_id Opcode.AppMessage
  | FromNonMember fake_sender_id => Members.create_forged_frame fake_sender_id epoch room_id
  | WrongEpoch member_idx epoch_offset =>
      sender_id ← Members.member_at members member_idx;
      signing_key ← expect (keys !! sender_id);
      let wrong_epoch :=
        if (epoch_offset <? 0)%Z then saturating_sub epoch (Z.to_N (- epoch_offset))
        else saturating_add u64_MAX epoch (Z.to_N epoch_offset) in
      Members.create_signed_frame signing_key sender_id wrong_epoch room_id Opcode.AppMessage
  | InvalidOpcode member_idx opcode =>
      sender_id ← Members.member_at members member_idx;
      signing_key ← expect (keys !! sender_id);
      let op := default Opcode.AppMessage (Opcode.from_u16 opcode) in
      Members.create_signed_frame signing_key sender_id epoch room_id op
  | CorruptedSignature member_idx bit_flip =>
      sender_id ← Members.member_at members member_idx;
      signing_key ← expect (keys !! sender_id);
      frame ← Members.create_signed_frame signing_key sender_id epoch room_id Opcode.AppMessage;
      Ok (Members.flip_signature (bit_flip mod 64) 0x01 frame)
  end.

(** The variables of the target. *)
Record rz := mkRz {
  manager : RoomManager.t;
  storage : MemoryStorage.t;
  expected_log_index : N;
  current_epoch : N;
  frames_accepted : N }.

Fixpoint count_persists (actions : list RoomAction) (s : rz) : res unit rz :=
  match actions with
  | [] => Ok s
  | RAPersistFrame _ log_index _ _ :: rest =>
      if log_index =? expected_log_index s then
        next ← add_panic u64_MAX (expected_log_index s) 1;
        accepted ← add_panic usize_MAX (frames_accepted s) 1;
        count_persists rest (mkRz (manager s) (storage s) next (current_epoch s) accepted)
      else count_persists rest s
  | _ :: rest => count_persists rest s
  end.

(** [if let Ok(Some(mls_state)) = storage.load_mls_state(room_id)]. *)
Definition read_epoch (room_id : N) (s : rz) : res unit rz :=
  let '(st', r) := load_mls_state room_id (storage s) in
  match r with
  | Panic => Panic
  | Ok (Some mls_state) =>
      Ok (mkRz (manager s) st' (expected_log_index s) (MlsGroupState.epoch mls_state)
            (frames_accepted s))
  | _ => Ok (mkRz (manager s) st' (expected_log_index s) (current_epoch s) (frames_accepted s))
  end.

Definition check_latest (room_id : N) (s : rz) : res unit rz :=
  let '(st', r) := latest_log_index room_id (storage s) in
  match r with
  | Panic => Panic
  | Ok (Some latest) =>
      if 0 <? frames_accepted s then
        asserts (1 <=? expected_log_index s);; asserts (latest =? expected_log_index s - 1)
      else Ok tt
  | _ => Ok tt
  end;;
  Ok (mkRz (manager s) st' (expected_log_index s) (current_epoch s) (frames_accepted s)).

(** [process_frame] is given the environment where it takes a time, which it
    only copies into its actions. *)
Definition on_attack (time : Instant) (room_id : N) (members : list N)
    (keys : gmap N SigningKey) (attack : FrameAttack) (s : rz) : res unit rz :=
  frame ← create_frame_from_attack attack room_id (current_epoch s) members keys;
  let '((m', st'), r) := RoomManager.process_frame frame time (manager s, storage s) in
  let s := mkRz m' st' (expected_log_index s) (current_epoch s) (frames_accepted s) in
  match r with
  | Panic => Panic
  | Ok actions => s ← count_persists actions s; read_epoch room_id s
  | Err _ => s ← read_epoch room_id s; check_latest room_id s
  end.

Fixpoint on_attacks (time : Instant) (room_id : N) (members : list N)
    (keys : gmap N SigningKey) (attacks : list FrameAttack) (s : rz) : res unit rz :=
  match attacks with
  | [] => Ok s
  | a :: rest =>
      s ← on_attack time room_id members keys a s; on_attacks time room_id members keys rest s
  end.

Definition verify_storage_invariants (room_id expected_count : N) (st : MemoryStorage.t)
    : res unit unit :=
  match snd (load_frames room_id 0 (N.max expected_count 1) st) with
  | Panic => Panic
  | Err _ => Ok tt
  | Ok frames => asserts (len frames =? expected_count);; check_indices 0 frames
  end.

(** The target up to its last check; [None] where it returns early. *)
Definition play (time : Instant) (env : Env) (scenario : RoomScenario) : res unit (option rz) :=
  let room_id := room_id_of (sc_room_id scenario) in
  let member_count := N.to_nat (initial_members scenario mod 5 + 1) in
  let ids := Members.member_ids member_count in
  let keys := Members.member_keys (seed scenario) ids in
  first ← expect (head ids);
  let '((env, (m, st)), r) :=
    RoomManager.create_room room_id first (env, (RoomManager.new, MemoryStorage.new)) in
  match r with
  | Panic => Panic
  | Err _ => Ok None
  | Ok _ =>
      let state := MlsGroupState.with_keys room_id 0 (replicate 32 (byte_of 0)) ids
        (Members.member_verifying_keys (seed scenario) ids) in
      let '(st, r) := store_mls_state room_id state st in
      match r with
      | Panic => Panic
      | Err _ => Ok None
      | Ok _ =>
          s ← on_attacks time room_id ids keys (frame_sequence scenario) (mkRz m st 0 0 0);
          Ok (Some s)
      end
  end.

Definition target (time : Instant) (env : Env) (scenario : RoomScenario) : res unit unit :=
  r ← play time env scenario;
  match r with
  | None => Ok tt
  | Some s =>
      verify_storage_invariants (room_id_of (sc_room_id scenario)) (expected_log_index s) (storage s)
  end.

(** ** What the target checks *)

Definition typed_attack (attack : FrameAttack) : Prop :=
  match attack with
  | WrongEpoch _ epoch_offset => (-128 <= epoch_offset < 128)%Z
  | _ => True
  end.

Definition typed (scenario : RoomScenario) : Prop :=
  room_id_of (sc_room_id scenario) < 2 ^ 128 /\
  Forall typed_attack (frame_sequence scenario) /\ len (frame_sequence scenario) < u64_MAX.

(** The opcode of the frame of an attack. *)
Definition attack_opcode (attack : FrameAttack) : Opcode.t :=
  match attack with
  | InvalidOpcode _ opcode => default Opcode.AppMessage (Opcode.from_u16 opcode)
  | _ => Opcode.AppMessage
  end.

Lemma attack_frame_ok attack r seed n : typed_attack attack -> r < 2 ^ 128 -> (0 < n)%nat ->
  let ids := Members.member_ids n in
  exists f, create_frame_from_attack attack r 0 ids (Members.member_keys seed ids) = Ok f /\
    Frame.wf f /\ FrameHeader.room_id (Frame.header f) = r /\
    FrameHeader.epoch (Frame.header f) <= MAX_EPOCH /\
    FrameHeader.opcode_enum (Frame.header f) = Some (attack_opcode attack).
Proof.
  intros Ht Hr Hn ids.
  assert (Hm : forall idx e op, e <= MAX_EPOCH -> exists sender k f,
    Members.member_at ids idx = Ok sender /\ Members.member_keys seed ids !! sender = Some k /\
    Members.create_signed_frame k sender e r op = Ok f /\
    Frame.wf f /\ FrameHeader.room_id (Frame.header f) = r /\
    FrameHeader.epoch (Frame.header f) <= MAX_EPOCH /\
    FrameHeader.opcode_enum (Frame.header f) = Some op).
  { intros idx e op He. destruct (Members.member_at_ok seed n idx Hn) as (sender & k & Hs & Hk).
    assert (He64 : e < 2 ^ 64) by (unfold MAX_EPOCH in He; lia).
    destruct (Members.create_signed_frame_ok k sender e r op He64 Hr) as (f & ? & ? & ? & ? & ?).
    exists sender, k, f. by subst e. }
  assert (H0 : 0 <= MAX_EPOCH) by done.
  destruct attack as [idx|fake|idx off|idx opcode|idx bit]; cbn [create_frame_from_attack].
  - destruct (Hm idx 0 Opcode.AppMessage H0) as (sender & k & f & -> & Hk & Hf & ?).
    exists f. cbn [mbind res_bind]. rewrite Hk. cbn [expect mbind res_bind]. done.
  - destruct (Members.create_forged_frame_ok fake 0 r eq_refl Hr) as (f & ? & ? & ? & He & ?).
    exists f. by rewrite He.
  - cbv zeta. set (e := if (off <? 0)%Z then _ else _).
    assert (He : e <= MAX_EPOCH).
    { cbn in Ht. unfold e, saturating_sub, saturating_add, MAX_EPOCH. case_match; lia. }
    destruct (Hm idx e Opcode.AppMessage He) as (sender & k & f & -> & Hk & Hf & ?).
    exists f. cbn [mbind res_bind]. rewrite Hk. cbn [expect mbind res_bind]. done.
  - destruct (Hm idx 0 (attack_opcode (InvalidOpcode idx opcode)) H0)
      as (sender & k & f & -> & Hk & Hf & ?).
    exists f. cbn [mbind res_bind]. rewrite Hk. cbn [expect mbind res_bind]. done.
  - destruct (Hm idx 0 Opcode.AppMessage H0) as (sender & k & f & -> & Hk & Hf & Hw & ?).
    exists (Members.flip_signature (bit mod 64) 0x01 f). cbn [mbind res_bind]. rewrite Hk.
    cbn [expect mbind res_bind]. rewrite Hf. split; [done|].
    split; [by apply Members.flip_signature_wf|done].
Qed.

(** Between two attacks: nothing is stored, and the sequencer's index is what
    the target has counted. *)
Record rz_inv (room_id : N) (s : rz) : Prop := {
  inv_room : RoomManager.has_room (manager s) room_id = true;
  inv_bounded : Sequencer.bounded (RoomManager.sequencer (manager s));
  inv_empty : MemoryStorage.frames (storage s) = ∅;
  inv_mls : exists mls, MemoryStorage.mls_states (storage s) !! room_id = Some mls /\
    MlsGroupState.epoch mls = 0;
  inv_epoch : current_epoch s = 0;
  inv_start : Sequencer.start (RoomManager.sequencer (manager s)) (storage s) room_id
              = expected_log_index s;
  inv_accepted : frames_accepted s = expected_log_index s }.

(** Whether the room manager gives the frame of an attack an index. *)
Definition sequences (room_id : N) (attack : FrameAttack) : N :=
  if (room_id =? 0) || bool_decide (attack_opcode attack = Opcode.Welcome) then 0 else 1.

Lemma read_epoch_ok room_id s : rz_inv room_id s -> read_epoch room_id s = Ok s.
Proof.
  intros Hs. destruct (inv_mls _ _ Hs) as (mls & Hm & He). unfold read_epoch. cbn. rewrite Hm, He.
  rewrite <- (inv_epoch _ _ Hs). by destruct s.
Qed.

Lemma manager_latest_ok room_id s : rz_inv room_id s -> check_latest room_id s = Ok s.
Proof.
  intros Hs. unfold check_latest. cbn. rewrite (inv_empty _ _ Hs), lookup_empty. by destruct s.
Qed.

Lemma on_attack_ok time room_id seed n attack s :
  let ids := Members.member_ids n in
  rz_inv room_id s -> typed_attack attack -> room_id < 2 ^ 128 -> (0 < n)%nat ->
  expected_log_index s < u64_MAX ->
  exists s', on_attack time room_id ids (Members.member_keys seed ids) attack s = Ok s' /\
    rz_inv room_id s' /\ expected_log_index s' = expected_log_index s + sequences room_id attack.
Proof.
  intros ids Hs Ht Hr Hn Hlt. unfold on_attack. rewrite (inv_epoch _ _ Hs).
  destruct (attack_frame_ok attack room_id seed n Ht Hr Hn) as (f & Hf & Hw & Hroom & He & Hop).
  fold ids in Hf. rewrite Hf. cbn [mbind res_bind]. destruct Hs as [Hin Hb Hem Hm Hep Hst Hac].
  pose proof (memory_process (manager s) (storage s) f time Hem Hb Hw) as Hp.
  destruct (RoomManager.process_frame f time (manager s, storage s)) as [[m' st'] res].
  rewrite Hroom in Hp. destruct Hp as (-> & Hmd & Hb' & Hp).
  assert (Hin' : RoomManager.has_room m' room_id = true)
    by (unfold RoomManager.has_room in *; by rewrite Hmd).
  unfold sequences. destruct res as [acts|e|]; [| |done].
  - destruct Hp as [[H0 _] Hp]. rewrite Hroom in H0. rewrite (proj2 (N.eqb_neq _ _) H0).
    cbn [orb]. rewrite Hop in Hp. destruct (decide (Some (attack_opcode attack) = Some Opcode.Welcome))
      as [Hwel|Hwel]; [rewrite bool_decide_eq_true_2 by congruence
                      |rewrite bool_decide_eq_false_2 by congruence].
    + destruct Hp as [-> Hst']. cbn [count_persists mbind res_bind]. eexists.
      rewrite read_epoch_ok; [split; [done|]|]; [split; [|cbn; lia]|]; split; cbn; try done;
        by rewrite Hst'.
    + destruct Hp as (_ & -> & Hst'). rewrite Hst. cbn [count_persists expected_log_index].
      rewrite N.eqb_refl. unfold add_panic. cbn [frames_accepted]. rewrite Hac.
      rewrite (proj2 (checked_add_Some u64_MAX _ 1 (expected_log_index s + 1))) by lia.
      cbn [expect mbind res_bind].
      rewrite (proj2 (checked_add_Some usize_MAX _ 1 (expected_log_index s + 1)))
        by (unfold usize_MAX, u64_MAX in *; lia).
      cbn [expect mbind res_bind]. eexists.
      rewrite read_epoch_ok; [split; [done|]|]; [split; [|done]|]; split; cbn; try done;
        by rewrite Hst', decide_True, Hst.
  - destruct Hp as [Hno Hst']. rewrite Hst in Hno. specialize (Hno Hin Hlt).
    assert (room_id = 0) as ->.
    { destruct (decide (room_id = 0)) as [->|H0]; [done|]. destruct Hno. by rewrite <- Hroom in H0. }
    cbn [N.eqb orb].
    assert (Hs' : rz_inv 0 (mkRz m' (storage s) (expected_log_index s) 0 (frames_accepted s)))
      by (split; cbn; try done; by rewrite Hst').
    eexists. rewrite (read_epoch_ok _ _ Hs'). cbn [mbind res_bind]. rewrite (manager_latest_ok _ _ Hs').
    split; [done|]. split; [done|]. cbn. lia.
Qed.

(** The frames of a scenario that get an index. *)
Definition sequenced_count (room_id : N) (attacks : list FrameAttack) : N :=
  foldr (fun a n => sequences room_id a + n) 0 attacks.

Lemma sequenced_count_le room_id attacks : sequenced_count room_id attacks <= len attacks.
Proof.
  induction attacks as [|a attacks IH]; [done|]. rewrite len_cons. cbn.
  assert (sequences room_id a <= 1) by (unfold sequences; by case_match). unfold sequenced_count in IH. lia.
Qed.

Lemma on_attacks_ok time room_id seed n attacks :
  let ids := Members.member_ids n in
  room_id < 2 ^ 128 -> (0 < n)%nat -> Forall typed_attack attacks ->
  forall s, rz_inv room_id s -> expected_log_index s + sequenced_count room_id attacks < u64_MAX ->
  exists s', on_attacks time room_id ids (Members.member_keys seed ids) attacks s = Ok s' /\
    rz_inv room_id s' /\
    expected_log_index s' = expected_log_index s + sequenced_count room_id attacks.
Proof.
  intros ids Hr Hn Ht. induction Ht as [|a attacks Ha _ IH]; intros s Hs Hlt.
  { exists s. cbn. split; [done|]. split; [done|]. lia. }
  cbn [on_attacks sequenced_count foldr] in *. fold (sequenced_count room_id attacks) in *.
  destruct (on_attack_ok time room_id seed n a s Hs Ha Hr Hn) as (s1 & Hs1 & Hi & He); [lia|].
  fold ids in Hs1. rewrite Hs1. cbn [mbind res_bind].
  destruct (IH s1 Hi) as (s2 & -> & Hi2 & He2); [lia|]. exists s2. split; [done|]. split; [done|]. lia.
Qed.

(** The state in which a scenario starts. *)
Lemma start_inv room_id creator secs mls : MlsGroupState.epoch mls = 0 ->
  rz_inv room_id (mkRz
    (RoomManager.mk Sequencer.new {[ room_id := mkRoomMetadata creator secs ]})
    (MemoryStorage.mk {[ room_id := mkStoredRoomMetadata creator secs ]} ∅ {[ room_id := mls ]} ∅)
    0 0 0).
Proof.
  intros He. split; cbn [manager storage]; try done.
  - apply bool_decide_eq_true. cbn [RoomManager.room_metadata]. by rewrite lookup_singleton_eq.
  - exists mls. cbn [MemoryStorage.mls_states]. by rewrite lookup_singleton_eq.
Qed.

Lemma play_ok time env scenario : typed scenario ->
  let room_id := room_id_of (sc_room_id scenario) in
  exists s, play time env scenario = Ok (Some s) /\ rz_inv room_id s /\
    expected_log_index s = sequenced_count room_id (frame_sequence scenario).
Proof.
  intros (Hr & Ht & Hl) room_id. fold room_id in Hr. unfold play. fold room_id. cbv zeta.
  set (n := N.to_nat (initial_members scenario mod 5 + 1)).
  assert (Hn : (0 < n)%nat) by (unfold n; generalize (initial_members scenario mod 5); clear; intros; lia).
  destruct (member_ids_head n Hn) as [first ->]. cbn [expect mbind res_bind].
  set (mls := MlsGroupState.with_keys _ _ _ _ _).
  destruct (setup_room room_id first env mls) as (env' & secs & -> & ->).
  destruct (on_attacks_ok time room_id (seed scenario) n (frame_sequence scenario) Hr Hn Ht _
    (start_inv room_id first secs mls eq_refl)) as (s & Hs & Hi & He).
  { pose proof (sequenced_count_le room_id (frame_sequence scenario)). cbn. lia. }
  rewrite Hs. cbn [mbind res_bind]. exists s. split; [done|]. split; [done|]. rewrite He. cbn. lia.
Qed.

(** No scenario makes [room_manager_fuzzer] fail: whatever the frames claim, the
    manager answers and the target's counts agree with its answers. *)
Theorem room_manager_fuzz_holds time env scenario :
  typed scenario -> target time env scenario = Ok tt.
Proof.
  intros Ht. destruct (play_ok time env scenario Ht) as (s & Hs & Hi & _). unfold target.
  rewrite Hs. cbn [mbind res_bind]. unfold verify_storage_invariants. cbn.
  by rewrite (inv_empty _ _ Hi), lookup_empty.
Qed.

(** What the target observes: at its end no frame is stored, so the checks of the
    stored frames are checks of none; and every frame of the scenario that names a
    room and is no Welcome was given an index, also one from a non-member, with a
    wrong epoch or with a corrupted signature. *)
Theorem room_manager_fuzz_observes time env scenario : typed scenario ->
  let room_id := room_id_of (sc_room_id scenario) in
  exists s, play time env scenario = Ok (Some s) /\
    (forall r, MemoryStorage.frames (storage s) !! r = None) /\
    (room_id <> 0 -> expected_log_index s
     = len (filter (fun a => attack_opcode a <> Opcode.Welcome) (frame_sequence scenario))).
Proof.
  intros Ht room_id. destruct (play_ok time env scenario Ht) as (s & Hs & Hi & He).
  exists s. split; [done|]. split; [intros r; by rewrite (inv_empty _ _ Hi), lookup_empty|].
  intros H0. rewrite He. fold room_id. clear -H0.
  induction (frame_sequence scenario) as [|a l IH]; [done|]. cbn [sequenced_count foldr].
  fold (sequenced_count room_id l). rewrite IH, filter_cons. unfold sequences.
  rewrite (proj2 (N.eqb_neq _ _) H0). cbn [orb].
  destruct (decide (attack_opcode a <> Opcode.Welcome)) as [Ha|Ha].
  - rewrite bool_decide_eq_false_2 by done. by rewrite len_cons.
  - apply dec_stable in Ha. by rewrite bool_decide_eq_true_2.
Qed.

End target.
End RoomManagerFuzz.

(** ** [e2e_pipeline_fuzzer] *)

Module PipelineFuzz.
Section target.
Context {signing : SigningKeys} {Env : Type} {environment : Environment Env}.

Inductive AttackType := CorruptedSignature (bit : N) | WrongEpoch (offset : N) | NonMember.

Inductive FrameInput :=
  | RawBytes (bs : bytes)
  | ValidFrame (member_idx opcode : N)
  | AttackFrame (attack : AttackType) (member_idx : N).

Record RoomSetup := mkSetup { su_room_id : N; su_member_count : N; su_epoch : N }.

Record E2EScenario := mkScenario { seed : bytes; setup : RoomSetup; frames : list FrameInput }.

Definition create_valid_frame (signing_key : SigningKey) (sender_id epoch room_id opcode : N)
    : res unit Frame.t :=
  let op := default Opcode.AppMessage (Opcode.from_u16 opcode) in
  Members.create_signed_frame signing_key sender_id epoch room_id op.

Definition create_attack_frame (attack : AttackType) (members : list N)
    (keys : gmap N SigningKey) (member_idx epoch room_id : N) : res unit (option Frame.t) :=
  sender_id ← Members.member_at members member_idx;
  match keys !! sender_id with
  | None => Ok None
  | Some signing_key =>
      match attack with
      | CorruptedSignature bit =>
          frame ← create_valid_frame signing_key sender_id epoch room_id
                    (Opcode.to_u16 Opcode.AppMessage);
          Ok (Some (Members.flip_signature (bit mod 64) 0x01 frame))
      | WrongEpoch offset =>
          let wrong_epoch := (epoch + N.max offset 1) mod 2 ^ 64 in
          frame ← create_valid_frame signing_key sender_id wrong_epoch room_id
                    (Opcode.to_u16 Opcode.AppMessage);
          Ok (Some frame)
      | NonMember =>
          frame ← Members.create_forged_frame 9999 epoch room_id;
          Ok (Some frame)
      end
  end.

Definition input_frame (input : FrameInput) (members : list N) (keys : gmap N SigningKey)
    (epoch room_id : N) : res unit (option Frame.t) :=
  match input with
  | RawBytes bs =>
      match Frame.decode bs with Ok f => Ok (Some f) | Err _ => Ok None | Panic => Panic end
  | ValidFrame member_idx opcode =>
      sender_id ← Members.member_at members member_idx;
      match keys !! sender_id with
      | Some signing_key =>
          frame ← create_valid_frame signing_key sender_id epoch room_id opcode; Ok (Some frame)
      | None => Ok None
      end
  | AttackFrame attack member_idx =>
      create_attack_frame attack members keys member_idx epoch room_id
  end.

(** The variables of the target. *)
Record pz := mkPz {
  manager : RoomManager.t;
  storage : MemoryStorage.t;
  next_expected_log_index : N }.

Fixpoint count_persists (actions : list RoomAction) (next : N) : res unit N :=
  match actions with
  | [] => Ok next
  | RAPersistFrame _ log_index _ _ :: rest =>
      if log_index =? next then next ← add_panic u64_MAX next 1; count_persists rest next
      else count_persists rest next
  | _ :: rest => count_persists rest next
  end.

Definition on_input (time : Instant) (room_id epoch : N) (members : list N)
    (keys : gmap N SigningKey) (input : FrameInput) (s : pz) : res unit pz :=
  o ← input_frame input members keys epoch room_id;
  match o with
  | None => Ok s
  | Some frame =>
      let '((m', st'), r) := RoomManager.process_frame frame time (manager s, storage s) in
      match r with
      | Panic => Panic
      | Err _ => Ok (mkPz m' st' (next_expected_log_index s))
      | Ok actions =>
          next ← count_persists actions (next_expected_log_index s); Ok (mkPz m' st' next)
      end
  end.

Fixpoint on_inputs (time : Instant) (room_id epoch : N) (members : list N)
    (keys : gmap N SigningKey) (inputs : list FrameInput) (s : pz) : res unit pz :=
  match inputs with
  | [] => Ok s
  | i :: rest =>
      s ← on_input time room_id epoch members keys i s;
      on_inputs time room_id epoch members keys rest s
  end.

(** The target up to its last check; [None] where it returns early. *)
Definition play (time : Instant) (env : Env) (scenario : E2EScenario) : res unit (option pz) :=
  let room_id := N.max (su_room_id (setup scenario)) 1 in
  let member_count := N.to_nat (N.max (su_member_count (setup scenario) mod 10) 1) in
  let epoch := su_epoch (setup scenario) in
  let ids := Members.member_ids member_count in
  let keys := Members.member_keys (seed scenario) ids in
  let group_state := MlsGroupState.with_keys room_id epoch (replicate 32 (byte_of 0)) ids
    (Members.member_verifying_keys (seed scenario) ids) in
  first ← expect (head ids);
  let '((env, (m, st)), r) :=
    RoomManager.create_room room_id first (env, (RoomManager.new, MemoryStorage.new)) in
  match r with
  | Panic => Panic
  | Err _ => Ok None
  | Ok _ =>
      let '(st, r) := store_mls_state room_id group_state st in
      match r with
      | Panic => Panic
      | Err _ => Ok None
      | Ok _ =>
          s ← on_inputs time room_id epoch ids keys (frames scenario) (mkPz m st 0);
          Ok (Some s)
      end
  end.

Definition target (time : Instant) (env : Env) (scenario : E2EScenario) : res unit unit :=
  r ← play time env scenario;
  match r with
  | None => Ok tt
  | Some s =>
      match snd (load_frames (N.max (su_room_id (setup scenario)) 1) 0 1000 (storage s)) with
      | Panic => Panic
      | Err _ => Ok tt
      | Ok stored_frames => check_indices 0 stored_frames
      end
  end.

(** ** What the target checks *)

Definition typed (scenario : E2EScenario) : Prop :=
  su_room_id (setup scenario) < 2 ^ 8 /\ su_epoch (setup scenario) < 2 ^ 8 /\
  len (frames scenario) < u64_MAX.

Lemma signed_frame_ok seed n idx e r op : (0 < n)%nat -> e < 2 ^ 64 -> r < 2 ^ 128 ->
  let ids := Members.member_ids n in
  exists sender k f, Members.member_at ids idx = Ok sender /\
    Members.member_keys seed ids !! sender = Some k /\
    Members.create_signed_frame k sender e r op = Ok f /\ Frame.wf f.
Proof.
  intros Hn He Hr ids. destruct (Members.member_at_ok seed n idx Hn) as (sender & k & Hs & Hk).
  destruct (Members.create_signed_frame_ok k sender e r op He Hr) as (f & ? & ? & _).
  by exists sender, k, f.
Qed.

Lemma pipeline_attack_ok attack seed n idx e r : (0 < n)%nat -> e < 2 ^ 64 -> r < 2 ^ 128 ->
  let ids := Members.member_ids n in
  exists f, create_attack_frame attack ids (Members.member_keys seed ids) idx e r = Ok (Some f) /\
    Frame.wf f.
Proof.
  intros Hn He Hr ids. subst ids. unfold create_attack_frame, create_valid_frame.
  set (e' := match attack with WrongEpoch offset => (e + N.max offset 1) mod 2 ^ 64 | _ => e end).
  assert (He' : e' < 2 ^ 64) by (unfold e'; case_match; [done|by apply N.mod_lt|done]).
  destruct (signed_frame_ok seed n idx e' r Opcode.AppMessage Hn He' Hr)
    as (sender & k & f & -> & Hk & Hf & Hw). cbn [mbind res_bind]. rewrite Hk.
  change (default Opcode.AppMessage (Opcode.from_u16 (Opcode.to_u16 Opcode.AppMessage)))
    with Opcode.AppMessage.
  destruct attack as [bit|offset|]; cbv zeta.
  - unfold e' in Hf. rewrite Hf. eexists. split; [done|]. by apply Members.flip_signature_wf.
  - unfold e' in Hf. rewrite Hf. by exists f.
  - destruct (Members.create_forged_frame_ok 9999 e r He Hr) as (g & -> & ? & _). by exists g.
Qed.

Lemma input_frame_ok input seed n e r : (0 < n)%nat -> e < 2 ^ 64 -> r < 2 ^ 128 ->
  let ids := Members.member_ids n in
  exists o, input_frame input ids (Members.member_keys seed ids) e r = Ok o /\
    forall f, o = Some f -> Frame.wf f.
Proof.
  intros Hn He Hr ids. subst ids. destruct input as [bs|idx opcode|attack idx]; cbn [input_frame].
  - destruct (Frame.decode bs) as [f| |] eqn:Hd; [eexists; split; [done|]..|].
    + intros g [= <-]. by apply Frame.decode_Ok in Hd as [? _].
    + done.
    + by apply Frame.decode_no_panic in Hd.
  - destruct (signed_frame_ok seed n idx e r (default Opcode.AppMessage (Opcode.from_u16 opcode))
      Hn He Hr) as (sender & k & f & -> & Hk & Hf & Hw).
    cbn [mbind res_bind]. rewrite Hk. unfold create_valid_frame. rewrite Hf. exists (Some f).
    split; [done|]. by intros ? [= <-].
  - destruct (pipeline_attack_ok attack seed n idx e r Hn He Hr) as (f & -> & Hw). exists (Some f).
    split; [done|]. by intros ? [= <-].
Qed.

(** Between two inputs: nothing is stored. *)
Record pz_inv (k : N) (s : pz) : Prop := {
  inv_bounded : Sequencer.bounded (RoomManager.sequencer (manager s));
  inv_empty : MemoryStorage.frames (storage s) = ∅;
  inv_next : next_expected_log_index s <= k }.

Lemma on_input_ok time k seed n input e r s :
  let ids := Members.member_ids n in
  pz_inv k s -> k < u64_MAX -> (0 < n)%nat -> e < 2 ^ 64 -> r < 2 ^ 128 ->
  exists s', on_input time r e ids (Members.member_keys seed ids) input s = Ok s' /\
    pz_inv (k + 1) s'.
Proof.
  intros ids [Hb Hem Hx] Hk Hn He Hr. unfold on_input.
  destruct (input_frame_ok input seed n e r Hn He Hr) as (o & Ho & Hw). fold ids in Ho. rewrite Ho.
  cbn [mbind res_bind]. destruct o as [f|]; [|exists s; split; [done|]; split; [done..|lia]].
  specialize (Hw f eq_refl).
  pose proof (memory_process (manager s) (storage s) f time Hem Hb Hw) as Hp.
  destruct (RoomManager.process_frame f time (manager s, storage s)) as [[m' st'] res].
  destruct Hp as (-> & _ & Hb' & Hp). destruct res as [acts|err|]; [| |done].
  - assert (Hc : exists next, count_persists acts (next_expected_log_index s) = Ok next /\
      next <= k + 1).
    { destruct Hp as [_ Hp]. case_decide.
      - destruct Hp as [-> _]. eexists. split; [done|]. lia.
      - destruct Hp as (_ & -> & _). cbn [count_persists]. case_match.
        + unfold add_panic. rewrite (proj2 (checked_add_Some u64_MAX _ 1 (next_expected_log_index s + 1)))
            by lia. eexists. split; [done|]. lia.
        + eexists. split; [done|]. lia. }
    destruct Hc as (next & -> & Hle). eexists. split; [done|]. by split.
  - eexists. split; [done|]. split; [done..|]. cbn. lia.
Qed.

Lemma on_inputs_ok time seed n e r inputs :
  let ids := Members.member_ids n in
  (0 < n)%nat -> e < 2 ^ 64 -> r < 2 ^ 128 ->
  forall k s, pz_inv k s -> k + len inputs < u64_MAX ->
  exists s', on_inputs time r e ids (Members.member_keys seed ids) inputs s = Ok s' /\
    MemoryStorage.frames (storage s') = ∅.
Proof.
  intros ids Hn He Hr. induction inputs as [|i inputs IH]; intros k s Hs Hk.
  { exists s. split; [done|]. apply (inv_empty k s Hs). }
  rewrite len_cons in Hk. cbn [on_inputs].
  destruct (on_input_ok time k seed n i e r s Hs) as (s1 & Hs1 & Hi); [lia|done..|].
  fold ids in Hs1. rewrite Hs1. cbn [mbind res_bind]. apply (IH (k + 1) s1 Hi). lia.
Qed.

(** What the target observes: it answers on every input and, at its end, no frame
    is stored. *)
Theorem pipeline_fuzz_observes time env scenario : typed scenario ->
  exists s, play time env scenario = Ok (Some s) /\
    forall r, MemoryStorage.frames (storage s) !! r = None.
Proof.
  intros (Hr & He & Hl). unfold play. cbv zeta. set (r := N.max _ 1).
  set (n := N.to_nat _). assert (Hn : (0 < n)%nat) by (unfold n; lia).
  destruct (member_ids_head n Hn) as [first ->]. cbn [expect mbind res_bind].
  set (mls := MlsGroupState.with_keys _ _ _ _ _).
  destruct (setup_room r first env mls) as (env' & secs & -> & ->). set (s0 := mkPz _ _ _).
  assert (H0 : pz_inv 0 s0) by (split; [by apply map_Forall_empty|done..]).
  destruct (on_inputs_ok time (seed scenario) n (su_epoch (setup scenario)) r (frames scenario)
    Hn ltac:(lia) ltac:(unfold r; lia) 0 s0 H0 ltac:(lia)) as (s & -> & Hs).
  exists s. split; [done|]. intros r'. by rewrite Hs, lookup_empty.
Qed.

(** No scenario makes [e2e_pipeline_fuzzer] fail. *)
Theorem pipeline_fuzz_holds time env scenario : typed scenario -> target time env scenario = Ok tt.
Proof.
  intros Ht. destruct (pipeline_fuzz_observes time env scenario Ht) as (s & Hs & Hem). unfold target.
  rewrite Hs. cbn. by rewrite Hem.
Qed.

End target.
End PipelineFuzz.

(** ** [storage_chaos_fuzzer] *)

Module ChaosFuzz.
Section target.
Context {signing : SigningKeys} {Env : Type} {environment : Environment Env}.

Inductive ChaosOperation :=
  | SendValidFrame (member_idx : N)
  | SendCorruptedFrame (member_idx : N)
  | QueryLatestIndex
  | LoadFrames (from limit : N)
  | RoundTripMlsState.

Record ChaosScenario := mkScenario {
  seed : bytes;
  chaos_seed : N;
  failure_rate_tenth : N;
  sc_room_id : N;
  member_count : N;
  operations : list ChaosOperation }.

Definition create_signed_frame (signing_key : SigningKey) (sender_id epoch room_id : N)
    : res unit Frame.t :=
  let header := FrameHeader.set_room_id room_id (FrameHeader.set_epoch epoch
    (FrameHeader.set_sender_id sender_id (FrameHeader.new Opcode.AppMessage))) in
  header ← DebugHeader.set_log_index 0 header;
  let signature := sign signing_key (FrameHeader.signing_data header) in
  Frame.new (FrameHeader.set_signature signature header) [].

(** The variables of the target. *)
Record cz := mkCz {
  manager : RoomManager.t;
  storage : ChaoticStorage.t MemoryStorage.t;
  successful_frames : N;
  current_epoch : N }.

Fixpoint persist_all (room_id : N) (actions : list RoomAction) (s : cz) : res unit cz :=
  match actions with
  | [] => Ok s
  | RAPersistFrame _ log_index frame _ :: rest =>
      let '(st', r) := store_frame room_id log_index frame (storage s) in
      n ← match r with
          | Panic => Panic
          | Err _ => Ok (successful_frames s)
          | Ok _ => add_panic u64_MAX (successful_frames s) 1
          end;
      persist_all room_id rest (mkCz (manager s) st' n (current_epoch s))
  | _ :: rest => persist_all room_id rest s
  end.

Definition on_valid_frame (time : Instant) (room_id : N) (frame : Frame.t) (s : cz) : res unit cz :=
  let '((m', st'), r) := RoomManager.process_frame frame time (manager s, storage s) in
  let s := mkCz m' st' (successful_frames s) (current_epoch s) in
  match r with
  | Panic => Panic
  | Err _ => Ok s
  | Ok actions => persist_all room_id actions s
  end.

Definition on_corrupted_frame (time : Instant) (frame : Frame.t) (s : cz) : res unit cz :=
  let '((m', st'), r) := RoomManager.process_frame (Members.flip_signature 0 0xFF frame) time
                           (manager s, storage s) in
  discard r;;
  Ok (mkCz m' st' (successful_frames s) (current_epoch s)).

Definition round_trip (room_id : N) (s : cz) : res unit cz :=
  let '(st', r) := load_mls_state room_id (storage s) in
  match r with
  | Panic => Panic
  | Ok (Some state) =>
      let '(st', r) := store_mls_state room_id state st' in
      discard r;;
      Ok (mkCz (manager s) st' (successful_frames s) (MlsGroupState.epoch state))
  | _ => Ok (mkCz (manager s) st' (successful_frames s) (current_epoch s))
  end.

(** A call whose result is dropped. *)
Definition ignore_call {A} (c : storeM (ChaoticStorage.t MemoryStorage.t) A) (s : cz) : res unit cz :=
  let '(st', r) := c (storage s) in
  discard r;;
  Ok (mkCz (manager s) st' (successful_frames s) (current_epoch s)).

Definition on_operation (time : Instant) (room_id : N) (members : list N)
    (keys : gmap N SigningKey) (o : ChaosOperation) (s : cz) : res unit cz :=
  match o with
  | SendValidFrame member_idx =>
      sender_id ← Members.member_at members member_idx;
      signing_key ← expect (keys !! sender_id);
      frame ← create_signed_frame signing_key sender_id (current_epoch s) room_id;
      on_valid_frame time room_id frame s
  | SendCorruptedFrame member_idx =>
      sender_id ← Members.member_at members member_idx;
      signing_key ← expect (keys !! sender_id);
      frame ← create_signed_frame signing_key sender_id (current_epoch s) room_id;
      on_corrupted_frame time frame s
  | QueryLatestIndex => ignore_call (latest_log_index room_id) s
  | LoadFrames from limit => ignore_call (load_frames room_id from (N.max limit 1)) s
  | RoundTripMlsState => round_trip room_id s
  end.

Fixpoint on_operations (time : Instant) (room_id : N) (members : list N)
    (keys : gmap N SigningKey) (ops : list ChaosOperation) (s : cz) : res unit cz :=
  match ops with
  | [] => Ok s
  | o :: rest =>
      s ← on_operation time room_id members keys o s;
      on_operations time room_id members keys rest s
  end.

Definition verify_final_invariants (room_id : N) (st : ChaoticStorage.t MemoryStorage.t)
    : res unit unit :=
  let '(st, r) := latest_log_index room_id st in
  match r with
  | Panic => Panic
  | Ok (Some latest) =>
      limit ← add_panic u64_MAX latest 1;
      match snd (load_frames room_id 0 limit st) with
      | Panic => Panic
      | Err _ => Ok tt
      | Ok frames => check_indices 0 frames
      end
  | _ => Ok tt
  end.

Definition target (time : Instant) (env : Env) (scenario : ChaosScenario) : res unit unit :=
  let room_id := saturating_add u128_MAX (sc_room_id scenario) 1 in
  st ← ChaoticStorage.with_seed MemoryStorage.new (failure_rate_tenth scenario mod 10) 10
         (chaos_seed scenario);
  let ids := Members.member_ids (N.to_nat (member_count scenario mod 5 + 1)) in
  let keys := Members.member_keys (seed scenario) ids in
  first ← expect (head ids);
  let '((env, (m, st)), r) := RoomManager.create_room room_id first (env, (RoomManager.new, st)) in
  match r with
  | Panic => Panic
  | Err _ => Ok tt
  | Ok _ =>
      let state := MlsGroupState.with_keys room_id 0 (replicate 32 (byte_of 0)) ids
        (Members.member_verifying_keys (seed scenario) ids) in
      let '(st, r) := store_mls_state room_id state st in
      match r with
      | Panic => Panic
      | Err _ => Ok tt
      | Ok _ =>
          s ← on_operations time room_id ids keys (operations scenario) (mkCz m st 0 0);
          verify_final_invariants room_id (storage s)
      end
  end.

(** ** What the target checks *)

Abbreviation chaotic := (ChaoticStorage.t MemoryStorage.t).

Definition typed_operation (o : ChaosOperation) : Prop :=
  match o with LoadFrames from limit => from < 2 ^ 8 /\ limit < 2 ^ 8 | _ => True end.

Definition typed (scenario : ChaosScenario) : Prop :=
  sc_room_id scenario < 2 ^ 8 /\ Forall typed_operation (operations scenario) /\
  len (operations scenario) < 2 ^ 62.

Lemma memory_load_total r from limit (st : MemoryStorage.t) :
  from + limit <= usize_MAX -> snd (MemoryStorage.load_frames r from limit st) <> Panic.
Proof. intros H. pose proof (load_frames_total r from limit st I H) as Ht. exact Ht. Qed.

(** A call counts once, and panics only if the call it wraps does. *)
Lemma chaos_call {A} (c : storeM MemoryStorage.t A) (st : chaotic) :
  ChaoticStorage.operation_count st < usize_MAX ->
  let '(st', res) := ChaoticStorage.chaos c st in
  ChaoticStorage.operation_count st' = ChaoticStorage.operation_count st + 1 /\
  (snd (c (ChaoticStorage.inner st)) <> Panic -> res <> Panic).
Proof.
  intros Hc. unfold ChaoticStorage.chaos.
  rewrite (proj2 (checked_add_Some usize_MAX _ 1 (ChaoticStorage.operation_count st + 1))) by lia.
  cbv zeta. destruct (_ <? _); [done|]. by destruct (c (ChaoticStorage.inner st)).
Qed.

(** What the room manager answers to a frame: nothing to store, or the frame at
    an index. *)
Definition answers (r : N) (acts : list RoomAction) : Prop :=
  forall room i f t, RAPersistFrame room i f t ∈ acts ->
    room = r /\ i < u64_MAX /\ Frame.wf f /\ FrameHeader.log_index (Frame.header f) = i /\
    FrameHeader.opcode_enum (Frame.header f) <> Some Opcode.Welcome.

Lemma chaos_process m (st : chaotic) f time :
  let r := FrameHeader.room_id (Frame.header f) in
  Frame.wf f -> Sequencer.bounded (RoomManager.sequencer m) ->
  ChaoticStorage.operation_count st < usize_MAX -> len (rv_log (view st r)) <= u64_MAX ->
  let '((m', st'), res) := RoomManager.process_frame f time (m, st) in
  Sequencer.bounded (RoomManager.sequencer m') /\ unchanged view st st' /\
  ChaoticStorage.operation_count st' <= ChaoticStorage.operation_count st + 1 /\
  res <> Panic /\ (forall acts, res = Ok acts -> (length acts <= 2)%nat /\ answers r acts).
Proof.
  intros r Hw Hb Hc Hl. pose proof (manager_storage f time m st Hw Hb) as Hst.
  pose proof (RoomManager.process_frame_cases m st f time I Hw Hb) as Hp. fold r in Hst, Hp.
  destruct (RoomManager.process_frame f time (m, st)) as [[m' st'] res].
  destruct Hp as (_ & Hu & _ & Hp).
  pose proof (chaos_call (MemoryStorage.latest_log_index r) st Hc) as Hcall.
  change (ChaoticStorage.chaos (MemoryStorage.latest_log_index r) st) with (latest_log_index r st) in Hcall.
  destruct (latest_log_index r st) as [st1 lres] eqn:Hlatest. cbn [fst snd] in Hst.
  assert (Hcount : ChaoticStorage.operation_count st' <= ChaoticStorage.operation_count st + 1).
  { destruct Hst as [[-> _]|[-> _]]; [lia|]. destruct Hcall as [-> _]. lia. }
  assert (Hlres : lres <> Panic) by (by apply Hcall).
  destruct Hp as [(_ & -> & ->)|(_ & sres & Ho & ->)]; [by split_and!|].
  destruct (Sequencer.outcome_assigned _ _ st' _ _ _ r Ho Hb Hu) as [Hb' _].
  split; [done|]. split; [done|]. split; [done|].
  destruct Ho as [e _ _|_ _|sres _ _ _ Hok Hno|_ _ _|i _ Hwel _ Hi]; try by split.
  - split; [done|]. intros acts [= <-]. split; [cbn; lia|].
    intros room i g t [[=]|[]%elem_of_nil]%elem_of_cons.
  - assert (Hlerr : exists e, lres = Err e).
    { destruct lres as [o|e|]; [|by exists e|done]. exfalso.
      fold r in Hok. rewrite Hlatest in Hok. specialize (Hok eq_refl). lia. }
    destruct Hlerr as [e ->].
    assert (Hnp : sres <> Panic).
    { intros ->. destruct Hst as [[_ Hst]|[_ Hst]]; [done|]. by apply (Hst e). }
    by destruct sres.
  - split; [done|]. intros acts [= <-]. split; [cbn; lia|]. fold r.
    intros room j g t [E|[[=]|[]%elem_of_nil]%elem_of_cons]%elem_of_cons.
    injection E as -> -> -> ->. split_and!; [done..| | |exact Hwel].
    + by apply Sequencer.at_index_wf.
    + apply Sequencer.log_index_at_index. unfold u64_MAX in Hi. lia.
Qed.

(** After at most [c] calls of the storage and [n] frames: what is stored is
    indexed. *)
Record cz_inv (r c n : N) (s : cz) : Prop := {
  inv_bounded : Sequencer.bounded (RoomManager.sequencer (manager s));
  inv_indexed : indexed (rv_log (view (storage s) r));
  inv_stored : len (rv_log (view (storage s) r)) <= n;
  inv_successful : successful_frames s <= n;
  inv_epoch : current_epoch s < 2 ^ 64;
  inv_mls mls : rv_mls (view (storage s) r) = Some mls -> MlsGroupState.epoch mls < 2 ^ 64;
  inv_calls : ChaoticStorage.operation_count (storage s) <= c }.

(** A call that leaves the log alone, between two states of the target. *)
Lemma reads_inv r c n s m' st' e :
  cz_inv r c n s -> Sequencer.bounded (RoomManager.sequencer m') ->
  unchanged view (storage s) st' -> e < 2 ^ 64 ->
  ChaoticStorage.operation_count st' <= ChaoticStorage.operation_count (storage s) + 1 ->
  cz_inv r (c + 1) n (mkCz m' st' (successful_frames s) e).
Proof.
  intros [Hb Hi Hn Hs He Hm Hc] Hb' Hu He' Hc'.
  split; cbn [manager storage successful_frames current_epoch]; rewrite ?Hu; try done. lia.
Qed.

Lemma persist_ok r c n s i f :
  cz_inv r c n s -> c < usize_MAX -> n < u64_MAX -> r < 2 ^ 128 -> i < u64_MAX -> Frame.wf f ->
  FrameHeader.log_index (Frame.header f) = i ->
  FrameHeader.opcode_enum (Frame.header f) <> Some Opcode.Welcome ->
  exists st' m, store_frame r i f (storage s) = (st', m) /\
    exists k, match m with
      | Panic => Panic
      | Err _ => Ok (successful_frames s)
      | Ok _ => add_panic (E := unit) u64_MAX (successful_frames s) 1
      end = Ok k /\ cz_inv r (c + 1) (n + 1) (mkCz (manager s) st' k (current_epoch s)).
Proof.
  intros [Hb Hix Hn Hs He Hm Hc] Hcm Hnm Hr Hi Hw Hli Hwel.
  assert (Hi64 : i < 2 ^ 64) by (unfold u64_MAX in Hi; lia).
  pose proof (store_frame_spec r i f (storage s) I Hr Hi64 Hw) as Hst.
  pose proof (chaos_call (MemoryStorage.store_frame r i f) (storage s)) as Hcall.
  change (ChaoticStorage.chaos (MemoryStorage.store_frame r i f) (storage s))
    with (store_frame r i f (storage s)) in Hcall.
  destruct (store_frame r i f (storage s)) as [st' m]. exists st', m. split; [done|].
  destruct Hcall as [Hcount Hnp]; [lia|]. destruct Hst as [_ Hst].
  assert (Hp : m <> Panic).
  { apply Hnp. unfold MemoryStorage.store_frame. cbv zeta. by destruct (negb _). }
  destruct m as [[]|e|]; [| |done].
  - destruct Hst as (Hlen & Hv & _). unfold add_panic.
    rewrite (proj2 (checked_add_Some u64_MAX _ 1 (successful_frames s + 1))) by lia.
    eexists. split; [done|]. split; cbn [manager storage successful_frames current_epoch];
      rewrite ?Hv; cbn [push_frame rv_log rv_mls]; try done; [|rewrite len_app; change (len [f]) with 1; lia|lia|lia].
    apply indexed_snoc; [done|congruence|done].
  - destruct Hst as [Hu _]. eexists. split; [done|].
    split; cbn [manager storage successful_frames current_epoch]; rewrite ?Hu; try done; lia.
Qed.

Lemma persist_all_ok r acts : forall c n s,
  cz_inv r c n s -> answers r acts -> c + len acts < usize_MAX -> n + len acts < u64_MAX ->
  r < 2 ^ 128 ->
  exists s', persist_all r acts s = Ok s' /\ cz_inv r (c + len acts) (n + len acts) s'.
Proof.
  induction acts as [|a acts IH]; intros c n s Hs Ha Hc Hn Hr.
  { exists s. by rewrite !N.add_0_r. }
  rewrite len_cons in *. assert (Ha' : answers r acts).
  { intros room i f t Hin. apply (Ha room i f t). by apply elem_of_cons; right. }
  assert (Hskip : exists s', persist_all r acts s = Ok s' /\
            cz_inv r (c + (1 + len acts)) (n + (1 + len acts)) s').
  { destruct (IH (c + 1) (n + 1) s) as (s' & ? & ?); [|done|lia|lia|done|].
    - destruct Hs. split; try done; lia.
    - exists s'. split; [done|]. by rewrite !N.add_assoc. }
  destruct a as [|room i f t| |]; cbn [persist_all]; [done| |done..].
  destruct (Ha room i f t) as (_ & Hi & Hw & Hli & Hwel); [by apply elem_of_cons; left|].
  destruct (persist_ok r c n s i f Hs) as (st' & m & -> & k & -> & Hs'); [lia|lia|done..|].
  cbn [mbind res_bind]. rewrite !N.add_assoc. by apply IH; [| |lia|lia|].
Qed.

Lemma frame_ok seed n idx e r : (0 < n)%nat -> e < 2 ^ 64 -> r < 2 ^ 128 ->
  let ids := Members.member_ids n in
  exists sender k f, Members.member_at ids idx = Ok sender /\
    Members.member_keys seed ids !! sender = Some k /\
    create_signed_frame k sender e r = Ok f /\ Frame.wf f /\
    FrameHeader.room_id (Frame.header f) = r.
Proof.
  intros Hn He Hr ids. destruct (Members.member_at_ok seed n idx Hn) as (sender & k & Hs & Hk).
  destruct (Members.create_signed_frame_ok k sender e r Opcode.AppMessage He Hr)
    as (f & Hf & Hw & Hroom & _).
  exists sender, k, f. split_and!; try done.
Qed.

Lemma cz_inv_weaken r c n c' n' s : cz_inv r c n s -> c <= c' -> n <= n' -> cz_inv r c' n' s.
Proof. intros [] ? ?. split; try done; lia. Qed.

Lemma valid_frame_ok time r c n f s :
  cz_inv r c n s -> c + 3 < usize_MAX -> n + 2 < u64_MAX -> Frame.wf f ->
  FrameHeader.room_id (Frame.header f) = r ->
  exists s', on_valid_frame time r f s = Ok s' /\ cz_inv r (c + 3) (n + 2) s'.
Proof.
  intros Hs Hc Hn Hw <-. pose proof (inv_calls _ _ _ _ Hs). pose proof (inv_stored _ _ _ _ Hs).
  pose proof (chaos_process (manager s) (storage s) f time Hw (inv_bounded _ _ _ _ Hs)) as Hp.
  unfold on_valid_frame. destruct (RoomManager.process_frame f time _) as [[m' st'] res].
  destruct Hp as (Hb & Hu & Hcount & Hnp & Hacts); [lia|lia|].
  pose proof (reads_inv _ c n s m' st' _ Hs Hb Hu (inv_epoch _ _ _ _ Hs) Hcount) as Hs'.
  destruct res as [acts|e|]; [| |done].
  - destruct (Hacts acts eq_refl) as [Hlen Ha]. assert (len acts <= 2) by (unfold len; lia).
    destruct (persist_all_ok _ acts (c + 1) n _ Hs' Ha) as (s2 & -> & Hs2); [lia|lia| |].
    { apply FrameHeader.room_id_lt, Hw. }
    exists s2. split; [done|]. eapply cz_inv_weaken; [done|lia..].
  - eexists. split; [done|]. eapply cz_inv_weaken; [done|lia..].
Qed.

Lemma corrupted_frame_ok time r c n f s :
  cz_inv r c n s -> c + 3 < usize_MAX -> n + 2 < u64_MAX -> Frame.wf f ->
  FrameHeader.room_id (Frame.header f) = r ->
  exists s', on_corrupted_frame time f s = Ok s' /\ cz_inv r (c + 3) (n + 2) s'.
Proof.
  intros Hs Hc Hn Hw <-. pose proof (inv_calls _ _ _ _ Hs). pose proof (inv_stored _ _ _ _ Hs).
  pose proof (chaos_process (manager s) (storage s) (Members.flip_signature 0 0xFF f) time
    (Members.flip_signature_wf 0 0xFF f Hw) (inv_bounded _ _ _ _ Hs)) as Hp.
  unfold on_corrupted_frame. destruct (RoomManager.process_frame _ time _) as [[m' st'] res].
  change (FrameHeader.room_id (Frame.header (Members.flip_signature 0 0xFF f)))
    with (FrameHeader.room_id (Frame.header f)) in Hp.
  destruct Hp as (Hb & Hu & Hcount & Hnp & _); [lia|lia|].
  pose proof (reads_inv _ c n s m' st' _ Hs Hb Hu (inv_epoch _ _ _ _ Hs) Hcount) as Hs'.
  eexists. split; [by destruct res|]. eapply cz_inv_weaken; [done|lia..].
Qed.

(** A call that only reads, its result dropped. *)
Lemma ignore_call_ok {A} r c n (op : storeM MemoryStorage.t A) s :
  cz_inv r c n s -> c + 3 < usize_MAX ->
  unchanged view (storage s) (fst (ChaoticStorage.chaos op (storage s))) ->
  snd (op (ChaoticStorage.inner (storage s))) <> Panic ->
  exists s', ignore_call (ChaoticStorage.chaos op) s = Ok s' /\ cz_inv r (c + 3) (n + 2) s'.
Proof.
  intros Hs Hc Hu Hnp. pose proof (inv_calls _ _ _ _ Hs). unfold ignore_call.
  pose proof (chaos_call op (storage s)) as Hcall.
  destruct (ChaoticStorage.chaos op (storage s)) as [st' res]. cbn [fst] in Hu.
  destruct Hcall as [Hcount Hres]; [lia|]. specialize (Hres Hnp).
  eexists. split; [by destruct res|]. apply (cz_inv_weaken r (c + 1) n); [|lia..].
  apply (reads_inv r c n s); try done; [apply (inv_bounded _ _ _ _ Hs)|apply (inv_epoch _ _ _ _ Hs)|lia].
Qed.

Lemma round_trip_ok r c n s :
  cz_inv r c n s -> c + 3 < usize_MAX -> r < 2 ^ 128 ->
  exists s', round_trip r s = Ok s' /\ cz_inv r (c + 3) (n + 2) s'.
Proof.
  intros Hs Hc Hr. pose proof (inv_calls _ _ _ _ Hs). pose proof (inv_bounded _ _ _ _ Hs) as Hb.
  unfold round_trip. pose proof (load_mls_state_spec r (storage s) I Hr) as Hl. unfold reads in Hl.
  pose proof (chaos_call (MemoryStorage.load_mls_state r) (storage s)) as Hcall.
  change (ChaoticStorage.chaos (MemoryStorage.load_mls_state r) (storage s))
    with (load_mls_state r (storage s)) in Hcall.
  destruct (load_mls_state r (storage s)) as [st1 res]. destruct Hl as (_ & Hu & Hv).
  destruct Hcall as [Hcount Hnp]; [lia|]. specialize (Hnp ltac:(done)).
  assert (Hkeep : forall e, e < 2 ^ 64 -> cz_inv r (c + 1) n (mkCz (manager s) st1 (successful_frames s) e)).
  { intros e He. apply (reads_inv r c n s); try done. lia. }
  destruct res as [[mls|]|e|]; [| | |done].
  2-3: eexists; (split; [done|]); eapply cz_inv_weaken; [apply Hkeep, (inv_epoch _ _ _ _ Hs)|lia..].
  specialize (Hv _ eq_refl). symmetry in Hv. pose proof (inv_mls _ _ _ _ Hs mls Hv) as Hmls.
  specialize (Hkeep _ Hmls).
  pose proof (store_mls_state_spec r mls st1 I Hr) as Hw. unfold writes in Hw.
  pose proof (chaos_call (MemoryStorage.store_mls_state r mls) st1) as Hcall.
  change (ChaoticStorage.chaos (MemoryStorage.store_mls_state r mls) st1)
    with (store_mls_state r mls st1) in Hcall.
  destruct (store_mls_state r mls st1) as [st2 res]. destruct Hw as [_ Hw].
  destruct Hcall as [Hcount2 Hnp2]; [lia|]. specialize (Hnp2 ltac:(done)).
  eexists. split; [by destruct res|]. apply (cz_inv_weaken r (c + 2) n); [|lia..].
  assert (Hlog : rv_log (view st2 r) = rv_log (view st1 r) /\ rv_mls (view st2 r) = Some mls).
  { destruct res; [destruct Hw as [-> _]; done|rewrite Hw, Hu; done..]. }
  destruct Hlog as [Hlog Hm2]. destruct Hkeep as [? Hi Hst ? ? ? Hcalls].
  cbn [manager storage successful_frames current_epoch] in *.
  split; cbn [manager storage successful_frames current_epoch]; rewrite ?Hlog; try done;
    [intros ? E; rewrite Hm2 in E; by injection E as <-|]. lia.
Qed.

Lemma chaos_operation_ok time seed k o r c n s :
  let ids := Members.member_ids k in
  cz_inv r c n s -> c + 3 < usize_MAX -> n + 2 < u64_MAX -> r < 2 ^ 128 -> (0 < k)%nat ->
  typed_operation o ->
  exists s', on_operation time r ids (Members.member_keys seed ids) o s = Ok s' /\
    cz_inv r (c + 3) (n + 2) s'.
Proof.
  intros ids Hs Hc Hn Hr Hk Ht. subst ids. destruct o as [idx|idx| |from limit|]; cbn [on_operation].
  - destruct (frame_ok seed k idx _ r Hk (inv_epoch _ _ _ _ Hs) Hr)
      as (sender & key & f & -> & Hkey & Hf & Hw & Hroom). cbn [mbind res_bind].
    rewrite Hkey. cbn [expect mbind res_bind]. rewrite Hf. by apply valid_frame_ok.
  - destruct (frame_ok seed k idx _ r Hk (inv_epoch _ _ _ _ Hs) Hr)
      as (sender & key & f & -> & Hkey & Hf & Hw & Hroom). cbn [mbind res_bind].
    rewrite Hkey. cbn [expect mbind res_bind]. rewrite Hf. by apply corrupted_frame_ok.
  - apply (ignore_call_ok r c n (MemoryStorage.latest_log_index r)); try done.
    pose proof (latest_log_index_spec r (storage s) I Hr) as Hread. apply (reads_fst _ _ _ Hread).
  - destruct Ht as [Hfrom Hlimit].
    apply (ignore_call_ok r c n (MemoryStorage.load_frames r from (N.max limit 1))); try done.
    + pose proof (load_frames_spec r from (N.max limit 1) (storage s) I Hr ltac:(lia)) as Hread.
      apply (reads_fst _ _ _ Hread).
    + apply memory_load_total. unfold usize_MAX, u64_MAX. lia.
  - by apply round_trip_ok.
Qed.

Lemma operations_ok time seed k r ops :
  let ids := Members.member_ids k in
  r < 2 ^ 128 -> (0 < k)%nat -> Forall typed_operation ops ->
  forall c n s, cz_inv r c n s -> c + 3 * len ops < usize_MAX -> n + 2 * len ops < u64_MAX ->
  exists s', on_operations time r ids (Members.member_keys seed ids) ops s = Ok s' /\
    cz_inv r (c + 3 * len ops) (n + 2 * len ops) s'.
Proof.
  intros ids Hr Hk Ht. induction Ht as [|o ops Ho _ IH]; intros c n s Hs Hc Hn.
  { exists s. split; [done|]. cbn. by rewrite !N.add_0_r. }
  rewrite len_cons in *. cbn [on_operations].
  destruct (chaos_operation_ok time seed k o r c n s Hs) as (s1 & Hs1 & Hi); [lia|lia|done..|].
  fold ids in Hs1. rewrite Hs1. cbn [mbind res_bind].
  destruct (IH (c + 3) (n + 2) s1 Hi) as (s2 & -> & Hi2); [lia|lia|]. exists s2. split; [done|].
  eapply cz_inv_weaken; [done|lia..].
Qed.

Lemma verify_final_ok r c n s : cz_inv r c n s -> r < 2 ^ 128 ->
  c + 2 < usize_MAX -> n < u64_MAX -> verify_final_invariants r (storage s) = Ok tt.
Proof.
  intros Hs Hr Hc Hn. pose proof (inv_calls _ _ _ _ Hs). unfold verify_final_invariants.
  pose proof (latest_log_index_spec r (storage s) I Hr) as Hl. unfold reads in Hl.
  pose proof (chaos_call (MemoryStorage.latest_log_index r) (storage s)) as Hcall.
  change (ChaoticStorage.chaos (MemoryStorage.latest_log_index r) (storage s))
    with (latest_log_index r (storage s)) in Hcall.
  destruct (latest_log_index r (storage s)) as [st1 res]. destruct Hl as (_ & Hu & Hv).
  destruct Hcall as [Hcount Hnp]; [lia|]. specialize (Hnp ltac:(done)).
  destruct res as [[latest|]|e|]; [|done..]. specialize (Hv _ eq_refl).
  pose proof (inv_stored _ _ _ _ Hs) as Hlen.
  assert (Hlast : latest + 1 = len (rv_log (view (storage s) r))).
  { unfold last_index in Hv. destruct (rv_log (view (storage s) r)) as [|f log]; [done|].
    injection Hv as ->. rewrite len_cons. lia. }
  unfold add_panic. rewrite (proj2 (checked_add_Some u64_MAX latest 1 (latest + 1))) by lia.
  cbn [expect mbind res_bind].
  pose proof (load_frames_spec r 0 (latest + 1) st1 I Hr eq_refl) as Hf. unfold reads in Hf.
  pose proof (chaos_call (MemoryStorage.load_frames r 0 (latest + 1)) st1) as Hcall.
  change (ChaoticStorage.chaos (MemoryStorage.load_frames r 0 (latest + 1)) st1)
    with (load_frames r 0 (latest + 1) st1) in Hcall.
  destruct (load_frames r 0 (latest + 1) st1) as [st2 fres]. cbn [snd].
  destruct Hcall as [_ Hfp]; [lia|]. destruct Hf as (_ & _ & Hf).
  destruct fres as [fs|e|]; [|done|].
  - rewrite (Hf fs eq_refl), Hu, drop_0. apply check_indexed, indexed_take, (inv_indexed _ _ _ _ Hs).
  - exfalso. apply Hfp; [|done]. apply memory_load_total.
    unfold usize_MAX, u64_MAX in *. lia.
Qed.

(** Creating the room: it succeeds or an injected failure refuses it. *)
Lemma chaos_create r creator env num seed : r < 2 ^ 128 ->
  let st0 := ChaoticStorage.mk MemoryStorage.new num 10 seed 0 in
  let '((_, (m, st)), res) := RoomManager.create_room r creator (env, (RoomManager.new, st0)) in
  RoomManager.sequencer m = Sequencer.new /\ ChaoticStorage.operation_count st <= 1 /\
  res <> Panic /\ rv_log (view st r) = [] /\ rv_mls (view st r) = None.
Proof.
  intros Hr st0. pose proof (RoomManager.create_room_cases r creator env RoomManager.new st0 I Hr) as Hc.
  unfold RoomManager.create_room, RoomManager.has_room in *.
  cbn [RoomManager.room_metadata RoomManager.new] in *.
  rewrite lookup_empty, (bool_decide_eq_false_2 (is_Some None)) in * by (by intros [? ?]).
  destruct (wall_clock_secs env) as [secs env']. unfold mbind, M_bind, RoomManager.storage_call in *.
  pose proof (chaos_call (MemoryStorage.create_room r (mkStoredRoomMetadata creator secs)) st0 eq_refl)
    as Hcall.
  change (ChaoticStorage.chaos (MemoryStorage.create_room r (mkStoredRoomMetadata creator secs)) st0)
    with (Storage.create_room r (mkStoredRoomMetadata creator secs) st0) in Hcall.
  destruct (Storage.create_room r _ st0) as [st1 res]. destruct Hcall as [Hcount Hnp].
  specialize (Hnp ltac:(done)). change (ChaoticStorage.operation_count st0) with 0 in Hcount.
  destruct res as [[]|e|]; [| |done]; cbn -[view] in *; destruct Hc as [_ Hc].
  - destruct Hc as [(? & _)|(md & _ & _ & [Hv _] & _)]; [done|]. rewrite Hv.
    split; [done|]. split; [lia|]. by split_and!.
  - destruct Hc as [(_ & _ & Hu)|(md & ? & _)]; [|done]. rewrite Hu.
    split; [done|]. split; [lia|]. by split_and!.
Qed.

(** C23: no scenario makes [storage_chaos_fuzzer] fail: whichever calls the storage
    refuses, the room manager answers each frame and what is stored stands at its
    index. *)
Theorem storage_chaos_holds time env scenario : typed scenario -> target time env scenario = Ok tt.
Proof.
  intros (Hroom & Ht & Hl). unfold target. set (r := saturating_add _ _ 1).
  assert (Hr : r < 2 ^ 128) by (unfold r, saturating_add, u128_MAX; lia).
  unfold ChaoticStorage.with_seed. rewrite (proj2 (N.leb_le _ 10))
    by (apply N.lt_le_incl, N.mod_lt; done).
  cbn [mbind res_bind]. set (k := N.to_nat (member_count scenario mod 5 + 1)).
  assert (Hk : (0 < k)%nat) by (unfold k; generalize (member_count scenario mod 5); clear; intros; lia).
  destruct (member_ids_head k Hk) as [first ->]. cbn [expect mbind res_bind].
  pose proof (chaos_create r first env (failure_rate_tenth scenario mod 10) (chaos_seed scenario) Hr) as Hc.
  cbv zeta in Hc. destruct (RoomManager.create_room r first _) as [[env' [m st]] res].
  destruct Hc as (Hm & Hcount & Hnp & Hlog & Hmls). destruct res as [[]|e|]; [|done..].
  set (mls := MlsGroupState.with_keys _ _ _ _ _).
  pose proof (store_mls_state_spec r mls st I Hr) as Hw. unfold writes in Hw.
  pose proof (chaos_call (MemoryStorage.store_mls_state r mls) st) as Hcall.
  change (ChaoticStorage.chaos (MemoryStorage.store_mls_state r mls) st)
    with (store_mls_state r mls st) in Hcall.
  destruct (store_mls_state r mls st) as [st1 res]. destruct Hw as [_ Hw].
  destruct Hcall as [Hcount1 Hnp1]; [unfold usize_MAX, u64_MAX; lia|]. specialize (Hnp1 ltac:(done)).
  destruct res as [[]|e|]; [|done..]. destruct Hw as [Hv _].
  assert (H0 : cz_inv r 2 0 (mkCz m st1 0 0)).
  { split; cbn [manager storage successful_frames current_epoch]; rewrite ?Hv, ?Hm;
      cbn [set_mls rv_log rv_mls]; rewrite ?Hlog; try done; [by intros ? [= <-]|lia]. }
  destruct (operations_ok time (seed scenario) k r (operations scenario) Hr Hk Ht 2 0 _ H0)
    as (s & Hs & Hi); [unfold usize_MAX, u64_MAX; lia|unfold u64_MAX; lia|].
  rewrite Hs. cbn [mbind res_bind].
  eapply verify_final_ok; [done|done|unfold usize_MAX, u64_MAX; lia|unfold u64_MAX; lia].
Qed.

End target.
End ChaosFuzz.
