(* ===== verification/UnitTesting.v ===== *)
(** * Unit tests

    The vocabulary of the repository's unit tests: a test is a program over the
    state it works on, and passes when it returns; a failed assertion and an
    [unwrap] of an error are panics.  The files [Unit*.v] restate the tests of
    the source on the model, one definition per test under its name, and evaluate
    them: the model behaves as the tests say the code does. *)

From S2P Require Import Prelude.

Local Open Scope N_scope.

(** A test over a state, and a test without one. *)
Definition test (S A : Type) : Type := M S unit A.
Definition verdict : Type := res unit unit.

Section testing.
Context {S : Type}.

(** [call(..).unwrap()], [call(..).expect(..)]. *)
Definition unwrap {E A} (c : M S E A) : test S A := fun s =>
  let '(s', r) := c s in (s', match r with Ok a => Ok a | _ => Panic end).

(** The result of a call as a value. *)
Definition attempt {E A} (c : M S E A) : test S (res E A) := fun s =>
  let '(s', r) := c s in
  (s', match r with Ok a => Ok (Ok a) | Err e => Ok (Err e) | Panic => Panic end).

(** A call without errors, and a query. *)
Definition call {A} (f : S -> S * A) : test S A := fun s => let '(s', a) := f s in (s', Ok a).
Definition query {A} (f : S -> A) : test S A := fun s => (s, Ok (f s)).

Definition check (b : bool) : test S unit := lift (asserts b).
Definition check_eq {A} `{EqDecision A} (a b : A) : test S unit := check (bool_decide (a = b)).
Definition some {A} (o : option A) : test S A := lift (expect o).
(** [vec[i]]. *)
Definition index {A} (l : list A) (i : nat) : test S A := some (l !! i).

(** [for x in l]. *)
Fixpoint for_each {A} (l : list A) (f : A -> test S unit) : test S unit :=
  match l with [] => mret tt | x :: l' => f x;; for_each l' f end.
(** [for i in a..b]. *)
Definition for_range (a b : N) (f : N -> test S unit) : test S unit :=
  for_each ((fun i => a + N.of_nat i) <$> List.seq 0 (N.to_nat (b - a))) f.

Definition is_err {E A} (r : res E A) : bool := match r with Err _ => true | _ => false end.

Definition run_test (t : test S unit) (s : S) : verdict := snd (t s).

End testing.

(** The verdict of tests that are to pass, and of one that is to panic. *)
Definition all_pass (verdicts : list verdict) : bool :=
  forallb (fun v => match v with Ok _ => true | _ => false end) verdicts.
Definition should_panic (v : verdict) : verdict := match v with Panic => Ok tt | _ => Panic end.

(** [vec![b; n]] and a list of small numbers as bytes. *)
Definition filled (b : N) (n : nat) : bytes := replicate n (byte_of b).
Definition lit (ns : list N) : bytes := map byte_of ns.
Definition str (s : string) : bytes := String.list_byte_of_string s.

(** [haystack.contains(needle)]. *)
Definition contains_str (needle haystack : string) : bool :=
  bool_decide (is_Some (String.index 0 needle haystack)).
