(* ===== verification/UnitProto.v ===== *)
(** * The unit tests of the protocol crate

    [opcodes.rs], [flags.rs], [header.rs], [frame.rs] and the [Ping] of
    [payloads/mod.rs].  A test of a property of random inputs is a program of its
    input, and passes on every input its generator can make. *)

From S2P Require Import Prelude Opcodes Header Framing Payloads UnitTesting.

Local Open Scope N_scope.

Module ProtoTests.

Abbreviation check_all := (test unit unit).

(** ** [opcodes.rs] and [flags.rs] *)

Definition opcode_round_trip : check_all :=
  let all_opcodes :=
    [Opcode.Hello; Opcode.HelloReply; Opcode.Goodbye; Opcode.Ping; Opcode.Pong;
     Opcode.SyncRequest; Opcode.SyncResponse; Opcode.Error;
     Opcode.KeyPackage; Opcode.Proposal; Opcode.Commit; Opcode.Welcome; Opcode.GroupInfo;
     Opcode.PSKProposal; Opcode.ReInit; Opcode.ExternalCommit; Opcode.KeyPackagePublish;
     Opcode.KeyPackageFetch; Opcode.GroupInfoRequest;
     Opcode.AppMessage; Opcode.AppReceipt; Opcode.AppReaction; Opcode.AppEdit; Opcode.AppDelete;
     Opcode.Typing; Opcode.Presence;
     Opcode.Redact; Opcode.Ban; Opcode.Unban; Opcode.Kick; Opcode.Mute; Opcode.Pin; Opcode.Report;
     Opcode.FedAppend; Opcode.FedSync; Opcode.FedAck; Opcode.FedNack; Opcode.FedQuery;
     Opcode.CASPut; Opcode.CASGet; Opcode.CASDelete; Opcode.CASProof] in
  for_each all_opcodes (fun opcode =>
    check_eq (Some opcode) (Opcode.from_u16 (Opcode.to_u16 opcode))).

Definition invalid_opcode : check_all :=
  check_eq (Opcode.from_u16 0x9999) None;;
  check_eq (Opcode.from_u16 0x0000) None.

(** [f | g] of the bitflags crate, and all the flags. *)
Definition union (f g : FrameFlags.t) : FrameFlags.t :=
  FrameFlags.mk (byte_of (N.lor (Byte.to_N (FrameFlags.bits f)) (Byte.to_N (FrameFlags.bits g)))).
Definition all_flags : FrameFlags.t := foldr union FrameFlags.empty
  [FrameFlags.COMPRESSED; FrameFlags.FRAGMENTED; FrameFlags.PRIORITY; FrameFlags.FEDERATED;
   FrameFlags.EXTERNAL; FrameFlags.EPHEMERAL; FrameFlags.REDACTABLE; FrameFlags.RESERVED].

Definition flags_basic : check_all :=
  let flags := union FrameFlags.COMPRESSED FrameFlags.PRIORITY in
  check (FrameFlags.contains flags FrameFlags.COMPRESSED);;
  check (FrameFlags.contains flags FrameFlags.PRIORITY);;
  check (negb (FrameFlags.contains flags FrameFlags.FEDERATED)).

Definition flags_round_trip : check_all :=
  let flags := union FrameFlags.EXTERNAL FrameFlags.REDACTABLE in
  check_eq flags (FrameFlags.from_byte (FrameFlags.to_byte flags)).

Definition flags_empty : check_all := check_eq (FrameFlags.to_byte FrameFlags.empty) (byte_of 0).
Definition flags_all : check_all := check_eq (FrameFlags.to_byte all_flags) (byte_of 0xFF).

(** ** [header.rs] *)

(** [buf[0..4].copy_from_slice(..); buf[4] = version]. *)
Definition buffer (magic : bytes) (version : byte) : bytes := magic ++ [version] ++ zeros 123.
Definition valid_buffer : bytes :=
  buffer (to_be_bytes 4 FrameHeader.MAGIC) FrameHeader.VERSION.

Definition header_size : check_all :=
  check_eq (len (FrameHeader.to_bytes (FrameHeader.of_layout valid_buffer))) FrameHeader.SIZE;;
  check_eq FrameHeader.SIZE 128.

Definition header_round_trip (header : FrameHeader.t) : check_all :=
  parsed ← unwrap (lift (FrameHeader.from_bytes (FrameHeader.to_bytes header)));
  check (FrameHeader.eq header parsed).

Definition header_accessors (header : FrameHeader.t) : check_all :=
  check_eq (FrameHeader.magic header) FrameHeader.MAGIC;;
  check_eq (FrameHeader.version header) FrameHeader.VERSION;;
  check (FrameHeader.payload_size header <=? FrameHeader.MAX_PAYLOAD_SIZE).

Definition reject_short_buffer : check_all :=
  check_eq (FrameHeader.from_bytes (zeros 100)) (Err (ProtocolError.FrameTooShort 128 100)).

Definition reject_invalid_magic : check_all :=
  check_eq (FrameHeader.from_bytes (buffer (filled 0xFF 4) FrameHeader.VERSION))
    (Err ProtocolError.InvalidMagic).

Definition reject_invalid_version : check_all :=
  check_eq (FrameHeader.from_bytes (buffer (to_be_bytes 4 FrameHeader.MAGIC) (byte_of 0xFF)))
    (Err (ProtocolError.UnsupportedVersion (byte_of 0xFF))).

Definition reject_oversized_payload : check_all :=
  let oversized := FrameHeader.MAX_PAYLOAD_SIZE + 1 in
  let buf := take 12 valid_buffer ++ to_be_bytes 4 oversized ++ drop 16 valid_buffer in
  check (match FrameHeader.from_bytes buf with
         | Err (ProtocolError.PayloadTooLarge _ _) => true | _ => false end).

(** ** [frame.rs] and [payloads/mod.rs] *)

Definition frame_round_trip (frame : Frame.t) : check_all :=
  wire ← unwrap (lift (Frame.encode frame []));
  parsed ← unwrap (lift (Frame.decode wire));
  check_eq (Frame.payload frame) (Frame.payload parsed).

Definition parsed_header : test unit FrameHeader.t := unwrap (lift (FrameHeader.from_bytes valid_buffer)).

Definition frame_with_payload : check_all :=
  header ← parsed_header;
  let header := FrameHeader.mk (FrameHeader.f_magic header) (FrameHeader.f_version header)
    (FrameHeader.f_flags header) (to_be_bytes 2 (Opcode.to_u16 Opcode.Ping))
    (FrameHeader.f_request_id header) (FrameHeader.f_payload_size header)
    (FrameHeader.f_room_id header) (FrameHeader.f_sender_id header) (FrameHeader.f_context_id header)
    (FrameHeader.f_hlc_timestamp header) (FrameHeader.f_epoch header)
    (FrameHeader.f_signature header) in
  let payload_bytes := lit [1; 2; 3; 4] in
  frame ← lift (Frame.new header payload_bytes);
  check_eq (FrameHeader.payload_size (Frame.header frame)) (len payload_bytes);;
  frame_round_trip frame.

Definition reject_truncated_frame : check_all :=
  header ← parsed_header;
  let header_bytes := FrameHeader.to_bytes (FrameHeader.set_payload_size 100 header) in
  check (match Frame.decode header_bytes with
         | Err (ProtocolError.FrameTruncated _ _) => true | _ => false end).

Definition payload_ping_round_trip {ciborium : Ciborium} : check_all :=
  header ← parsed_header;
  frame ← unwrap (lift (Payload.into_frame Payload.Ping header));
  decoded ← unwrap (lift (Payload.from_frame frame));
  check (match decoded with Payload.Ping => true | _ => false end).

(** The tests of the protocol crate pass on the model. *)
Lemma proto_tests_pass {ciborium : Ciborium} : all_pass (map (fun t => run_test t tt)
  [opcode_round_trip; invalid_opcode; flags_basic; flags_round_trip; flags_empty; flags_all;
   header_size; reject_short_buffer; reject_invalid_magic; reject_invalid_version;
   reject_oversized_payload; frame_with_payload; reject_truncated_frame;
   payload_ping_round_trip]) = true.
Proof. vm_compute. reflexivity. Qed.

(** ** The generated inputs *)

(** The headers of [Arbitrary for FrameHeader]: the magic, the version and a
    payload size within the limit, any bytes in the other fields. *)
Definition arbitrary_header (flags : byte)
    (opcode request_id room_id sender_id context_id hlc_timestamp epoch : bytes)
    (payload_size : N) (signature : bytes) : FrameHeader.t :=
  FrameHeader.mk (to_be_bytes 4 FrameHeader.MAGIC) FrameHeader.VERSION flags opcode request_id
    (to_be_bytes 4 payload_size) room_id sender_id context_id hlc_timestamp epoch signature.

Definition generated (h : FrameHeader.t) : Prop :=
  exists flags opcode request_id room_id sender_id context_id hlc_timestamp epoch n signature,
    h = arbitrary_header flags opcode request_id room_id sender_id context_id hlc_timestamp epoch
          n signature /\
    n <= FrameHeader.MAX_PAYLOAD_SIZE /\ FrameHeader.wf h.

Lemma generated_valid h : generated h -> FrameHeader.wf h /\ FrameHeader.valid h.
Proof.
  intros (? & ? & ? & ? & ? & ? & ? & ? & n & ? & -> & Hn & Hw). split; [done|].
  unfold FrameHeader.valid, FrameHeader.magic, FrameHeader.payload_size, arbitrary_header.
  cbn [FrameHeader.f_magic FrameHeader.f_payload_size FrameHeader.version FrameHeader.f_version].
  unfold FrameHeader.MAX_PAYLOAD_SIZE in *. rewrite (from_to_be_bytes 4 n) by (cbn; lia). done.
Qed.

(** The tests of every generated header, and of every frame of one and a payload
    a frame can carry, pass. *)
Theorem generated_headers_pass h : generated h ->
  run_test (header_round_trip h) tt = Ok tt /\ run_test (header_accessors h) tt = Ok tt.
Proof.
  intros [Hw Hv]%generated_valid.
  assert (E : FrameHeader.from_bytes (FrameHeader.to_bytes h) = Ok h).
  { apply FrameHeader.from_bytes_Ok. split_and!; [done..|]. exists []. by rewrite app_nil_r. }
  destruct Hv as (Hm & Hver & Hp).
  unfold run_test, header_round_trip, header_accessors, check_eq, check, unwrap, lift, FrameHeader.eq.
  unfold_M. rewrite E, Hm, Hver, (proj2 (N.leb_le _ _)) by done.
  rewrite !bool_decide_eq_true_2 by done. done.
Qed.

Theorem generated_frames_pass h payload f : generated h ->
  len payload <= FrameHeader.MAX_PAYLOAD_SIZE -> Frame.new (E := unit) h payload = Ok f ->
  run_test (frame_round_trip f) tt = Ok tt.
Proof.
  intros [Hw Hv]%generated_valid Hp Hnew. destruct Hv as (Hm & Hver & _).
  destruct (Frame.new_frame_wf (E := unit) h payload Hw Hm Hver Hp) as (f' & Hf & Hwf & _).
  rewrite Hnew in Hf. injection Hf as <-.
  unfold run_test, frame_round_trip, check_eq, check, unwrap, lift. unfold_M.
  rewrite Frame.encode_wf by done. cbn [app]. rewrite <- (app_nil_r (Frame.wire f)).
  rewrite Frame.decode_wire by done. rewrite bool_decide_eq_true_2 by done. done.
Qed.

End ProtoTests.
