(* ===== verification/UnitStorage.v ===== *)
(** * The unit tests of the storages

    [storage/memory.rs], [storage/chaotic.rs] and [storage/redb.rs].  The tests
    of the database run on the tables of Redb.v without failures. *)

From stdpp Require Import sorting.
From S2P Require Import Prelude Opcodes Header Framing Payloads Validator Storage Redb UnitTesting.

Local Open Scope N_scope.

(** ** [storage/memory.rs] *)

Module MemoryTests.

Definition create_test_frame {S} (room_id log_index : N) : test S Frame.t :=
  let header := FrameHeader.set_log_index log_index
    (FrameHeader.set_room_id room_id (FrameHeader.new Opcode.AppMessage)) in
  lift (Frame.new header []).

Section tests.
Context {St : Type} `{!Storage St}.

Definition store_up_to (room_id n : N) : test St unit :=
  for_range 0 n (fun i =>
    frame ← create_test_frame room_id i;
    unwrap (store_frame room_id i frame)).

Definition log_index_at (frames : list Frame.t) (i : nat) (expected : N) : test St unit :=
  f ← index frames i; check_eq (FrameHeader.log_index (Frame.header f)) expected.

(** [for (i, frame) in frames.iter().enumerate()]. *)
Definition sequential (frames : list Frame.t) : test St unit :=
  for_each (imap (fun i f => (N.of_nat i, f)) frames) (fun '(i, f) =>
    check_eq (FrameHeader.log_index (Frame.header f)) i).

Definition test_latest_log_index_empty_room : test St unit :=
  result ← attempt (latest_log_index 100);
  check (is_ok result);;
  check (bool_decide (result = Ok None)).

Definition test_store_and_retrieve_frame : test St unit :=
  let room_id := 100 in
  frame ← create_test_frame room_id 0;
  unwrap (store_frame room_id 0 frame);;
  latest ← unwrap (latest_log_index room_id); check_eq latest (Some 0);;
  frames ← unwrap (load_frames room_id 0 10);
  check_eq (len frames) 1;;
  log_index_at frames 0 0.

Definition test_sequential_frames : test St unit :=
  let room_id := 100 in
  store_up_to room_id 10;;
  latest ← unwrap (latest_log_index room_id); check_eq latest (Some 9);;
  frames ← unwrap (load_frames room_id 0 100);
  check_eq (len frames) 10;;
  sequential frames.

Definition test_conflict_on_gap : test St unit :=
  let room_id := 100 in
  frame0 ← create_test_frame room_id 0;
  frame2 ← create_test_frame room_id 2;
  unwrap (store_frame room_id 0 frame0);;
  result ← attempt (store_frame room_id 2 frame2);
  check (is_err result);;
  match result with
  | Err (StorageError.Conflict expected got) => check_eq expected 1;; check_eq got 2
  | _ => lift Panic
  end.

Definition test_load_frames_pagination : test St unit :=
  let room_id := 100 in
  store_up_to room_id 20;;
  batch1 ← unwrap (load_frames room_id 0 10);
  check_eq (len batch1) 10;;
  log_index_at batch1 0 0;;
  log_index_at batch1 9 9;;
  batch2 ← unwrap (load_frames room_id 10 10);
  check_eq (len batch2) 10;;
  log_index_at batch2 0 10;;
  log_index_at batch2 9 19.

Definition test_load_frames_beyond_end : test St unit :=
  let room_id := 100 in
  store_up_to room_id 5;;
  frames ← unwrap (load_frames room_id 0 10);
  check_eq (len frames) 5;;
  frames ← unwrap (load_frames room_id 10 10);
  check_eq (len frames) 0.

Definition test_mls_state_storage : test St unit :=
  let room_id := 100 in
  none ← unwrap (load_mls_state room_id); check_eq none None;;
  let state := MlsGroupState.new room_id 5 (filled 42 32) [100; 200; 300] in
  unwrap (store_mls_state room_id state);;
  loaded ← unwrap (load_mls_state room_id); loaded ← some loaded;
  check_eq (MlsGroupState.room_id loaded) room_id;;
  check_eq (MlsGroupState.epoch loaded) 5;;
  check_eq (MlsGroupState.tree_hash loaded) (filled 42 32);;
  check_eq (MlsGroupState.members loaded) [100; 200; 300].

Definition test_mls_state_overwrite : test St unit :=
  let room_id := 100 in
  unwrap (store_mls_state room_id (MlsGroupState.new room_id 5 (filled 1 32) [100]));;
  unwrap (store_mls_state room_id (MlsGroupState.new room_id 6 (filled 2 32) [100; 200]));;
  loaded ← unwrap (load_mls_state room_id); loaded ← some loaded;
  check_eq (MlsGroupState.epoch loaded) 6;;
  check_eq (MlsGroupState.members loaded) [100; 200].

(** [rooms.sort_unstable()], on rooms without duplicates. *)
Definition sorted (rooms : list N) : list N := merge_sort N.le rooms.

Definition test_list_rooms : test St unit :=
  rooms ← unwrap list_rooms; check_eq rooms [];;
  for_each [100; 200; 300] (fun room_id =>
    unwrap (create_room room_id (mkStoredRoomMetadata room_id 0)));;
  rooms ← unwrap list_rooms;
  check_eq (sorted rooms) [100; 200; 300].

Definition test_create_room : test St unit :=
  let room_id := 100 in
  unwrap (create_room room_id (mkStoredRoomMetadata 42 1234567890));;
  loaded ← unwrap (load_room_metadata room_id); loaded ← some loaded;
  check_eq (creator loaded) 42;;
  check_eq (created_at_secs loaded) 1234567890.

Definition test_create_room_idempotent : test St unit :=
  let room_id := 100 in
  unwrap (create_room room_id (mkStoredRoomMetadata 42 100));;
  unwrap (create_room room_id (mkStoredRoomMetadata 99 200));;
  loaded ← unwrap (load_room_metadata room_id); loaded ← some loaded;
  check_eq (creator loaded) 42.

Definition test_load_room_metadata_not_found : test St unit :=
  loaded ← unwrap (load_room_metadata 999); check (bool_decide (loaded = None)).

End tests.

Definition test_new_storage_is_empty : test MemoryStorage.t unit :=
  n ← query MemoryStorage.room_count; check_eq n 0;;
  n ← query MemoryStorage.total_frame_count; check_eq n 0.

Definition test_multiple_rooms : test MemoryStorage.t unit :=
  store_up_to 100 5;;
  store_up_to 200 3;;
  n ← query MemoryStorage.room_count; check_eq n 2;;
  n ← query MemoryStorage.total_frame_count; check_eq n 8;;
  latest ← unwrap (latest_log_index 100); check_eq latest (Some 4);;
  latest ← unwrap (latest_log_index 200); check_eq latest (Some 2).

(** The tests of [memory.rs] pass on the model. *)
Lemma memory_tests_pass : all_pass (map (fun t => run_test t MemoryStorage.new)
  [test_new_storage_is_empty; test_latest_log_index_empty_room; test_store_and_retrieve_frame;
   test_sequential_frames; test_conflict_on_gap; test_load_frames_pagination;
   test_load_frames_beyond_end; test_multiple_rooms; test_mls_state_storage;
   test_mls_state_overwrite; test_list_rooms; test_create_room; test_create_room_idempotent;
   test_load_room_metadata_not_found]) = true.
Proof. vm_compute. reflexivity. Qed.

End MemoryTests.

(** ** [storage/chaotic.rs] *)

Module ChaoticTests.
Import MemoryTests.

Abbreviation chaotic := (ChaoticStorage.t MemoryStorage.t).

(** A test of a storage with failures at the rate [num / den]. *)
Definition with_rate (num den : N) (t : test chaotic unit) : verdict :=
  s ← ChaoticStorage.new MemoryStorage.new num den; run_test t s.

Definition test_chaotic_with_zero_failure_rate : verdict :=
  with_rate 0 1 (
    store_up_to 100 100;;
    latest ← unwrap (latest_log_index 100); check_eq latest (Some 99)).

Definition test_chaotic_with_100_failure_rate : verdict :=
  with_rate 1 1 (
    frame ← create_test_frame 100 0;
    r ← attempt (store_frame 100 0 frame); check (is_err r);;
    r ← attempt (latest_log_index 100); check (is_err r);;
    r ← attempt (load_frames 100 0 10); check (is_err r)).

(** A call on one of two storages. *)
Definition on_first {A B X} (t : test A X) : test (A * B) X := fun '(a, b) =>
  let '(a', r) := t a in ((a', b), r).
Definition on_second {A B X} (t : test B X) : test (A * B) X := fun '(a, b) =>
  let '(b', r) := t b in ((a, b'), r).

Definition test_chaotic_deterministic_with_seed : verdict :=
  chaotic1 ← ChaoticStorage.with_seed MemoryStorage.new 1 2 42;
  chaotic2 ← ChaoticStorage.with_seed MemoryStorage.new 1 2 42;
  run_test (for_range 0 100 (fun i =>
    frame ← create_test_frame 100 i;
    result1 ← on_first (attempt (store_frame 100 i frame));
    result2 ← on_second (attempt (store_frame 100 i frame));
    check_eq (is_ok result1) (is_ok result2))) (chaotic1, chaotic2).

Definition test_chaotic_accesses_underlying_storage : verdict :=
  with_rate 0 1 (
    frame ← create_test_frame 100 0;
    unwrap (store_frame 100 0 frame);;
    latest ← query (fun s => snd (latest_log_index 100 (ChaoticStorage.inner s)));
    check (bool_decide (latest = Ok (Some 0)))).

Definition test_chaotic_rejects_invalid_failure_rate : verdict :=
  should_panic (with_rate 3 2 (mret tt)).

(** The tests of [chaotic.rs] pass on the model. *)
Lemma chaotic_tests_pass : all_pass
  [test_chaotic_with_zero_failure_rate; test_chaotic_with_100_failure_rate;
   test_chaotic_deterministic_with_seed; test_chaotic_accesses_underlying_storage;
   test_chaotic_rejects_invalid_failure_rate] = true.
Proof. vm_compute. reflexivity. Qed.

End ChaoticTests.

(** ** [storage/redb.rs] *)

Module RedbTests.
Import MemoryTests.

(** The values the tests encode, for a codec that is a table. *)
#[local] Instance mls_codec : CborCodec MlsGroupState.t := table_codec
  [MlsGroupState.new 100 5 (filled 42 32) [100; 200; 300]; MlsGroupState.new 100 1 (filled 1 32) [100];
   MlsGroupState.new 100 2 (filled 2 32) [100; 200]].
#[local] Instance meta_codec : CborCodec StoredRoomMetadata := table_codec
  [mkStoredRoomMetadata 100 0; mkStoredRoomMetadata 200 0; mkStoredRoomMetadata 300 0;
   mkStoredRoomMetadata 42 1234567890; mkStoredRoomMetadata 42 100; mkStoredRoomMetadata 99 200].

Abbreviation db := RedbContract.MapDb.

Definition create_test_frame {S} (room_id log_index : N) (payload : bytes) : test S Frame.t :=
  let header := FrameHeader.set_log_index log_index (FrameHeader.set_epoch 0
    (FrameHeader.set_sender_id 1 (FrameHeader.set_room_id room_id
      (FrameHeader.new Opcode.AppMessage)))) in
  lift (Frame.new header payload).

(** [RedbStorage::open] in a new directory, then the test. *)
Definition opened (t : test db unit) : verdict :=
  run_test (unwrap RedbStorage.open;; t) (RedbContract.mkMapDb (fun _ => ∅) []).

Definition store_up_to (room_id n : N) : test db unit :=
  for_range 0 n (fun i =>
    frame ← create_test_frame room_id i (filled i 16);
    unwrap (store_frame room_id i frame)).

Definition test_frame_key_encoding : verdict :=
  let room_id := 0x123456789ABCDEF0FEDCBA9876543210 in
  let log_index := 42 in
  let key := encode_frame_key room_id log_index in
  asserts (len key =? 24);;
  '(decoded_room, decoded_index) ← decode_frame_key key;
  asserts (decoded_room =? room_id);;
  asserts (decoded_index =? log_index).

Definition test_room_key_encoding : verdict :=
  let room_id := 0x123456789ABCDEF0FEDCBA9876543210 in
  let key := encode_room_key room_id in
  asserts (len key =? 16);;
  asserts (from_be_bytes key =? room_id).

Definition test_store_frame_sequential : verdict :=
  opened (
    let room_id := 100 in
    store_up_to room_id 3;;
    latest ← unwrap (latest_log_index room_id); check_eq latest (Some 2)).

Definition test_store_frame_conflict : verdict :=
  opened (
    let room_id := 100 in
    frame0 ← create_test_frame room_id 0 (filled 0 16);
    unwrap (store_frame room_id 0 frame0);;
    frame2 ← create_test_frame room_id 2 (filled 2 16);
    result ← attempt (store_frame room_id 2 frame2);
    match result with
    | Err (StorageError.Conflict expected got) => check ((expected =? 1) && (got =? 2))
    | _ => lift Panic
    end).

Definition test_latest_log_index_empty_room : verdict :=
  opened (latest ← unwrap (latest_log_index 999); check_eq latest None).

Definition test_load_frames_pagination : verdict :=
  opened (
    let room_id := 100 in
    store_up_to room_id 20;;
    batch1 ← unwrap (load_frames room_id 0 10);
    check_eq (len batch1) 10;;
    log_index_at batch1 0 0;;
    log_index_at batch1 9 9;;
    batch2 ← unwrap (load_frames room_id 10 10);
    check_eq (len batch2) 10;;
    log_index_at batch2 0 10;;
    log_index_at batch2 9 19;;
    batch3 ← unwrap (load_frames room_id 20 10);
    check_eq (len batch3) 0).

Definition test_load_frames_roundtrip : verdict :=
  opened (
    let room_id := 100 in
    let payload := str "hello world" in
    frame ← create_test_frame room_id 0 payload;
    unwrap (store_frame room_id 0 frame);;
    loaded ← unwrap (load_frames room_id 0 10);
    check_eq (len loaded) 1;;
    f ← index loaded 0;
    check_eq (Frame.payload f) payload;;
    check_eq (FrameHeader.room_id (Frame.header f)) room_id).

Definition test_mls_state_roundtrip : verdict :=
  opened (
    let room_id := 100 in
    none ← unwrap (load_mls_state room_id); check (bool_decide (none = None));;
    unwrap (store_mls_state room_id (MlsGroupState.new room_id 5 (filled 42 32) [100; 200; 300]));;
    loaded ← unwrap (load_mls_state room_id); loaded ← some loaded;
    check_eq (MlsGroupState.room_id loaded) room_id;;
    check_eq (MlsGroupState.epoch loaded) 5;;
    check_eq (MlsGroupState.tree_hash loaded) (filled 42 32);;
    check_eq (MlsGroupState.members loaded) [100; 200; 300]).

Definition test_mls_state_overwrite : verdict :=
  opened (
    let room_id := 100 in
    unwrap (store_mls_state room_id (MlsGroupState.new room_id 1 (filled 1 32) [100]));;
    unwrap (store_mls_state room_id (MlsGroupState.new room_id 2 (filled 2 32) [100; 200]));;
    loaded ← unwrap (load_mls_state room_id); loaded ← some loaded;
    check_eq (MlsGroupState.epoch loaded) 2;;
    check_eq (MlsGroupState.members loaded) [100; 200]).

Definition test_group_info_roundtrip : verdict :=
  opened (
    let room_id := 100 in
    let epoch := 5 in
    let group_info := str "group info bytes here" in
    none ← unwrap (load_group_info room_id); check (bool_decide (none = None));;
    unwrap (store_group_info room_id epoch group_info);;
    loaded ← unwrap (load_group_info room_id); loaded ← some loaded;
    check_eq (fst loaded) epoch;;
    check_eq (snd loaded) group_info).

Definition test_group_info_overwrite : verdict :=
  opened (
    let room_id := 100 in
    unwrap (store_group_info room_id 1 (str "epoch1"));;
    unwrap (store_group_info room_id 2 (str "epoch2"));;
    loaded ← unwrap (load_group_info room_id); loaded ← some loaded;
    check_eq (fst loaded) 2;;
    check_eq (snd loaded) (str "epoch2")).

Definition test_list_rooms : verdict := opened MemoryTests.test_list_rooms.
Definition test_create_room : verdict := opened MemoryTests.test_create_room.
Definition test_create_room_idempotent : verdict := opened MemoryTests.test_create_room_idempotent.
Definition test_load_room_metadata_not_found : verdict :=
  opened MemoryTests.test_load_room_metadata_not_found.

(** The tests of [redb.rs] pass on the model. *)
Lemma redb_tests_pass : all_pass
  [test_frame_key_encoding; test_room_key_encoding; test_store_frame_sequential;
   test_store_frame_conflict; test_latest_log_index_empty_room; test_load_frames_pagination;
   test_load_frames_roundtrip; test_mls_state_roundtrip; test_mls_state_overwrite;
   test_group_info_roundtrip; test_group_info_overwrite; test_list_rooms; test_create_room;
   test_create_room_idempotent; test_load_room_metadata_not_found] = true.
Proof. vm_compute. reflexivity. Qed.

End RedbTests.
