(* ===== verification/Driver.v ===== *)
(** * The server driver

    [ServerDriver] of [lockframe-server/src/driver.rs]: events in, actions out,
    over the connections, the registry, the room manager, the KeyPackage
    registry and the storage; the [ServerError]s of [server_error.rs].  Every
    handler is a computation in the state-error monad over the driver; the
    environment, the storage and CBOR are the interfaces [Environment],
    [Storage] and [Ciborium].  The iteration order of a hash map or set is the
    order of the keys of the model's finite map. *)

From S2P Require Import Prelude Env Opcodes Header Framing Payloads Connection Validator.
From S2P Require Import Storage Sequencer Registry KeyPackages RoomManager.

Local Open Scope N_scope.

Module ServerError.

Inductive t : Type :=
  | SessionNotFound (session_id : N)
  | SessionAlreadyExists (session_id : N)
  | Room (e : RoomError.t)
  | Storage (e : StorageError.t)
  | ConnectionFailed (session_id : N) (reason : string)
  | Protocol (msg : string).

#[global] Instance server_error_eq_dec : EqDecision t.
Proof. solve_decision. Defined.

Definition display (e : t) : string :=
  match e with
  | SessionNotFound id => "session not found: " +:+ pretty id
  | SessionAlreadyExists id => "session already exists: " +:+ pretty id
  | Room err => "room error: " +:+ RoomError.display err
  | Storage err => "storage error: " +:+ StorageError.display err
  | ConnectionFailed session_id reason =>
      "connection failed for session " +:+ pretty session_id +:+ ": " +:+ reason
  | Protocol msg => "protocol error: " +:+ msg
  end.

(** [From<ProtocolError>]. *)
Definition from_protocol (e : ProtocolError.t) : t := Protocol (ProtocolError.display e).

End ServerError.

Record ServerConfig := mkServerConfig {
  sc_connection : ConnectionConfig;
  sc_max_connections : N }.

Definition default_server_config : ServerConfig :=
  mkServerConfig default_connection_config 10000.

Inductive ServerEvent :=
  | ConnectionAccepted (session_id : N)
  | FrameReceived (session_id : N) (frame : Frame.t)
  | ConnectionClosed (session_id : N) (reason : string)
  | Tick.

Inductive LogLevel := LDebug | LInfo | LWarn | LError.

Inductive ServerAction :=
  | SendToSession (session_id : N) (frame : Frame.t)
  | Broadcast (session_ids : list N) (frame : Frame.t)
  | CloseConnection (session_id : N) (reason : string)
  | Log (level : LogLevel) (message : string) (timestamp : Instant).

Module ServerDriver.

Record t (Env St : Type) := mk {
  connections : gmap N Connection.t;
  registry : ConnectionRegistry.t;
  room_manager : RoomManager.t;
  key_package_registry : KeyPackageRegistry.t;
  storage : St;
  env : Env;
  config : ServerConfig }.
Arguments mk {Env St}.
Arguments connections {Env St}.
Arguments registry {Env St}.
Arguments room_manager {Env St}.
Arguments key_package_registry {Env St}.
Arguments storage {Env St}.
Arguments env {Env St}.
Arguments config {Env St}.

Definition new {Env St} (env : Env) (storage : St) (config : ServerConfig) : t Env St :=
  mk ∅ ConnectionRegistry.new RoomManager.new KeyPackageRegistry.new storage env config.

Section driver.
Context {Env St : Type} `{!Environment Env} `{!Storage St} {ciborium : Ciborium}.

Abbreviation drv A := (M (t Env St) ServerError.t A).

Definition with_connections (cs : gmap N Connection.t) (d : t Env St) : t Env St :=
  mk cs (registry d) (room_manager d) (key_package_registry d) (storage d) (env d) (config d).
Definition with_registry (g : ConnectionRegistry.t) (d : t Env St) : t Env St :=
  mk (connections d) g (room_manager d) (key_package_registry d) (storage d) (env d) (config d).
Definition with_room_manager (m : RoomManager.t) (d : t Env St) : t Env St :=
  mk (connections d) (registry d) m (key_package_registry d) (storage d) (env d) (config d).
Definition with_key_packages (k : KeyPackageRegistry.t) (d : t Env St) : t Env St :=
  mk (connections d) (registry d) (room_manager d) k (storage d) (env d) (config d).
Definition with_storage (s : St) (d : t Env St) : t Env St :=
  mk (connections d) (registry d) (room_manager d) (key_package_registry d) s (env d) (config d).
Definition with_env (e : Env) (d : t Env St) : t Env St :=
  mk (connections d) (registry d) (room_manager d) (key_package_registry d) (storage d) e (config d).

(** ** Calls of the components *)

(** [self.env.now()]. *)
Definition env_now : drv Instant := fun d =>
  let '(i, e) := now (env d) in (with_env e d, Ok i).

(** A result that is matched on instead of propagated; a panic still is. *)
Definition caught {E A} (r : res E A) : res ServerError.t (res E A) :=
  match r with Panic => Panic | _ => Ok r end.

Definition into_frame_result (p : Payload.t) (h : FrameHeader.t)
    : drv (res ProtocolError.t Frame.t) := lift (caught (Payload.into_frame p h)).

Definition storage_result {A} (c : storeM St A) : drv (res StorageError.t A) := fun d =>
  let '(st', r) := c (storage d) in (with_storage st' d, caught r).

Definition manager_call {A} (c : M (RoomManager.t * St) RoomError.t A) : drv A := fun d =>
  let '((m', st'), r) := c (room_manager d, storage d) in
  (with_room_manager m' (with_storage st' d), map_err ServerError.Room r).

Definition registry_call {A} (f : ConnectionRegistry.t -> ConnectionRegistry.t * A) : drv A :=
  fun d => let '(g', a) := f (registry d) in (with_registry g' d, Ok a).

(** [conn.update_activity(now)] on the connection of a session. *)
Definition update_activity (session_id : N) (now : Instant) : drv unit :=
  modify (fun d => with_connections
                     (alter (Connection.update_activity now) session_id (connections d)) d).

Definition catch {A} (m : drv A) : drv (res ServerError.t A) := fun d =>
  let '(d', r) := m d in (d', caught r).

(** ** Connections *)

Definition handle_connection_accepted (session_id : N) : drv (list ServerAction) :=
  now ← env_now;
  d ← get;
  if sc_max_connections (config d) <=? N.of_nat (size (connections d)) then
    mret [CloseConnection session_id "max connections exceeded"]
  else
    let conn := Connection.set_session_id session_id
                  (Connection.new now (sc_connection (config d))) in
    modify (with_connections (<[session_id := conn]> (connections d)));;
    registry_call (ConnectionRegistry.register_session session_id SessionInfo.new);;
    mret [Log LDebug ("connection " +:+ pretty session_id +:+ " accepted, session_id="
                        +:+ pretty session_id) now].

(** The action for the runtime of each action of a connection. *)
Definition conn_action (session_id : N) (a : ConnectionAction) : ServerAction :=
  match a with
  | SendFrame f => SendToSession session_id f
  | Close reason => CloseConnection session_id reason
  end.

Definition handle_connection_closed (session_id : N) (reason : string) : drv (list ServerAction) :=
  now ← env_now;
  modify (fun d => with_connections (delete session_id (connections d)) d);;
  removed ← registry_call (ConnectionRegistry.unregister_session session_id);
  mret (match removed with
        | Some (_, rooms) =>
            [Log LInfo ("connection " +:+ pretty session_id +:+ " closed: " +:+ reason
                          +:+ ", was in " +:+ pretty (N.of_nat (size rooms)) +:+ " rooms") now]
        | None => []
        end).

Fixpoint tick_sessions (now : Instant) (session_ids : list N) : drv (list ServerAction) :=
  match session_ids with
  | [] => mret []
  | session_id :: rest =>
      d ← get;
      match connections d !! session_id with
      | Some conn =>
          let '(conn', conn_actions) := Connection.tick now conn in
          modify (with_connections (<[session_id := conn']> (connections d)));;
          actions ← tick_sessions now rest;
          mret (map (conn_action session_id) conn_actions ++ actions)
      | None => tick_sessions now rest
      end
  end.

Definition handle_tick : drv (list ServerAction) :=
  now ← env_now;
  d ← get;
  tick_sessions now (map_to_list (connections d)).*1.

(** ** Rooms *)

Definition clear_room_sequencer (room_id : N) : drv bool := fun d =>
  let '(m', b) := RoomManager.clear_room_sequencer room_id (room_manager d) in
  (with_room_manager m' d, Ok b).

(** [session_ids.remove(pos)] of the first position of the sender. *)
Fixpoint remove_first (x : N) (l : list N) : list N :=
  match l with
  | [] => []
  | y :: l' => if x =? y then l' else y :: remove_first x l'
  end.

Definition process_room_action (room_action : RoomAction) (sender_session_id : N)
    : drv (list ServerAction) :=
  match room_action with
  | RABroadcast room_id frame exclude_sender _ =>
      d ← get;
      if bool_decide (FrameHeader.opcode_enum (Frame.header frame) = Some Opcode.Welcome) then
        let recipient_id := FrameHeader.recipient_id (Frame.header frame) in
        match ConnectionRegistry.session_id_for_user (registry d) recipient_id with
        | Some session_id => mret [SendToSession session_id frame]
        | None =>
            now ← env_now;
            mret [Log LWarn ("Welcome recipient " +:+ pretty recipient_id
                               +:+ " not connected (room " +:+ pretty room_id +:+ ")") now]
        end
      else
        let session_ids := ConnectionRegistry.sessions_in_room (registry d) room_id in
        let session_ids' := if exclude_sender then remove_first sender_session_id session_ids
                            else session_ids in
        mret [Broadcast session_ids' frame]

  | RAPersistFrame room_id log_index frame _ =>
      stored ← storage_result (store_frame room_id log_index frame);
      match stored with
      | Err e =>
          (match e with
           | StorageError.Conflict _ _ => clear_room_sequencer room_id;; mret tt
           | _ => mret tt
           end);;
          now ← env_now;
          mret [Log LError ("Failed to persist frame: " +:+ StorageError.display e) now]
      | _ => mret []
      end

  | RAReject sender_id reason processed_at =>
      let log := Log LWarn ("rejected frame from " +:+ pretty sender_id +:+ ": " +:+ reason)
                   processed_at in
      made ← into_frame_result (Payload.Error (ErrorPayload.frame_rejected reason))
               (FrameHeader.new Opcode.Error);
      match made with
      | Ok frame => mret [SendToSession sender_id frame; log]
      | _ => mret [log]
      end

  | RASendSyncResponse sender_id room_id frames has_more _ =>
      made ← into_frame_result (Payload.SyncResponse (mkSyncResponse frames has_more 0))
               (FrameHeader.new Opcode.SyncResponse);
      match made with
      | Ok frame =>
          mret [SendToSession sender_id
                  (Frame.mk (FrameHeader.set_room_id room_id (Frame.header frame))
                     (Frame.payload frame))]
      | Err e =>
          now ← env_now;
          mret [Log LError ("failed to encode SyncResponse: " +:+ ProtocolError.display e) now]
      | Panic => mret []
      end
  end.

Fixpoint process_room_actions (room_actions : list RoomAction) (session_id : N)
    : drv (list ServerAction) :=
  match room_actions with
  | [] => mret []
  | a :: rest =>
      acts ← process_room_action a session_id;
      acts' ← process_room_actions rest session_id;
      mret (acts ++ acts')
  end.

Definition create_room (room_id creator_session_id : N) : drv (list ServerAction) :=
  now ← env_now;
  d ← get;
  match ConnectionRegistry.session_info (registry d) creator_session_id with
  | None => throw (ServerError.SessionNotFound creator_session_id)
  | Some info =>
      let user_id := default creator_session_id (SessionInfo.user_id info) in
      (fun d =>
         let '((env', (m', st')), r) :=
           RoomManager.create_room room_id user_id (env d, (room_manager d, storage d)) in
         (with_env env' (with_room_manager m' (with_storage st' d)),
          map_err ServerError.Room r));;
      registry_call (ConnectionRegistry.subscribe creator_session_id room_id);;
      mret [Log LInfo ("room " +:+ fmt_hex 32 room_id +:+ " created by session "
                         +:+ pretty creator_session_id) now]
  end.

Definition subscribe_to_room (session_id room_id : N) : drv bool :=
  registry_call (ConnectionRegistry.subscribe session_id room_id).

Definition unsubscribe_from_room (session_id room_id : N) : drv bool :=
  registry_call (ConnectionRegistry.unsubscribe session_id room_id).

Definition sessions_in_room (d : t Env St) (room_id : N) : list N :=
  ConnectionRegistry.sessions_in_room (registry d) room_id.

Definition connection_count (d : t Env St) : N := N.of_nat (size (connections d)).

Definition has_room (d : t Env St) (room_id : N) : bool :=
  RoomManager.has_room (room_manager d) room_id.

(** The epoch of a room is not kept by the driver. *)
Definition room_epoch (d : t Env St) (_ : N) : option N := None.

(** The loop of [recover_from_storage]. *)
Fixpoint recover_rooms (room_ids : list N) : drv unit :=
  match room_ids with
  | [] => mret tt
  | room_id :: rest => manager_call (RoomManager.recover_room room_id);; recover_rooms rest
  end.

Definition recover_from_storage : drv N :=
  listed ← storage_result list_rooms;
  room_ids ← lift (map_err ServerError.Storage listed);
  recover_rooms room_ids;;
  mret (len room_ids).

(** ** Requests *)

(** The shape of every error answer: an error frame and a log entry, or a log
    entry when the frame cannot be encoded. *)
Definition error_answer (session_id : N) (err : ErrorPayload.t) (level : LogLevel)
    (message failure : string) (now : Instant) : drv (list ServerAction) :=
  made ← into_frame_result (Payload.Error err) (FrameHeader.new Opcode.Error);
  match made with
  | Ok frame => mret [SendToSession session_id frame; Log level message now]
  | Err e => mret [Log LError (failure +:+ ProtocolError.display e) now]
  | Panic => mret []
  end.

Definition make_error_response (session_id room_id : N) (error : ServerError.t)
    : drv (list ServerAction) :=
  let error_payload :=
    match error with
    | ServerError.Room (RoomError.RoomNotFound _) => ErrorPayload.room_not_found room_id
    | ServerError.Room (RoomError.Storage e) =>
        ErrorPayload.storage_error (StorageError.display e)
    | ServerError.Room (RoomError.Sequencing e) =>
        ErrorPayload.sequencer_error (SequencerError.display e)
    | ServerError.Room (RoomError.RoomAlreadyExists e) => ErrorPayload.frame_rejected (pretty e)
    | ServerError.Protocol msg => ErrorPayload.invalid_payload msg
    | _ => ErrorPayload.frame_rejected (ServerError.display error)
    end in
  let error_msg := ErrorPayload.message error_payload in
  made ← into_frame_result (Payload.Error error_payload) (FrameHeader.new Opcode.Error);
  match made with
  | Ok frame =>
      now ← env_now;
      mret [SendToSession session_id
              (Frame.mk (FrameHeader.set_room_id room_id (Frame.header frame))
                 (Frame.payload frame));
            Log LWarn ("sync request failed for " +:+ pretty session_id +:+ ": " +:+ error_msg) now]
  | Err e =>
      now ← env_now;
      mret [Log LError ("failed to encode error response: " +:+ ProtocolError.display e) now]
  | Panic => mret []
  end.

Definition handle_sync_request (session_id : N) (frame : Frame.t) : drv (list ServerAction) :=
  let room_id := FrameHeader.room_id (Frame.header frame) in
  now ← env_now;
  result ← catch
    (payload ← lift (map_err ServerError.from_protocol (Payload.from_frame frame));
     match payload with
     | Payload.SyncRequest req =>
         room_action ← manager_call
           (RoomManager.handle_sync_request room_id session_id (from_log_index req)
              (limit req) now);
         process_room_action room_action session_id
     | _ => throw (ServerError.Protocol "expected SyncRequest payload")
     end);
  match result with
  | Ok actions => mret actions
  | Err e => make_error_response session_id room_id e
  | Panic => mret []
  end.

Definition handle_key_package_publish (session_id : N) (frame : Frame.t)
    : drv (list ServerAction) :=
  now ← env_now;
  d ← get;
  let failure := "failed to encode error response: " in
  match ConnectionRegistry.session_info (registry d) session_id with
  | None =>
      error_answer session_id (ErrorPayload.frame_rejected "Unknown session") LWarn
        ("KeyPackagePublish from unknown session " +:+ pretty session_id) failure now
  | Some info =>
      match SessionInfo.user_id info with
      | None =>
          error_answer session_id (ErrorPayload.frame_rejected "Session not authenticated") LWarn
            ("KeyPackagePublish from unauthenticated session " +:+ pretty session_id) failure now
      | Some user_id =>
          match Payload.from_frame frame with
          | Ok (Payload.KeyPackagePublish req) =>
              store_result ← (fun d =>
                let '(k', r) := KeyPackageRegistry.store user_id
                  (KeyPackageEntry.new (kpp_key_package_bytes req) (kpp_hash_ref req))
                  (key_package_registry d) in
                (with_key_packages k' d,
                 match r with Ok x => Ok x | Err e => match e with end | Panic => Panic end));
              mret (Log LInfo ("KeyPackage published for user " +:+ pretty user_id) now
                    :: if bool_decide (store_result = Evicted) then
                         [Log LDebug ("KeyPackage registry evicted an entry for user "
                                        +:+ pretty user_id) now]
                       else [])
          | Ok _ =>
              error_answer session_id
                (ErrorPayload.invalid_payload "Expected KeyPackagePublish payload") LWarn
                ("expected KeyPackagePublish payload from session " +:+ pretty session_id)
                failure now
          | Err e =>
              error_answer session_id
                (ErrorPayload.invalid_payload ("Failed to decode KeyPackagePublish: "
                                                 +:+ ProtocolError.display e)) LWarn
                ("failed to decode KeyPackagePublish: " +:+ ProtocolError.display e) failure now
          | Panic => lift Panic
          end
      end
  end.

Definition handle_key_package_fetch (session_id : N) (frame : Frame.t)
    : drv (list ServerAction) :=
  now ← env_now;
  let failure := "failed to encode error response for KeyPackageFetch: " in
  match Payload.from_frame frame with
  | Ok (Payload.KeyPackageFetch request) =>
      let user_id := kpf_user_id request in
      taken ← (fun d =>
        let '(k', e) := KeyPackageRegistry.take user_id (key_package_registry d) in
        (with_key_packages k' d, Ok e));
      match taken with
      | Some entry =>
          let response := Payload.KeyPackageFetch (mkKeyPackageFetchPayload user_id
            (KeyPackageEntry.key_package_bytes entry) (KeyPackageEntry.hash_ref entry)) in
          made ← into_frame_result response (FrameHeader.new Opcode.KeyPackageFetch);
          match made with
          | Ok response_frame =>
              mret [SendToSession session_id response_frame;
                    Log LDebug ("KeyPackage fetched for user " +:+ pretty user_id) now]
          | Err e =>
              mret [Log LError ("failed to encode KeyPackageFetch response: "
                                  +:+ ProtocolError.display e) now]
          | Panic => mret []
          end
      | None =>
          error_answer session_id (ErrorPayload.keypackage_not_found user_id) LDebug
            ("no KeyPackage found for user " +:+ pretty user_id +:+ " (requested by session "
               +:+ pretty session_id +:+ ")") failure now
      end
  | Ok _ =>
      error_answer session_id
        (ErrorPayload.invalid_payload "Expected KeyPackageFetch payload") LWarn
        ("unexpected payload type in KeyPackageFetch frame from session " +:+ pretty session_id)
        failure now
  | Err e =>
      error_answer session_id
        (ErrorPayload.invalid_payload ("Failed to decode KeyPackageFetch: "
                                         +:+ ProtocolError.display e)) LWarn
        ("failed to decode KeyPackageFetch from session " +:+ pretty session_id +:+ ": "
           +:+ ProtocolError.display e) failure now
  | Panic => lift Panic
  end.

Definition handle_group_info_publish (session_id : N) (frame : Frame.t)
    : drv (list ServerAction) :=
  now ← env_now;
  match Payload.from_frame frame with
  | Ok (Payload.GroupInfo info) =>
      let room_id := gip_room_id info in
      stored ← storage_result
        (store_group_info room_id (gip_epoch info) (gip_group_info_bytes info));
      match stored with
      | Err e =>
          mret [Log LError ("failed to store GroupInfo for room " +:+ fmt_hex 32 room_id
                              +:+ ": " +:+ StorageError.display e) now]
      | _ =>
          mret [Log LDebug ("stored GroupInfo for room " +:+ fmt_hex 32 room_id
                              +:+ " at epoch " +:+ pretty (gip_epoch info)) now]
      end
  | Ok _ =>
      mret [Log LWarn ("unexpected payload type in GroupInfo frame from session "
                         +:+ pretty session_id) now]
  | Err e =>
      mret [Log LWarn ("failed to decode GroupInfo from session " +:+ pretty session_id +:+ ": "
                         +:+ ProtocolError.display e) now]
  | Panic => lift Panic
  end.

Definition handle_group_info_request (session_id : N) (frame : Frame.t)
    : drv (list ServerAction) :=
  now ← env_now;
  let failure := "failed to encode error response for GroupInfoRequest: " in
  match Payload.from_frame frame with
  | Ok (Payload.GroupInfoRequest request) =>
      let room_id := gir_room_id request in
      loaded ← storage_result (load_group_info room_id);
      match loaded with
      | Ok (Some (epoch, group_info_bytes)) =>
          let response := Payload.GroupInfo (mkGroupInfoPayload room_id epoch group_info_bytes) in
          made ← into_frame_result response (FrameHeader.new Opcode.GroupInfo);
          match made with
          | Ok response_frame =>
              mret [SendToSession session_id response_frame;
                    Log LDebug ("GroupInfo fetched for room " +:+ fmt_hex 32 room_id
                                  +:+ " at epoch " +:+ pretty epoch) now]
          | Err e =>
              mret [Log LError ("failed to encode GroupInfo response: "
                                  +:+ ProtocolError.display e) now]
          | Panic => mret []
          end
      | Ok None =>
          error_answer session_id (ErrorPayload.room_not_found room_id) LDebug
            ("no GroupInfo found for room " +:+ fmt_hex 32 room_id +:+ " (requested by session "
               +:+ pretty session_id +:+ ")") failure now
      | Err e =>
          mret [Log LError ("failed to load GroupInfo for room " +:+ fmt_hex 32 room_id +:+ ": "
                              +:+ StorageError.display e) now]
      | Panic => mret []
      end
  | Ok _ =>
      error_answer session_id
        (ErrorPayload.invalid_payload "Expected GroupInfoRequest payload") LWarn
        ("unexpected payload type in GroupInfoRequest frame from session " +:+ pretty session_id)
        failure now
  | Err e =>
      error_answer session_id
        (ErrorPayload.invalid_payload ("Failed to decode GroupInfoRequest: "
                                         +:+ ProtocolError.display e)) LWarn
        ("failed to decode GroupInfoRequest from session " +:+ pretty session_id +:+ ": "
           +:+ ProtocolError.display e) failure now
  | Panic => lift Panic
  end.

(** ** Frames *)

(** The session-layer branch of [handle_frame_received]. *)
Definition handle_session_frame (session_id : N) (conn : Connection.t) (frame : Frame.t)
    (now : Instant) : drv (list ServerAction) :=
  let '(conn', r) := Connection.handle_frame frame now conn in
  modify (fun d => with_connections (<[session_id := conn']> (connections d)) d);;
  conn_actions ← lift (map_err (fun e => ServerError.ConnectionFailed session_id
                                           (ConnectionError.display e)) r);
  (if bool_decide (FrameHeader.opcode_enum (Frame.header frame) = Some Opcode.Hello) then
     match (match Connection.client_sender_id conn' with
            | Some id => Some id
            | None => Connection.session_id conn'
            end) with
     | Some user_id =>
         registry_call (ConnectionRegistry.update_session_info session_id
                          (SessionInfo.authenticated_as user_id));; mret tt
     | None => mret tt
     end
   else mret tt);;
  mret (map (conn_action session_id) conn_actions).

(** The Welcome branch: delivered to its recipient, past the sequencer. *)
Definition handle_welcome (session_id : N) (frame : Frame.t) (now : Instant)
    : drv (list ServerAction) :=
  let room_id := FrameHeader.room_id (Frame.header frame) in
  let recipient_id := FrameHeader.recipient_id (Frame.header frame) in
  update_activity session_id now;;
  d ← get;
  match ConnectionRegistry.session_id_for_user (registry d) recipient_id with
  | Some recipient_session_id =>
      registry_call (ConnectionRegistry.subscribe recipient_session_id room_id);;
      mret [Log LDebug ("session " +:+ pretty recipient_session_id +:+ " (user "
                          +:+ pretty recipient_id +:+ ") subscribed to room "
                          +:+ fmt_hex 32 room_id +:+ " via Welcome") now;
            SendToSession recipient_session_id frame]
  | None =>
      mret [Log LWarn ("Welcome recipient " +:+ pretty recipient_id
                         +:+ " not connected, cannot subscribe to room "
                         +:+ fmt_hex 32 room_id) now]
  end.

(** Sequencing a frame and executing the room's actions. *)
Definition route_frame (session_id : N) (frame : Frame.t) (now : Instant)
    : drv (list ServerAction) :=
  room_actions ← manager_call (RoomManager.process_frame frame now);
  process_room_actions room_actions session_id.

(** The default branch: commits create their room, external commits subscribe
    their sender, and the frame is routed. *)
Definition handle_room_frame (session_id : N) (frame : Frame.t) (now : Instant)
    : drv (list ServerAction) :=
  update_activity session_id now;;
  let room_id := FrameHeader.room_id (Frame.header frame) in
  let opcode := FrameHeader.opcode_enum (Frame.header frame) in
  let is_commit := bool_decide (opcode = Some Opcode.Commit)
                   || bool_decide (opcode = Some Opcode.ExternalCommit) in
  d ← get;
  actions1 ← (if is_commit && negb (has_room d room_id) then create_room room_id session_id
              else mret []);
  actions2 ← (if bool_decide (opcode = Some Opcode.ExternalCommit) then
                registry_call (ConnectionRegistry.subscribe session_id room_id);;
                mret [Log LDebug ("session " +:+ pretty session_id +:+ " subscribed to room "
                                    +:+ fmt_hex 32 room_id +:+ " via ExternalCommit") now]
              else mret []);
  actions3 ← route_frame session_id frame now;
  mret (actions1 ++ actions2 ++ actions3).

Definition handle_frame_received (session_id : N) (frame : Frame.t) : drv (list ServerAction) :=
  now ← env_now;
  d ← get;
  match connections d !! session_id with
  | None => throw (ServerError.SessionNotFound session_id)
  | Some conn =>
      match FrameHeader.opcode_enum (Frame.header frame) with
      | Some (Opcode.Hello | Opcode.Ping | Opcode.Pong | Opcode.Goodbye) =>
          handle_session_frame session_id conn frame now
      | Some Opcode.SyncRequest => handle_sync_request session_id frame
      | Some Opcode.KeyPackagePublish =>
          update_activity session_id now;; handle_key_package_publish session_id frame
      | Some Opcode.KeyPackageFetch =>
          update_activity session_id now;; handle_key_package_fetch session_id frame
      | Some Opcode.GroupInfo =>
          update_activity session_id now;; handle_group_info_publish session_id frame
      | Some Opcode.GroupInfoRequest =>
          update_activity session_id now;; handle_group_info_request session_id frame
      | Some Opcode.Welcome => handle_welcome session_id frame now
      | Some Opcode.AppMessage =>
          update_activity session_id now;; route_frame session_id frame now
      | _ => handle_room_frame session_id frame now
      end
  end.

Definition process_event (event : ServerEvent) : drv (list ServerAction) :=
  match event with
  | ConnectionAccepted session_id => handle_connection_accepted session_id
  | FrameReceived session_id frame => handle_frame_received session_id frame
  | ConnectionClosed session_id reason => handle_connection_closed session_id reason
  | Tick => handle_tick
  end.

End driver.
End ServerDriver.
