(* ===== verification/DriverInv.v ===== *)
(** * The invariant of the server driver

    What holds of the driver after any sequence of events and calls, on any
    storage and environment: the connections and the registry describe the same
    sessions, the limits hold, and nobody is subscribed who is not connected. *)

From S2P Require Import Prelude Env Opcodes Header Framing Payloads Connection Validator.
From S2P Require Import Storage Sequencer Registry KeyPackages RoomManager Driver.

Local Open Scope N_scope.

(** The driver's interface to the runtime: the events, and the calls it makes
    directly. *)
Inductive driver_op :=
  | DEvent (ev : ServerEvent)
  | DCreateRoom (room_id creator_session_id : N)
  | DSubscribe (session_id room_id : N)
  | DUnsubscribe (session_id room_id : N)
  | DClearSequencer (room_id : N)
  | DRecover.

Module DriverInvariant.
Import ServerDriver.

Section invariant.
Context {Env St : Type} `{!Environment Env} `{!Storage St} {ciborium : Ciborium}.

Abbreviation drv A := (M (ServerDriver.t Env St) ServerError.t A).

(** The actions of an operation; a call that answers with a value has none. *)
Definition exec_op (o : driver_op) : drv (list ServerAction) :=
  match o with
  | DEvent ev => process_event ev
  | DCreateRoom r s => create_room r s
  | DSubscribe s r => subscribe_to_room s r;; mret []
  | DUnsubscribe s r => unsubscribe_from_room s r;; mret []
  | DClearSequencer r => clear_room_sequencer r;; mret []
  | DRecover => recover_from_storage;; mret []
  end.

Definition op_state (d : ServerDriver.t Env St) (o : driver_op) : ServerDriver.t Env St :=
  fst (exec_op o d).

(** A server's connection: it knows its id and never is a client's. *)
Definition server_conn (s : N) (c : Connection.t) : Prop :=
  Connection.session_id c = Some s /\ Connection.state c <> Pending.

Record inv (d : ServerDriver.t Env St) : Prop := mk_inv {
  inv_sessions : dom (connections d) = dom (ConnectionRegistry.sessions (registry d));
  inv_registry : exists a, RegistryLemmas.refines (registry d) a;
  inv_packages : KeyPackageRegistry.inv (key_package_registry d);
  inv_limit : N.of_nat (size (connections d)) <= sc_max_connections (config d);
  inv_conns : map_Forall server_conn (connections d);
}.

(** The steps that keep the invariant (and the configuration). *)
Definition keeps (d d' : ServerDriver.t Env St) : Prop :=
  config d' = config d /\ (inv d -> inv d').

#[global] Instance keeps_preorder : PreOrder keeps.
Proof.
  split; [by intros d; split|]. intros d1 d2 d3 [H1 H2] [H3 H4]. split; [congruence|auto].
Qed.

(** ** Lemmas: the calls *)

(** What a step leaves alone that touches neither sessions nor packages. *)
Lemma keeps_same (d d' : ServerDriver.t Env St) :
  connections d' = connections d -> registry d' = registry d ->
  key_package_registry d' = key_package_registry d -> config d' = config d -> keeps d d'.
Proof.
  intros H1 H2 H3 H4. split; [done|]. intros []. constructor; by rewrite ?H1, ?H2, ?H3, ?H4.
Qed.

Lemma env_now_keeps : steps keeps env_now.
Proof. intros d. unfold env_now. destruct (now _). by apply keeps_same. Qed.

Lemma into_frame_keeps p h : steps keeps (into_frame_result p h).
Proof. apply steps_lift, _. Qed.

Lemma storage_result_keeps {A} (c : storeM St A) : steps keeps (storage_result c).
Proof. intros d. unfold storage_result. destruct (c _). by apply keeps_same. Qed.

Lemma manager_call_keeps {A} (c : M (RoomManager.t * St) RoomError.t A) :
  steps keeps (manager_call c).
Proof. intros d. unfold manager_call. destruct (c _) as [[m' st'] r]. by apply keeps_same. Qed.

Lemma clear_room_sequencer_keeps r : steps keeps (clear_room_sequencer r).
Proof. intros d. unfold clear_room_sequencer. destruct (RoomManager.clear_room_sequencer _ _). by apply keeps_same. Qed.

Lemma catch_keeps {A} (m : drv A) : steps keeps m -> steps keeps (catch m).
Proof. intros H d. specialize (H d). unfold catch. by destruct (m d). Qed.

(** A connection replaced by another of the same session. *)
Lemma replace_conn_keeps (d : ServerDriver.t Env St) s c c' :
  connections d !! s = Some c -> (server_conn s c -> server_conn s c') ->
  keeps d (with_connections (<[s := c']> (connections d)) d).
Proof.
  intros Hs Hc. split; [done|]. intros [H1 H2 H3 H4 H5]. constructor; try done; simpl.
  - rewrite dom_insert_lookup_L; [done|]. by exists c.
  - rewrite map_size_insert_Some by (by exists c). done.
  - apply map_Forall_insert_2; [|done]. by apply Hc, (H5 s).
Qed.

Lemma update_activity_keeps s t0 : steps keeps (update_activity s t0).
Proof.
  apply steps_modify. intros d. destruct (connections d !! s) as [c|] eqn:Hs.
  - replace (alter _ _ _) with (<[s := Connection.update_activity t0 c]> (connections d)).
    { by apply (replace_conn_keeps d s c). }
    apply map_eq. intros k. destruct (decide (k = s)) as [->|].
    + by rewrite lookup_insert_eq, lookup_alter_eq, Hs.
    + by rewrite lookup_insert_ne, lookup_alter_ne.
  - apply keeps_same; try done. apply map_eq. intros k. simpl.
    destruct (decide (k = s)) as [->|]; [by rewrite lookup_alter_eq, Hs|by rewrite lookup_alter_ne].
Qed.

(** A registry operation that keeps the set of sessions. *)
Lemma registry_op_keeps (d : ServerDriver.t Env St) o :
  (forall a, dom (Spec.sessions (fst (Spec.apply o a))) = dom (Spec.sessions a)) ->
  keeps d (with_registry (fst (ConnectionRegistry.apply o (registry d))) d).
Proof.
  intros Ho. split; [done|]. intros [H1 [a Ha] H3 H4 H5].
  destruct (RegistryLemmas.apply_refines o _ a Ha) as [_ Ha'].
  constructor; simpl; eauto. rewrite H1.
  destruct Ha as (_ & -> & _), Ha' as (_ & -> & _). by rewrite Ho.
Qed.

Lemma subscribe_keeps s r : steps keeps (registry_call (ConnectionRegistry.subscribe s r)).
Proof.
  intros d. pose proof (registry_op_keeps d (ConnectionRegistry.Subscribe s r)) as H.
  unfold registry_call. simpl in H. destruct (ConnectionRegistry.subscribe _ _ _).
  apply H. intros a. simpl. by case_decide.
Qed.

Lemma unsubscribe_keeps s r : steps keeps (registry_call (ConnectionRegistry.unsubscribe s r)).
Proof.
  intros d. pose proof (registry_op_keeps d (ConnectionRegistry.Unsubscribe s r)) as H.
  unfold registry_call. simpl in H. destruct (ConnectionRegistry.unsubscribe _ _ _).
  by apply H.
Qed.

Lemma update_session_keeps s info :
  steps keeps (registry_call (ConnectionRegistry.update_session_info s info)).
Proof.
  intros d. pose proof (registry_op_keeps d (ConnectionRegistry.UpdateSessionInfo s info)) as H.
  unfold registry_call. simpl in H. destruct (ConnectionRegistry.update_session_info _ _ _).
  apply H. intros a. simpl. case_decide as Hd; [|done]. simpl.
  by rewrite dom_insert_lookup_L by apply Hd.
Qed.

Lemma packages_keeps (d : ServerDriver.t Env St) o :
  keeps d (with_key_packages (KeyPackageRegistry.step (key_package_registry d) o) d).
Proof.
  split; [done|]. intros []. constructor; try done. by apply KeyPackageRegistry.registry_step_inv.
Qed.

End invariant.

#[global] Hint Resolve env_now_keeps into_frame_keeps storage_result_keeps manager_call_keeps
  clear_room_sequencer_keeps catch_keeps update_activity_keeps subscribe_keeps unsubscribe_keeps
  update_session_keeps : lockframe.

(** Follows a computation's binds and branches to the calls. *)
Ltac keep_steps :=
  repeat first
    [ done
    | solve [eauto with lockframe]
    | apply steps_ret; apply _ | apply steps_throw; apply _ | apply steps_lift; apply _
    | apply catch_keeps
    | apply steps_bind; [apply _| |intros ?]
    | case_match
    | case_bool_decide
    | progress intros ].

Section handlers.
Context {Env St : Type} `{!Environment Env} `{!Storage St} {ciborium : Ciborium}.

Abbreviation drv A := (M (ServerDriver.t Env St) ServerError.t A).

(** ** Lemmas: the handlers *)

Lemma accepted_keeps s : steps (A := list ServerAction) keeps (handle_connection_accepted (Env := Env) (St := St) s).
Proof.
  unfold handle_connection_accepted. apply steps_bind; [apply _|apply env_now_keeps|].
  intros t0. apply steps_get. intros d. case_match eqn:Hm; [done|]. bool2prop.
  set (c := Connection.set_session_id s (Connection.new t0 (sc_connection (config d)))).
  unfold mbind, M_bind, modify, registry_call. simpl.
  destruct (ConnectionRegistry.register_session s SessionInfo.new (registry d)) as [g b] eqn:Hg.
  simpl. split; [done|]. intros [H1 [a Ha] H3 H4 H5].
  destruct (RegistryLemmas.apply_refines
              (ConnectionRegistry.RegisterSession s SessionInfo.new) _ a Ha) as [_ Ha'].
  simpl in Ha'. rewrite Hg in Ha'. simpl in Ha'.
  constructor; simpl; eauto.
  - destruct Ha as (_ & Hs & _), Ha' as (_ & -> & _). rewrite dom_insert_L, H1, Hs.
    case_decide as Hd; simpl; [by rewrite dom_insert_L|].
    assert (Hin : is_Some (Spec.sessions a !! s)).
    { destruct (Spec.sessions a !! s) eqn:E; [eauto|]. by destruct Hd. }
    apply elem_of_dom in Hin. set_solver.
  - rewrite map_size_insert. destruct (connections d !! s); unfold id; lia.
  - apply map_Forall_insert_2; [|done]. by split.
Qed.

Lemma closed_keeps s reason : steps (A := list ServerAction) keeps (handle_connection_closed (Env := Env) (St := St) s reason).
Proof.
  unfold handle_connection_closed. apply steps_bind; [apply _|apply env_now_keeps|].
  intros t0 d. unfold mbind, M_bind, modify, registry_call. simpl.
  destruct (ConnectionRegistry.unregister_session s (registry d)) as [g o] eqn:Hg.
  simpl. split; [done|]. intros [H1 [a Ha] H3 H4 H5].
  destruct (RegistryLemmas.apply_refines (ConnectionRegistry.UnregisterSession s) _ a Ha)
    as [_ Ha'].
  simpl in Ha'. rewrite Hg in Ha'. simpl in Ha'.
  constructor; simpl; eauto.
  - destruct Ha as (_ & Hs & _), Ha' as (_ & -> & _). rewrite dom_delete_L, H1, Hs.
    destruct (Spec.sessions a !! s) as [info|] eqn:E; simpl; [by rewrite dom_delete_L|].
    apply not_elem_of_dom in E. set_solver.
  - rewrite map_size_delete. destruct (connections d !! s); unfold id; lia.
  - by apply map_Forall_delete.
Qed.

Lemma tick_keeps t0 ss : steps (A := list ServerAction) keeps (tick_sessions (Env := Env) (St := St) t0 ss).
Proof.
  induction ss as [|s ss IH]; simpl; [apply steps_ret, _|]. apply steps_get. intros d.
  destruct (connections d !! s) as [c|] eqn:Hs; [|apply IH].
  pose proof (Connection.tick_state t0 c) as Ht.
  destruct (Connection.tick t0 c) as [c' acts]. simpl in Ht. destruct Ht as (_ & Hid & Hst).
  unfold mbind at 1, M_bind at 1, modify at 1.
  etrans; [apply (replace_conn_keeps d s c c' Hs)|].
  - intros [? ?]. split; [congruence|]. by destruct Hst as [->|[-> _]].
  - apply steps_bind; [apply _|apply IH|]. intros. apply steps_ret, _.
Qed.

Lemma session_frame_keeps (d : ServerDriver.t Env St) s c frame t0 :
  connections d !! s = Some c -> keeps d (fst (handle_session_frame s c frame t0 d)).
Proof.
  intros Hs. unfold handle_session_frame. pose proof (Connection.handle_frame_state frame t0 c) as Hf.
  destruct (Connection.handle_frame frame t0 c) as [c' r]. simpl in Hf.
  unfold mbind at 1, M_bind at 1, modify at 1.
  etrans; [apply (replace_conn_keeps d s c c' Hs)|].
  - intros [Hid Hp].
    destruct Hf as (_ & _ & _ & [[]|[[]|[(_ & ? & h & id & _ & _ & ? & ?)|(? & _)]]]);
      split; congruence.
  - keep_steps.
Qed.

Lemma room_action_keeps a s : steps (A := list ServerAction) keeps (process_room_action (Env := Env) (St := St) a s).
Proof. unfold process_room_action. keep_steps. Qed.

Lemma room_actions_keeps l s : steps (A := list ServerAction) keeps (process_room_actions (Env := Env) (St := St) l s).
Proof.
  induction l as [|a l IH]; simpl; [apply steps_ret, _|].
  apply steps_bind; [apply _|apply room_action_keeps|]. keep_steps.
Qed.

Lemma error_answer_keeps s err lv m f t0 :
  steps (A := list ServerAction) keeps (error_answer (Env := Env) (St := St) s err lv m f t0).
Proof. unfold error_answer. keep_steps. Qed.

Lemma create_room_keeps r s : steps (A := list ServerAction) keeps (create_room (Env := Env) (St := St) r s).
Proof.
  unfold create_room. apply steps_bind; [apply _|apply env_now_keeps|]. intros t0.
  apply steps_bind; [apply _|by intros ?|]. intros d0.
  case_match; [|apply steps_throw, _]. apply steps_bind; [apply _| |keep_steps].
  intros d. destruct (RoomManager.create_room _ _ _) as [[e' [m' st']] x]. by apply keeps_same.
Qed.

Lemma sync_keeps s frame : steps (A := list ServerAction) keeps (handle_sync_request (Env := Env) (St := St) s frame).
Proof.
  unfold handle_sync_request, make_error_response.
  pose proof room_action_keeps. keep_steps.
Qed.

Lemma publish_keeps s frame :
  steps (A := list ServerAction) keeps (handle_key_package_publish (Env := Env) (St := St) s frame).
Proof.
  unfold handle_key_package_publish. pose proof error_answer_keeps.
  apply steps_bind; [apply _|apply env_now_keeps|]. intros t0.
  apply steps_bind; [apply _|by intros ?|]. intros d0.
  repeat (case_match; try solve [eauto | apply steps_lift, _]).
  apply steps_bind; [apply _| |keep_steps]. intros d.
  match goal with |- context [KeyPackageRegistry.store ?u ?e _] =>
    pose proof (packages_keeps d (KeyPackageRegistry.Store u e)) as Hk; simpl in Hk;
    destruct (KeyPackageRegistry.store u e _) end.
  exact Hk.
Qed.

Lemma fetch_keeps s frame :
  steps (A := list ServerAction) keeps (handle_key_package_fetch (Env := Env) (St := St) s frame).
Proof.
  unfold handle_key_package_fetch. pose proof error_answer_keeps.
  apply steps_bind; [apply _|apply env_now_keeps|]. intros t0.
  destruct (Payload.from_frame frame) as [[]| |]; try solve [eauto | apply steps_lift, _].
  apply steps_bind; [apply _| |keep_steps]. intros d.
  exact (packages_keeps d (KeyPackageRegistry.Take (kpf_user_id inner))).
Qed.

Lemma group_info_keeps s frame :
  steps (A := list ServerAction) keeps (handle_group_info_publish (Env := Env) (St := St) s frame).
Proof. unfold handle_group_info_publish. keep_steps. Qed.

Lemma group_info_request_keeps s frame :
  steps (A := list ServerAction) keeps (handle_group_info_request (Env := Env) (St := St) s frame).
Proof. unfold handle_group_info_request. pose proof error_answer_keeps. keep_steps. Qed.

Lemma route_keeps s frame t0 : steps (A := list ServerAction) keeps (route_frame (Env := Env) (St := St) s frame t0).
Proof. unfold route_frame. pose proof room_actions_keeps. keep_steps. Qed.

Lemma room_frame_keeps s frame t0 :
  steps (A := list ServerAction) keeps (handle_room_frame (Env := Env) (St := St) s frame t0).
Proof.
  unfold handle_room_frame. pose proof route_keeps. pose proof create_room_keeps.
  apply steps_bind; [apply _|eauto with lockframe|]. intros _.
  apply steps_bind; [apply _|by intros ?|]. intros d0. keep_steps.
Qed.

Lemma welcome_keeps s frame t0 :
  steps (A := list ServerAction) keeps (handle_welcome (Env := Env) (St := St) s frame t0).
Proof.
  unfold handle_welcome. apply steps_bind; [apply _|eauto with lockframe|]. intros _.
  apply steps_bind; [apply _|by intros ?|]. intros d0. keep_steps.
Qed.

Lemma frame_received_keeps s frame :
  steps (A := list ServerAction) keeps (handle_frame_received (Env := Env) (St := St) s frame).
Proof.
  unfold handle_frame_received. apply steps_bind; [apply _|apply env_now_keeps|].
  intros t0. apply steps_get. intros d. destruct (connections d !! s) as [c|] eqn:Hs; [|done].
  pose proof (session_frame_keeps d s c frame t0 Hs). revert d c Hs H. intros d c Hs Hsf.
  destruct (FrameHeader.opcode_enum _) as [[]|]; try exact Hsf;
    try apply room_frame_keeps; try apply welcome_keeps; try apply sync_keeps;
    apply steps_bind; try apply _; try apply update_activity_keeps; intros;
    auto using publish_keeps, fetch_keeps, group_info_keeps, group_info_request_keeps, route_keeps.
Qed.

Lemma recover_keeps : steps (A := N) keeps (recover_from_storage (Env := Env) (St := St)).
Proof.
  unfold recover_from_storage. apply steps_bind; [apply _|eauto with lockframe|]. intros l.
  apply steps_bind; [apply _|apply steps_lift, _|]. intros rs.
  apply steps_bind; [apply _| |keep_steps].
  induction rs as [|r rs IH]; [apply steps_ret, _|].
  apply steps_bind; [apply _|eauto with lockframe|]. intros. apply IH.
Qed.

Lemma exec_op_keeps o : steps (A := list ServerAction) keeps (exec_op (Env := Env) (St := St) o).
Proof.
  destruct o as [[s|s f|s reason|]| | | | |]; simpl.
  - apply accepted_keeps.
  - apply frame_received_keeps.
  - apply closed_keeps.
  - unfold handle_tick. apply steps_bind; [apply _|apply env_now_keeps|]. intros t0.
    apply steps_get. intros d. apply tick_keeps.
  - apply create_room_keeps.
  - unfold subscribe_to_room. keep_steps.
  - unfold unsubscribe_from_room. keep_steps.
  - keep_steps.
  - apply steps_bind; [apply _|apply recover_keeps|keep_steps].
Qed.

Lemma new_inv (e : Env) (st : St) cfg : inv (new e st cfg).
Proof.
  constructor; simpl.
  - by rewrite !dom_empty_L.
  - exists Spec.new. apply RegistryLemmas.new_refines.
  - apply KeyPackageRegistry.with_capacity_inv.
  - rewrite map_size_empty. lia.
  - apply map_Forall_empty.
Qed.

Lemma inv_connected d s :
  inv (Env := Env) (St := St) d ->
  is_Some (connections d !! s) <-> is_Some (ConnectionRegistry.sessions (registry d) !! s).
Proof. intros Hi. by rewrite <- !elem_of_dom, (inv_sessions d Hi). Qed.

Lemma inv_in_room d r s :
  inv (Env := Env) (St := St) d -> s ∈ sessions_in_room d r -> is_Some (connections d !! s).
Proof.
  intros Hi Hs. apply inv_connected; [done|]. destruct (inv_registry d Hi) as [a (Hg & _)].
  unfold sessions_in_room, ConnectionRegistry.sessions_in_room in Hs.
  apply elem_of_elements, (ConnectionRegistry.inv_both _ Hg) in Hs.
  apply elem_of_dom. rewrite <- (ConnectionRegistry.inv_dom _ Hg). apply elem_of_dom.
  unfold ConnectionRegistry.rooms_of in Hs.
  destruct (ConnectionRegistry.session_rooms _ !! s); [done|]. simpl in Hs. set_solver.
Qed.

Lemma run_keeps (d : ServerDriver.t Env St) ops : keeps d (run op_state d ops).
Proof.
  revert d. induction ops as [|o ops IH]; intros d; [done|].
  etrans; [apply (exec_op_keeps o)|apply IH].
Qed.

(** ** Properties *)

(** C25: the driver's sessions stay consistent over every sequence of events
    and calls, whatever the storage answers: there are never more connections
    than the configured maximum, the connections and the registered sessions
    are the same, every subscriber of a room and every session a user resolves
    to is connected, and every connection carries the id it is stored under and
    is never in the client's [Pending] state. *)
Theorem driver_sessions_consistent (e : Env) (st : St) cfg ops :
  let d := run op_state (new e st cfg) ops in
  connection_count d <= sc_max_connections cfg /\
  (forall s, is_Some (connections d !! s) <->
     ConnectionRegistry.has_session (registry d) s = true) /\
  (forall r s, s ∈ sessions_in_room d r -> is_Some (connections d !! s)) /\
  (forall u s, ConnectionRegistry.session_id_for_user (registry d) u = Some s ->
     is_Some (connections d !! s)) /\
  (forall s c, connections d !! s = Some c ->
     Connection.session_id c = Some s /\ Connection.state c <> Pending).
Proof.
  intros d. destruct (run_keeps (new e st cfg) ops) as [Hc Hi]. fold d in Hc, Hi.
  specialize (Hi (new_inv e st cfg)). split_and!.
  - pose proof (inv_limit d Hi) as Hl. by rewrite Hc in Hl.
  - intros s. rewrite inv_connected by done. unfold ConnectionRegistry.has_session.
    by rewrite bool_decide_eq_true.
  - intros r s. by apply inv_in_room.
  - intros u s Hu. apply inv_connected; [done|]. destruct (inv_registry d Hi) as [a (Hg & _)].
    apply (ConnectionRegistry.inv_users _ Hg) in Hu as (info & -> & _). eauto.
  - intros s c Hs. exact (inv_conns d Hi s c Hs).
Qed.

End handlers.
End DriverInvariant.
