(* ===== verification/Delivery.v ===== *)
(** * Ordered delivery

    What the server does with the frames of a room, from the event to the log
    and the broadcasts: on a storage that meets its contract and whose writes
    succeed, the broadcasts of a room are exactly what its log grows by, and a
    restart over the same storage goes on where the server stopped.  A failing
    storage breaks the agreement, which a concrete run shows. *)

From S2P Require Import Prelude Env Opcodes Header Framing Payloads Connection Validator.
From S2P Require Import Storage Sequencer Registry KeyPackages RoomManager Driver DriverInv.

Local Open Scope N_scope.

Module Delivery.
Import ServerDriver DriverInvariant.

(** The frames of room [r] that an answer broadcasts. *)
Definition broadcast_of (r : N) (a : ServerAction) : option Frame.t :=
  match a with
  | Broadcast _ f => if decide (FrameHeader.room_id (Frame.header f) = r) then Some f else None
  | _ => None
  end.

Definition broadcasts (r : N) (answer : res ServerError.t (list ServerAction)) : list Frame.t :=
  match answer with Ok acts => omap (broadcast_of r) acts | _ => [] end.

(** An action that broadcasts nothing. *)
Definition silent (a : ServerAction) : Prop :=
  match a with Broadcast _ _ => False | _ => True end.

Lemma silent_broadcasts r acts : Forall silent acts -> omap (broadcast_of r) acts = [].
Proof. induction 1 as [|a acts Ha _ IH]; [done|]. destruct a; try done; simpl; auto. Qed.

Section routing.
Context {Env St : Type} `{!Environment Env} `{!Storage St} `{!StorageSpec St} {ciborium : Ciborium}.

Abbreviation driver := (ServerDriver.t Env St).

(** What [route_frame] does with the sequencer and the storage, as the answer
    and the new driver show. *)
Inductive routed (d : driver) (frame : Frame.t) (d' : driver)
    : res ServerError.t (list ServerAction) -> Prop :=
  | RoutedRejected answer :
      ~ (RoomManager.has_room (room_manager d) (FrameHeader.room_id (Frame.header frame)) = true /\
         Sequencer.sequenceable frame /\
         is_ok (snd (latest_log_index (FrameHeader.room_id (Frame.header frame)) (storage d))) = true /\
         Sequencer.start (RoomManager.sequencer (room_manager d)) (storage d)
           (FrameHeader.room_id (Frame.header frame)) < u64_MAX) ->
      is_ok answer = false -> unchanged view (storage d) (storage d') ->
      (Sequencer.rooms (RoomManager.sequencer (room_manager d'))
       = Sequencer.rooms (RoomManager.sequencer (room_manager d)) \/
       Sequencer.next_index (RoomManager.sequencer (room_manager d)) (storage d)
         (FrameHeader.room_id (Frame.header frame)) u64_MAX /\
       Sequencer.rooms (RoomManager.sequencer (room_manager d'))
       = <[FrameHeader.room_id (Frame.header frame) := u64_MAX]>
           (Sequencer.rooms (RoomManager.sequencer (room_manager d)))) ->
      routed d frame d' answer
  | RoutedStored i :
      Sequencer.next_index (RoomManager.sequencer (room_manager d)) (storage d)
        (FrameHeader.room_id (Frame.header frame)) i ->
      i < u64_MAX -> i = len (rv_log (view (storage d) (FrameHeader.room_id (Frame.header frame)))) ->
      changed_at view (FrameHeader.room_id (Frame.header frame))
        (push_frame (Sequencer.at_index i frame)) (storage d) (storage d') ->
      Sequencer.rooms (RoomManager.sequencer (room_manager d'))
      = <[FrameHeader.room_id (Frame.header frame) := i + 1]>
          (Sequencer.rooms (RoomManager.sequencer (room_manager d))) ->
      routed d frame d'
        (Ok [Broadcast (sessions_in_room d (FrameHeader.room_id (Frame.header frame)))
               (Sequencer.at_index i frame)])
  | RoutedUnstored i st1 answer :
      Sequencer.next_index (RoomManager.sequencer (room_manager d)) (storage d)
        (FrameHeader.room_id (Frame.header frame)) i ->
      i < u64_MAX ->
      storage_inv st1 -> unchanged view (storage d) st1 ->
      snd (store_frame (FrameHeader.room_id (Frame.header frame)) i (Sequencer.at_index i frame) st1)
        <> Ok tt ->
      unchanged view (storage d) (storage d') ->
      routed d frame d' answer.

Lemma broadcast_frame d r frame s t0 :
  FrameHeader.opcode_enum (Frame.header frame) <> Some Opcode.Welcome ->
  process_room_action (RABroadcast r frame false t0) s d
  = (d, Ok [Broadcast (sessions_in_room d r) frame]).
Proof.
  intros Hw. unfold process_room_action. unfold_M. by rewrite bool_decide_eq_false_2.
Qed.

Lemma opcode_at_index i frame :
  FrameHeader.opcode_enum (Frame.header (Sequencer.at_index i frame))
  = FrameHeader.opcode_enum (Frame.header frame).
Proof. done. Qed.

Lemma room_id_at_index i frame :
  FrameHeader.room_id (Frame.header (Sequencer.at_index i frame))
  = FrameHeader.room_id (Frame.header frame).
Proof. done. Qed.

(** Persisting and broadcasting a sequenced frame. *)
Lemma persist_and_broadcast (d : driver) r i f s t0 :
  storage_inv (storage d) -> r < 2 ^ 128 -> i < 2 ^ 64 -> Frame.wf f ->
  FrameHeader.opcode_enum (Frame.header f) <> Some Opcode.Welcome ->
  let '(d', answer) :=
    process_room_actions [RAPersistFrame r i f t0; RABroadcast r f false t0] s d in
  storage_inv (storage d') /\
  RoomManager.room_metadata (room_manager d') = RoomManager.room_metadata (room_manager d) /\
  ((i = len (rv_log (view (storage d) r)) /\
    changed_at view r (push_frame f) (storage d) (storage d') /\
    RoomManager.sequencer (room_manager d') = RoomManager.sequencer (room_manager d) /\
    answer = Ok [Broadcast (sessions_in_room d r) f]) \/
   (snd (store_frame r i f (storage d)) <> Ok tt /\
    unchanged view (storage d) (storage d'))).
Proof.
  intros Hi Hr Hi64 Hf Hop. cbn [process_room_actions].
  unfold mbind at 1, M_bind at 1. unfold process_room_action at 1.
  unfold mbind at 1, M_bind at 1, storage_result at 1.
  pose proof (store_frame_spec r i f (storage d) Hi Hr Hi64 Hf) as Hs.
  destruct (store_frame r i f (storage d)) as [st' [[]|e|]]; destruct Hs as [Hi' Hs]; cbn [caught].
  - destruct Hs as [Hlen Hch]. unfold mret at 1, M_ret at 1.
    unfold mbind at 1, M_bind at 1. unfold mbind at 1, M_bind at 1.
    rewrite broadcast_frame by done. cbn. split_and!; try done. by left.
  - destruct Hs as [Hu _]. destruct e; cbn; unfold_M; unfold clear_room_sequencer, env_now;
      cbn; destruct (now _); cbn; rewrite bool_decide_eq_false_2 by done; cbn;
      split_and!; try done; by right.
  - cbn. split_and!; try done. by right.
Qed.

Lemma route_frame_routed (d : driver) s frame t0 :
  storage_inv (storage d) -> Frame.wf frame ->
  Sequencer.bounded (RoomManager.sequencer (room_manager d)) ->
  FrameHeader.opcode_enum (Frame.header frame) <> Some Opcode.Welcome ->
  let '(d', answer) := route_frame s frame t0 d in
  storage_inv (storage d') /\
  RoomManager.room_metadata (room_manager d') = RoomManager.room_metadata (room_manager d) /\
  routed d frame d' answer.
Proof.
  intros Hi Hw Hb Hop. unfold route_frame. unfold mbind at 1, M_bind at 1, manager_call.
  pose proof (RoomManager.process_frame_cases (room_manager d) (storage d) frame t0 Hi Hw Hb) as Hp.
  cbv zeta in Hp.
  destruct (RoomManager.process_frame frame t0 (room_manager d, storage d)) as [[m' st'] r].
  destruct Hp as (Hi' & Hu & Hmd & [(Hno & -> & ->)|(_ & sres & Ho & ->)]).
  { cbn. split_and!; try done. apply RoutedRejected; auto. intros [Hyes _]. congruence. }
  destruct m' as [s' md]. cbn [RoomManager.sequencer RoomManager.room_metadata] in *.
  destruct Ho as [e ? ?|? Hwel|sres ? ? ? Hst Hbad|? ? Hn|i ? ? Hn Hlt]; try done.
  - cbn. split_and!; try done. apply RoutedRejected; auto. tauto.
  - assert (Hcase : forall d' answer, is_ok answer = false ->
      unchanged view (storage d) (storage d') ->
      RoomManager.sequencer (room_manager d') = RoomManager.sequencer (room_manager d) ->
      routed d frame d' answer).
    { intros d' answer Hb' Hu' Hs'. apply RoutedRejected; auto; [|by rewrite Hs'; left].
      intros (_ & _ & Hok & Hlt). specialize (Hst Hok). unfold Sequencer.start in Hlt.
      rewrite H1 in Hlt. lia. }
    destruct sres; try done; cbn; (split_and!; [done..|]); by apply Hcase.
  - cbn. split_and!; try done. apply RoutedRejected; auto.
    intros (_ & _ & _ & Hlt). rewrite (Sequencer.next_index_start _ _ _ _ Hn) in Hlt. lia.
  - cbn [map_err omap list_omap RoomManager.to_room_action].
    set (d1 := with_room_manager _ (with_storage st' d)).
    assert (Hr : FrameHeader.room_id (Frame.header frame) < 2 ^ 128).
    { destruct Hw as (Hw & _). by apply FrameHeader.room_id_lt. }
    pose proof (persist_and_broadcast d1 (FrameHeader.room_id (Frame.header frame)) i
      (Sequencer.at_index i frame) s t0 Hi' Hr ltac:(unfold u64_MAX in *; lia)
      (Sequencer.at_index_wf i frame Hw) Hop) as Hpb.
    destruct (process_room_actions _ s d1) as [d' answer].
    destruct Hpb as (Hi2 & Hmd2 & [(Hlen & Hch & Hseq & ->)|(Hbad & Hun)]);
      (split_and!; [done|by rewrite Hmd2|]).
    + change (sessions_in_room d1) with (sessions_in_room d).
      apply RoutedStored; try done; cbn in *.
      * by rewrite Hlen, Hu.
      * destruct Hch as [Hc1 Hc2]. split; [by rewrite Hc1, Hu|]. intros r' Hr'. by rewrite Hc2, Hu.
      * by rewrite Hseq.
    + apply (RoutedUnstored d frame d' i st'); try done. intros r'. rewrite Hun. apply Hu.
Qed.

End routing.
Section total.
Context {Env St : Type} `{!Environment Env} `{!Storage St} `{!StorageSpec St} `{!StorageTotal St}
  {ciborium : Ciborium}.

Abbreviation driver := (ServerDriver.t Env St).
Abbreviation drv A := (M (ServerDriver.t Env St) ServerError.t A).

Definition log_of (d : driver) (r : N) : list Frame.t := rv_log (view (storage d) r).

(** The driver agrees with its storage: every cached next index is the length
    of the room's log, the frames of a log are well-formed and carry their
    indices, and the rooms are those the storage has metadata for. *)
Record coherent (d : driver) : Prop := mk_coherent {
  co_storage : storage_inv (storage d);
  co_cache r n : Sequencer.rooms (RoomManager.sequencer (room_manager d)) !! r = Some n ->
    n = len (log_of d r);
  co_len r : len (log_of d r) <= u64_MAX;
  co_indexed r i f : log_of d r !! i = Some f ->
    Frame.wf f /\ FrameHeader.log_index (Frame.header f) = N.of_nat i;
  co_meta r : RoomManager.has_room (room_manager d) r = true <->
    is_Some (rv_meta (view (storage d) r));
  co_u128 r : is_Some (rv_meta (view (storage d) r)) -> r < 2 ^ 128;
}.

Lemma coherent_bounded d :
  coherent d -> Sequencer.bounded (RoomManager.sequencer (room_manager d)).
Proof. intros Hc r n Hn. rewrite (co_cache d Hc r n Hn). apply (co_len d Hc). Qed.

(** Steps that keep the agreement and touch no log. *)
Definition quiet (d d' : driver) : Prop :=
  coherent d -> coherent d' /\ forall r, log_of d' r = log_of d r.

#[global] Instance quiet_preorder : PreOrder quiet.
Proof.
  split; [by intros d|]. intros d1 d2 d3 H12 H23 H1.
  destruct (H12 H1) as [H2 E2]. destruct (H23 H2) as [H3 E3].
  split; [done|]. intros r. by rewrite E3.
Qed.

(** A change of the storage that the driver's agreement does not see. *)
Lemma quiet_view (d d' : driver) :
  room_manager d' = room_manager d ->
  (storage_inv (storage d) -> storage_inv (storage d') /\
   forall r, log_of d' r = log_of d r /\
     rv_meta (view (storage d') r) = rv_meta (view (storage d) r)) ->
  quiet d d'.
Proof.
  intros Hm Hs [H1 H2 H3 H3' H4 H5]. destruct (Hs H1) as [Hi Hv].
  split; [|intros r; apply Hv]. constructor; rewrite ?Hm; try done; intros r.
  - destruct (Hv r) as [-> _]. apply H2.
  - destruct (Hv r) as [-> _]. apply H3.
  - destruct (Hv r) as [-> _]. apply H3'.
  - destruct (Hv r) as [_ ->]. apply H4.
  - destruct (Hv r) as [_ ->]. apply H5.
Qed.

Lemma quiet_same (d d' : driver) :
  storage d' = storage d -> room_manager d' = room_manager d -> quiet d d'.
Proof. intros Hs Hm. apply quiet_view; [done|]. unfold log_of. by rewrite Hs. Qed.

Lemma env_now_quiet : steps quiet env_now.
Proof. intros d. unfold env_now. destruct (now _). by apply quiet_same. Qed.

Lemma into_frame_quiet p h : steps quiet (into_frame_result p h).
Proof. apply steps_lift, _. Qed.

Lemma registry_call_quiet {A} (f : ConnectionRegistry.t -> ConnectionRegistry.t * A) :
  steps quiet (registry_call f).
Proof. intros d. unfold registry_call. destruct (f _). by apply quiet_same. Qed.

Lemma update_activity_quiet s t0 : steps quiet (update_activity s t0).
Proof. apply steps_modify. intros d. by apply quiet_same. Qed.

Lemma connections_quiet f :
  steps (E := ServerError.t) quiet (modify (fun d => with_connections (f d) d)).
Proof. apply steps_modify. intros d. by apply quiet_same. Qed.

Lemma catch_quiet {A} (m : drv A) : steps quiet m -> steps quiet (catch m).
Proof. intros H d. specialize (H d). unfold catch. by destruct (m d). Qed.

Lemma clear_room_sequencer_quiet r : steps quiet (clear_room_sequencer r).
Proof.
  intros d. unfold clear_room_sequencer, RoomManager.clear_room_sequencer, Sequencer.clear_room.
  cbn. intros [H1 H2 H3 H3' H4 H5]. split; [|done]. constructor; try done; cbn.
  intros r' n Hn. apply lookup_delete_Some in Hn as [_ Hn]. by apply H2.
Qed.

Lemma load_group_info_quiet r :
  r < 2 ^ 128 -> steps quiet (storage_result (load_group_info r)).
Proof.
  intros Hr d. unfold storage_result.
  pose proof (fun Hi => load_group_info_spec r (storage d) Hi Hr) as H. unfold reads in H.
  destruct (load_group_info r (storage d)) as [st' x]. apply quiet_view; [done|]. intros Hi.
  destruct (H Hi) as (Hi' & Hu & _). split; [done|]. intros r'. unfold log_of. cbn. by rewrite Hu.
Qed.

Lemma store_group_info_quiet r e gi :
  r < 2 ^ 128 -> e < 2 ^ 64 -> steps quiet (storage_result (store_group_info r e gi)).
Proof.
  intros Hr He d. unfold storage_result.
  pose proof (fun Hi => store_group_info_spec r e gi (storage d) Hi Hr He) as H. unfold writes in H.
  destruct (store_group_info r e gi (storage d)) as [st' x]. apply quiet_view; [done|]. intros Hi.
  destruct (H Hi) as [Hi' Hx]. split; [done|]. intros r'. unfold log_of. cbn.
  destruct x as [a|e'|]; [|by rewrite Hx..]. destruct Hx as [Hx1 Hx2].
  destruct (decide (r' = r)) as [->|]; [by rewrite Hx1|by rewrite Hx2].
Qed.

Lemma sync_request_quiet r sender from lim t0 :
  r < 2 ^ 128 -> from < 2 ^ 64 ->
  steps quiet (manager_call (RoomManager.handle_sync_request r sender from lim t0)).
Proof.
  intros Hr Hf d Hc. unfold manager_call.
  pose proof (RoomManager.handle_sync_request_reads (room_manager d) (storage d) r sender from lim t0
                (co_storage d Hc) Hr Hf) as H.
  destruct (RoomManager.handle_sync_request _ _ _ _ _ _) as [[m' st'] x].
  destruct H as (-> & Hi & Hu). revert Hc. apply quiet_view; [done|]. intros _.
  split; [done|]. intros r'. unfold log_of. cbn. by rewrite Hu.
Qed.

Lemma sync_request_yields r sender from lim t0 :
  yields (fun a => exists fs more, a = RASendSyncResponse sender r fs more t0)
    (manager_call (Env := Env) (St := St) (RoomManager.handle_sync_request r sender from lim t0)).
Proof.
  intros d a. unfold manager_call.
  pose proof (RoomManager.handle_sync_request_yields (St := St) r sender from lim t0
                (room_manager d, storage d)) as Hy.
  destruct (RoomManager.handle_sync_request _ _ _ _ _ _) as [[m' st'] [x|e|]]; [|done..].
  intros [= <-]. by apply Hy.
Qed.

Lemma create_room_quiet r s : r < 2 ^ 128 -> steps quiet (create_room (Env := Env) (St := St) r s).
Proof.
  intros Hr. unfold create_room. apply steps_bind; [apply _|apply env_now_quiet|]. intros t0.
  apply steps_bind; [apply _|by intros ?|]. intros d0.
  case_match; [|apply steps_throw, _]. apply steps_bind; [apply _| |].
  2:{ intros _. apply steps_bind; [apply _|apply registry_call_quiet|].
      intros _. apply steps_ret, _. }
  intros d Hc. pose proof (RoomManager.create_room_cases r
    (default s (SessionInfo.user_id t1)) (env d) (room_manager d) (storage d) (co_storage d Hc) Hr) as H'.
  destruct (RoomManager.create_room _ _ _) as [[e' [m' st']] x]. cbn.
  destruct H' as (Hi & [(_ & -> & Hu)|(md & _ & Hno & [Hu1 Hu2] & ->)]).
  - revert Hc. apply quiet_view; [done|]. intros _. split; [done|].
    intros r'. unfold log_of. cbn. by rewrite Hu.
  - assert (Hlog : forall r', rv_log (view st' r') = rv_log (view (storage d) r')).
    { intros r'. destruct (decide (r' = r)) as [->|]; [by rewrite Hu1|by rewrite Hu2]. }
    split; [|done]. destruct Hc as [H1 H2 H3 H3' H4 H5].
    constructor; unfold log_of in *; cbn; try done; intros r'; rewrite ?Hlog; try apply H3'; auto.
    + rewrite RoomManager.has_room_spec. cbn. destruct (decide (r' = r)) as [->|Hne].
      * rewrite lookup_insert_eq, Hu1. cbn. split; eauto.
      * rewrite lookup_insert_ne, Hu2 by done. rewrite <- RoomManager.has_room_spec. apply H4.
    + destruct (decide (r' = r)) as [->|Hne]; [done|]. rewrite Hu2 by done. apply H5.
Qed.

(** ** Computations that deliver

    What a computation broadcasts is what the logs grow by. *)
Definition delivers (m : drv (list ServerAction)) : Prop := forall d,
  coherent d ->
  let '(d', answer) := m d in
  coherent d' /\ forall r, log_of d' r = log_of d r ++ broadcasts r answer.

Lemma delivers_quiet m : steps quiet m -> yields (Forall silent) m -> delivers m.
Proof.
  intros Hq Hy d Hc. specialize (Hq d Hc). specialize (Hy d).
  destruct (m d) as [d' [acts|e|]]; simpl in *; destruct Hq as [Hc' Hl]; (split; [done|]);
    intros r; rewrite Hl; [|by rewrite app_nil_r..].
  by rewrite (silent_broadcasts r acts (Hy acts eq_refl)), app_nil_r.
Qed.

Lemma delivers_bind {A} (Q : A -> Prop) (m : drv A) (f : A -> drv (list ServerAction)) :
  steps quiet m -> yields Q m -> (forall a, Q a -> delivers (f a)) -> delivers (m ≫= f).
Proof.
  intros Hm Hq Hf d Hc. specialize (Hm d Hc). specialize (Hq d). unfold mbind, M_bind.
  destruct (m d) as [d1 [a|e|]]; simpl in *; destruct Hm as [Hc1 Hl1];
    [|split; [done|]; intros r; by rewrite Hl1, app_nil_r..].
  specialize (Hf a (Hq a eq_refl) d1 Hc1). destruct (f a d1) as [d2 answer].
  destruct Hf as [Hc2 Hl2]. split; [done|]. intros r. by rewrite Hl2, Hl1.
Qed.

Lemma delivers_after acts1 acts2 (m : drv (list ServerAction)) :
  Forall silent acts1 -> Forall silent acts2 -> delivers m ->
  delivers (acts ← m; mret (acts1 ++ acts2 ++ acts)).
Proof.
  intros H1 H2 Hm d Hc. specialize (Hm d Hc). unfold mbind, M_bind.
  destruct (m d) as [d' [acts|e|]]; try done. destruct Hm as [Hc' Hl].
  split; [done|]. intros r. rewrite Hl. simpl. rewrite !omap_app.
  by rewrite (silent_broadcasts r acts1 H1), (silent_broadcasts r acts2 H2).
Qed.

Lemma route_delivers s frame t0 :
  Frame.wf frame -> FrameHeader.opcode_enum (Frame.header frame) <> Some Opcode.Welcome ->
  delivers (route_frame s frame t0).
Proof using StorageTotal0.
  intros Hw Hop d Hc. pose proof Hc as [H1 H2 H3 H3' H4 H5].
  pose proof (route_frame_routed d s frame t0 H1 Hw (coherent_bounded d Hc) Hop) as Hr.
  destruct (route_frame s frame t0 d) as [d' answer]. destruct Hr as (Hi & Hmd & Hr).
  assert (Hroom : forall r, RoomManager.has_room (room_manager d') r
                            = RoomManager.has_room (room_manager d) r).
  { intros r. unfold RoomManager.has_room. by rewrite Hmd. }
  assert (Hstart : forall r i,
    Sequencer.next_index (RoomManager.sequencer (room_manager d)) (storage d) r i ->
    i = len (log_of d r)).
  { intros r i [Hn|[_ Hn]]; [by apply H2|by apply Sequencer.next_after_len]. }
  destruct Hr as [answer Hno Hbad Hu Hseq|i Hn Hlt Hlen [Hu1 Hu2] Hseq|i st1 answer Hn Hlt Hi1 Hu1 Hbad Hu].
  - assert (Hlog : forall r, log_of d' r = log_of d r) by (intros r; unfold log_of; by rewrite Hu).
    split; [|intros r; rewrite Hlog; destruct answer; simpl; by rewrite ?app_nil_r].
    constructor; try done; intros r; rewrite ?Hlog, ?Hroom, ?Hu; try apply H3'; auto.
    destruct Hseq as [->|[Hn ->]]; [apply H2|]. intros n. rewrite lookup_insert_Some.
    intros [[<- <-]|[_ Hl]]; auto.
  - set (r0 := FrameHeader.room_id (Frame.header frame)) in *.
    assert (Hlog : forall r, log_of d' r = log_of d r
              ++ (if decide (r0 = r) then [Sequencer.at_index i frame] else [])).
    { intros r. unfold log_of. case_decide as E; [subst r; by rewrite Hu1|].
      rewrite Hu2 by done. by rewrite app_nil_r. }
    split; [|intros r; rewrite Hlog; cbn [broadcasts omap list_omap broadcast_of];
             rewrite room_id_at_index; fold r0; by destruct (decide (r0 = r))].
    constructor; try done; intros r; rewrite ?Hroom.
    + intros n. rewrite Hseq, Hlog, lookup_insert_Some. intros [[<- <-]|[Hne Hl]].
      * rewrite decide_True by done. rewrite len_app, Hlen. done.
      * rewrite decide_False, app_nil_r by done. auto.
    + rewrite Hlog. case_decide as E; [|by rewrite app_nil_r]. subst r.
      rewrite len_app. unfold log_of. rewrite <- Hlen. unfold len. simpl. lia.
    + intros j f. rewrite Hlog. case_decide as E; [subst r|rewrite app_nil_r; apply H3'].
      rewrite lookup_app_Some, list_lookup_singleton_Some.
      intros [Hj|(Hge & Hj & <-)]; [by apply (H3' r0)|]. split; [by apply Sequencer.at_index_wf|].
      rewrite Sequencer.log_index_at_index by (unfold u64_MAX in Hlt; lia).
      rewrite Hlen. unfold len. fold (log_of d r0) in *. lia.
    + destruct (decide (r = r0)) as [->|]; [rewrite Hu1|rewrite Hu2 by done]; apply H4.
    + destruct (decide (r = r0)) as [->|]; [rewrite Hu1|rewrite Hu2 by done]; apply H5.
  - exfalso. apply Hbad. rewrite (Hstart _ _ Hn). unfold log_of. rewrite <- Hu1.
    by apply store_frame_accepts.
Qed.

(** ** The handlers that broadcast nothing *)

Lemma conn_actions_silent s acts : Forall silent (map (conn_action s) acts).
Proof. apply Forall_forall. intros a (x & <- & _)%list_elem_of_In%in_map_iff. by destruct x. Qed.

Lemma accepted_quiet s : steps quiet (handle_connection_accepted (Env := Env) (St := St) s).
Proof.
  unfold handle_connection_accepted. apply steps_bind; [apply _|apply env_now_quiet|].
  intros t0. apply steps_get. intros d. case_match; [done|].
  unfold mbind, M_bind, modify, registry_call. simpl.
  destruct (ConnectionRegistry.register_session _ _ _). by apply quiet_same.
Qed.

Lemma accepted_silent s :
  yields (Forall silent) (handle_connection_accepted (Env := Env) (St := St) s).
Proof.
  unfold handle_connection_accepted. do 2 (apply (yields_bind (fun _ => True)); [done|intros ? _]).
  case_match; [apply yields_ret; by repeat constructor|].
  do 2 (apply (yields_bind (fun _ => True)); [done|intros ? _]).
  apply yields_ret. by repeat constructor.
Qed.

Lemma tick_quiet t0 ss : steps quiet (tick_sessions (Env := Env) (St := St) t0 ss).
Proof.
  induction ss as [|s ss IH]; simpl; [apply steps_ret, _|]. apply steps_get. intros d.
  destruct (connections d !! s) as [c|] eqn:Hs; [|apply IH].
  destruct (Connection.tick t0 c) as [c' acts].
  unfold mbind at 1, M_bind at 1, modify at 1.
  etrans; [by apply (quiet_same d (with_connections (<[s := c']> (connections d)) d))|].
  apply steps_bind; [apply _|apply IH|]. intros. apply steps_ret, _.
Qed.

Lemma tick_silent t0 ss : yields (Forall silent) (tick_sessions (Env := Env) (St := St) t0 ss).
Proof.
  induction ss as [|s ss IH]; simpl; [by apply yields_ret|].
  apply (yields_bind (fun _ => True)); [done|intros d _].
  destruct (connections d !! s) as [c|]; [|apply IH].
  destruct (Connection.tick t0 c) as [c' acts].
  apply (yields_bind (fun _ => True)); [done|intros _ _].
  apply (yields_bind (Forall silent)); [apply IH|]. intros l Hl. apply yields_ret.
  apply Forall_app. split; [apply conn_actions_silent|done].
Qed.

End total.

#[global] Hint Resolve env_now_quiet into_frame_quiet registry_call_quiet update_activity_quiet
  connections_quiet catch_quiet clear_room_sequencer_quiet load_group_info_quiet
  store_group_info_quiet sync_request_quiet create_room_quiet : lockframe.

(** Follow a computation's binds and branches to the calls. *)
Ltac quiet_steps :=
  repeat first
    [ done
    | solve [eauto with lockframe]
    | apply steps_ret; apply _ | apply steps_throw; apply _ | apply steps_lift; apply _
    | apply catch_quiet
    | apply steps_bind; [apply _| |intros ?]
    | case_match
    | progress intros ].

Ltac silent_answers :=
  repeat first
    [ done
    | solve [eauto]
    | apply yields_ret; first [by repeat constructor|apply conn_actions_silent]
    | apply yields_throw
    | apply yields_lift; done
    | apply (yields_bind (fun _ => True)); [done|intros ? _]
    | case_match
    | progress intros ].

Section events.
Context {Env St : Type} `{!Environment Env} `{!Storage St} `{!StorageSpec St} `{!StorageTotal St}
  {ciborium : Ciborium}.

Lemma closed_delivers s reason :
  delivers (handle_connection_closed (Env := Env) (St := St) s reason).
Proof. unfold handle_connection_closed. apply delivers_quiet; [quiet_steps|silent_answers]. Qed.

Lemma session_frame_delivers s c frame t0 :
  delivers (handle_session_frame (Env := Env) (St := St) s c frame t0).
Proof.
  unfold handle_session_frame. destruct (Connection.handle_frame _ _ _) as [c' r].
  apply delivers_quiet; [quiet_steps|silent_answers].
Qed.

Lemma error_answer_quiet s err lv m f t0 :
  steps quiet (error_answer (Env := Env) (St := St) s err lv m f t0).
Proof. unfold error_answer. quiet_steps. Qed.

Lemma error_answer_silent s err lv m f t0 :
  yields (Forall silent) (error_answer (Env := Env) (St := St) s err lv m f t0).
Proof. unfold error_answer. silent_answers. Qed.

Lemma publish_delivers s frame :
  delivers (handle_key_package_publish (Env := Env) (St := St) s frame).
Proof.
  pose proof error_answer_quiet. pose proof error_answer_silent.
  unfold handle_key_package_publish. apply delivers_quiet; [|silent_answers].
  apply steps_bind; [apply _|apply env_now_quiet|]. intros t0.
  apply steps_bind; [apply _|by intros ?|]. intros d0.
  repeat (case_match; try solve [eauto | apply steps_lift, _]).
  apply steps_bind; [apply _| |quiet_steps]. intros d.
  destruct (KeyPackageRegistry.store _ _ _). by apply quiet_same.
Qed.

Lemma fetch_delivers s frame :
  delivers (handle_key_package_fetch (Env := Env) (St := St) s frame).
Proof.
  pose proof error_answer_quiet. pose proof error_answer_silent.
  unfold handle_key_package_fetch. apply delivers_quiet; [|silent_answers].
  apply steps_bind; [apply _|apply env_now_quiet|]. intros t0.
  destruct (Payload.from_frame frame) as [[]| |]; try solve [eauto | apply steps_lift, _].
  apply steps_bind; [apply _| |quiet_steps]. intros d. by apply quiet_same.
Qed.

Lemma group_info_delivers s frame :
  delivers (handle_group_info_publish (Env := Env) (St := St) s frame).
Proof.
  unfold handle_group_info_publish. apply delivers_quiet; [|silent_answers].
  apply steps_bind; [apply _|apply env_now_quiet|]. intros t0.
  destruct (Payload.from_frame frame) as [[]| |] eqn:Hf; try solve [quiet_steps].
  destruct (Payload.from_frame_group_info _ _ Hf).
  apply steps_bind; [apply _|by apply store_group_info_quiet|quiet_steps].
Qed.

Lemma group_info_request_delivers s frame :
  delivers (handle_group_info_request (Env := Env) (St := St) s frame).
Proof.
  pose proof error_answer_quiet. pose proof error_answer_silent.
  unfold handle_group_info_request. apply delivers_quiet; [|silent_answers].
  apply steps_bind; [apply _|apply env_now_quiet|]. intros t0.
  destruct (Payload.from_frame frame) as [[]| |] eqn:Hf; try solve [eauto|quiet_steps].
  pose proof (Payload.from_frame_group_info_request _ _ Hf).
  apply steps_bind; [apply _|by apply load_group_info_quiet|quiet_steps].
Qed.

Lemma sync_response_silent sender r fs more t0 s :
  yields (Forall silent)
    (process_room_action (Env := Env) (St := St) (RASendSyncResponse sender r fs more t0) s).
Proof. unfold process_room_action. silent_answers. Qed.

Lemma catch_yields {A} (P : A -> Prop) (m : M (ServerDriver.t Env St) ServerError.t A) :
  yields P m -> yields (fun x => forall a, x = Ok a -> P a) (catch m).
Proof.
  intros Hm d x. unfold catch. specialize (Hm d). destruct (m d) as [d' [a|e|]]; simpl in *.
  - intros [= <-] ? [= <-]. by apply Hm.
  - by intros [= <-].
  - done.
Qed.

Lemma sync_delivers s frame :
  Frame.wf frame -> delivers (handle_sync_request (Env := Env) (St := St) s frame).
Proof.
  intros Hw. assert (Hr : FrameHeader.room_id (Frame.header frame) < 2 ^ 128).
  { destruct Hw as (Hw & _). by apply FrameHeader.room_id_lt. }
  unfold handle_sync_request. apply delivers_quiet.
  - unfold make_error_response. apply steps_bind; [apply _|apply env_now_quiet|]. intros t0.
    apply steps_bind; [apply _| |quiet_steps]. apply catch_quiet.
    apply (steps_bind_yields _ (fun p => Payload.from_frame frame = Ok p)); [apply steps_lift, _| |].
    { apply yields_lift. intros p. destruct (Payload.from_frame frame); intros [=]. by subst. }
    intros p Hp. destruct p; try apply steps_throw, _.
    destruct (Payload.from_frame_sync_request _ _ Hp) as [Hfrom _].
    eapply steps_bind_yields; [apply _|by apply sync_request_quiet|apply sync_request_yields|].
    intros a (fs & more & ->). unfold process_room_action. quiet_steps.
  - apply (yields_bind (fun _ => True)); [done|intros t0 _].
    apply (yields_bind (fun x => forall acts, x = Ok acts -> Forall silent acts)).
    + apply catch_yields. apply (yields_bind (fun _ => True)); [done|intros p _].
      destruct p; try apply yields_throw.
      eapply yields_bind; [apply sync_request_yields|]. intros a (fs & more & ->).
      apply sync_response_silent.
    + intros [acts|e|] Hx; [apply yields_ret; by apply Hx| |by apply yields_ret].
      unfold make_error_response. silent_answers.
Qed.

Lemma welcome_delivers s frame t0 :
  delivers (handle_welcome (Env := Env) (St := St) s frame t0).
Proof.
  unfold handle_welcome. apply delivers_quiet; [|silent_answers].
  apply steps_bind; [apply _|apply update_activity_quiet|]. intros _.
  apply steps_bind; [apply _|by intros ?|]. intros d0. quiet_steps.
Qed.

Lemma create_room_silent r s :
  yields (Forall silent) (create_room (Env := Env) (St := St) r s).
Proof. unfold create_room. silent_answers. Qed.

Lemma room_frame_delivers s frame t0 :
  Frame.wf frame -> FrameHeader.opcode_enum (Frame.header frame) <> Some Opcode.Welcome ->
  delivers (handle_room_frame (Env := Env) (St := St) s frame t0).
Proof using StorageTotal0.
  intros Hw Hop. assert (Hr : FrameHeader.room_id (Frame.header frame) < 2 ^ 128).
  { destruct Hw as (Hw' & _). by apply FrameHeader.room_id_lt. }
  unfold handle_room_frame.
  apply (delivers_bind (fun _ => True)); [apply update_activity_quiet|done|]. intros _ _.
  apply (delivers_bind (fun _ => True)); [by intros ?|done|]. intros d0 _.
  apply (delivers_bind (Forall silent)).
  { case_match; [by apply create_room_quiet|apply steps_ret, _]. }
  { case_match; [apply create_room_silent|by apply yields_ret]. }
  intros acts1 H1. apply (delivers_bind (Forall silent)).
  { quiet_steps. }
  { silent_answers. }
  intros acts2 H2. apply delivers_after; [done..|]. by apply route_delivers.
Qed.

Lemma frame_received_delivers s frame :
  Frame.wf frame -> delivers (handle_frame_received (Env := Env) (St := St) s frame).
Proof using StorageTotal0.
  intros Hw. unfold handle_frame_received.
  apply (delivers_bind (fun _ => True)); [apply env_now_quiet|done|]. intros t0 _.
  apply (delivers_bind (fun _ => True)); [by intros ?|done|]. intros d0 _.
  destruct (connections d0 !! s) as [c|].
  2:{ apply delivers_quiet; [apply steps_throw, _|apply yields_throw]. }
  destruct (FrameHeader.opcode_enum (Frame.header frame)) as [op|] eqn:Hop.
  2:{ apply room_frame_delivers; [done|]. by rewrite Hop. }
  destruct op; try apply session_frame_delivers; try (by apply sync_delivers);
    try apply welcome_delivers; try (apply room_frame_delivers; [done|by rewrite Hop]);
    (apply (delivers_bind (fun _ => True)); [apply update_activity_quiet|done|]; intros _ _);
    auto using publish_delivers, fetch_delivers, group_info_delivers, group_info_request_delivers.
  apply route_delivers; [done|by rewrite Hop].
Qed.

(** ** Recovery *)

Abbreviation driver := (ServerDriver.t Env St).

(** A driver that knows some of the rooms of its storage, as after [new]. *)
Record recoverable (d : driver) : Prop := mk_recoverable {
  re_storage : storage_inv (storage d);
  re_start r : Sequencer.start (RoomManager.sequencer (room_manager d)) (storage d) r
    = len (log_of d r);
  re_len r : len (log_of d r) <= u64_MAX;
  re_indexed r i f : log_of d r !! i = Some f ->
    Frame.wf f /\ FrameHeader.log_index (Frame.header f) = N.of_nat i;
  re_meta r : RoomManager.has_room (room_manager d) r = true ->
    is_Some (rv_meta (view (storage d) r));
  re_u128 r : is_Some (rv_meta (view (storage d) r)) -> r < 2 ^ 128;
}.

Lemma coherent_recoverable d :
  coherent d <-> recoverable d /\
    forall r, is_Some (rv_meta (view (storage d) r)) -> RoomManager.has_room (room_manager d) r = true.
Proof.
  split.
  - intros [H1 H2 H3 H3' H4 H5]. split; [|intros r; by apply H4]. constructor; auto.
    + intros r. unfold Sequencer.start. destruct (_ !! r) as [n|] eqn:Hn; [by apply H2|done].
    + intros r. apply H4.
  - intros [[H1 H2 H3 H3' H4 H5] H6]. constructor; auto.
    + intros r n Hn. rewrite <- H2. unfold Sequencer.start. by rewrite Hn.
    + intros r. split; auto.
Qed.

Lemma recover_rooms_spec rs d :
  recoverable d -> Forall (fun r => is_Some (rv_meta (view (storage d) r))) rs ->
  let '(d', answer) := recover_rooms rs d in
  answer = Ok tt /\ recoverable d' /\ unchanged view (storage d) (storage d') /\
  forall r, RoomManager.has_room (room_manager d') r = true <->
    RoomManager.has_room (room_manager d) r = true \/ r ∈ rs.
Proof using StorageTotal0.
  revert d. induction rs as [|r0 rs IH]; intros d Hd Hrs; cbn [recover_rooms].
  { cbn. split_and!; try done. intros r. rewrite elem_of_nil. tauto. }
  inversion Hrs as [|? ? Hr0 Hrs']; subst. destruct Hd as [H1 H2 H3 H3' H4 H5].
  unfold mbind, M_bind, manager_call.
  pose proof (RoomManager.recover_room_cases (room_manager d) (storage d) r0 H1 (H5 _ Hr0) Hr0 (H3 _)) as Hc.
  destruct (RoomManager.recover_room r0 _) as [[m' st'] x].
  destruct Hc as (-> & Hi & Hu & Hst & Hh). cbn [map_err].
  set (d1 := with_room_manager m' (with_storage st' d)).
  assert (Hd1 : recoverable d1).
  { constructor; unfold log_of in *; cbn; try done; intros r; rewrite ?Hu, ?Hst; auto; try apply H3'.
    rewrite Hh. intros [Hr| ->]; auto. }
  assert (Hrs1 : Forall (fun r => is_Some (rv_meta (view (storage d1) r))) rs).
  { apply (Forall_impl _ _ _ Hrs'). intros r Hr. cbn. by rewrite Hu. }
  specialize (IH d1 Hd1 Hrs1). destruct (recover_rooms rs d1) as [d2 answer].
  destruct IH as (-> & Hd2 & Hu2 & Hh2). split_and!; try done.
  - intros r. rewrite Hu2. apply Hu.
  - intros r. rewrite Hh2. cbn. rewrite Hh, elem_of_cons. tauto.
Qed.

Lemma recover_from_storage_spec d :
  recoverable d ->
  let '(d', answer) := recover_from_storage d in
  (exists rs, answer = Ok (len rs) /\ NoDup rs /\
     forall r, r ∈ rs <-> is_Some (rv_meta (view (storage d) r))) /\
  coherent d' /\ unchanged view (storage d) (storage d').
Proof using StorageTotal0.
  intros Hd. pose proof (re_storage d Hd) as Hi. unfold recover_from_storage.
  unfold mbind at 1, M_bind at 1, storage_result.
  pose proof (list_rooms_spec (storage d) Hi) as Hl. unfold reads in Hl.
  pose proof (list_rooms_total (storage d) Hi) as Ht.
  destruct (list_rooms (storage d)) as [st' [rs|e|]]; try done. destruct Hl as (Hi' & Hu & Hrs).
  destruct (Hrs rs eq_refl) as [Hnd Hin]. cbn [caught].
  unfold mbind at 1, M_bind at 1, lift at 1. cbn [map_err]. unfold mbind at 1, M_bind at 1.
  assert (Hd1 : recoverable (with_storage st' d)).
  { destruct Hd as [H1 H2 H3 H3' H4 H5].
    constructor; unfold log_of, Sequencer.start in *; cbn; try done; intros r; rewrite ?Hu; auto;
      try apply H3'. }
  pose proof (recover_rooms_spec rs (with_storage st' d) Hd1) as Hr.
  destruct (recover_rooms rs _) as [d' answer].
  destruct Hr as (-> & Hd' & Hu' & Hh).
  { apply Forall_forall. intros r. cbn. by rewrite Hu, Hin. }
  cbn. assert (Huu : unchanged view (storage d) (storage d')).
  { intros r. rewrite Hu'. apply Hu. }
  split_and!; [by exists rs| |done].
  apply coherent_recoverable. split; [done|]. intros r. rewrite Huu, Hh, Hin. by right.
Qed.

(** ** Runs *)

(** The arguments are of the types of the driver's methods. *)
Definition op_typed (o : driver_op) : Prop :=
  match o with
  | DEvent (FrameReceived _ f) => Frame.wf f
  | DCreateRoom r _ => r < 2 ^ 128
  | _ => True
  end.

Fixpoint exec_all (ops : list driver_op) (d : driver)
    : driver * list (res ServerError.t (list ServerAction)) :=
  match ops with
  | [] => (d, [])
  | o :: ops' =>
      let '(d1, a) := exec_op o d in
      let '(d2, answers) := exec_all ops' d1 in (d2, a :: answers)
  end.

Lemma exec_op_delivers o : op_typed o -> delivers (exec_op (Env := Env) (St := St) o).
Proof using StorageTotal0.
  destruct o as [[s|s f|s reason|]|r s|s r|s r|r|]; cbn [op_typed exec_op process_event]; intros Ho.
  - apply delivers_quiet; [apply accepted_quiet|apply accepted_silent].
  - by apply frame_received_delivers.
  - apply closed_delivers.
  - unfold handle_tick.
    apply (delivers_bind (fun _ => True)); [apply env_now_quiet|done|]. intros t0 _.
    apply (delivers_bind (fun _ => True)); [by intros ?|done|]. intros d0 _.
    apply delivers_quiet; [apply tick_quiet|apply tick_silent].
  - apply delivers_quiet; [by apply create_room_quiet|apply create_room_silent].
  - unfold subscribe_to_room. apply delivers_quiet; [quiet_steps|silent_answers].
  - unfold unsubscribe_from_room. apply delivers_quiet; [quiet_steps|silent_answers].
  - apply delivers_quiet; [quiet_steps|silent_answers].
  - apply delivers_quiet; [|silent_answers]. apply steps_bind; [apply _| |quiet_steps].
    intros d Hc. apply coherent_recoverable in Hc as [Hr _].
    pose proof (recover_from_storage_spec d Hr) as Hs.
    destruct (recover_from_storage d) as [d' answer]. destruct Hs as (_ & Hc' & Hu).
    split; [done|]. intros r. unfold log_of. cbn. by rewrite Hu.
Qed.

Lemma exec_all_delivers ops d :
  coherent d -> Forall op_typed ops ->
  let '(d', answers) := exec_all ops d in
  coherent d' /\ forall r, log_of d' r = log_of d r ++ concat (map (broadcasts r) answers).
Proof using StorageTotal0.
  revert d. induction ops as [|o ops IH]; intros d Hc Hops; cbn [exec_all].
  { split; [done|]. intros r. by rewrite app_nil_r. }
  inversion Hops as [|? ? Ho Hops']; subst. pose proof (exec_op_delivers o Ho d Hc) as H1.
  destruct (exec_op o d) as [d1 a]. destruct H1 as [Hc1 Hl1].
  specialize (IH d1 Hc1 Hops'). destruct (exec_all ops d1) as [d2 answers].
  destruct IH as [Hc2 Hl2]. split; [done|]. intros r. cbn [map concat].
  by rewrite Hl2, Hl1, (assoc_L (++)).
Qed.

Lemma new_recoverable (e : Env) st cfg :
  storage_inv st ->
  (forall r, len (rv_log (view st r)) <= u64_MAX) ->
  (forall r i f, rv_log (view st r) !! i = Some f ->
     Frame.wf f /\ FrameHeader.log_index (Frame.header f) = N.of_nat i) ->
  (forall r, is_Some (rv_meta (view st r)) -> r < 2 ^ 128) ->
  recoverable (new e st cfg).
Proof. intros H1 H2 H3 H4. by constructor. Qed.

(** ** Properties *)

(** C1: total order: on a storage that meets its contract and whose writes
    succeed, from a driver that agrees with its storage, over every sequence of
    events and calls and in every room, the frames the server broadcasts are,
    in that order, exactly the frames the room's log grows by: nothing is
    broadcast that is not stored, nothing is stored that is not broadcast, and
    the [j]-th broadcast carries the log index [n + j] where [n] was the length
    of the log. *)
Theorem broadcasts_are_the_log (d : driver) ops r :
  coherent d -> Forall op_typed ops ->
  let '(d', answers) := exec_all ops d in
  let sent := concat (map (broadcasts r) answers) in
  log_of d' r = log_of d r ++ sent /\
  (forall j f, sent !! j = Some f ->
     FrameHeader.log_index (Frame.header f) = len (log_of d r) + N.of_nat j) /\
  coherent d'.
Proof using StorageTotal0.
  intros Hc Hops. pose proof (exec_all_delivers ops d Hc Hops) as H.
  destruct (exec_all ops d) as [d' answers]. destruct H as [Hc' Hl]. cbv zeta.
  split_and!; try done. intros j f Hj.
  destruct (co_indexed d' Hc' r (length (log_of d r) + j) f) as [_ ->]; [|unfold len; lia].
  rewrite Hl, lookup_app_r by lia. by replace (_ + j - _)%nat with j by lia.
Qed.

(** An application message is delivered: on such a storage, a well-formed
    application message with a room id and an admissible epoch, from a connected
    session to an existing room whose log is not full, is answered by one
    broadcast, to exactly the subscribers of the room, of the message at the
    next index of the log, where it is stored.  The sender need neither have
    authenticated nor be a subscriber. *)
Lemma app_message_delivered (d : driver) s c frame :
  coherent d -> connections d !! s = Some c -> Frame.wf frame -> Sequencer.sequenceable frame ->
  FrameHeader.opcode_enum (Frame.header frame) = Some Opcode.AppMessage ->
  let r := FrameHeader.room_id (Frame.header frame) in
  has_room d r = true -> len (log_of d r) < u64_MAX ->
  let '(d', answer) := process_event (FrameReceived s frame) d in
  let f := Sequencer.at_index (len (log_of d r)) frame in
  answer = Ok [Broadcast (sessions_in_room d r) f] /\ log_of d' r = log_of d r ++ [f].
Proof using StorageTotal0.
  intros Hc Hs Hw Hseq Hop r Hroom Hlen. cbn [process_event]. unfold handle_frame_received.
  unfold mbind at 1, M_bind at 1, env_now at 1. destruct (now (env d)) as [t0 e].
  unfold mbind at 1, M_bind at 1, get at 1. cbn [connections with_env]. rewrite Hs, Hop.
  unfold mbind at 1, M_bind at 1, update_activity at 1, modify at 1.
  set (d1 := with_connections _ (with_env e d)).
  destruct (quiet_same d d1 eq_refl eq_refl Hc) as [Hc1 Hl1].
  assert (Hnw : FrameHeader.opcode_enum (Frame.header frame) <> Some Opcode.Welcome) by congruence.
  pose proof (route_frame_routed d1 s frame t0 (co_storage d1 Hc1) Hw (coherent_bounded d1 Hc1) Hnw) as Hr.
  pose proof (route_delivers s frame t0 Hw Hnw d1 Hc1) as Hdel.
  destruct (route_frame s frame t0 d1) as [d' answer]. destruct Hr as (_ & _ & Hr).
  assert (Hstart : Sequencer.start (RoomManager.sequencer (room_manager d1)) (storage d1) r
                   = len (log_of d r)).
  { by apply coherent_recoverable in Hc1 as [Hc1 _]; rewrite (re_start d1 Hc1), Hl1. }
  destruct Hr as [answer Hno|i Hn Hlt Hi _ _|i st1 answer Hn _ Hi1 Hu1 Hbad _].
  - exfalso. apply Hno. split_and!; try done.
    + apply latest_log_index_total, (co_storage d1 Hc1).
    + fold r. by rewrite Hstart.
  - destruct Hdel as [_ Hdel]. specialize (Hdel r). cbn [broadcasts omap list_omap broadcast_of] in Hdel.
    rewrite room_id_at_index in Hdel. fold r in Hdel. rewrite decide_True in Hdel by done.
    fold r in Hi. change (rv_log (view (storage d1) r)) with (log_of d r) in Hi. by subst i.
  - exfalso. apply Hbad. fold r in Hn |- *. apply Sequencer.next_index_start in Hn.
    rewrite Hstart in Hn. subst i. change (log_of d r) with (rv_log (view (storage d1) r)).
    rewrite <- Hu1. by apply store_frame_accepts.
Qed.

(** Two drivers that agree with storages of the same contents answer a frame
    alike. *)
Lemma coherent_process_frame (d1 d2 : driver) frame t0 :
  coherent d1 -> coherent d2 -> unchanged view (storage d1) (storage d2) -> Frame.wf frame ->
  snd (RoomManager.process_frame frame t0 (room_manager d2, storage d2))
  = snd (RoomManager.process_frame frame t0 (room_manager d1, storage d1)).
Proof using StorageTotal0.
  intros H1 H2 Hu Hw.
  pose proof (RoomManager.process_frame_cases (room_manager d1) (storage d1) frame t0
                (co_storage d1 H1) Hw (coherent_bounded d1 H1)) as P1.
  pose proof (RoomManager.process_frame_cases (room_manager d2) (storage d2) frame t0
                (co_storage d2 H2) Hw (coherent_bounded d2 H2)) as P2.
  cbv zeta in P1, P2. set (r := FrameHeader.room_id (Frame.header frame)) in *.
  assert (Hroom : RoomManager.has_room (room_manager d1) r = RoomManager.has_room (room_manager d2) r).
  { apply eq_true_iff_eq. by rewrite (co_meta d1 H1), (co_meta d2 H2), Hu. }
  assert (Hstart : forall d : driver, coherent d ->
    Sequencer.start (RoomManager.sequencer (room_manager d)) (storage d) r = len (log_of d r)).
  { intros d [Hr _]%coherent_recoverable. apply (re_start d Hr). }
  destruct (RoomManager.process_frame frame t0 (room_manager d1, storage d1)) as [[m1 st1] res1].
  destruct (RoomManager.process_frame frame t0 (room_manager d2, storage d2)) as [[m2 st2] res2].
  destruct P1 as (_ & _ & _ & [(? & _ & ->)|(? & s1 & Ho1 & ->)]),
    P2 as (_ & _ & _ & [(? & _ & ->)|(? & s2 & Ho2 & ->)]); try done; try congruence.
  assert (s2 = s1) as ->; [|done].
  eapply Sequencer.outcome_answer; [exact Ho2|exact Ho1|apply latest_log_index_total..| | |].
  - apply (co_storage d2 H2).
  - apply (co_storage d1 H1).
  - apply (co_len d2 H2).
  - apply (co_len d1 H1).
  - fold r. rewrite !Hstart by done. unfold log_of. by rewrite Hu.
Qed.

(** What a recovery leaves alone: connections, subscriptions and KeyPackages. *)
Definition volatile (d : driver) := (connections d, registry d, key_package_registry d).

Lemma recover_rooms_volatile rs : forall d, volatile (fst (recover_rooms rs d)) = volatile d.
Proof.
  induction rs as [|r rs IH]; intros d; cbn [recover_rooms]; [done|].
  unfold mbind, M_bind, manager_call. destruct (RoomManager.recover_room r _) as [[m' st'] [x|e|]];
    cbn [map_err]; [|done..].
  specialize (IH (with_room_manager m' (with_storage st' d))). by destruct (recover_rooms rs _).
Qed.

Lemma recover_volatile d : volatile (fst (recover_from_storage d)) = volatile d.
Proof.
  unfold recover_from_storage, storage_result, mbind, M_bind.
  destruct (list_rooms (storage d)) as [st' [rs|e|]]; cbn; [|done..].
  pose proof (recover_rooms_volatile rs (with_storage st' d)) as H.
  by destruct (recover_rooms rs _) as [d' [[]| |]].
Qed.

(** C12: a restart keeps the rooms and their logs.  On a storage that meets its
    contract and whose calls succeed, from a server that agrees with its storage,
    after every sequence of events and calls with values of their widths: a new
    server that recovers from the same storage succeeds and has the same rooms
    with the same logs, and its room manager gives every well-formed frame the
    answer (the same actions with the same indices, the same errors) the old
    server's would have given.  Otherwise it is a new server: connections,
    subscriptions and KeyPackages are not kept. *)
Theorem restart_transparent (d : driver) ops (e : Env) cfg :
  coherent d -> Forall op_typed ops ->
  let '(d1, _) := exec_all ops d in
  let '(d2, answer) := recover_from_storage (new e (storage d1) cfg) in
  is_ok answer = true /\
  (forall r, has_room d2 r = has_room d1 r /\ log_of d2 r = log_of d1 r) /\
  (forall frame t0, Frame.wf frame ->
     snd (RoomManager.process_frame frame t0 (room_manager d2, storage d2))
     = snd (RoomManager.process_frame frame t0 (room_manager d1, storage d1))) /\
  volatile d2 = volatile (new e (storage d1) cfg).
Proof using StorageTotal0.
  intros Hc Hops. pose proof (exec_all_delivers ops d Hc Hops) as H.
  destruct (exec_all ops d) as [d1 answers]. destruct H as [H1 _].
  assert (Hrec : recoverable (new e (storage d1) cfg)).
  { destruct H1. by apply new_recoverable. }
  pose proof (recover_from_storage_spec _ Hrec) as Hs.
  pose proof (recover_volatile (new e (storage d1) cfg)) as Hv.
  destruct (recover_from_storage (new e (storage d1) cfg)) as [d2 answer].
  destruct Hs as ((rs & -> & _) & H2 & Hu). cbn [storage new] in Hu. split_and!; [done| | |done].
  - intros r. unfold log_of. rewrite Hu. split; [|done]. apply eq_true_iff_eq. unfold has_room.
    by rewrite (co_meta d2 H2), (co_meta d1 H1), Hu.
  - intros frame t0 Hw. by apply coherent_process_frame.
Qed.

End events.
(** ** A request that stops the server *)

Section sync_panic.
Context {Env : Type} `{!Environment Env} {ciborium : Ciborium}.

(** C39: one request can stop the server: on the in-memory storage, a sync
    request of any connected session, for a room that has been written to and
    with a range whose end overflows [usize], panics; in the release profile a
    panic aborts the process. *)
Theorem sync_request_panics (d : ServerDriver.t Env MemoryStorage.t) s c frame req :
  let r := FrameHeader.room_id (Frame.header frame) in
  connections d !! s = Some c ->
  FrameHeader.opcode_enum (Frame.header frame) = Some Opcode.SyncRequest ->
  Payload.from_frame frame = Ok (Payload.SyncRequest req) ->
  has_room d r = true -> is_Some (MemoryStorage.frames (storage d) !! r) ->
  usize_MAX < from_log_index req + limit req ->
  snd (process_event (FrameReceived s frame) d) = Panic.
Proof.
  intros r Hs Hop Hp Hroom [fs Hfs] Hover. cbn [process_event]. unfold handle_frame_received.
  unfold mbind at 1, M_bind at 1, env_now at 1. destruct (now (env d)) as [t0 e].
  unfold mbind at 1, M_bind at 1, get at 1. cbn [connections with_env]. rewrite Hs, Hop.
  unfold handle_sync_request. fold r. unfold mbind at 1, M_bind at 1, env_now at 1.
  cbn [env with_env]. destruct (now e) as [t1 e'].
  unfold mbind at 1, M_bind at 1, catch at 1. rewrite Hp. cbn [map_err].
  unfold mbind at 1, M_bind at 1, lift at 1. unfold mbind at 1, M_bind at 1, manager_call at 1.
  cbn [room_manager storage with_env]. unfold RoomManager.handle_sync_request.
  unfold mbind at 1, M_bind at 1, get at 1. cbv beta iota. cbn [fst]. unfold has_room in Hroom.
  rewrite Hroom. cbn [negb]. unfold mbind at 1, M_bind at 1, RoomManager.storage_call at 1.
  cbn [load_frames MemoryStorage.memory_storage]. rewrite memory_load_frames, Hfs.
  by rewrite (proj2 (N.ltb_lt _ _) Hover).
Qed.

End sync_panic.

(** ** A storage that fails

    A server on the failure-injecting storage, where the third storage operation
    fails: the write of the first frame. *)

Definition sample_env : TestEnv := mkTestEnv 0 1 0 1000.

Definition chaos_store : ChaoticStorage.t MemoryStorage.t :=
  match ChaoticStorage.with_seed MemoryStorage.new 1 4 47 with
  | Ok st => st
  | _ => ChaoticStorage.mk MemoryStorage.new 0 1 0 0
  end.

Definition chaos_driver : ServerDriver.t TestEnv (ChaoticStorage.t MemoryStorage.t) :=
  new sample_env chaos_store default_server_config.

(** Another message of room 5. *)
Definition room_sample2 : Frame.t :=
  Frame.mk (Frame.header Sequencer.room_sample) [Init.Byte.x04; Init.Byte.x05; Init.Byte.x06].

(** A failed write breaks the order: on the failure-injecting storage over
    [MemoryStorage] there is a run, of two sessions and three messages in one
    room, in which the server broadcasts two different messages at log index 0
    to the same two sessions; only the later one is stored. *)
Theorem failed_write_reuses_index :
  exists ops, Forall op_typed ops /\
    let '(d', answers) := exec_all (ciborium := sample_ciborium) ops chaos_driver in
    concat (map (broadcasts 5) answers)
    = [Sequencer.at_index 0 Sequencer.room_sample; Sequencer.at_index 1 Sequencer.room_sample;
       Sequencer.at_index 0 room_sample2] /\
    rv_log (view (storage d') 5) = [Sequencer.at_index 0 room_sample2] /\
    sessions_in_room d' 5 ≡ₚ [1; 2].
Proof.
  exists [DEvent (ConnectionAccepted 1); DEvent (ConnectionAccepted 2); DCreateRoom 5 1;
     DSubscribe 2 5; DEvent (FrameReceived 1 Sequencer.room_sample);
     DEvent (FrameReceived 1 Sequencer.room_sample); DEvent (FrameReceived 1 room_sample2)].
  split.
  - repeat constructor; vm_compute; repeat split; discriminate.
  - vm_compute. repeat split. apply Permutation_swap.
Qed.

(** ** Witnesses *)

Definition sample_driver : ServerDriver.t TestEnv MemoryStorage.t :=
  new sample_env MemoryStorage.new default_server_config.

Definition sample_setup : list driver_op :=
  [DEvent (ConnectionAccepted 1); DEvent (ConnectionAccepted 2); DCreateRoom 5 1; DSubscribe 2 5].

Lemma sample_coherent : coherent sample_driver.
Proof.
  constructor; try done; intros r.
  - cbn. rewrite lookup_empty. split; [|by intros []].
    rewrite RoomManager.has_room_spec. cbn. by rewrite lookup_empty.
  - cbn. rewrite lookup_empty. by intros [].
Qed.

Lemma broadcasts_are_the_log_witness :
  let '(d', answers) := exec_all (ciborium := sample_ciborium)
    (sample_setup ++ [DEvent (FrameReceived 1 Sequencer.room_sample);
                      DEvent (FrameReceived 2 room_sample2)]) sample_driver in
  log_of d' 5 = [Sequencer.at_index 0 Sequencer.room_sample; Sequencer.at_index 1 room_sample2].
Proof.
  set (ops := sample_setup ++ _).
  assert (Ho : Forall op_typed ops).
  { repeat constructor; vm_compute; repeat split; discriminate. }
  pose proof (broadcasts_are_the_log (ciborium := sample_ciborium) sample_driver ops 5
                sample_coherent Ho) as H.
  assert (Hs : concat (map (broadcasts 5) (snd (exec_all (ciborium := sample_ciborium) ops sample_driver)))
    = [Sequencer.at_index 0 Sequencer.room_sample; Sequencer.at_index 1 room_sample2])
    by (vm_compute; reflexivity).
  destruct (exec_all ops sample_driver) as [d' answers]. cbn [snd] in Hs. cbv zeta in H.
  rewrite Hs in H. apply H.
Defined.

(** The server with two sessions in room 5. *)
Definition sample_server : ServerDriver.t TestEnv MemoryStorage.t :=
  fst (exec_all (ciborium := sample_ciborium) sample_setup sample_driver).

Lemma sample_server_coherent : coherent sample_server.
Proof.
  assert (Ho : Forall op_typed sample_setup) by (repeat constructor).
  pose proof (exec_all_delivers (ciborium := sample_ciborium) sample_setup sample_driver
                sample_coherent Ho) as H.
  unfold sample_server. destruct (exec_all sample_setup sample_driver). apply H.
Qed.

Lemma app_message_delivered_witness :
  let '(d', answer) := process_event (ciborium := sample_ciborium)
    (FrameReceived 2 Sequencer.room_sample) sample_server in
  answer = Ok [Broadcast (sessions_in_room sample_server 5)
                 (Sequencer.at_index 0 Sequencer.room_sample)] /\
  sessions_in_room sample_server 5 ≡ₚ [1; 2].
Proof.
  destruct (connections sample_server !! 2) as [c|] eqn:Hc; [|vm_compute in Hc; discriminate Hc].
  pose proof (app_message_delivered (ciborium := sample_ciborium) sample_server 2 c
    Sequencer.room_sample sample_server_coherent Hc Sequencer.room_sample_wf) as H.
  cbv zeta in H.
  specialize (H ltac:(vm_compute; repeat split; discriminate) ltac:(vm_compute; reflexivity)
    ltac:(vm_compute; reflexivity) ltac:(vm_compute; reflexivity)).
  destruct (process_event _ sample_server) as [d' answer]. destruct H as [-> _].
  split; vm_compute; [reflexivity|apply Permutation_swap].
Defined.

Lemma restart_transparent_witness :
  let '(d1, _) := exec_all (ciborium := sample_ciborium)
    (sample_setup ++ [DEvent (FrameReceived 1 Sequencer.room_sample)]) sample_driver in
  let '(d2, answer) := recover_from_storage (new sample_env (storage d1) default_server_config) in
  is_ok answer = true /\
  log_of d2 5 = [Sequencer.at_index 0 Sequencer.room_sample].
Proof.
  set (ops := sample_setup ++ _).
  assert (Ho : Forall op_typed ops).
  { repeat constructor; vm_compute; repeat split; discriminate. }
  pose proof (restart_transparent (ciborium := sample_ciborium) sample_driver ops sample_env
    default_server_config sample_coherent Ho) as H.
  assert (Hs : log_of (fst (exec_all (ciborium := sample_ciborium) ops sample_driver)) 5
    = [Sequencer.at_index 0 Sequencer.room_sample]) by (vm_compute; reflexivity).
  destruct (exec_all ops sample_driver) as [d1 answers]. cbn [fst] in Hs.
  destruct (recover_from_storage _) as [d2 answer]. destruct H as (H1 & H2 & _).
  destruct (H2 5) as [_ ->]. done.
Defined.

(** A sync request for room 5 from index 1 with the largest limit. *)
Definition sample_sync : Frame.t :=
  Frame.mk (FrameHeader.set_payload_size 1
              (FrameHeader.set_room_id 5 (FrameHeader.new Opcode.SyncRequest))) [Init.Byte.x01].

Definition written_server : ServerDriver.t TestEnv MemoryStorage.t :=
  fst (process_event (ciborium := sample_ciborium)
         (FrameReceived 1 Sequencer.room_sample) sample_server).

Lemma sync_request_panics_witness :
  snd (process_event (ciborium := sample_ciborium) (FrameReceived 2 sample_sync) written_server)
  = Panic.
Proof.
  destruct (connections written_server !! 2) as [c|] eqn:Hc; [|vm_compute in Hc; discriminate Hc].
  apply (sync_request_panics (ciborium := sample_ciborium) written_server 2 c sample_sync
           (mkSyncRequest 1 u64_MAX) Hc).
  - vm_compute. reflexivity.
  - vm_compute. reflexivity.
  - vm_compute. reflexivity.
  - vm_compute. eexists. reflexivity.
  - vm_compute. reflexivity.
Defined.

End Delivery.
