(* ===== verification/UnitServer.v ===== *)
(** * The unit tests of the server

    [sequencer.rs], [room_manager.rs], [key_package_registry.rs], [registry.rs]
    and [driver.rs]. *)

From S2P Require Import Prelude Env Environments Opcodes Header Framing Payloads Validator Connection.
From S2P Require Import Storage Sequencer Registry KeyPackages RoomManager Driver UnitTesting UnitStorage.

Local Open Scope N_scope.

(** ** [sequencer.rs] *)

Module SequencerTests.

(** A sequencer and its storage; the calls of the storage alone. *)
Abbreviation world := (Sequencer.t * MemoryStorage.t)%type.
Definition on_storage {A} (c : storeM MemoryStorage.t A) : M world StorageError.t A := fun '(q, st) =>
  let '(st', r) := c st in ((q, st'), r).
Definition next_log_index (room_id : N) (w : world) : option N := Sequencer.rooms (fst w) !! room_id.

Definition create_test_frame {S} (room_id sender_id epoch : N) : test S Frame.t :=
  let header := FrameHeader.set_epoch epoch (FrameHeader.set_sender_id sender_id
    (FrameHeader.set_room_id room_id (FrameHeader.new Opcode.AppMessage))) in
  lift (Frame.new header (str ("msg-" +:+ pretty sender_id))).

Definition log_index {S} (f : Frame.t) (expected : N) : test S unit :=
  check_eq (FrameHeader.log_index (Frame.header f)) expected.

Definition accepts_at (actions : list SequencerAction) (expected : N) : test world unit :=
  a ← index actions 0;
  match a with
  | AcceptFrame _ log_index _ => check_eq log_index expected
  | _ => lift Panic
  end.

Definition test_single_frame_sequencing : test world unit :=
  frame ← create_test_frame 100 200 0;
  actions ← unwrap (Sequencer.process_frame frame);
  check_eq (len actions) 3;;
  a ← index actions 0;
  match a with
  | AcceptFrame room_id i frame => check_eq room_id 100;; check_eq i 0;; log_index frame 0
  | _ => lift Panic
  end;;
  a ← index actions 1;
  match a with
  | StoreFrame room_id i _ => check_eq room_id 100;; check_eq i 0
  | _ => lift Panic
  end;;
  a ← index actions 2;
  match a with
  | BroadcastToRoom room_id frame => check_eq room_id 100;; log_index frame 0
  | _ => lift Panic
  end.

(** The first [StoreFrame] of the actions, executed. *)
Fixpoint store_first (actions : list SequencerAction) : test world unit :=
  match actions with
  | [] => mret tt
  | StoreFrame room_id log_index frame :: _ =>
      unwrap (on_storage (store_frame room_id log_index frame))
  | _ :: rest => store_first rest
  end.

Definition test_sequential_frames : test world unit :=
  let room_id := 100 in
  for_range 0 3 (fun i =>
    frame ← create_test_frame room_id 200 0;
    actions ← unwrap (Sequencer.process_frame frame);
    accepts_at actions i;;
    store_first actions);;
  frames ← unwrap (on_storage (load_frames room_id 0 10));
  check_eq (len frames) 3;;
  for_each (imap (fun i f => (N.of_nat i, f)) frames) (fun '(i, f) => log_index f i).

Definition sequence (room_id : N) : test world unit :=
  frame ← create_test_frame room_id 300 0;
  unwrap (Sequencer.process_frame frame);; mret tt.

Definition test_concurrent_rooms : test world unit :=
  for_range 0 3 (fun _ => sequence 100);;
  for_range 0 5 (fun _ => sequence 200);;
  n ← query (next_log_index 100); check_eq n (Some 3);;
  n ← query (next_log_index 200); check_eq n (Some 5).

Definition populate (room_id n : N) : test world unit :=
  for_range 0 n (fun i =>
    frame ← create_test_frame room_id 200 0;
    let frame := Frame.mk (FrameHeader.set_log_index i (Frame.header frame)) (Frame.payload frame) in
    unwrap (on_storage (store_frame room_id i frame))).

Definition test_sequencer_initialize_room : test world unit :=
  let room_id := 100 in
  populate room_id 5;;
  unwrap (Sequencer.initialize_room room_id);;
  n ← query (next_log_index room_id); check_eq n (Some 5);;
  frame ← create_test_frame room_id 200 0;
  actions ← unwrap (Sequencer.process_frame frame);
  accepts_at actions 5.

Definition test_sequencer_initialize_empty_room : test world unit :=
  let room_id := 100 in
  unwrap (Sequencer.initialize_room room_id);;
  n ← query (next_log_index room_id); check_eq n (Some 0);;
  frame ← create_test_frame room_id 200 0;
  actions ← unwrap (Sequencer.process_frame frame);
  accepts_at actions 0.

Definition test_sequencer_initialize_idempotent : test world unit :=
  let room_id := 100 in
  populate room_id 5;;
  unwrap (Sequencer.initialize_room room_id);;
  unwrap (Sequencer.initialize_room room_id);;
  n ← query (next_log_index room_id); check_eq n (Some 5);;
  frame ← create_test_frame room_id 200 0;
  actions ← unwrap (Sequencer.process_frame frame);
  accepts_at actions 5.

(** The tests of [sequencer.rs] pass on the model. *)
Lemma sequencer_tests_pass : all_pass (map (fun t => run_test t (Sequencer.new, MemoryStorage.new))
  [test_single_frame_sequencing; test_sequential_frames; test_concurrent_rooms;
   test_sequencer_initialize_room; test_sequencer_initialize_empty_room;
   test_sequencer_initialize_idempotent]) = true.
Proof. vm_compute. reflexivity. Qed.

End SequencerTests.

(** ** [room_manager.rs] *)

Module RoomManagerTests.

Abbreviation world := (RoomManager.t * MemoryStorage.t)%type.
Definition on_storage {A} (c : storeM MemoryStorage.t A) : M world StorageError.t A := fun '(m, st) =>
  let '(st', r) := c st in ((m, st'), r).

Definition create_test_frame {S} (room_id sender_id log_index : N) : test S Frame.t :=
  let header := FrameHeader.set_epoch 0 (FrameHeader.set_log_index log_index
    (FrameHeader.set_sender_id sender_id (FrameHeader.set_room_id room_id
      (FrameHeader.new Opcode.AppMessage)))) in
  lift (Frame.new header []).

Definition populate (room_id creator n : N) : test world unit :=
  unwrap (on_storage (create_room room_id (mkStoredRoomMetadata creator 0)));;
  for_range 0 n (fun i =>
    frame ← create_test_frame room_id creator i;
    unwrap (on_storage (store_frame room_id i frame))).

Definition has_room (room_id : N) (w : world) : bool := RoomManager.has_room (fst w) room_id.

Definition test_room_manager_recover_room : test world unit :=
  let room_id := 100 in
  populate room_id 42 5;;
  unwrap (RoomManager.recover_room room_id);;
  b ← query (has_room room_id); check b.

Definition test_room_manager_recover_room_idempotent : test world unit :=
  let room_id := 100 in
  populate room_id 1 1;;
  unwrap (RoomManager.recover_room room_id);;
  unwrap (RoomManager.recover_room room_id);;
  b ← query (has_room room_id); check b.

Definition test_room_manager_recover_nonexistent_room_fails : test world unit :=
  result ← attempt (RoomManager.recover_room 100); check (is_err result).

Definition test_room_manager_recover_extracts_creator : test world unit :=
  let room_id := 100 in
  populate room_id 42 0;;
  unwrap (RoomManager.recover_room room_id);;
  b ← query (has_room room_id); check b.

(** The tests of [room_manager.rs] pass on the model. *)
Lemma room_manager_tests_pass : all_pass (map (fun t => run_test t (RoomManager.new, MemoryStorage.new))
  [test_room_manager_recover_room; test_room_manager_recover_room_idempotent;
   test_room_manager_recover_nonexistent_room_fails;
   test_room_manager_recover_extracts_creator]) = true.
Proof. vm_compute. reflexivity. Qed.

End RoomManagerTests.

(** ** [key_package_registry.rs] *)

Module KeyPackageTests.
Import KeyPackageRegistry.

Abbreviation kp := (test KeyPackageRegistry.t).
Definition entry (k h : list N) : KeyPackageEntry.t := KeyPackageEntry.new (lit k) (lit h).
Definition store_ (u : N) (k h : list N) : kp StoreResult := unwrap (store u (entry k h)).
Definition expects {A} `{EqDecision A} (f : t -> A) (a : A) : kp unit := x ← query f; check_eq x a.
Definition has_ (u : N) (b : bool) : kp unit := expects (has u) b.
Definition take_bytes (u : N) (k : list N) : kp KeyPackageEntry.t :=
  o ← call (take u); e ← some o;
  check_eq (KeyPackageEntry.key_package_bytes e) (lit k);; mret e.

Definition store_and_take : kp unit :=
  result ← store_ 42 [1; 2; 3] [4; 5; 6];
  check_eq result Success;;
  has_ 42 true;;
  expects count 1;;
  e ← take_bytes 42 [1; 2; 3];
  check_eq (KeyPackageEntry.hash_ref e) (lit [4; 5; 6]);;
  has_ 42 false;;
  expects count 0.

Definition take_nonexistent_returns_none : kp unit :=
  o ← call (take 999); check (bool_decide (o = None)).

Definition store_overwrites_previous : kp unit :=
  store_ 42 [1] [2];;
  store_ 42 [3] [4];;
  take_bytes 42 [3];; mret tt.

(** The clones of a registry share its state, here the one registry. *)
Definition clone_shares_state : kp unit :=
  store_ 42 [1] [2];;
  has_ 42 true;;
  take_bytes 42 [1];;
  has_ 42 false.

Definition with_capacity_ : kp unit :=
  expects capacity 5;;
  expects is_full false.

Definition eviction_when_full : kp unit :=
  store_ 1 [1] [1];;
  store_ 2 [2] [2];;
  expects count 2;;
  expects is_full true;;
  result ← store_ 3 [3] [3];
  check_eq result Evicted;;
  expects count 2;;
  has_ 1 false;;
  has_ 2 true;;
  has_ 3 true.

Definition overwrite_does_not_evict : kp unit :=
  store_ 1 [1] [1];;
  store_ 2 [2] [2];;
  expects count 2;;
  result ← store_ 1 [10] [11];
  check_eq result Success;;
  expects count 2;;
  has_ 1 true;;
  has_ 2 true;;
  take_bytes 1 [10];; mret tt.

Definition lru_order_correct : kp unit :=
  store_ 1 [1] [1];;
  store_ 2 [2] [2];;
  store_ 3 [3] [3];;
  store_ 2 [20] [22];;
  store_ 4 [4] [4];;
  has_ 1 false;;
  has_ 2 true;;
  has_ 3 true;;
  has_ 4 true.

(** The tests of [key_package_registry.rs] pass on the model. *)
Lemma key_package_tests_pass : all_pass
  (map (fun t => run_test t new)
     [store_and_take; take_nonexistent_returns_none; store_overwrites_previous; clone_shares_state]
   ++ [run_test with_capacity_ (with_capacity 5); run_test eviction_when_full (with_capacity 2);
       run_test overwrite_does_not_evict (with_capacity 2);
       run_test lru_order_correct (with_capacity 3)]) = true.
Proof. vm_compute. reflexivity. Qed.

End KeyPackageTests.

(** ** [registry.rs] *)

Module RegistryTests.
Import ConnectionRegistry.

Abbreviation reg := (test ConnectionRegistry.t).
Definition returns (f : t -> t * bool) (b : bool) : reg unit := x ← call f; check_eq x b.
Definition register (id : N) (info : SessionInfo.t) : reg unit :=
  call (register_session id info);; mret tt.
Definition subscribe_ (id room_id : N) : reg unit := call (subscribe id room_id);; mret tt.
Definition expects {A} `{EqDecision A} (f : t -> A) (a : A) : reg unit := x ← query f; check_eq x a.
Definition session_of (user_id : N) (o : option N) : reg unit :=
  expects (fun g => session_id_for_user g user_id) o.
Definition contains {S} (x : N) (l : list N) : test S unit := check (bool_decide (x ∈ l)).
Definition room_id : N := 0x1234567890abcdef1234567890abcdef.
Definition room1 : N := 0x11111111111111111111111111111111.
Definition room2 : N := 0x22222222222222222222222222222222.

Definition register_and_lookup_session : reg unit :=
  returns (register_session 1 SessionInfo.new) true;;
  expects (fun g => has_session g 1) true;;
  expects (fun g => has_session g 2) false;;
  o ← query (fun g => session_info g 1); info ← some o;
  check_eq (SessionInfo.authenticated info) false;;
  check_eq (SessionInfo.user_id info) None.

Definition register_duplicate_session_fails : reg unit :=
  returns (register_session 1 SessionInfo.new) true;;
  returns (register_session 1 SessionInfo.new) false.

Definition unregister_session_returns_info : reg unit :=
  register 1 (SessionInfo.authenticated_as 42);;
  o ← call (unregister_session 1); x ← some o;
  let '(info, rooms) := x in
  check_eq (SessionInfo.authenticated info) true;;
  check_eq (SessionInfo.user_id info) (Some 42);;
  check_eq (size rooms) 0%nat;;
  expects (fun g => has_session g 1) false.

Definition subscribe_and_lookup : reg unit :=
  register 1 SessionInfo.new;;
  register 2 SessionInfo.new;;
  returns (subscribe 1 room_id) true;;
  returns (subscribe 2 room_id) true;;
  expects (fun g => is_subscribed g 1 room_id) true;;
  expects (fun g => is_subscribed g 2 room_id) true;;
  sessions ← query (fun g => sessions_in_room g room_id);
  check_eq (len sessions) 2;;
  contains 1 sessions;;
  contains 2 sessions.

Definition subscribe_unregistered_session_fails : reg unit := returns (subscribe 999 room_id) false.

Definition unsubscribe_removes_from_both_maps : reg unit :=
  register 1 SessionInfo.new;;
  subscribe_ 1 room_id;;
  returns (unsubscribe 1 room_id) true;;
  expects (fun g => is_subscribed g 1 room_id) false;;
  expects (fun g => sessions_in_room g room_id) [];;
  expects (fun g => rooms_for_session g 1) [].

Definition unregister_session_removes_all_subscriptions : reg unit :=
  register 1 SessionInfo.new;;
  register 2 SessionInfo.new;;
  subscribe_ 1 room1;;
  subscribe_ 1 room2;;
  subscribe_ 2 room1;;
  o ← call (unregister_session 1); x ← some o;
  let '(_, rooms) := x in
  check_eq (size rooms) 2%nat;;
  contains room1 (elements rooms);;
  contains room2 (elements rooms);;
  expects (fun g => sessions_in_room g room1) [2];;
  expects (fun g => room_session_count g room2) 0.

Definition rooms_for_session_ : reg unit :=
  register 1 SessionInfo.new;;
  subscribe_ 1 room1;;
  subscribe_ 1 room2;;
  rooms ← query (fun g => rooms_for_session g 1);
  check_eq (len rooms) 2;;
  contains room1 rooms;;
  contains room2 rooms.

Definition session_count_ : reg unit :=
  expects session_count 0;;
  register 1 SessionInfo.new;;
  expects session_count 1;;
  register 2 SessionInfo.new;;
  expects session_count 2;;
  call (unregister_session 1);;
  expects session_count 1.

Definition update_session_info_ : reg unit :=
  register 1 SessionInfo.new;;
  call (update_session_info 1 (SessionInfo.authenticated_as 42));;
  o ← query (fun g => session_info g 1); info ← some o;
  check_eq (SessionInfo.authenticated info) true;;
  check_eq (SessionInfo.user_id info) (Some 42).

Definition session_id_for_user_finds_authenticated_session : reg unit :=
  register 200 SessionInfo.new;;
  register 300 (SessionInfo.authenticated_as 99);;
  call (update_session_info 200 (SessionInfo.authenticated_as 42));;
  session_of 42 (Some 200);;
  session_of 99 (Some 300);;
  session_of 999 None.

Definition one_session_per_user_enforcement : reg unit :=
  returns (register_session 1 (SessionInfo.authenticated_as 42)) true;;
  session_of 42 (Some 1);;
  returns (register_session 2 (SessionInfo.authenticated_as 42)) false;;
  session_of 42 (Some 1);;
  returns (register_session 3 (SessionInfo.authenticated_as 99)) true;;
  session_of 99 (Some 3).

Definition update_session_info_handles_user_conflicts : reg unit :=
  register 1 (SessionInfo.authenticated_as 42);;
  register 2 (SessionInfo.authenticated_as 99);;
  returns (update_session_info 2 (SessionInfo.authenticated_as 42)) false;;
  session_of 42 (Some 1);;
  session_of 99 (Some 2);;
  returns (update_session_info 2 (SessionInfo.authenticated_as 100)) true;;
  session_of 100 (Some 2);;
  session_of 99 None.

Definition unregister_session_cleans_up_reverse_index : reg unit :=
  register 1 (SessionInfo.authenticated_as 42);;
  session_of 42 (Some 1);;
  o ← call (unregister_session 1); x ← some o;
  let '(info, rooms) := x in
  check_eq (SessionInfo.user_id info) (Some 42);;
  session_of 42 None;;
  check_eq (size rooms) 0%nat.

(** The tests of [registry.rs] pass on the model. *)
Lemma registry_tests_pass : all_pass (map (fun t => run_test t new)
  [register_and_lookup_session; register_duplicate_session_fails; unregister_session_returns_info;
   subscribe_and_lookup; subscribe_unregistered_session_fails; unsubscribe_removes_from_both_maps;
   unregister_session_removes_all_subscriptions; rooms_for_session_; session_count_;
   update_session_info_; session_id_for_user_finds_authenticated_session;
   one_session_per_user_enforcement; update_session_info_handles_user_conflicts;
   unregister_session_cleans_up_reverse_index]) = true.
Proof. vm_compute. reflexivity. Qed.

End RegistryTests.

(** ** [driver.rs]

    The tests pass for every random generator and every CBOR codec. *)

Module DriverTests.
#[local] Existing Instance MockEnv.mock_environment.

Section tests.
Context {R : Type} `{!SeededRng R} {ciborium : Ciborium} (entropy : R).

Abbreviation driver := (ServerDriver.t (MockEnv.t (R := R)) MemoryStorage.t).
Abbreviation drv := (test driver).

Definition server (config : ServerConfig) : driver :=
  ServerDriver.new (MockEnv.with_crypto_rng entropy) MemoryStorage.new config.
Definition accept (session_id : N) : drv (list ServerAction) :=
  unwrap (ServerDriver.process_event (ConnectionAccepted session_id)).
Definition authenticate (session_id user_id : N) : drv bool :=
  unwrap (ServerDriver.registry_call
            (ConnectionRegistry.update_session_info session_id (SessionInfo.authenticated_as user_id))).
Definition on_storage {A} (c : storeM MemoryStorage.t A) : M driver StorageError.t A := fun d =>
  let '(st', r) := c (ServerDriver.storage d) in (ServerDriver.with_storage st' d, r).
Definition expects {A} `{EqDecision A} (f : driver -> A) (a : A) : drv unit :=
  x ← query f; check_eq x a.
Definition connections (n : N) : drv unit := expects ServerDriver.connection_count n.
Definition room_id : N := 0x1234567890abcdef1234567890abcdef.
Definition sessions_in_room : drv (list N) := query (fun d => ServerDriver.sessions_in_room d room_id).

Definition logged (level : LogLevel) (a : ServerAction) : bool :=
  match a, level with
  | Log LDebug _ _, LDebug | Log LInfo _ _, LInfo => true
  | _, _ => false
  end.

Definition server_accepts_connection : drv unit :=
  actions ← accept 1;
  connections 1;;
  a ← index actions 0; check (logged LDebug a).

(** Over the configuration with two connections. *)
Definition server_rejects_when_max_connections_exceeded : drv unit :=
  accept 1;;
  accept 2;;
  actions ← accept 3;
  connections 2;;
  a ← index actions 0; check (match a with CloseConnection _ _ => true | _ => false end).

Definition server_handles_connection_closed : drv unit :=
  accept 1;;
  connections 1;;
  unwrap (ServerDriver.process_event (ConnectionClosed 1 "client disconnect"));;
  connections 0.

Definition server_creates_room : drv unit :=
  accept 1;;
  actions ← unwrap (ServerDriver.create_room room_id 1);
  expects (fun d => ServerDriver.has_room d room_id) true;;
  a ← index actions 0; check (logged LInfo a);;
  sessions ← sessions_in_room; check_eq sessions [1].

Definition server_create_room_fails_for_unknown_session : drv unit :=
  result ← attempt (ServerDriver.create_room room_id 999);
  check (match result with Err (ServerError.SessionNotFound id) => id =? 999 | _ => false end).

Definition server_subscribe_and_unsubscribe : drv unit :=
  accept 1;;
  accept 2;;
  unwrap (ServerDriver.create_room room_id 1);;
  b ← unwrap (ServerDriver.subscribe_to_room 2 room_id); check b;;
  sessions ← sessions_in_room; check_eq (len sessions) 2;;
  b ← unwrap (ServerDriver.unsubscribe_from_room 2 room_id); check b;;
  sessions ← sessions_in_room; check_eq (len sessions) 1.

Definition welcome_frame_subscribes_receiver_to_room : drv unit :=
  let user_id_1 := 1001 in
  let user_id_2 := 2002 in
  accept 1;;
  accept 2;;
  authenticate 1 user_id_1;;
  authenticate 2 user_id_2;;
  unwrap (ServerDriver.create_room room_id 1);;
  sessions ← sessions_in_room; check_eq sessions [1];;
  let header := FrameHeader.set_sender_id user_id_1 (FrameHeader.set_recipient_id user_id_2
    (FrameHeader.set_room_id room_id (FrameHeader.new Opcode.Welcome))) in
  welcome_frame ← lift (Frame.new header (str "fake welcome"));
  attempt (ServerDriver.process_event (FrameReceived 1 welcome_frame));;
  sessions ← sessions_in_room;
  check_eq (len sessions) 2;;
  RegistryTests.contains 1 sessions;;
  RegistryTests.contains 2 sessions.

(** A room of three frames in storage. *)
Definition log_frame (room_id sender_id log_index : N) (payload : bytes) : drv Frame.t :=
  lift (Frame.new (FrameHeader.set_log_index log_index (FrameHeader.set_sender_id sender_id
    (FrameHeader.set_room_id room_id (FrameHeader.new Opcode.AppMessage)))) payload).
Definition populate (room_id creator : N) : drv unit :=
  unwrap (on_storage (create_room room_id (mkStoredRoomMetadata creator 0)));;
  for_range 0 3 (fun i =>
    frame ← log_frame room_id creator i [];
    unwrap (on_storage (store_frame room_id i frame))).

Definition server_driver_recovery : drv unit :=
  for_each [100; 200; 300] (fun room_id => populate room_id room_id);;
  count ← unwrap ServerDriver.recover_from_storage;
  check_eq count 3;;
  for_each [100; 200; 300] (fun room_id =>
    expects (fun d => RoomManager.has_room (ServerDriver.room_manager d) room_id) true).

Definition server_driver_recovery_empty_storage : drv unit :=
  count ← unwrap ServerDriver.recover_from_storage; check_eq count 0.

Definition server_driver_recovery_processes_frames_after : drv unit :=
  let room_id := 100 in
  let sender_id := 42 in
  populate room_id sender_id;;
  unwrap ServerDriver.recover_from_storage;;
  accept 1;;
  authenticate 1 sender_id;;
  unwrap (ServerDriver.subscribe_to_room 1 room_id);;
  frame ← log_frame room_id sender_id 3 (str "new message");
  unwrap (ServerDriver.process_event (FrameReceived 1 frame));;
  stored_frames ← unwrap (on_storage (load_frames room_id 3 1));
  check_eq (len stored_frames) 1;;
  f ← index stored_frames 0; check_eq f frame.

(** The tests of [driver.rs] pass on the model. *)
Lemma driver_tests_pass : all_pass
  (run_test server_rejects_when_max_connections_exceeded
     (server (mkServerConfig default_connection_config 2)) ::
   map (fun t => run_test t (server default_server_config))
     [server_accepts_connection; server_handles_connection_closed; server_creates_room;
      server_create_room_fails_for_unknown_session; server_subscribe_and_unsubscribe;
      welcome_frame_subscribes_receiver_to_room; server_driver_recovery;
      server_driver_recovery_empty_storage; server_driver_recovery_processes_frames_after]) = true.
Proof. vm_compute. reflexivity. Qed.

End tests.
End DriverTests.
