(* ===== verification/ServerTransport.v ===== *)
(** * The server's transport

    [lockframe-server/src/transport.rs], the errors of [error.rs] and the start of
    the server in [lib.rs] and [main.rs]: the TLS configuration from files or with
    a certificate of its own, the endpoint, and the loop that accepts
    connections.  Files, PEM, certificate generation and quinn's endpoint are the
    class [ServerQuic]. *)

From S2P Require Import Prelude Env Opcodes Header Framing Tls ClientTransport Payloads Connection.
From S2P Require Import Storage Driver.

Local Open Scope N_scope.

(** ** Errors of [error.rs] *)

Module RuntimeError.

Inductive t :=
  | Config (msg : string)
  | Transport (msg : string)
  | Protocol (msg : string)
  | Internal (msg : string)
  | Driver (err : ServerError.t).

Definition display (e : t) : string :=
  match e with
  | Config msg => "configuration error: " +:+ msg
  | Transport msg => "transport error: " +:+ msg
  | Protocol msg => "protocol error: " +:+ msg
  | Internal msg => "internal error: " +:+ msg
  | Driver err => "driver error: " +:+ ServerError.display err
  end.

Definition source (e : t) : option ServerError.t :=
  match e with Driver err => Some err | _ => None end.

(** [From<DriverError>] and [From<io::Error>], the latter by its message. *)
Definition from_driver (err : ServerError.t) : t := Driver err.
Definition from_io (err : string) : t := Transport err.

End RuntimeError.

(** ** Settings *)

Record ServerRuntimeConfig := mkServerRuntimeConfig {
  bind_address : string;
  cert_path : option string;
  key_path : option string;
  rc_driver : ServerConfig }.

Definition default_runtime_config : ServerRuntimeConfig :=
  mkServerRuntimeConfig "0.0.0.0:4433" None None default_server_config.

(** The arguments of the binary and the settings [main] makes of them. *)
Record Args := mkArgs {
  arg_bind : string;
  arg_cert : option string;
  arg_key : option string;
  arg_max_connections : N;
  arg_log_level : string }.

Definition runtime_config_of (args : Args) : ServerRuntimeConfig :=
  mkServerRuntimeConfig (arg_bind args) (arg_cert args) (arg_key args)
    (mkServerConfig (sc_connection default_server_config) (arg_max_connections args)).

(** Whether [main] warns that no certificate is given. *)
Definition warns_self_signed (args : Args) : bool :=
  bool_decide (arg_cert args = None) || bool_decide (arg_key args = None).

(** ** TLS *)

Section tls_server.
Context {rustls : Rustls}.

(** [quinn::ServerConfig]. *)
Record ServerTls := mkServerTls {
  st_certs : list Certificate;
  st_key : PrivateKey;
  st_client_auth : bool;
  st_alpn_protocols : list bytes }.

Class ServerQuic (Q : Type) := {
  ServerEndpoint : Type;
  Incoming : Type;
  ServerConnection : Type;
  read_file : string -> Q -> Q * res string bytes;
  pem_certs : bytes -> res string (list Certificate);
  pem_private_key : bytes -> res string (option PrivateKey);
  generate_simple_self_signed : list string -> Q -> Q * res string (Certificate * PrivateKey);
  quic_server_unfit : option string;
  endpoint_server : ServerTls -> SocketAddr -> Q -> Q * res string ServerEndpoint;
  endpoint_accept : ServerEndpoint -> Q -> Q * option Incoming;
  incoming_handshake : Incoming -> Q -> Q * res string ServerConnection;
  endpoint_local_addr : ServerEndpoint -> res string SocketAddr;
}.

Section server.
Context {Q : Type} `{!ServerQuic Q}.

(** A call whose error becomes one of [ServerError]. *)
Definition io {A} (err : string -> RuntimeError.t) (context : string) (m : Q -> Q * res string A)
    : M Q RuntimeError.t A := fun q =>
  let '(q', r) := m q in (q', map_err (fun e => err (context +:+ e)) r).

Definition config_err {A} (context : string) (r : res string A) : M Q RuntimeError.t A :=
  lift (map_err (fun e => RuntimeError.Config (context +:+ e)) r).

(** [with_no_client_auth().with_single_cert(..)], the protocol, and the
    conversion for QUIC. *)
Definition server_tls (certs : list Certificate) (key : PrivateKey) : M Q RuntimeError.t ServerTls :=
  match single_cert certs key with
  | Some e => throw (RuntimeError.Config ("invalid TLS config: " +:+ e))
  | None =>
      match quic_server_unfit with
      | Some e => throw (RuntimeError.Config ("QUIC config error: " +:+ e))
      | None => mret (mkServerTls certs key false [ALPN_PROTOCOL])
      end
  end.

Definition load_tls_config (cert_path key_path : string) : M Q RuntimeError.t ServerTls :=
  cert_pem ← io RuntimeError.Config ("failed to read cert '" +:+ cert_path +:+ "': ") (read_file cert_path);
  key_pem ← io RuntimeError.Config ("failed to read key '" +:+ key_path +:+ "': ") (read_file key_path);
  certs ← config_err "failed to parse certificates: " (pem_certs cert_pem);
  key ← config_err "failed to parse private key: " (pem_private_key key_pem);
  match key with
  | None => throw (RuntimeError.Config "no private key found")
  | Some key => server_tls certs key
  end.

Definition generate_self_signed_config : M Q RuntimeError.t ServerTls :=
  cert ← io RuntimeError.Config "failed to generate self-signed cert: "
           (generate_simple_self_signed ["localhost"%string]);
  server_tls [fst cert] (snd cert).

(** ** The endpoint *)

Definition server_config (cert_path key_path : option string) : M Q RuntimeError.t ServerTls :=
  match cert_path, key_path with
  | Some cert, Some key => load_tls_config cert key
  | _, _ => generate_self_signed_config
  end.

Definition bind (address : string) (cert_path key_path : option string)
    : M Q RuntimeError.t ServerEndpoint :=
  match AddrParser.parse address with
  | None => throw (RuntimeError.Config ("invalid bind address '" +:+ address
                     +:+ "': invalid socket address syntax"))
  | Some addr =>
      tls ← server_config cert_path key_path;
      io RuntimeError.Transport "failed to create endpoint: " (endpoint_server tls addr)
  end.

Definition accept (ep : ServerEndpoint) : M Q RuntimeError.t ServerConnection := fun q =>
  match endpoint_accept ep q with
  | (q', None) => (q', Err (RuntimeError.Transport "endpoint closed"))
  | (q', Some incoming) => io RuntimeError.Transport "connection failed: " (incoming_handshake incoming) q'
  end.

Definition local_addr (ep : ServerEndpoint) : res RuntimeError.t SocketAddr :=
  map_err (fun e => RuntimeError.Transport ("failed to get local address: " +:+ e)) (endpoint_local_addr ep).

(** [Server::bind]: a driver over an empty memory and the endpoint. *)
Definition server_bind {Env} (env : Env) (cfg : ServerRuntimeConfig)
    : M Q RuntimeError.t (ServerDriver.t Env MemoryStorage.t * ServerEndpoint) :=
  let driver := ServerDriver.new env MemoryStorage.new (rc_driver cfg) in
  ep ← bind (bind_address cfg) (cert_path cfg) (key_path cfg);
  mret (driver, ep).

(** [n] turns of the loop of [Server::run]: a connection to serve, or an error
    that is logged.  The loop has no exit. *)
Fixpoint accept_loop (n : nat) (ep : ServerEndpoint) (q : Q)
    : Q * list (res RuntimeError.t ServerConnection) :=
  match n with
  | O => (q, [])
  | S n' =>
      let '(q1, r) := accept ep q in
      let '(q2, rs) := accept_loop n' ep q1 in (q2, r :: rs)
  end.

(** ** Lemmas *)

Lemma io_Ok {A} err context (m : Q -> Q * res string A) q q' a :
  io err context m q = (q', Ok a) -> m q = (q', Ok a).
Proof. unfold io. destruct (m q) as [q1 [x| |]]; cbn; by intros [= <- <-]. Qed.

Lemma server_tls_Ok certs key q q' tls :
  server_tls certs key q = (q', Ok tls) ->
  tls = mkServerTls certs key false [ALPN_PROTOCOL] /\ single_cert certs key = None.
Proof.
  unfold server_tls. destruct (single_cert certs key); [done|].
  destruct quic_server_unfit; [done|]. by intros [= <- <-].
Qed.

(** The certificates and the key a server has been told to use are those it
    uses; without both it makes one for [localhost]. *)
Definition from_settings (cert_path key_path : option string) (tls : ServerTls) : Prop :=
  match cert_path, key_path with
  | Some cert, Some key => exists q0 q1 q2 cert_pem key_pem,
      read_file cert q0 = (q1, Ok cert_pem) /\ read_file key q1 = (q2, Ok key_pem) /\
      pem_certs cert_pem = Ok (st_certs tls) /\ pem_private_key key_pem = Ok (Some (st_key tls))
  | _, _ => exists q0 q1 c, st_certs tls = [c] /\
      generate_simple_self_signed ["localhost"%string] q0 = (q1, Ok (c, st_key tls))
  end.

Lemma load_tls_Ok cert key q q' tls :
  load_tls_config cert key q = (q', Ok tls) ->
  from_settings (Some cert) (Some key) tls /\ st_client_auth tls = false /\
  st_alpn_protocols tls = [ALPN_PROTOCOL].
Proof.
  unfold load_tls_config. intros (cp & q1 & Hc%io_Ok & H)%bind_Ok.
  apply bind_Ok in H as (kp & q2 & Hk%io_Ok & H).
  apply bind_Ok in H as (certs & q3 & [-> Hcs%map_err_Ok]%lift_Ok & H).
  apply bind_Ok in H as ([k|] & q4 & [-> Hks%map_err_Ok]%lift_Ok & H); [|done].
  apply server_tls_Ok in H as [-> _]. cbn. split_and!; [|done..]. by exists q, q1, q2, cp, kp.
Qed.

Lemma self_signed_Ok q q' tls :
  generate_self_signed_config q = (q', Ok tls) ->
  (exists q0 q1 c, st_certs tls = [c] /\
     generate_simple_self_signed ["localhost"%string] q0 = (q1, Ok (c, st_key tls))) /\
  st_client_auth tls = false /\ st_alpn_protocols tls = [ALPN_PROTOCOL].
Proof.
  unfold generate_self_signed_config. intros ([c k] & q1 & Hg%io_Ok & H)%bind_Ok.
  apply server_tls_Ok in H as [-> _]. cbn. split_and!; [|done..]. by exists q, q1, c.
Qed.

Lemma server_config_Ok cert key q q' tls :
  server_config cert key q = (q', Ok tls) ->
  from_settings cert key tls /\ st_client_auth tls = false /\ st_alpn_protocols tls = [ALPN_PROTOCOL].
Proof. destruct cert, key; cbn; [apply load_tls_Ok|apply self_signed_Ok..]. Qed.

(** ** Properties *)

(** A server that is up listens at its address, with the certificates and the
    key of its settings or, unless both are given, one of its own; it asks for no
    certificate of a client, and every client of this repository, in either mode,
    agrees with it on the protocol; a client that does not verify accepts it. *)
Theorem endpoints_compatible address cert key q q' ep mode cfg :
  bind address cert key q = (q', Ok ep) -> client_config mode = Ok cfg ->
  exists addr tls q1, AddrParser.parse address = Some addr /\
    endpoint_server tls addr q1 = (q', Ok ep) /\ from_settings cert key tls /\
    st_client_auth tls = false /\ cc_client_auth cfg = None /\
    negotiate_alpn (st_alpn_protocols tls) (cc_alpn_protocols cfg) = Some (Some ALPN_PROTOCOL) /\
    (mode = Insecure -> forall name time, st_certs tls <> [] ->
       accepts_server cfg (st_certs tls) name time = true).
Proof.
  unfold bind. destruct (AddrParser.parse address) as [addr|]; [|done].
  intros (tls & q1 & Ht & H%io_Ok)%bind_Ok Hc. exists addr, tls, q1.
  apply server_config_Ok in Ht as (Hs & Ha & Hp). rewrite Hp.
  destruct quic_unfit as [e|] eqn:Hu.
  { destruct mode; cbn in Hc; unfold secure_client_config, insecure_client_config, quic_client_config in Hc;
      by rewrite Hu in Hc. }
  destruct mode; cbn in Hc; [rewrite secure_config_ok in Hc by done|rewrite insecure_config_ok in Hc by done];
    injection Hc as <-; cbn [cc_client_auth cc_alpn_protocols]; rewrite negotiate_same; split_and!; try done.
  intros _ name time Hne. unfold accepts_server. destruct (st_certs tls); [done|]. by rewrite bool_decide_eq_true_2.
Qed.

(** A certificate without a key, or a key without a certificate, is ignored. *)
Theorem half_given_ignored address cert key q :
  cert = None \/ key = None -> bind address cert key q = bind address None None q.
Proof. unfold bind, server_config. by intros [-> | ->]; destruct (AddrParser.parse address), cert || destruct key. Qed.

(** Once its endpoint is closed, the server's loop goes on without end and only
    logs errors. *)
Theorem closed_endpoint_spins ep n q :
  (forall q, endpoint_accept ep q = (q, None)) ->
  accept_loop n ep q = (q, replicate n (Err (RuntimeError.Transport "endpoint closed"))).
Proof.
  intros H. induction n as [|n IH]; [done|]. cbn [accept_loop replicate]. unfold accept. by rewrite H, IH.
Qed.

End server.
End tls_server.
