(* ===== verification/Runtime.v ===== *)
(** * The server's runtime

    [lockframe-server/src/lib.rs]: the tasks that serve the connections and
    their streams, the shared maps, and the execution of the driver's actions.
    The tasks run concurrently; between two steps of a task others may run.
    A task calls the driver under its mutex and executes the answer after the
    mutex is released, so a step is a driver call, the update of a map under its
    lock, or one write to an outbound stream.  The maps of the streams are
    changed only while no task holds their read lock, that is while none is
    between two writes of an action.  Frames come decoded from the streams
    ([Framing.Stream]); tracing, TLS and accept errors have no effect on the
    state, and a driver call that panics stops the process.  A failed write may
    leave a prefix of a frame on a broken stream; the model keeps the frames
    that are on a stream whole. *)

From S2P Require Import Prelude Env Opcodes Header Framing Payloads Connection Validator.
From S2P Require Import Storage Sequencer Registry KeyPackages RoomManager Driver DriverInv.
From S2P Require Import Delivery.

Local Open Scope N_scope.

Module Runtime.
Import ServerDriver DriverInvariant Delivery.

(** A part of [execute_actions] that is still to be done: an action, or one
    write of an encoded frame to a session's stream. *)
Inductive work :=
  | WAction (a : ServerAction)
  | WWrite (session_id : N) (frame : Frame.t).

(** Where a task is. *)
Inductive task :=
  (* [handle_connection] *)
  | ConnStart (session_id : N)
  | ConnMapped (session_id : N)
  | ConnStreaming (session_id : N)
  | ConnGreeting (session_id : N) (todo : list work)
  | ConnServing (session_id : N)
  | ConnUnmapped (session_id : N)
  | ConnDropped (session_id : N)
  | ConnClosing (todo : list work)
  (* [handle_stream] *)
  | StreamReading (session_id : N)
  | StreamActing (session_id : N) (todo : list work)
  | Done.

(** The actions a task is executing. *)
Definition todo_of (t : task) : list work :=
  match t with
  | ConnGreeting _ todo | ConnClosing todo | StreamActing _ todo => todo
  | _ => []
  end.

(** What the scheduler and the outside decide at a step of a task. *)
Inductive choice :=
  | CGo
  (* a stream accepted, or the connection lost *)
  | CSpawn
  | CLost
  (* a frame read, or the stream at its end *)
  | CFrame (frame : Frame.t)
  | CEnd
  (* whether a write succeeds *)
  | CWrite (ok : bool).

Inductive label :=
  | LAccept (session_id : N)
  | LTask (i : nat) (c : choice).

(** The session ids are eight random bytes; the frames of a label are
    well-formed, as [Frame::decode] returns them. *)
Definition label_ok (l : label) : Prop :=
  match l with
  | LAccept s => s < 2 ^ 64
  | LTask _ (CFrame f) => Frame.wf f
  | _ => True
  end.

(** The sessions an action addresses, with the frame. *)
Definition addressed_by (a : ServerAction) : list (N * Frame.t) :=
  match a with
  | SendToSession s f => [(s, f)]
  | Broadcast ids f => map (fun s => (s, f)) ids
  | _ => []
  end.

Section runtime.
Context {Env : Type} `{!Environment Env} {ciborium : Ciborium}.

(** The driver behind its mutex, [SharedState] (of a stream, the frames written
    to it), and the tasks. *)
Record rt := mk {
  rt_driver : ServerDriver.t Env MemoryStorage.t;
  rt_connections : gset N;
  rt_outbound : gmap N (list Frame.t);
  rt_tasks : list task }.

Definition start (env : Env) (cfg : ServerConfig) : rt :=
  mk (new env MemoryStorage.new cfg) ∅ ∅ [].

Definition set_task (i : nat) (t : task) (r : rt) : rt :=
  mk (rt_driver r) (rt_connections r) (rt_outbound r) (<[i := t]> (rt_tasks r)).

Definition spawn (t : task) (r : rt) : rt :=
  mk (rt_driver r) (rt_connections r) (rt_outbound r) (rt_tasks r ++ [t]).

Definition with_connections (cs : gset N) (r : rt) : rt :=
  mk (rt_driver r) cs (rt_outbound r) (rt_tasks r).

Definition with_outbound (out : gmap N (list Frame.t)) (r : rt) : rt :=
  mk (rt_driver r) (rt_connections r) out (rt_tasks r).

(** A driver call of task [i]: [acting todo] is where the task goes on with
    the answer, [failed] where it goes on after an error. *)
Definition call (i : nat) (ev : ServerEvent) (acting : list work -> task) (failed : task) (r : rt)
    : option rt :=
  let '(d', answer) := process_event ev (rt_driver r) in
  match answer with
  | Ok acts =>
      Some (mk d' (rt_connections r) (rt_outbound r)
              (<[i := acting (map WAction acts)]> (rt_tasks r)))
  | Err _ =>
      Some (mk d' (rt_connections r) (rt_outbound r) (<[i := failed]> (rt_tasks r)))
  | Panic => None
  end.

(** One step of [execute_actions] at the head [w] of the work; [acting rest] is
    where the task goes on.  A frame that cannot be encoded ends the task. *)
Definition do_work (i : nat) (w : work) (rest : list work) (acting : list work -> task) (ok : bool)
    (r : rt) : rt :=
  match w with
  | WAction (SendToSession s f) =>
      match Frame.encode f [] with
      | Ok _ => set_task i (acting (WWrite s f :: rest)) r
      | _ => set_task i Done r
      end
  | WAction (Broadcast ids f) =>
      match Frame.encode f [] with
      | Ok _ => set_task i (acting (map (fun s => WWrite s f) ids ++ rest)) r
      | _ => set_task i Done r
      end
  | WAction (CloseConnection s _) =>
      set_task i (acting rest) (with_connections (rt_connections r ∖ {[ s ]}) r)
  | WAction (Log _ _ _) => set_task i (acting rest) r
  | WWrite s f =>
      set_task i (acting rest)
        (match rt_outbound r !! s with
         | Some l => if ok then with_outbound (<[s := l ++ [f]]> (rt_outbound r)) r else r
         | None => r
         end)
  end.

(** No task holds the read lock of the streams. *)
Definition streams_free (r : rt) : bool :=
  forallb (fun t => match todo_of t with WWrite _ _ :: _ => false | _ => true end) (rt_tasks r).

Definition task_step (i : nat) (t : task) (c : choice) (r : rt) : option rt :=
  match t, c with
  | ConnStart s, CGo =>
      Some (set_task i (ConnMapped s) (with_connections ({[ s ]} ∪ rt_connections r) r))
  | ConnMapped s, CGo =>
      if streams_free r
      then Some (set_task i (ConnStreaming s) (with_outbound (<[s := []]> (rt_outbound r)) r))
      else None
  | ConnStreaming s, CGo => call i (ConnectionAccepted s) (ConnGreeting s) Done r
  | ConnGreeting s [], CGo => Some (set_task i (ConnServing s) r)
  | ConnGreeting s (w :: rest), CWrite ok => Some (do_work i w rest (ConnGreeting s) ok r)
  | ConnServing s, CSpawn => Some (spawn (StreamReading s) r)
  | ConnServing s, CLost =>
      Some (set_task i (ConnUnmapped s) (with_connections (rt_connections r ∖ {[ s ]}) r))
  | ConnUnmapped s, CGo =>
      if streams_free r
      then Some (set_task i (ConnDropped s) (with_outbound (delete s (rt_outbound r)) r))
      else None
  | ConnDropped s, CGo => call i (ConnectionClosed s "connection closed") ConnClosing Done r
  | ConnClosing [], CGo => Some (set_task i Done r)
  | ConnClosing (w :: rest), CWrite ok => Some (do_work i w rest ConnClosing ok r)
  | StreamReading s, CFrame f => call i (FrameReceived s f) (StreamActing s) (StreamReading s) r
  | StreamReading s, CEnd => Some (set_task i Done r)
  | StreamActing s [], CGo => Some (set_task i (StreamReading s) r)
  | StreamActing s (w :: rest), CWrite ok => Some (do_work i w rest (StreamActing s) ok r)
  | _, _ => None
  end.

Definition exec_step (l : label) (r : rt) : option rt :=
  match l with
  | LAccept s => Some (spawn (ConnStart s) r)
  | LTask i c => t ← rt_tasks r !! i; task_step i t c r
  end.

Definition step (r r' : rt) : Prop := exists l, label_ok l /\ exec_step l r = Some r'.

Fixpoint exec_steps (ls : list label) (r : rt) : option rt :=
  match ls with
  | [] => Some r
  | l :: ls' => r' ← exec_step l r; exec_steps ls' r'
  end.

(** ** Lemmas *)

Definition work_addressed (w : work) : list (N * Frame.t) :=
  match w with WAction a => addressed_by a | WWrite s f => [(s, f)] end.

(** What the tasks are still going to write, and what is on the streams. *)
Definition pending (ts : list task) : list (N * Frame.t) :=
  concat (map (fun t => concat (map work_addressed (todo_of t))) ts).

Definition written (out : gmap N (list Frame.t)) : list (N * Frame.t) :=
  concat (map (fun '(s, l) => map (fun f => (s, f)) l) (map_to_list out)).

(** What the answers of a serial run address, in the order of the calls. *)
Definition addressed (answers : list (res ServerError.t (list ServerAction))) : list (N * Frame.t) :=
  concat (map (fun a => match a with Ok acts => concat (map addressed_by acts) | _ => [] end) answers).

Lemma pending_insert ts i t t' :
  ts !! i = Some t ->
  exists rest, pending ts ≡ₚ concat (map work_addressed (todo_of t)) ++ rest /\
    pending (<[i := t']> ts) ≡ₚ concat (map work_addressed (todo_of t')) ++ rest.
Proof.
  intros Hi. exists (pending (take i ts ++ drop (S i) ts)). unfold pending.
  rewrite (insert_take_drop ts i t') by (by apply lookup_lt_Some in Hi).
  rewrite <- (take_drop_middle ts i t Hi) at 1. rewrite !map_app, !concat_app. cbn [map concat].
  split; rewrite !app_assoc; apply Permutation_app_tail; apply Permutation_app_comm.
Qed.

Lemma written_insert out s l :
  written (<[s := l]> out) ≡ₚ map (fun f => (s, f)) l ++ written (delete s out).
Proof.
  unfold written. rewrite <- insert_delete_eq.
  rewrite (map_to_list_insert (delete s out) s l) by apply lookup_delete_eq. done.
Qed.

Lemma written_delete out s l :
  out !! s = Some l -> written out ≡ₚ map (fun f => (s, f)) l ++ written (delete s out).
Proof. intros Hs. rewrite <- (insert_id out s l Hs) at 1. apply written_insert. Qed.

(** The frames on the streams and on their way to them. *)
Definition traffic (out : gmap N (list Frame.t)) (ts : list task) : list (N * Frame.t) :=
  written out ++ pending ts.

Definition todo_addressed (t : task) : list (N * Frame.t) :=
  concat (map work_addressed (todo_of t)).

Lemma traffic_task out out' ts i t t' extra :
  ts !! i = Some t ->
  written out' ++ todo_addressed t' ⊆+ written out ++ todo_addressed t ++ extra ->
  traffic out' (<[i := t']> ts) ⊆+ traffic out ts ++ extra.
Proof.
  intros Hi Hsub. destruct (pending_insert ts i t t' Hi) as (rest & H1 & H2).
  unfold traffic. rewrite H1, H2. fold (todo_addressed t) (todo_addressed t').
  trans ((written out ++ todo_addressed t ++ extra) ++ rest).
  - rewrite (assoc_L (++)). by apply submseteq_app.
  - apply Permutation_submseteq. rewrite <- !(assoc_L (++)).
    do 2 apply Permutation_app_head. apply Permutation_app_comm.
Qed.

Lemma written_smaller out s : written (delete s out) ⊆+ written out.
Proof.
  destruct (out !! s) as [l|] eqn:Hs.
  - rewrite (written_delete out s l Hs). by apply submseteq_inserts_l.
  - by rewrite delete_id.
Qed.

Lemma written_reset out s : written (<[s := []]> out) ⊆+ written out.
Proof. rewrite written_insert. apply written_smaller. Qed.

Lemma written_append out s l f :
  out !! s = Some l -> written (<[s := l ++ [f]]> out) ≡ₚ written out ++ [(s, f)].
Proof.
  intros Hs. rewrite written_insert, (written_delete out s l Hs), map_app.
  rewrite <- !(assoc_L (++)). apply Permutation_app_head, Permutation_app_comm.
Qed.

Lemma writes_addressed ids f rest :
  concat (map work_addressed (map (fun s => WWrite s f) ids ++ rest))
  = map (fun s => (s, f)) ids ++ concat (map work_addressed rest).
Proof. induction ids as [|s ids IH]; cbn; [done|by rewrite IH]. Qed.

Lemma actions_addressed acts :
  concat (map work_addressed (map WAction acts)) = concat (map addressed_by acts).
Proof. by rewrite map_map. Qed.

(** One step of [execute_actions] moves frames to the streams or drops them. *)
Lemma do_work_traffic i t w rest acting ok r :
  rt_tasks r !! i = Some t -> todo_of t = w :: rest -> (forall todo, todo_of (acting todo) = todo) ->
  let r' := do_work i w rest acting ok r in
  rt_driver r' = rt_driver r /\
  traffic (rt_outbound r') (rt_tasks r') ⊆+ traffic (rt_outbound r) (rt_tasks r).
Proof.
  intros Hi Ht Ha r'.
  assert (Hsub : forall out' t',
    written out' ++ todo_addressed t' ⊆+ written (rt_outbound r) ++ concat (map work_addressed (w :: rest)) ->
    traffic out' (<[i := t']> (rt_tasks r)) ⊆+ traffic (rt_outbound r) (rt_tasks r)).
  { intros out' t' H. rewrite <- (app_nil_r (traffic _ (rt_tasks r))). apply (traffic_task _ _ _ _ t); [done|].
    unfold todo_addressed at 2. by rewrite app_nil_r, Ht. }
  subst r'. destruct w as [[s f|ids f|s reason|lv m t0]|s f]; cbn [do_work].
  - destruct (Frame.encode f []); (split; [done|]); apply Hsub; unfold todo_addressed; rewrite ?Ha; try done.
    all: apply submseteq_app; [done|apply submseteq_nil_l].
  - destruct (Frame.encode f []); (split; [done|]); apply Hsub; unfold todo_addressed; rewrite ?Ha.
    all: try by rewrite writes_addressed.
    all: apply submseteq_app; [done|apply submseteq_nil_l].
  - split; [done|]. apply Hsub. unfold todo_addressed. by rewrite Ha.
  - split; [done|]. apply Hsub. unfold todo_addressed. by rewrite Ha.
  - split; [by repeat case_match|]. destruct (rt_outbound r !! s) as [l|] eqn:Hs; [destruct ok|].
    all: apply Hsub; unfold todo_addressed; rewrite Ha; cbn [rt_outbound set_task with_outbound map concat work_addressed].
    + by rewrite (written_append _ _ _ _ Hs), <- (assoc_L (++)).
    + apply submseteq_app; [done|]. by apply submseteq_inserts_l.
    + apply submseteq_app; [done|]. by apply submseteq_inserts_l.
Qed.

(** What a step does to the driver and to the traffic: nothing new, or the
    answer of one driver call. *)
Definition evolves (r r' : rt) : Prop :=
  (rt_driver r' = rt_driver r /\
   traffic (rt_outbound r') (rt_tasks r') ⊆+ traffic (rt_outbound r) (rt_tasks r)) \/
  (exists ev answer, op_typed (DEvent ev) /\
     process_event ev (rt_driver r) = (rt_driver r', answer) /\
     traffic (rt_outbound r') (rt_tasks r')
     ⊆+ traffic (rt_outbound r) (rt_tasks r) ++ addressed [answer]).

Lemma evolves_task i t t' out cs r :
  rt_tasks r !! i = Some t -> todo_of t' = [] -> written out ⊆+ written (rt_outbound r) ->
  evolves r (mk (rt_driver r) cs out (<[i := t']> (rt_tasks r))).
Proof.
  intros Hi Ht' Hout. left. split; [done|]. cbn [rt_outbound rt_tasks].
  rewrite <- (app_nil_r (traffic (rt_outbound r) _)). apply (traffic_task _ _ _ _ t); [done|].
  unfold todo_addressed at 1. rewrite Ht'. apply submseteq_app; [done|apply submseteq_nil_l].
Qed.

Lemma evolves_spawn t r : todo_of t = [] -> evolves r (spawn t r).
Proof.
  intros Ht. left. split; [done|]. unfold traffic, spawn, pending. cbn [rt_outbound rt_tasks].
  rewrite map_app, concat_app. cbn. by rewrite Ht, !app_nil_r.
Qed.

Lemma evolves_call i t ev acting failed r r' :
  op_typed (DEvent ev) -> rt_tasks r !! i = Some t ->
  (forall todo, todo_of (acting todo) = todo) -> todo_of failed = [] ->
  call i ev acting failed r = Some r' -> evolves r r'.
Proof.
  intros Hev Hi Ha Hf Hcall. unfold call in Hcall.
  destruct (process_event ev (rt_driver r)) as [d' answer] eqn:Hp. right. exists ev, answer.
  destruct answer as [acts|e|]; simplify_eq; (split_and!; [done|done|]); cbn [rt_outbound rt_tasks];
    apply (traffic_task _ _ _ _ t _ _ Hi), submseteq_app; try done; unfold todo_addressed at 1.
  - rewrite Ha, actions_addressed. unfold addressed. cbn. rewrite app_nil_r. by apply submseteq_inserts_l.
  - rewrite Hf. apply submseteq_nil_l.
Qed.

Lemma exec_step_evolves l r r' : label_ok l -> exec_step l r = Some r' -> evolves r r'.
Proof.
  intros Hl Hx. destruct l as [s|i c]; cbn [exec_step] in Hx; [simplify_eq; by apply evolves_spawn|].
  destruct (rt_tasks r !! i) as [t|] eqn:Hi; [|done]. cbn in Hx.
  destruct t as [s|s|s|s [|w rest]|s|s|s|[|w rest]|s|s [|w rest]|], c; cbn [task_step] in Hx; try done.
  all: try (case_match; [|done]).
  all: try (by eapply evolves_call; [| | | |exact Hx]).
  all: simplify_eq; try (by apply evolves_spawn).
  all: try (left; by apply (do_work_traffic _ _ _ _ _ _ _ Hi)).
  all: unfold set_task, with_connections, with_outbound;
    cbn [rt_driver rt_connections rt_outbound rt_tasks]; eapply evolves_task; [exact Hi|done|].
  all: first [done|apply written_reset|apply written_smaller].
Qed.

Lemma exec_all_snoc ops o (d : ServerDriver.t Env MemoryStorage.t) :
  exec_all (ops ++ [o]) d
  = (fst (exec_op o (fst (exec_all ops d))),
     snd (exec_all ops d) ++ [snd (exec_op o (fst (exec_all ops d)))]).
Proof.
  revert d. induction ops as [|o' ops IH]; intros d; cbn [exec_all app].
  - cbn [fst snd]. by destruct (exec_op o d).
  - destruct (exec_op o' d) as [d1 a]. rewrite IH. by destruct (exec_all ops d1).
Qed.

Lemma addressed_app as1 as2 : addressed (as1 ++ as2) = addressed as1 ++ addressed as2.
Proof. unfold addressed. by rewrite map_app, concat_app. Qed.

(** The serial run a reachable state of the runtime corresponds to. *)
Definition linear (env : Env) (cfg : ServerConfig) (r : rt) (events : list ServerEvent) : Prop :=
  let '(d, answers) := exec_all (DEvent <$> events) (new env MemoryStorage.new cfg) in
  rt_driver r = d /\ traffic (rt_outbound r) (rt_tasks r) ⊆+ addressed answers.

Lemma evolves_linear env cfg r r' events :
  evolves r r' -> Forall (fun ev => op_typed (DEvent ev)) events -> linear env cfg r events ->
  exists events', Forall (fun ev => op_typed (DEvent ev)) events' /\ linear env cfg r' events'.
Proof.
  unfold linear. intros He Hev Hlin.
  destruct (exec_all (DEvent <$> events) _) as [d answers] eqn:Hx. destruct Hlin as [<- Hsub].
  destruct He as [[Hd Ht]|(ev & answer & Hop & Hp & Ht)].
  - exists events. split; [done|]. rewrite Hx. split; [done|]. by trans (traffic (rt_outbound r) (rt_tasks r)).
  - exists (events ++ [ev]). split; [by apply Forall_app; rewrite Forall_singleton|].
    rewrite fmap_app. cbn [fmap list_fmap]. rewrite exec_all_snoc, Hx. cbn [fst snd exec_op].
    rewrite Hp. split; [done|]. rewrite addressed_app. etrans; [exact Ht|]. by apply submseteq_app.
Qed.

Lemma reachable_linear env cfg r :
  rtc step (start env cfg) r ->
  exists events, Forall (fun ev => op_typed (DEvent ev)) events /\ linear env cfg r events.
Proof.
  revert r. apply (rtc_ind_r (fun r => exists events,
    Forall (fun ev => op_typed (DEvent ev)) events /\ linear env cfg r events)).
  - exists []. by repeat split.
  - intros r r' _ [l [Hl Hx]] (events & Hev & Hlin).
    by eapply evolves_linear; [eapply exec_step_evolves| |].
Qed.

Lemma elem_of_addressed s f answers :
  (s, f) ∈ addressed answers ->
  exists acts, Ok acts ∈ answers /\
    (SendToSession s f ∈ acts \/ exists ids, s ∈ ids /\ Broadcast ids f ∈ acts).
Proof.
  intros (xs & (a & <- & Ha)%in_map_iff & Hin)%list_elem_of_In%in_concat.
  destruct a as [acts|e|]; [|done..]. exists acts. rewrite !list_elem_of_In. split; [done|].
  apply in_concat in Hin as (ys & (act & <- & Hact)%in_map_iff & Hin).
  destruct act as [s' f'|ids f'|s' reason|lv m t0]; cbn in Hin; try done.
  - destruct Hin as [[= -> ->]|[]]. by left.
  - apply in_map_iff in Hin as (s' & [= -> ->] & Hs). right. exists ids. by rewrite !list_elem_of_In.
Qed.

Lemma elem_of_broadcasts ids f acts answers :
  Ok acts ∈ answers -> Broadcast ids f ∈ acts ->
  f ∈ concat (map (broadcasts (FrameHeader.room_id (Frame.header f))) answers).
Proof.
  rewrite !list_elem_of_In. intros Hin Hb. apply in_concat.
  eexists. split; [apply in_map, Hin|]. apply list_elem_of_In, list_elem_of_omap.
  exists (Broadcast ids f). split; [by apply list_elem_of_In|]. cbn. by rewrite decide_True.
Qed.

Lemma written_lookup out s l : out !! s = Some l -> map (fun f => (s, f)) l ⊆+ written out.
Proof. intros Hs. rewrite (written_delete out s l Hs). by apply submseteq_inserts_r. Qed.

Lemma start_coherent (env : Env) cfg : coherent (new env MemoryStorage.new cfg).
Proof.
  constructor; try done; intros r.
  - cbn. rewrite lookup_empty. split; [|by intros []].
    rewrite RoomManager.has_room_spec. cbn. by rewrite lookup_empty.
  - cbn. rewrite lookup_empty. by intros [].
Qed.

(** C10: the concurrent server is a serial one: however the tasks interleave,
    the driver is in the state of a serial run of events, and the frames on a
    session's stream (each as often as it is there) were addressed to that
    session by the answers of that run; each of them was sent to the session
    directly or is in the log of its room. *)
Theorem streams_carry_the_log env cfg r :
  rtc step (start env cfg) r ->
  exists events, Forall (fun ev => op_typed (DEvent ev)) events /\
    let '(d, answers) := exec_all (DEvent <$> events) (new env MemoryStorage.new cfg) in
    rt_driver r = d /\
    forall s l, rt_outbound r !! s = Some l ->
      map (fun f => (s, f)) l ⊆+ addressed answers /\
      forall f, f ∈ l ->
        (exists acts, Ok acts ∈ answers /\ SendToSession s f ∈ acts) \/
        f ∈ log_of (rt_driver r) (FrameHeader.room_id (Frame.header f)).
Proof.
  intros (events & Hev & Hlin)%reachable_linear. exists events. split; [done|].
  pose proof (exec_all_delivers (DEvent <$> events) _ (start_coherent env cfg)
                ltac:(by apply Forall_fmap)) as Hdel.
  unfold linear in Hlin. destruct (exec_all _ _) as [d answers]. destruct Hlin as [Hd Hsub].
  split; [done|]. intros s l Hs. assert (Hl : map (fun f => (s, f)) l ⊆+ addressed answers).
  { trans (written (rt_outbound r)); [by apply written_lookup|].
    etrans; [|exact Hsub]. by apply submseteq_inserts_r. }
  split; [done|]. intros f Hf.
  destruct (elem_of_addressed s f answers) as (acts & Hin & [Hsend|(ids & _ & Hb)]).
  - eapply elem_of_submseteq; [|exact Hl]. by apply list_elem_of_In, in_map, list_elem_of_In.
  - left. by exists acts.
  - right. destruct Hdel as [_ Hlog]. rewrite Hd, Hlog. apply elem_of_app. right.
    by eapply elem_of_broadcasts.
Qed.

Lemma exec_steps_reachable ls r r' :
  Forall label_ok ls -> exec_steps ls r = Some r' -> rtc step r r'.
Proof.
  intros Hls. revert r. induction Hls as [|l ls Hl _ IH]; intros r Hx; cbn in Hx; [by simplify_eq|].
  destruct (exec_step l r) as [r1|] eqn:H1; [|done]. eapply rtc_l; [by exists l|by apply IH].
Qed.

End runtime.

(** ** A race of two streams *)

Definition sample_commit : Frame.t :=
  Frame.mk (FrameHeader.set_room_id 5 (FrameHeader.new Opcode.Commit)) [].

Definition sample_join : Frame.t :=
  Frame.mk (FrameHeader.set_room_id 5 (FrameHeader.new Opcode.ExternalCommit)) [].

(** The connection of session [s], task [i], is set up and has accepted a stream. *)
Definition connect (s : N) (i : nat) : list label :=
  [LAccept s] ++ [LTask i CGo; LTask i CGo; LTask i CGo; LTask i (CWrite true);
                  LTask i CGo; LTask i CSpawn].

(** Session 1 creates room 5, session 2 joins it, and both send a message: the
    driver takes the message of session 1 first, and the stream task of session
    2 is the first to write to session 1. *)
Definition race : list label :=
  connect 1 0 ++ connect 2 2 ++
  [LTask 1 (CFrame sample_commit)] ++ repeat (LTask 1 (CWrite true)) 3 ++ [LTask 1 CGo;
   LTask 3 (CFrame sample_join)] ++ repeat (LTask 3 (CWrite true)) 4 ++ [LTask 3 CGo;
   LTask 1 (CFrame Sequencer.room_sample); LTask 3 (CFrame room_sample2)]
  ++ repeat (LTask 3 (CWrite true)) 3 ++ repeat (LTask 1 (CWrite true)) 3.

Definition race_start : rt := start sample_env default_server_config.

Lemma race_ok : Forall label_ok race.
Proof.
  unfold race, connect. cbn [app repeat].
  repeat (apply Forall_cons; split; [first [exact I|by vm_compute|vm_compute; repeat split; discriminate]|]).
  by apply Forall_nil.
Qed.

Definition indices (l : list Frame.t) : list N := FrameHeader.log_index ∘ Frame.header <$> l.

Lemma race_result :
  exists r : rt, exec_steps (ciborium := sample_ciborium) race race_start = Some r /\
    indices (log_of (rt_driver r) 5) = [0; 1; 2; 3] /\
    indices <$> rt_outbound r !! 1 = Some [0; 1; 3; 2] /\
    indices <$> rt_outbound r !! 2 = Some [1; 3; 2].
Proof.
  assert (H : (fun r => (indices (log_of (rt_driver r) 5), indices <$> rt_outbound r !! 1,
                         indices <$> rt_outbound r !! 2))
              <$> exec_steps (ciborium := sample_ciborium) race race_start
              = Some ([0; 1; 2; 3], Some [0; 1; 3; 2], Some [1; 3; 2])) by (vm_compute; reflexivity).
  revert H. generalize (exec_steps (ciborium := sample_ciborium) race race_start). intros [r|] H; [|discriminate H].
  injection H as H1 H2 H3. by exists r.
Qed.

(** The order is lost between the driver and the streams: the driver's
    mutex is released before its answer is executed, and the runtime reaches a
    state in which the log has the messages at 2 and 3 in this order and both
    sessions of the room have received the one at 3 first. *)
Theorem broadcasts_can_be_reordered :
  exists r : rt, rtc (step (ciborium := sample_ciborium)) race_start r /\
    indices (log_of (rt_driver r) 5) = [0; 1; 2; 3] /\
    indices <$> rt_outbound r !! 1 = Some [0; 1; 3; 2] /\
    indices <$> rt_outbound r !! 2 = Some [1; 3; 2].
Proof.
  destruct race_result as (r & Hr & Hres). exists r. split; [|done].
  exact (exec_steps_reachable race race_start r race_ok Hr).
Qed.

Lemma streams_carry_the_log_witness :
  exists r : rt, exists l, rt_outbound r !! 1 = Some l /\ indices l = [0; 1; 3; 2] /\
    exists events answers d,
      exec_all (ciborium := sample_ciborium) (DEvent <$> events)
        (new sample_env MemoryStorage.new default_server_config) = (d, answers) /\
      rt_driver r = d /\ map (fun f => (1, f)) l ⊆+ addressed answers.
Proof.
  destruct race_result as (r & Hr & _ & Hl & _).
  destruct (streams_carry_the_log (ciborium := sample_ciborium) sample_env default_server_config r
    (exec_steps_reachable race race_start r race_ok Hr)) as (events & _ & H).
  apply fmap_Some in Hl as (l & Hl & Hi). exists r, l. split; [done|]. split; [done|].
  destruct (exec_all (DEvent <$> events) _) as [d answers] eqn:Hx. destruct H as [Hd H].
  exists events, answers, d. exact (conj Hx (conj Hd (proj1 (H 1 l Hl)))).
Defined.

End Runtime.
