(* ===== verification/SimServer.v ===== *)
(** * The simulation's server

    [SimServer] of [lockframe-harness/src/sim_server.rs]: the server driver over
    the in-memory storage, with a stream of the simulated network for each
    connection.  It is the serial counterpart of the server's runtime: every call
    runs to its end before the next, so that the streams carry what the driver
    addresses in the driver's order.  The stream of a connection is the class
    [TcpStream]. *)

From S2P Require Import Prelude Env Opcodes Header Framing Payloads Connection Validator.
From S2P Require Import Storage Sequencer Registry KeyPackages RoomManager Driver DriverInv.
From S2P Require Import Delivery Runtime.

Local Open Scope N_scope.

(** The write half of a stream, and the bytes it has taken. *)
Class TcpStream (W : Type) := {
  write_all : bytes -> W -> W * res string unit;
  flush : W -> W * res string unit;
  taken_bytes : W -> bytes;
  write_all_takes bs w : snd (write_all bs w) = Ok tt ->
    taken_bytes (fst (write_all bs w)) = taken_bytes w ++ bs;
  write_all_answers bs w : snd (write_all bs w) <> Panic;
  flush_takes w : taken_bytes (fst (flush w)) = taken_bytes w;
  flush_answers w : snd (flush w) <> Panic;
}.

Module SimServer.
Import ServerDriver.

Section server.
Context {Env : Type} `{!Environment Env} {ciborium : Ciborium} {W : Type} `{!TcpStream W}.

Record t := mk {
  driver : ServerDriver.t Env MemoryStorage.t;
  connections : gmap N W;
  next_session_id : N }.

Abbreviation server A := (M t string A).

(** [bind_with_config], when the address can be bound; [bind] has the default
    configuration. *)
Definition bind_with_config (env : Env) (config : ServerConfig) : t :=
  mk (ServerDriver.new env MemoryStorage.new config) ∅ 1.
Definition bind (env : Env) : t := bind_with_config env default_server_config.

Definition with_driver (d : ServerDriver.t Env MemoryStorage.t) (s : t) : t :=
  mk d (connections s) (next_session_id s).
Definition with_connections (cs : gmap N W) (s : t) : t := mk (driver s) cs (next_session_id s).

(** A call of the driver, its error as a text. *)
Definition call {A} (m : M (ServerDriver.t Env MemoryStorage.t) ServerError.t A) : server A := fun s =>
  let '(d, r) := m (driver s) in (with_driver d s, map_err ServerError.display r).

Definition send_frame (session_id : N) (frame : Frame.t) : server unit := fun s =>
  match connections s !! session_id with
  | None => (s, Ok tt)
  | Some w =>
      match Frame.encode frame [] with
      | Ok buf =>
          let '(w1, r) := write_all buf w in
          match r with
          | Ok _ =>
              let '(w2, r') := flush w1 in
              (with_connections (<[session_id := w2]> (connections s)) s, r')
          | _ => (with_connections (<[session_id := w1]> (connections s)) s, r)
          end
      | Err e => (s, Err (ProtocolError.display e))
      | Panic => (s, Panic)
      end
  end.

Fixpoint send_to_all (session_ids : list N) (frame : Frame.t) : server unit :=
  match session_ids with
  | [] => mret tt
  | session_id :: rest => send_frame session_id frame;; send_to_all rest frame
  end.

(** The answer of the driver is dropped. *)
Definition close_connection (session_id : N) (reason : string) : server unit := fun s =>
  let s1 := with_connections (delete session_id (connections s)) s in
  let '(d, r) := process_event (ConnectionClosed session_id reason) (driver s1) in
  (with_driver d s1, match r with Panic => Panic | _ => Ok tt end).

Fixpoint execute_actions (actions : list ServerAction) : server unit :=
  match actions with
  | [] => mret tt
  | action :: rest =>
      match action with
      | SendToSession session_id frame => send_frame session_id frame
      | Broadcast session_ids frame => send_to_all session_ids frame
      | CloseConnection session_id reason => close_connection session_id reason
      | Log _ _ _ => mret tt
      end;;
      execute_actions rest
  end.

(** [stream] is the accepted connection. *)
Definition accept_connection (stream : W) : server N :=
  s ← get;
  let session_id := next_session_id s in
  if u64_MAX <? session_id + 1 then lift Panic
  else
    modify (fun s => mk (driver s) (connections s) (session_id + 1));;
    actions ← call (process_event (ConnectionAccepted session_id));
    modify (fun s => with_connections (<[session_id := stream]> (connections s)) s);;
    execute_actions actions;;
    mret session_id.

Definition tick : server unit :=
  actions ← call (process_event Tick); execute_actions actions.

Definition process_frame (session_id : N) (frame : Frame.t) : server unit :=
  actions ← call (process_event (FrameReceived session_id frame)); execute_actions actions.

(** The actions of a new room are only logged. *)
Definition create_room (room_id creator_session_id : N) : server unit :=
  call (ServerDriver.create_room room_id creator_session_id);; mret tt.

Definition subscribe_to_room (session_id room_id : N) : server bool :=
  call (ServerDriver.subscribe_to_room session_id room_id).

Definition has_room (s : t) (room_id : N) : bool := ServerDriver.has_room (driver s) room_id.
Definition connection_count (s : t) : N := ServerDriver.connection_count (driver s).

(** ** Runs *)

Inductive op :=
  | SAccept (stream : W)
  | STick
  | SFrame (session_id : N) (frame : Frame.t)
  | SCreateRoom (room_id creator_session_id : N)
  | SSubscribe (session_id room_id : N).

Definition exec (o : op) : server unit :=
  match o with
  | SAccept w => accept_connection w;; mret tt
  | STick => tick
  | SFrame s f => process_frame s f
  | SCreateRoom r s => create_room r s
  | SSubscribe s r => subscribe_to_room s r;; mret tt
  end.

(** A run goes on after an error, as a test may, but not after a panic. *)
Fixpoint runs (ops : list op) (s : t) : option t :=
  match ops with
  | [] => Some s
  | o :: ops' => match exec o s with (_, Panic) => None | (s', _) => runs ops' s' end
  end.

Definition room_epoch (s : t) (room_id : N) : option N := ServerDriver.room_epoch (driver s) room_id.

(** ** The streams carry the driver's answers *)

Import DriverInvariant Delivery.

(** The frames for a session among those addressed. *)
Definition frames_to (sid : N) (l : list (N * Frame.t)) : list Frame.t :=
  map snd (filter (fun p => p.1 = sid) l).

Definition addressed_of (actions : list ServerAction) : list (N * Frame.t) :=
  concat (map Runtime.addressed_by actions).

Abbreviation wires fs := (concat (map Frame.wire fs)).

(** The driver is where the operations [dops] lead, and every stream has taken
    frames that, before those still to be sent, were addressed to its session,
    in order. *)
Definition serial (d0 : ServerDriver.t Env MemoryStorage.t) (dops : list driver_op)
    (todo : list (N * Frame.t)) (s : t) : Prop :=
  driver s = fst (exec_all dops d0) /\
  (forall sid w, connections s !! sid = Some w -> exists fs, taken_bytes w = wires fs /\
    fs ++ frames_to sid todo `sublist_of` frames_to sid (Runtime.addressed (snd (exec_all dops d0)))) /\
  (forall sid, frames_to sid todo `sublist_of` frames_to sid (Runtime.addressed (snd (exec_all dops d0)))).

Lemma frames_to_app sid l1 l2 : frames_to sid (l1 ++ l2) = frames_to sid l1 ++ frames_to sid l2.
Proof. unfold frames_to. by rewrite filter_app, map_app. Qed.

Lemma frames_to_cons sid sid' f l :
  frames_to sid ((sid', f) :: l) = (if decide (sid' = sid) then [f] else []) ++ frames_to sid l.
Proof. unfold frames_to. rewrite filter_cons. cbn. by destruct (decide (sid' = sid)). Qed.

(** Frames that will not be sent. *)
Lemma serial_skip d0 dops skip todo s : serial d0 dops (skip ++ todo) s -> serial d0 dops todo s.
Proof.
  assert (Hsub : forall sid, frames_to sid todo `sublist_of` frames_to sid (skip ++ todo)).
  { intros sid. rewrite frames_to_app. by apply sublist_inserts_l. }
  intros (Hd & Hc & Ht). split_and!; [done| |].
  - intros sid w Hw. destruct (Hc sid w Hw) as (fs & Hfs & Hs). exists fs. split; [done|].
    etrans; [|exact Hs]. by apply sublist_app.
  - intros sid. etrans; [apply Hsub|apply Ht].
Qed.

Lemma serial_nil d0 dops todo s : serial d0 dops todo s -> serial d0 dops [] s.
Proof. intros H. apply (serial_skip _ _ todo). by rewrite app_nil_r. Qed.

(** A call of the driver, while frames wait. *)
Lemma serial_call d0 dops todo o s :
  serial d0 dops todo s ->
  let '(d, r) := exec_op o (driver s) in
  let acts := match r with Ok acts => acts | _ => [] end in
  serial d0 (dops ++ [o]) (todo ++ addressed_of acts) (with_driver d s).
Proof.
  intros (Hd & Hc & Ht). pose proof (Runtime.exec_all_snoc dops o d0) as Hx. rewrite <- Hd in Hx.
  destruct (exec_op o (driver s)) as [d r]. cbn [fst snd] in Hx. cbv zeta.
  assert (Ha : forall sid, frames_to sid (Runtime.addressed (snd (exec_all (dops ++ [o]) d0)))
    = frames_to sid (Runtime.addressed (snd (exec_all dops d0))) ++
      frames_to sid (addressed_of (match r with Ok acts => acts | _ => [] end))).
  { intros sid. rewrite Hx. cbn [snd]. rewrite Runtime.addressed_app, frames_to_app. f_equal.
    unfold Runtime.addressed. cbn [map concat]. rewrite app_nil_r. by destruct r. }
  split_and!.
  - by rewrite Hx.
  - intros sid w Hw. destruct (Hc sid w Hw) as (fs & Hfs & Hs). exists fs. split; [done|].
    rewrite Ha, frames_to_app, app_assoc. by apply sublist_app.
  - intros sid. rewrite Ha, frames_to_app. by apply sublist_app.
Qed.

Lemma frame_encode_wire f bs : Frame.encode f [] = Ok bs -> bs = Frame.wire f.
Proof. unfold Frame.encode. case_match; [done|]. by intros [= <-]. Qed.

(** The network of the simulation loses no bytes. *)
Definition reliable : Prop :=
  (forall bs w, snd (write_all bs w) = Ok tt) /\ (forall w, snd (flush w) = Ok tt).

Hypothesis network : reliable.

Lemma send_frame_serial d0 dops sid f todo s :
  serial d0 dops ((sid, f) :: todo) s ->
  serial d0 dops todo (fst (send_frame sid f s)) /\ snd (send_frame sid f s) <> Panic.
Proof using network.
  intros Hs. pose proof (serial_skip d0 dops [(sid, f)] todo s Hs) as Hskip.
  unfold send_frame. destruct (connections s !! sid) as [w|] eqn:Hw; [|by split].
  destruct (Frame.encode f []) as [buf|e|] eqn:He; [|by split|].
  2:{ exfalso. revert He. unfold Frame.encode. by case_match. }
  apply frame_encode_wire in He as ->. destruct network as [Hwr Hfl].
  pose proof (write_all_takes (Frame.wire f) w (Hwr _ _)) as Ht. specialize (Hwr (Frame.wire f) w).
  destruct (write_all (Frame.wire f) w) as [w1 r]. cbn [snd fst] in *. subst r.
  pose proof (flush_takes w1) as Ht'. specialize (Hfl w1). destruct (flush w1) as [w2 r].
  cbn [snd fst] in *. subst r. split; [|done]. destruct Hs as (Hd & Hc & _).
  destruct Hskip as (_ & Hc' & Hto). split_and!; [done| |done]. cbn.
  intros sid' w' [[<- <-]|[Hne Hw']]%lookup_insert_Some; [|by apply Hc'].
  destruct (Hc sid w Hw) as (fs & Hfs & Hsub). exists (fs ++ [f]). split.
  - rewrite Ht', Ht, Hfs, map_app, concat_app. cbn. by rewrite app_nil_r.
  - rewrite frames_to_cons, decide_True in Hsub by done. by rewrite <- app_assoc.
Qed.

Lemma send_to_all_serial d0 dops f ids : forall todo s,
  serial d0 dops (map (fun sid => (sid, f)) ids ++ todo) s ->
  (exists todo', serial d0 dops todo' (fst (send_to_all ids f s))) /\
  snd (send_to_all ids f s) <> Panic /\
  (snd (send_to_all ids f s) = Ok tt -> serial d0 dops todo (fst (send_to_all ids f s))).
Proof using network.
  induction ids as [|sid ids IH]; intros todo s Hs; [split_and!; try done; by exists todo|].
  destruct (send_frame_serial _ _ _ _ _ _ Hs) as [H1 H2]. cbn [send_to_all]. unfold_M.
  destruct (send_frame sid f s) as [s1 [[]|e|]]; cbn [fst snd] in *; [by apply IH| |done].
  split_and!; try done. by eexists.
Qed.

Lemma close_serial d0 dops todo sid reason s :
  serial d0 dops todo s ->
  exists dops', Forall op_typed dops' /\
    serial d0 (dops ++ dops') todo (fst (close_connection sid reason s)) /\
    snd (close_connection sid reason s) = Ok tt.
Proof.
  intros Hs. exists [DEvent (ConnectionClosed sid reason)]. split; [by repeat constructor|].
  assert (Hs1 : serial d0 dops todo (with_connections (delete sid (connections s)) s)).
  { destruct Hs as (Hd & Hc & Ht). split_and!; try done. cbn. intros sid' w [_ Hw]%lookup_delete_Some.
    by apply Hc. }
  pose proof (serial_call _ _ _ (DEvent (ConnectionClosed sid reason)) _ Hs1) as H.
  unfold close_connection. cbn [exec_op] in H. change (driver (with_connections _ s)) with (driver s) in *.
  destruct (process_event (ConnectionClosed sid reason) (driver s)) as [d r] eqn:E. cbn [fst snd].
  cbn [process_event] in E. unfold handle_connection_closed, env_now, registry_call in E. unfold_M.
  cbn in E. repeat case_match; simplify_eq; by rewrite ?app_nil_r in H.
Qed.

(** A computation that keeps the run serial, with operations of its own. *)
Definition keeps_serial {A} d0 (todo : list (N * Frame.t)) (m : server A) : Prop :=
  forall dops s, serial d0 dops todo s ->
    exists dops', Forall op_typed dops' /\ serial d0 (dops ++ dops') [] (fst (m s)) /\
      snd (m s) <> Panic.

Lemma execute_serial d0 actions : keeps_serial d0 (addressed_of actions) (execute_actions actions).
Proof using network.
  induction actions as [|a actions IH]; intros dops s Hs.
  { exists []. rewrite app_nil_r. by split_and!. }
  change (addressed_of (a :: actions)) with (Runtime.addressed_by a ++ addressed_of actions) in Hs.
  cbn [execute_actions]. unfold_M.
  destruct a as [sid f|ids f|sid reason|lv msg t0]; cbn [Runtime.addressed_by app] in Hs.
  - destruct (send_frame_serial _ _ _ _ _ _ Hs) as [H1 H2].
    destruct (send_frame sid f s) as [s1 [[]|e|]]; cbn [fst snd] in *; [by apply IH| |done].
    exists []. rewrite app_nil_r. split_and!; [done|by eapply serial_nil|done].
  - destruct (send_to_all_serial _ _ _ _ _ _ Hs) as ([todo' H1] & H2 & H3).
    destruct (send_to_all ids f s) as [s1 [[]|e|]]; cbn [fst snd] in *; [by apply IH, H3| |done].
    exists []. rewrite app_nil_r. split_and!; [done|by eapply serial_nil|done].
  - destruct (close_serial _ _ _ sid reason _ Hs) as (dops' & Hty & H1 & H2).
    destruct (close_connection sid reason s) as [s1 r]; cbn [fst snd] in *. subst r.
    destruct (IH _ _ H1) as (dops'' & Hty' & H3 & H4). exists (dops' ++ dops'').
    rewrite app_assoc. split_and!; [by apply Forall_app|done..].
  - by apply IH.
Qed.

(** What is asked of the arguments: new streams are empty, frames are decoded
    ones and room ids have 128 bits. *)
Definition op_ok (o : op) : Prop :=
  match o with
  | SAccept w => taken_bytes w = []
  | SFrame _ f => Frame.wf f
  | SCreateRoom r _ => r < 2 ^ 128
  | _ => True
  end.

(** The outcome of an operation that does not panic. *)
Definition stays_serial {A} d0 dops (out : t * res string A) : Prop :=
  match out with
  | (_, Panic) => True
  | (s', _) => exists dops', Forall op_typed dops' /\ serial d0 (dops ++ dops') [] s'
  end.

(** A call of the driver, a change of the streams, and the execution of what the
    driver answers. *)
Lemma call_execute d0 dops o (before : t -> t) s :
  serial d0 dops [] s -> op_typed o ->
  (forall dops todo s, serial d0 dops todo s -> serial d0 dops todo (before s)) ->
  stays_serial d0 dops
    ((actions ← call (exec_op o); modify before;; execute_actions actions) s).
Proof using network.
  intros Hs Ho Hb. pose proof (serial_call d0 dops [] o s Hs) as H. cbv zeta in H.
  unfold call. unfold_M. destruct (exec_op o (driver s)) as [d [acts|e|]]; cbn [map_err]; [| |done].
  - destruct (execute_serial d0 acts _ _ (Hb _ _ _ H)) as (dops' & Hty & H1 & H2).
    unfold stays_serial. destruct (execute_actions acts _) as [s' [|e|]]; try done;
      (exists (o :: dops'); split; [by constructor|]; by rewrite <- app_assoc in H1).
  - exists [o]. split; [by repeat constructor|]. by apply (serial_nil _ _ _ _ H).
Qed.

Lemma fresh_stream d0 dops todo w s :
  taken_bytes w = [] -> serial d0 dops todo s ->
  forall sid, serial d0 dops todo (with_connections (<[sid := w]> (connections s)) s).
Proof.
  intros Hw (Hd & Hc & Ht) sid. split_and!; [done| |done]. cbn.
  intros sid' w' [[<- <-]|[_ Hl]]%lookup_insert_Some; [|by apply Hc].
  exists []. split; [done|]. apply Ht.
Qed.

Lemma exec_serial d0 dops o s :
  serial d0 dops [] s -> op_ok o -> stays_serial d0 dops (exec o s).
Proof using network.
  intros Hs Ho. destruct o as [w| |sid f|r sid|sid r]; cbn [exec op_ok] in *.
  - unfold accept_connection. unfold_M. destruct (u64_MAX <? _); [done|].
    set (sid := next_session_id s). set (s0 := mk (driver s) (connections s) (sid + 1)).
    assert (Hs0 : serial d0 dops [] s0) by exact Hs.
    pose proof (call_execute d0 dops (DEvent (ConnectionAccepted sid))
      (fun s => with_connections (<[sid := w]> (connections s)) s) s0 Hs0 I
      ltac:(intros; by apply fresh_stream)) as H.
    revert H. unfold_M. cbn [exec_op]. destruct (call _ s0) as [s1 [acts|e|]]; [|done..].
    destruct (execute_actions acts _) as [s2 [|e|]]; done.
  - apply (call_execute d0 dops (DEvent Tick) id s Hs I). done.
  - apply (call_execute d0 dops (DEvent (FrameReceived sid f)) id s Hs Ho). done.
  - pose proof (serial_call d0 dops [] (DCreateRoom r sid) s Hs) as H. cbv zeta in H.
    unfold create_room, call. unfold_M. cbn [exec_op] in H.
    destruct (ServerDriver.create_room r sid (driver s)) as [d [acts|e|]]; cbn; [| |done];
      (exists [DCreateRoom r sid]; split; [by repeat constructor|]; by eapply serial_nil).
  - pose proof (serial_call d0 dops [] (DSubscribe sid r) s Hs) as H. cbv zeta in H.
    unfold subscribe_to_room, call. unfold_M. cbn [exec_op] in H. revert H. unfold_M.
    destruct (ServerDriver.subscribe_to_room sid r (driver s)) as [d [b|e|]]; cbn; intros H; [| |done];
      (exists [DSubscribe sid r]; split; [by repeat constructor|]; by eapply serial_nil).
Qed.

Lemma runs_serial d0 ops : forall dops s s',
  Forall op_ok ops -> Forall op_typed dops -> serial d0 dops [] s -> runs ops s = Some s' ->
  exists dops', Forall op_typed dops' /\ serial d0 dops' [] s'.
Proof using network.
  induction ops as [|o ops IH]; intros dops s s' Hok Hty Hs Hr; cbn [runs] in Hr.
  { injection Hr as <-. by exists dops. }
  inversion Hok as [|? ? Ho Hok']; subst. pose proof (exec_serial d0 dops o s Hs Ho) as H.
  destruct (exec o s) as [s1 [[]|e|]]; [| |discriminate Hr];
    destruct H as (dops' & Hty' & H1); eapply (IH (dops ++ dops')); try done; by apply Forall_app.
Qed.

(** C15: the simulated server is the server: over a network that loses nothing,
    after any operations, errors of the driver included, the driver is in the
    state of a run of operations on it; every stream has taken whole frames that
    the answers of that run address to its session, in the order of the answers;
    and the log of every room is what these answers broadcast, in that order. *)
Theorem sim_server_serial env config ops s :
  Forall op_ok ops -> runs ops (bind_with_config env config) = Some s ->
  exists dops, Forall op_typed dops /\
    let '(d, answers) := exec_all dops (ServerDriver.new env MemoryStorage.new config) in
    driver s = d /\
    (forall sid w, connections s !! sid = Some w -> exists fs,
       taken_bytes w = wires fs /\ fs `sublist_of` frames_to sid (Runtime.addressed answers)) /\
    forall r, log_of d r = concat (map (broadcasts r) answers).
Proof using network.
  intros Hok Hr. set (d0 := ServerDriver.new env MemoryStorage.new config).
  assert (H0 : serial d0 [] [] (bind_with_config env config)).
  { split_and!; [done| |done]. cbn. intros sid w. by rewrite lookup_empty. }
  destruct (runs_serial d0 ops [] _ s Hok ltac:(done) H0 Hr) as (dops & Hty & Hd & Hc & _).
  exists dops. split; [done|].
  pose proof (exec_all_delivers dops d0 (Runtime.start_coherent env config) Hty) as Hdel.
  destruct (exec_all dops d0) as [d answers]. cbn [fst snd] in *. split_and!; [done| |].
  - intros sid w Hw. destruct (Hc sid w Hw) as (fs & Hfs & Hs). exists fs.
    by rewrite app_nil_r in Hs.
  - intros r. apply Hdel.
Qed.

End server.

(** ** A witness: a network that keeps every byte *)

Definition byte_stream : TcpStream bytes.
Proof.
refine {| write_all bs w := (w ++ bs, Ok tt); flush w := (w, Ok tt); taken_bytes w := w |}; done.
Defined.

Definition sample_ops : list (op (W := bytes)) :=
  [SAccept []; SAccept []; SCreateRoom 5 1; SSubscribe 2 5;
   SFrame 1 Sequencer.room_sample; SFrame 2 Delivery.room_sample2].

Lemma sim_server_serial_witness :
  exists s, runs (TcpStream0 := byte_stream) (ciborium := sample_ciborium) sample_ops
      (bind Delivery.sample_env) = Some s /\
    exists fs, connections s !! 2 = Some (concat (map Frame.wire fs)).
Proof.
  destruct (runs (TcpStream0 := byte_stream) (ciborium := sample_ciborium) sample_ops
    (bind Delivery.sample_env)) as [s|] eqn:E; [|vm_compute in E; discriminate E].
  exists s. split; [reflexivity|].
  assert (Hc : (fun s : t => bool_decide (is_Some (connections s !! 2))) <$>
    runs (TcpStream0 := byte_stream) (ciborium := sample_ciborium) sample_ops (bind Delivery.sample_env)
    = Some true) by (vm_compute; reflexivity).
  rewrite E in Hc. injection Hc as Hc%bool_decide_eq_true_1. destruct Hc as [w Hw].
  destruct (sim_server_serial (TcpStream0 := byte_stream) (ciborium := sample_ciborium)
    ltac:(split; intros; exact eq_refl) Delivery.sample_env default_server_config sample_ops s) as (dops & _ & H).
  - repeat constructor; vm_compute; repeat split; discriminate.
  - exact E.
  - destruct (Delivery.exec_all dops _) as [d answers]. destruct H as (_ & H & _).
    destruct (H 2 w Hw) as (fs & Hfs & _). exists fs. rewrite Hw. exact (f_equal Some Hfs).
Defined.

End SimServer.
