(* ===== verification/SenderKeys.v ===== *)
(** * Sender keys

    The message encryption of [lockframe-crypto/src/sender_keys/]: the symmetric
    ratchet ([ratchet.rs]), the seeds ([derivation.rs]), the nonces and the AEAD
    calls ([encryption.rs]), and the [SenderKeyStore] of
    [lockframe-client/src/sender_key_store.rs] on top.  HMAC, HKDF and
    XChaCha20-Poly1305 are the class [Crypto]; the erasure of key material from
    memory is not observable and not modelled. *)

From S2P Require Import Prelude.

Local Open Scope N_scope.

(** What the code relies on of the [hmac], [hkdf] and [chacha20poly1305]
    crates. *)
Class Crypto := {
  (** HMAC-SHA256 of a key and a message. *)
  hmac : bytes -> bytes -> bytes;
  hmac_length k m : length (hmac k m) = 32%nat;
  (** HKDF-SHA256 without salt: 32 bytes for the key material and an info. *)
  hkdf : bytes -> bytes -> bytes;
  hkdf_length ikm info : length (hkdf ikm info) = 32%nat;
  (** XChaCha20-Poly1305: key, 24-byte nonce, text; [None] is an error. *)
  aead_encrypt : bytes -> bytes -> bytes -> option bytes;
  aead_decrypt : bytes -> bytes -> bytes -> option bytes;
  aead_decrypt_encrypt k n p c : aead_encrypt k n p = Some c -> aead_decrypt k n c = Some p;
  aead_encrypt_total k n p : len p < 2 ^ 32 -> is_Some (aead_encrypt k n p);
  aead_encrypt_length k n p c : aead_encrypt k n p = Some c -> len c = len p + 16;
}.

Module SenderKeyError.

Inductive t : Type :=
  | UnknownSender (sender_index : N)
  | RatchetTooFarBehind (current requested : N)
  | DecryptionFailed (reason : string)
  | EpochMismatch (expected actual : N)
  | InvalidKeyLength (expected actual : N)
  | GenerationOverflow (current : N).

#[global] Instance sender_key_error_eq_dec : EqDecision t.
Proof. solve_decision. Defined.

Definition display (e : t) : string :=
  match e with
  | UnknownSender i => "unknown sender: " +:+ pretty i
  | RatchetTooFarBehind current requested =>
      "ratchet too far behind: at generation " +:+ pretty current +:+ ", need "
        +:+ pretty requested
  | DecryptionFailed reason => "decryption failed: " +:+ reason
  | EpochMismatch expected actual =>
      "epoch mismatch: expected " +:+ pretty expected +:+ ", got " +:+ pretty actual
  | InvalidKeyLength expected actual =>
      "invalid key length: expected " +:+ pretty expected +:+ ", got " +:+ pretty actual
  | GenerationOverflow current => "ratchet generation overflow at " +:+ pretty current
  end.

Definition is_fatal (e : t) : bool :=
  match e with
  | DecryptionFailed _ | InvalidKeyLength _ _ | GenerationOverflow _ => true
  | UnknownSender _ | RatchetTooFarBehind _ _ | EpochMismatch _ _ => false
  end.

End SenderKeyError.

(** The bytes of an ASCII literal [b".."]. *)
Fixpoint ascii_bytes (s : string) : bytes :=
  match s with
  | EmptyString => []
  | String c s' => byte_of (N_of_ascii c) :: ascii_bytes s'
  end.

Definition SENDER_KEY_LABEL : bytes := ascii_bytes "lockframeSenderV1".
Definition CHAIN_LABEL : bytes := ascii_bytes "chain".
Definition MESSAGE_LABEL : bytes := ascii_bytes "message".
Definition MAX_SKIP : N := 1000.
Definition NONCE_RANDOM_SIZE : nat := 8.
Definition POLY1305_TAG_SIZE : N := 16.

Section derivation.
Context `{Crypto}.

Definition seed_info (epoch sender_index : N) : bytes :=
  SENDER_KEY_LABEL ++ to_be_bytes 8 epoch ++ to_be_bytes 4 sender_index.

Definition derive_sender_key_seed (epoch_secret : bytes) (epoch sender_index : N) : bytes :=
  hkdf epoch_secret (seed_info epoch sender_index).

Definition derive_all_sender_seeds (epoch_secret : bytes) (epoch : N) (member_indices : list N)
    : list (N * bytes) :=
  map (fun index => (index, derive_sender_key_seed epoch_secret epoch index)) member_indices.

End derivation.

Record MessageKey := mkMessageKey { mk_key : bytes; mk_generation : N }.

Module SymmetricRatchet.

Record t := mk { chain_key : bytes; generation : N }.

Definition new (seed : bytes) : t := mk seed 0.

Section ratchet.
Context `{Crypto}.

Definition derive_message_key (r : t) : bytes := hmac (chain_key r) MESSAGE_LABEL.
Definition derive_next_chain_key (r : t) : bytes := hmac (chain_key r) CHAIN_LABEL.

Definition advance : M t SenderKeyError.t MessageKey := fun r =>
  if generation r =? u32_MAX then (r, Err (SenderKeyError.GenerationOverflow (generation r)))
  else
    (mk (derive_next_chain_key r) ((generation r + 1) mod 2 ^ 32),
     Ok (mkMessageKey (derive_message_key r) (generation r))).

(** [while self.generation <= target]; the loop runs at most [MAX_SKIP + 1]
    times and its end is checked once more. *)
Fixpoint advance_while (fuel : nat) (target : N) (message_key : option MessageKey)
    : M t SenderKeyError.t (option MessageKey) := fun r =>
  match fuel with
  | O => (r, Panic)
  | S fuel' =>
      if generation r <=? target then
        (key ← advance; advance_while fuel' target (Some key)) r
      else (r, Ok message_key)
  end.

Definition advance_to (target : N) : M t SenderKeyError.t MessageKey :=
  r ← get;
  if target <? generation r then
    throw (SenderKeyError.RatchetTooFarBehind (generation r) target)
  else
    let skip_count := target - generation r in
    if MAX_SKIP <? skip_count then
      throw (SenderKeyError.RatchetTooFarBehind (generation r) target)
    else
      message_key ← advance_while (N.to_nat MAX_SKIP + 2) target None;
      r' ← get;
      lift (ok_or message_key (SenderKeyError.RatchetTooFarBehind (generation r') target)).

End ratchet.
End SymmetricRatchet.

Module Encryption.

Record EncryptedMessage := mkEncrypted {
  epoch : N;
  sender_index : N;
  generation : N;
  nonce : bytes;
  ciphertext : bytes }.

Definition plaintext_len (e : EncryptedMessage) : N :=
  saturating_sub (len (ciphertext e)) POLY1305_TAG_SIZE.

Definition build_nonce (epoch sender_index generation : N) (random_suffix : bytes) : bytes :=
  to_be_bytes 8 epoch ++ to_be_bytes 4 sender_index ++ to_be_bytes 4 generation ++ random_suffix.

Section encryption.
Context `{Crypto}.

(** An encryption that fails reaches [unreachable!]. *)
Definition encrypt_message (plaintext : bytes) (message_key : MessageKey)
    (epoch sender_index : N) (random_suffix : bytes) : res SenderKeyError.t EncryptedMessage :=
  let nonce := build_nonce epoch sender_index (mk_generation message_key) random_suffix in
  match aead_encrypt (mk_key message_key) nonce plaintext with
  | Some ciphertext =>
      Ok (mkEncrypted epoch sender_index (mk_generation message_key) nonce ciphertext)
  | None => Panic
  end.

Definition decrypt_message (encrypted : EncryptedMessage) (message_key : MessageKey)
    : res SenderKeyError.t bytes :=
  if negb (mk_generation message_key =? generation encrypted) then
    Err (SenderKeyError.DecryptionFailed
           ("generation mismatch: key is " +:+ pretty (mk_generation message_key)
              +:+ ", message is " +:+ pretty (generation encrypted)))
  else
    ok_or (aead_decrypt (mk_key message_key) (nonce encrypted) (ciphertext encrypted))
      (SenderKeyError.DecryptionFailed "authentication failed").

End encryption.
End Encryption.

Module SenderKeyStore.
Import Encryption.

Record t := mk { store_epoch : N; ratchets : gmap N SymmetricRatchet.t }.

Definition member_count (s : t) : N := N.of_nat (size (ratchets s)).
Definition has_member (s : t) (i : N) : bool := bool_decide (is_Some (ratchets s !! i)).
Definition sender_generation (s : t) (i : N) : option N :=
  SymmetricRatchet.generation <$> ratchets s !! i.

Section store.
Context `{Crypto}.

Definition initialize_epoch (epoch_secret : bytes) (epoch : N) (member_indices : list N) : t :=
  mk epoch
    (fold_left (fun rs i =>
                  <[i := SymmetricRatchet.new (derive_sender_key_seed epoch_secret epoch i)]> rs)
       member_indices ∅).

(** A call on the ratchet of a member, through [get_mut]. *)
Definition ratchet_call {A} (i : N) (c : M SymmetricRatchet.t SenderKeyError.t A)
    : M t SenderKeyError.t A := fun s =>
  match ratchets s !! i with
  | None => (s, Err (SenderKeyError.UnknownSender i))
  | Some r => let '(r', a) := c r in (mk (store_epoch s) (<[i := r']> (ratchets s)), a)
  end.

Definition encrypt (i : N) (plaintext random_bytes : bytes)
    : M t SenderKeyError.t EncryptedMessage :=
  s ← get;
  message_key ← ratchet_call i SymmetricRatchet.advance;
  lift (encrypt_message plaintext message_key (store_epoch s) i random_bytes).

Definition decrypt (encrypted : EncryptedMessage) : M t SenderKeyError.t bytes :=
  s ← get;
  if negb (epoch encrypted =? store_epoch s) then
    throw (SenderKeyError.EpochMismatch (store_epoch s) (epoch encrypted))
  else
    message_key ← ratchet_call (sender_index encrypted)
      (SymmetricRatchet.advance_to (generation encrypted));
    lift (decrypt_message encrypted message_key).

End store.
End SenderKeyStore.

Module SenderKeyProperties.
Import SymmetricRatchet Encryption SenderKeyStore.

Section properties.
Context `{Crypto}.

(** ** The key sequence of a seed *)

Fixpoint chain (seed : bytes) (n : nat) : bytes :=
  match n with
  | O => seed
  | S n' => hmac (chain seed n') CHAIN_LABEL
  end.

Definition key_at (seed : bytes) (g : N) : MessageKey :=
  mkMessageKey (hmac (chain seed (N.to_nat g)) MESSAGE_LABEL) g.

Definition at_gen (seed : bytes) (g : N) : SymmetricRatchet.t :=
  SymmetricRatchet.mk (chain seed (N.to_nat g)) g.

(** ** Lemmas on the ratchet *)

Lemma advance_at seed g :
  g < u32_MAX -> advance (at_gen seed g) = (at_gen seed (g + 1), Ok (key_at seed g)).
Proof.
  intros Hg. unfold advance. simpl. rewrite (proj2 (N.eqb_neq g u32_MAX)) by lia.
  unfold at_gen, derive_next_chain_key. simpl. rewrite N.mod_small by (unfold u32_MAX in *; lia).
  replace (N.to_nat (g + 1)) with (S (N.to_nat g)) by lia. done.
Qed.

Lemma advance_while_at seed target fuel : forall g acc,
  g <= target + 1 -> target < u32_MAX -> (N.to_nat (target + 1 - g) < fuel)%nat ->
  advance_while fuel target acc (at_gen seed g)
  = (at_gen seed (target + 1), Ok (if g =? target + 1 then acc else Some (key_at seed target))).
Proof.
  induction fuel as [|fuel IH]; intros g acc Hg Ht Hf; [lia|]. cbn [advance_while].
  change (SymmetricRatchet.generation (at_gen seed g)) with g. destruct (N.leb_spec g target) as [Hle|Hlt].
  - unfold mbind, M_bind. rewrite advance_at by lia. rewrite IH by lia.
    rewrite (proj2 (N.eqb_neq g (target + 1))) by lia.
    destruct (N.eqb_spec (g + 1) (target + 1)) as [E|E]; [|done].
    by replace g with target by lia.
  - replace g with (target + 1) by lia. by rewrite N.eqb_refl.
Qed.

Lemma advance_while_overflow seed fuel : forall g acc,
  g <= u32_MAX -> (N.to_nat (u32_MAX - g) < fuel)%nat ->
  advance_while fuel u32_MAX acc (at_gen seed g)
  = (at_gen seed u32_MAX, Err (SenderKeyError.GenerationOverflow u32_MAX)).
Proof.
  induction fuel as [|fuel IH]; intros g acc Hg Hf; [lia|]. cbn [advance_while].
  change (SymmetricRatchet.generation (at_gen seed g)) with g. rewrite (proj2 (N.leb_le g u32_MAX)) by lia.
  unfold mbind, M_bind. destruct (decide (g = u32_MAX)) as [->|Hne].
  - unfold advance. change (SymmetricRatchet.generation (at_gen seed u32_MAX)) with u32_MAX. by rewrite N.eqb_refl.
  - rewrite advance_at by lia. apply IH; lia.
Qed.

(** What [advance_to] does on every branch. *)
Lemma advance_to_cases seed g target :
  g <= u32_MAX -> target <= u32_MAX ->
  advance_to target (at_gen seed g)
  = if (target <? g) || (MAX_SKIP <? target - g)
    then (at_gen seed g, Err (SenderKeyError.RatchetTooFarBehind g target))
    else if target =? u32_MAX
    then (at_gen seed u32_MAX, Err (SenderKeyError.GenerationOverflow u32_MAX))
    else (at_gen seed (target + 1), Ok (key_at seed target)).
Proof.
  intros Hg Ht. unfold advance_to, mbind at 1, M_bind at 1, get at 1.
  change (SymmetricRatchet.generation (at_gen seed g)) with g.
  destruct (N.ltb_spec target g) as [Hlt|Hle]; [done|]. cbn [orb].
  destruct (N.ltb_spec MAX_SKIP (target - g)) as [Hs|Hs]; [done|]. unfold MAX_SKIP in *.
  unfold mbind at 1, M_bind at 1. destruct (N.eqb_spec target u32_MAX) as [->|Hne].
  - by rewrite advance_while_overflow by lia.
  - rewrite advance_while_at by lia. by rewrite (proj2 (N.eqb_neq g (target + 1))) by lia.
Qed.

(** ** Lemmas on the store *)

(** Every ratchet of the store is the member's key sequence at some point. *)
Definition synced (secret : bytes) (e : N) (s : SenderKeyStore.t) : Prop :=
  store_epoch s = e /\
  forall i r, ratchets s !! i = Some r ->
    exists g, g <= u32_MAX /\ r = at_gen (derive_sender_key_seed secret e i) g.

Lemma synced_at secret e s i g :
  synced secret e s -> sender_generation s i = Some g ->
  g <= u32_MAX /\ ratchets s !! i = Some (at_gen (derive_sender_key_seed secret e i) g).
Proof.
  intros [_ Hs] Hg. unfold sender_generation in Hg. apply fmap_Some in Hg as (r & Hr & ->).
  by destruct (Hs i r Hr) as (g & Hg & ->).
Qed.

Lemma synced_insert secret e s i g :
  synced secret e s -> g <= u32_MAX ->
  synced secret e (SenderKeyStore.mk (store_epoch s)
    (<[i := at_gen (derive_sender_key_seed secret e i) g]> (ratchets s))).
Proof.
  intros [He Hs] Hg. split; [done|]. simpl. intros j r.
  destruct (decide (j = i)) as [->|]; [|rewrite lookup_insert_ne by done; apply Hs].
  rewrite lookup_insert_eq. intros [= <-]. eauto.
Qed.

Lemma ratchets_init secret e members i :
  ratchets (initialize_epoch secret e members) !! i
  = if decide (i ∈ members)
    then Some (at_gen (derive_sender_key_seed secret e i) 0) else None.
Proof.
  unfold initialize_epoch. simpl.
  assert (Hgen : forall rs : gmap N SymmetricRatchet.t, fold_left (fun rs i =>
      <[i := SymmetricRatchet.new (derive_sender_key_seed secret e i)]> rs) members rs !! i
    = if decide (i ∈ members) then Some (at_gen (derive_sender_key_seed secret e i) 0)
      else rs !! i).
  2:{ rewrite Hgen. by rewrite lookup_empty. }
  induction members as [|j members IH]; intros rs; simpl.
  - done.
  - rewrite IH. destruct (decide (i ∈ members)) as [Hin|Hnin].
    + rewrite decide_True by (by right). done.
    + destruct (decide (i = j)) as [->|Hne].
      * rewrite lookup_insert_eq, decide_True by left. done.
      * rewrite lookup_insert_ne by done. rewrite decide_False; [done|].
        by rewrite not_elem_of_cons.
Qed.

Lemma init_synced secret e members : synced secret e (initialize_epoch secret e members).
Proof.
  split; [done|]. intros i r. rewrite ratchets_init. case_decide; [|done].
  intros [= <-]. exists 0. split; [unfold u32_MAX; lia|done].
Qed.

(** Encryption and decryption in a synced store, on every branch. *)
Lemma encrypt_cases secret e s i p rnd :
  synced secret e s ->
  encrypt i p rnd s
  = match sender_generation s i with
    | None => (s, Err (SenderKeyError.UnknownSender i))
    | Some g =>
        if g =? u32_MAX then
          (SenderKeyStore.mk e (<[i := at_gen (derive_sender_key_seed secret e i) g]> (ratchets s)),
           Err (SenderKeyError.GenerationOverflow g))
        else
          (SenderKeyStore.mk e
             (<[i := at_gen (derive_sender_key_seed secret e i) (g + 1)]> (ratchets s)),
           encrypt_message p (key_at (derive_sender_key_seed secret e i) g) e i rnd)
    end.
Proof.
  intros Hs. unfold encrypt, mbind, M_bind, get, ratchet_call.
  destruct (sender_generation s i) as [g|] eqn:Hg.
  - destruct (synced_at _ _ _ _ _ Hs Hg) as [Hle Hr]. rewrite Hr. destruct Hs as [He _].
    destruct (N.eqb_spec g u32_MAX) as [->|Hne].
    + unfold advance. change (SymmetricRatchet.generation (at_gen ?sd u32_MAX)) with u32_MAX.
      rewrite N.eqb_refl. by rewrite He.
    + rewrite advance_at by lia. by rewrite He.
  - unfold sender_generation in Hg. apply fmap_None in Hg. by rewrite Hg.
Qed.

Lemma decrypt_cases secret e s msg :
  synced secret e s -> generation msg <= u32_MAX ->
  decrypt msg s
  = if negb (epoch msg =? e) then (s, Err (SenderKeyError.EpochMismatch e (epoch msg)))
    else
      match sender_generation s (sender_index msg) with
      | None => (s, Err (SenderKeyError.UnknownSender (sender_index msg)))
      | Some g =>
          let sd := derive_sender_key_seed secret e (sender_index msg) in
          let set g' := SenderKeyStore.mk e (<[sender_index msg := at_gen sd g']> (ratchets s)) in
          if (generation msg <? g) || (MAX_SKIP <? generation msg - g)
          then (set g, Err (SenderKeyError.RatchetTooFarBehind g (generation msg)))
          else if generation msg =? u32_MAX
          then (set u32_MAX, Err (SenderKeyError.GenerationOverflow u32_MAX))
          else (set (generation msg + 1), decrypt_message msg (key_at sd (generation msg)))
      end.
Proof.
  intros Hs Hm. unfold decrypt, mbind, M_bind, get, ratchet_call. pose proof Hs as [He _].
  rewrite He. destruct (negb _); [done|].
  destruct (sender_generation s (sender_index msg)) as [g|] eqn:Hg.
  - destruct (synced_at _ _ _ _ _ Hs Hg) as [Hle Hr]. rewrite Hr, advance_to_cases by done.
    rewrite He. cbv zeta. destruct (_ || _); [done|]. by destruct (generation msg =? u32_MAX).
  - unfold sender_generation in Hg. apply fmap_None in Hg. by rewrite Hg.
Qed.

(** ** Sequences of operations *)

Inductive op :=
  | OEncrypt (i : N) (plaintext random_bytes : bytes)
  | ODecrypt (msg : EncryptedMessage).

(** The generation of a message is a [u32]. *)
Definition op_typed (o : op) : Prop :=
  match o with OEncrypt _ _ _ => True | ODecrypt msg => generation msg <= u32_MAX end.

Definition step (s : SenderKeyStore.t) (o : op) : SenderKeyStore.t :=
  match o with
  | OEncrypt i p rnd => fst (encrypt i p rnd s)
  | ODecrypt msg => fst (decrypt msg s)
  end.

Lemma sender_generation_insert e rs i seed g j :
  sender_generation (SenderKeyStore.mk e (<[i := at_gen seed g]> rs)) j
  = if decide (j = i) then Some g else SymmetricRatchet.generation <$> rs !! j.
Proof.
  unfold sender_generation. simpl. case_decide as Hj.
  - subst. by rewrite lookup_insert_eq.
  - by rewrite lookup_insert_ne.
Qed.

(** A step keeps the sequences and never turns a ratchet back. *)
Lemma step_synced secret e s o :
  synced secret e s -> op_typed o ->
  synced secret e (step s o) /\
  forall i g, sender_generation s i = Some g ->
    exists g', sender_generation (step s o) i = Some g' /\ g <= g'.
Proof.
  intros Hs Ho. pose proof Hs as [He _].
  assert (Hset : forall i g g', sender_generation s i = Some g -> g <= g' -> g' <= u32_MAX ->
    let s' := SenderKeyStore.mk e (<[i := at_gen (derive_sender_key_seed secret e i) g']> (ratchets s)) in
    synced secret e s' /\
    forall j gj, sender_generation s j = Some gj ->
      exists g', sender_generation s' j = Some g' /\ gj <= g').
  { intros i g g' Hg Hle Hle' s'. split.
    - unfold s'. rewrite <- He at 2. by apply synced_insert.
    - intros j gj Hj. unfold s'. rewrite sender_generation_insert.
      case_decide as E; [subst j; exists g'; split; [done|congruence || (simplify_eq; lia)]|].
      exists gj. split; [done|lia]. }
  assert (Hsame : synced secret e s /\ forall i g, sender_generation s i = Some g ->
    exists g', sender_generation s i = Some g' /\ g <= g').
  { split; [done|]. intros i g Hg. exists g. split; [done|lia]. }
  destruct o as [i p rnd|msg]; cbn [step].
  - rewrite (encrypt_cases secret e) by done.
    destruct (sender_generation s i) as [g|] eqn:Hg; [|done].
    destruct (synced_at _ _ _ _ _ Hs Hg) as [Hle _].
    destruct (N.eqb_spec g u32_MAX); apply (Hset i g); try done; lia.
  - rewrite (decrypt_cases secret e) by done. destruct (negb _); [done|].
    destruct (sender_generation s (sender_index msg)) as [g|] eqn:Hg; [|done].
    destruct (synced_at _ _ _ _ _ Hs Hg) as [Hle _]. cbv zeta. cbn in Ho.
    destruct ((generation msg <? g) || _) eqn:Hb; [apply (Hset _ g); try done; lia|].
    apply orb_false_iff in Hb as [Hb _]. bool2prop.
    destruct (N.eqb_spec (generation msg) u32_MAX); cbn [fst].
    + apply (Hset (sender_index msg) g u32_MAX Hg); lia.
    + apply (Hset (sender_index msg) g (generation msg + 1) Hg); lia.
Qed.

Lemma run_synced secret e ops : forall s,
  synced secret e s -> Forall op_typed ops ->
  synced secret e (run step s ops) /\
  forall i g, sender_generation s i = Some g ->
    exists g', sender_generation (run step s ops) i = Some g' /\ g <= g'.
Proof.
  induction ops as [|o ops IH]; intros s Hs Ho.
  { split; [done|]. intros i g Hg. exists g. split; [done|lia]. }
  inversion Ho as [|? ? Ho1 Ho2]; subst. destruct (step_synced secret e s o Hs Ho1) as [Hs1 Hm1].
  destruct (IH _ Hs1 Ho2) as [Hs2 Hm2]. split; [done|]. intros i g Hg.
  destruct (Hm1 i g Hg) as (g1 & Hg1 & ?). destruct (Hm2 i g1 Hg1) as (g2 & Hg2 & ?).
  exists g2. split; [done|lia].
Qed.

Lemma decrypt_message_encrypt p k e i rnd msg :
  encrypt_message p k e i rnd = Ok msg ->
  decrypt_message msg k = Ok p /\ epoch msg = e /\ sender_index msg = i /\
  generation msg = mk_generation k /\ nonce msg = build_nonce e i (mk_generation k) rnd.
Proof.
  unfold encrypt_message. destruct (aead_encrypt _ _ _) as [c|] eqn:Ha; [|done].
  intros [= <-]. unfold decrypt_message. simpl. rewrite N.eqb_refl. simpl.
  by rewrite (aead_decrypt_encrypt _ _ _ _ Ha).
Qed.

Lemma build_nonce_inj e i g rnd e' i' g' rnd' :
  e < 2 ^ 64 -> e' < 2 ^ 64 -> i < 2 ^ 32 -> i' < 2 ^ 32 -> g < 2 ^ 32 -> g' < 2 ^ 32 ->
  build_nonce e i g rnd = build_nonce e' i' g' rnd' -> e = e' /\ i = i' /\ g = g' /\ rnd = rnd'.
Proof.
  intros ? ? ? ? ? ? Hn. unfold build_nonce in Hn.
  apply app_inj_1 in Hn as [He Hn]; [|by rewrite !length_to_be_bytes].
  apply app_inj_1 in Hn as [Hi Hn]; [|by rewrite !length_to_be_bytes].
  apply app_inj_1 in Hn as [Hg Hn]; [|by rewrite !length_to_be_bytes].
  split_and!; [by apply (to_be_bytes_inj 8)|by apply (to_be_bytes_inj 4)..|done].
Qed.

(** The messages a store sends over a sequence of operations. *)
Fixpoint sent (s : SenderKeyStore.t) (ops : list op) : list EncryptedMessage :=
  match ops with
  | [] => []
  | o :: ops' =>
      match o with
      | OEncrypt i p rnd => match snd (encrypt i p rnd s) with Ok msg => [msg] | _ => [] end
      | ODecrypt _ => []
      end ++ sent (step s o) ops'
  end.

(** A message of a store that has reached state [s]. *)
Definition sent_from (e : N) (s : SenderKeyStore.t) (msg : EncryptedMessage) : Prop :=
  epoch msg = e /\ generation msg < u32_MAX /\
  (exists rnd, nonce msg = build_nonce e (sender_index msg) (generation msg) rnd) /\
  exists g, sender_generation s (sender_index msg) = Some g /\ g <= generation msg.

(** What is sent later has a later generation. *)
Lemma sent_after secret e ops : forall s,
  synced secret e s -> Forall op_typed ops ->
  Forall (sent_from e s)
    (sent s ops) /\
  NoDup (map (fun msg => (sender_index msg, generation msg)) (sent s ops)).
Proof.
  induction ops as [|o ops IH]; intros s Hs Ho; [by split; [|apply NoDup_nil]|].
  inversion Ho as [|? ? Ho1 Ho2]; subst.
  destruct (step_synced secret e s o Hs Ho1) as [Hs1 Hm1]. destruct (IH _ Hs1 Ho2) as [Hf Hnd].
  assert (Hf' : Forall (sent_from e s)
    (sent (step s o) ops)).
  { apply (Forall_impl _ _ _ Hf). intros msg (He & Hlt & Hn & g1 & Hg1 & Hle). split_and!; [done..|].
    destruct (sender_generation s (sender_index msg)) as [g|] eqn:Hg.
    - exists g. split; [done|]. destruct (Hm1 _ _ Hg) as (g2 & Hg2 & ?). rewrite Hg1 in Hg2.
      simplify_eq. lia.
    - exfalso. destruct o as [i p rnd|msg']; cbn [step] in Hg1.
      + rewrite (encrypt_cases secret e) in Hg1 by done.
        destruct (sender_generation s i) eqn:E; [|simpl in Hg1; congruence].
        case_match; cbn [fst] in Hg1; rewrite sender_generation_insert in Hg1;
          case_decide; try congruence; unfold sender_generation in Hg; congruence.
      + cbn in Ho1. rewrite (decrypt_cases secret e) in Hg1 by done.
        destruct (negb _); [simpl in Hg1; congruence|].
        destruct (sender_generation s (sender_index msg')) eqn:E; [|simpl in Hg1; congruence].
        cbv zeta in Hg1. unfold sender_generation in Hg, E.
        repeat case_match; cbn [fst] in Hg1; rewrite sender_generation_insert in Hg1;
          case_decide; congruence. }
  destruct o as [i p rnd|msg]; cbn [sent]; [|done].
  rewrite (encrypt_cases secret e) by done.
  destruct (sender_generation s i) as [g|] eqn:Hg; [|done].
  destruct (synced_at _ _ _ _ _ Hs Hg) as [Hle _].
  destruct (N.eqb_spec g u32_MAX) as [|Hne]; [done|]. cbn [snd].
  destruct (encrypt_message p _ e i rnd) as [msg| |] eqn:Hmsg; [|done..].
  destruct (decrypt_message_encrypt _ _ _ _ _ _ Hmsg) as (_ & He & Hi & Hgen & Hnon).
  cbn [mk_generation key_at] in Hgen, Hnon. cbn [app map]. split.
  - constructor; [|done]. unfold sent_from. rewrite He, Hi, Hgen, Hnon, Hg.
    split_and!; [done|lia|by exists rnd|by exists g].
  - apply NoDup_cons. split; [|done]. rewrite list_elem_of_In, in_map_iff.
    intros (msg' & [= Hi' Hg'] & Hin). apply list_elem_of_In in Hin.
    rewrite Forall_forall in Hf. destruct (Hf msg' Hin) as (_ & _ & _ & g1 & Hg1 & Hle1).
    cbn [step] in Hg1. rewrite (encrypt_cases secret e), Hg in Hg1 by done.
    rewrite (proj2 (N.eqb_neq g u32_MAX) Hne) in Hg1. cbn [fst] in Hg1.
    rewrite sender_generation_insert, decide_True in Hg1 by congruence. simplify_eq. lia.
Qed.

(** After a message in the window, whatever its ciphertext, its generation and
    the ones before it are gone. *)
Lemma decrypt_consumes secret e s msg ops msg' :
  synced secret e s -> generation msg <= u32_MAX -> Forall op_typed ops ->
  (is_ok (snd (decrypt msg s)) = true \/
   exists reason, snd (decrypt msg s) = Err (SenderKeyError.DecryptionFailed reason)) ->
  epoch msg' = epoch msg -> sender_index msg' = sender_index msg ->
  generation msg' <= generation msg ->
  exists g, snd (decrypt msg' (run step (fst (decrypt msg s)) ops))
            = Err (SenderKeyError.RatchetTooFarBehind g (generation msg')).
Proof.
  intros Hs Hm Hops Hok He Hi Hg.
  destruct (step_synced secret e s (ODecrypt msg) Hs Hm) as [Hs1 _]. cbn [step] in Hs1.
  destruct (run_synced secret e ops _ Hs1 Hops) as [Hs2 Hmono].
  assert (Hnow : epoch msg = e /\
    sender_generation (fst (decrypt msg s)) (sender_index msg) = Some (generation msg + 1)).
  { rewrite (decrypt_cases secret e) in Hok |- * by done.
    destruct (N.eqb_spec (epoch msg) e) as [->|]; cbn [negb] in *; [|naive_solver].
    destruct (sender_generation s (sender_index msg)) as [g0|]; [|naive_solver].
    cbv zeta in *. destruct (_ || _); [naive_solver|].
    destruct (generation msg =? u32_MAX); [naive_solver|]. cbn [fst].
    rewrite sender_generation_insert. by rewrite decide_True. }
  destruct Hnow as [Hep Hnow]. destruct (Hmono _ _ Hnow) as (g2 & Hg2 & Hle2).
  exists g2. rewrite (decrypt_cases secret e) by (done || lia).
  rewrite He, Hep, N.eqb_refl, Hi, Hg2. cbn [negb]. cbv zeta.
  by rewrite (proj2 (N.ltb_lt (generation msg') g2)) by lia.
Qed.

(** ** Properties *)

(** Two stores of the same key sequences. *)
Lemma synced_roundtrip secret e A B i p rnd gA gB :
  synced secret e A -> synced secret e B -> len p < 2 ^ 32 ->
  sender_generation A i = Some gA -> gA < u32_MAX -> sender_generation B i = Some gB ->
  exists msg,
    snd (encrypt i p rnd A) = Ok msg /\
    epoch msg = e /\ sender_index msg = i /\ generation msg = gA /\
    nonce msg = build_nonce e i gA rnd /\ len (ciphertext msg) = len p + 16 /\
    sender_generation (fst (encrypt i p rnd A)) i = Some (gA + 1) /\
    let '(B', answer) := decrypt msg B in
    if (gA <? gB) || (MAX_SKIP <? gA - gB)
    then answer = Err (SenderKeyError.RatchetTooFarBehind gB gA) /\
         sender_generation B' i = Some gB
    else answer = Ok p /\ sender_generation B' i = Some (gA + 1).
Proof.
  intros HA HB Hp HgA Hlt HgB.
  rewrite (encrypt_cases secret e) by done. rewrite HgA, (proj2 (N.eqb_neq gA u32_MAX)) by lia.
  cbn [fst snd]. set (k := key_at (derive_sender_key_seed secret e i) gA).
  destruct (aead_encrypt_total (mk_key k) (build_nonce e i (mk_generation k) rnd) p Hp) as [ct Hct].
  destruct (encrypt_message p k e i rnd) as [msg| |] eqn:Hmsg;
    [|unfold encrypt_message in Hmsg; by rewrite Hct in Hmsg..].
  destruct (decrypt_message_encrypt _ _ _ _ _ _ Hmsg) as (Hdec & He & Hi & Hg & Hn).
  assert (ciphertext msg = ct) as Hc.
  { unfold encrypt_message in Hmsg. rewrite Hct in Hmsg. by injection Hmsg as <-. }
  cbn in Hg. exists msg. rewrite sender_generation_insert, decide_True by done.
  apply aead_encrypt_length in Hct. rewrite Hc.
  split_and!; try done. rewrite (decrypt_cases secret e) by (done || lia).
  rewrite He, N.eqb_refl, Hi, HgB, Hg. cbn [negb]. cbv zeta.
  destruct (_ || _).
  { split; [done|]. rewrite sender_generation_insert. by rewrite decide_True. }
  rewrite (proj2 (N.eqb_neq gA u32_MAX)) by lia. fold k. split; [done|].
  rewrite sender_generation_insert. by rewrite decide_True.
Qed.

(** A copy of the store that encrypted a message decrypts it and becomes, like
    that store, the next one. *)
Lemma decrypt_copy secret e s i p rnd s' msg :
  synced secret e s -> encrypt i p rnd s = (s', Ok msg) ->
  decrypt msg s = (s', Ok p) /\ synced secret e s' /\ dom (ratchets s') = dom (ratchets s).
Proof.
  intros Hs. rewrite (encrypt_cases secret e) by done.
  destruct (sender_generation s i) as [g|] eqn:Hg; [|done].
  destruct (synced_at _ _ _ _ _ Hs Hg) as [Hle Hr].
  destruct (N.eqb_spec g u32_MAX); [done|]. intros [= <- Hmsg].
  destruct (decrypt_message_encrypt _ _ _ _ _ _ Hmsg) as (Hdec & He & Hi & Hgen & _). cbn in Hgen.
  split_and!.
  - rewrite (decrypt_cases secret e) by (done || lia).
    rewrite He, N.eqb_refl, Hi, Hg, Hgen. cbn [negb]. cbv zeta.
    rewrite N.ltb_irrefl, N.sub_diag, (proj2 (N.eqb_neq g u32_MAX)) by done. cbn [orb N.ltb].
    by rewrite Hdec.
  - pose proof Hs as [<- _]. apply synced_insert; [done|lia].
  - cbn. apply dom_insert_lookup_L. by rewrite Hr.
Qed.

(** C8: a message that is sent can be read: two members whose stores were
    initialised from the same secret and epoch have, after any operations on
    either side (other messages in any order, and forged ones), the same keys.
    An encryption of a member that has not used up its generations succeeds and
    uses up one; the other side decrypts the result to the plaintext when the
    generation is not behind its own and at most [MAX_SKIP] ahead, and answers
    [RatchetTooFarBehind], without a change, otherwise. *)
Theorem message_roundtrip secret e membersA membersB opsA opsB i p rnd gA gB :
  let A := run step (initialize_epoch secret e membersA) opsA in
  let B := run step (initialize_epoch secret e membersB) opsB in
  Forall op_typed opsA -> Forall op_typed opsB -> len p < 2 ^ 32 ->
  sender_generation A i = Some gA -> gA < u32_MAX -> sender_generation B i = Some gB ->
  exists msg,
    snd (encrypt i p rnd A) = Ok msg /\ generation msg = gA /\
    sender_generation (fst (encrypt i p rnd A)) i = Some (gA + 1) /\
    let '(B', answer) := decrypt msg B in
    if (gA <? gB) || (MAX_SKIP <? gA - gB)
    then answer = Err (SenderKeyError.RatchetTooFarBehind gB gA) /\
         sender_generation B' i = Some gB
    else answer = Ok p /\ sender_generation B' i = Some (gA + 1).
Proof.
  intros A B HoA HoB Hp HgA Hlt HgB.
  destruct (run_synced secret e opsA _ (init_synced secret e membersA) HoA) as [HA _]. fold A in HA.
  destruct (run_synced secret e opsB _ (init_synced secret e membersB) HoB) as [HB _]. fold B in HB.
  destruct (synced_roundtrip secret e A B i p rnd gA gB) as (msg & H1 & _ & _ & H2 & _ & _ & H3 & H4);
    [done..|]. by exists msg.
Qed.

(** C28: no message is accepted twice: once a store has decrypted a message,
    then after any further operations it refuses every message of the same
    sender and epoch whose generation is that one or an earlier one. *)
Theorem replay_rejected secret e members ops1 ops2 msg p msg' :
  let s := run step (initialize_epoch secret e members) ops1 in
  Forall op_typed ops1 -> Forall op_typed ops2 -> generation msg <= u32_MAX ->
  snd (decrypt msg s) = Ok p ->
  epoch msg' = epoch msg -> sender_index msg' = sender_index msg ->
  generation msg' <= generation msg ->
  exists g, snd (decrypt msg' (run step (fst (decrypt msg s)) ops2))
            = Err (SenderKeyError.RatchetTooFarBehind g (generation msg')).
Proof.
  intros s Ho1 Ho2 Hm Hok. destruct (run_synced secret e ops1 _ (init_synced secret e members) Ho1)
    as [Hs _]. fold s in Hs. apply (decrypt_consumes secret e); try done. left. by rewrite Hok.
Qed.

(** a forged message consumes keys: when a message is refused because its
    authentication fails, every genuine message of that sender up to its
    generation is refused from then on. *)
Theorem forged_message_consumes_keys secret e members ops1 ops2 msg reason msg' :
  let s := run step (initialize_epoch secret e members) ops1 in
  Forall op_typed ops1 -> Forall op_typed ops2 -> generation msg <= u32_MAX ->
  snd (decrypt msg s) = Err (SenderKeyError.DecryptionFailed reason) ->
  epoch msg' = epoch msg -> sender_index msg' = sender_index msg ->
  generation msg' <= generation msg ->
  exists g, snd (decrypt msg' (run step (fst (decrypt msg s)) ops2))
            = Err (SenderKeyError.RatchetTooFarBehind g (generation msg')).
Proof.
  intros s Ho1 Ho2 Hm Hbad. destruct (run_synced secret e ops1 _ (init_synced secret e members) Ho1)
    as [Hs _]. fold s in Hs. apply (decrypt_consumes secret e); try done. right. by exists reason.
Qed.

(** C27: a store never uses a nonce twice: over any operations, and with
    whatever random suffixes, the nonces of the messages it sends are pairwise
    different. *)
Theorem nonces_never_repeat secret e members ops :
  e < 2 ^ 64 -> Forall (fun i => i < 2 ^ 32) members -> Forall op_typed ops ->
  NoDup (map nonce (sent (initialize_epoch secret e members) ops)).
Proof.
  intros He Hmem Hops. set (s := initialize_epoch secret e members).
  destruct (sent_after secret e ops s (init_synced secret e members) Hops) as [Hf Hnd].
  assert (Hn : Forall (fun msg => sender_index msg < 2 ^ 32 /\ generation msg < 2 ^ 32 /\
    exists rnd, nonce msg = build_nonce e (sender_index msg) (generation msg) rnd) (sent s ops)).
  { rewrite Forall_forall in Hf |- *. intros msg Hin.
    destruct (Hf msg Hin) as (_ & Hlt & Hn & g & Hg & _). split_and!; [|unfold u32_MAX in Hlt; lia|done].
    unfold sender_generation, s in Hg. rewrite ratchets_init in Hg.
    case_decide as Hi; [|done]. rewrite Forall_forall in Hmem. auto. }
  clear Hf. induction (sent s ops) as [|msg l IH]; cbn [map] in *; [by apply NoDup_nil|].
  apply NoDup_cons in Hnd as [Hnin Hnd]. inversion Hn as [|? ? (Hi & Hg & rnd & Hm) Hn']; subst.
  apply NoDup_cons. split; [|by apply IH]. rewrite list_elem_of_In, in_map_iff.
  intros (msg' & Heq & Hin). apply Hnin. rewrite list_elem_of_In, in_map_iff.
  exists msg'. split; [|done]. rewrite Forall_forall in Hn'.
  destruct (Hn' msg' ltac:(by apply list_elem_of_In)) as (Hi' & Hg' & rnd' & Hm').
  rewrite Hm, Hm' in Heq.
  by destruct (build_nonce_inj _ _ _ _ _ _ _ _ He He Hi' Hi Hg' Hg Heq) as (_ & -> & -> & _).
Qed.

End properties.
(** ** Witnesses *)

(** A toy cipher: the text followed by a tag of the key and the nonce. *)
Definition toy_tag (k n : bytes) : bytes := to_be_bytes 16 (from_be_bytes k + from_be_bytes n).

Definition toy_decrypt (k n c : bytes) : option bytes :=
  let p := take (length c - 16) c in
  if bool_decide (c = p ++ toy_tag k n) then Some p else None.

Lemma toy_decrypt_encrypt k n p c : Some (p ++ toy_tag k n) = Some c -> toy_decrypt k n c = Some p.
Proof.
  intros [= <-]. unfold toy_decrypt.
  assert (Ht : length (toy_tag k n) = 16%nat) by apply length_to_be_bytes.
  rewrite length_app, Ht. replace (length p + 16 - 16)%nat with (length p) by lia.
  rewrite take_app_length. by rewrite bool_decide_eq_true_2.
Qed.

Lemma toy_encrypt_length k n p c : Some (p ++ toy_tag k n) = Some c -> len c = len p + 16.
Proof. intros [= <-]. by rewrite len_app. Qed.

Definition toy_crypto : Crypto := {|
  hmac k m := to_be_bytes 32 (2 * from_be_bytes k + len m);
  hmac_length k m := length_to_be_bytes 32 _;
  hkdf ikm info := to_be_bytes 32 (from_be_bytes ikm + from_be_bytes info);
  hkdf_length ikm info := length_to_be_bytes 32 _;
  aead_encrypt k n p := Some (p ++ toy_tag k n);
  aead_decrypt := toy_decrypt;
  aead_decrypt_encrypt := toy_decrypt_encrypt;
  aead_encrypt_total k n p _ := ex_intro _ _ eq_refl;
  aead_encrypt_length := toy_encrypt_length;
|}.

#[local] Existing Instance toy_crypto.

Definition sample_secret : bytes := zeros 32.
Definition sample_text : bytes := [Init.Byte.x68; Init.Byte.x69].
Definition sample_rnd : bytes := zeros 8.
Definition sample_init : SenderKeyStore.t := initialize_epoch sample_secret 1 [0; 1].

(** The first message of member 0, and the same with a wrong tag at generation
    5. *)
Definition sample_msg : EncryptedMessage :=
  match snd (encrypt 0 sample_text sample_rnd sample_init) with
  | Ok msg => msg
  | _ => mkEncrypted 0 0 0 [] []
  end.
Definition sample_forged : EncryptedMessage := mkEncrypted 1 0 5 (zeros 24) (zeros 20).

Lemma message_roundtrip_witness :
  exists msg, snd (encrypt 0 sample_text sample_rnd
                     (run step sample_init [OEncrypt 0 [] sample_rnd])) = Ok msg /\
    snd (decrypt msg sample_init) = Ok sample_text.
Proof.
  assert (Ho : Forall op_typed [OEncrypt 0 [] sample_rnd]) by repeat constructor.
  destruct (message_roundtrip sample_secret 1 [0; 1] [0; 1] [OEncrypt 0 [] sample_rnd] []
    0 sample_text sample_rnd 1 0 Ho (Forall_nil_2 _) ltac:(vm_compute; reflexivity)
    ltac:(vm_compute; reflexivity) ltac:(vm_compute; reflexivity) ltac:(vm_compute; reflexivity))
    as (msg & Henc & _ & _ & Hdec).
  exists msg. split; [exact Henc|]. change (run step ?s []) with s in Hdec.
  fold sample_init in Hdec. destruct (decrypt msg sample_init) as [B' answer].
  destruct Hdec as [-> _]. done.
Defined.

Lemma replay_rejected_witness :
  exists g, snd (decrypt sample_msg (fst (decrypt sample_msg sample_init)))
            = Err (SenderKeyError.RatchetTooFarBehind g 0).
Proof.
  apply (replay_rejected sample_secret 1 [0; 1] [] [] sample_msg sample_text sample_msg).
  - constructor.
  - constructor.
  - vm_compute. discriminate.
  - vm_compute. reflexivity.
  - reflexivity.
  - reflexivity.
  - vm_compute. discriminate.
Defined.

Lemma forged_message_consumes_keys_witness :
  exists g, snd (decrypt sample_msg (fst (decrypt sample_forged sample_init)))
            = Err (SenderKeyError.RatchetTooFarBehind g 0).
Proof.
  apply (forged_message_consumes_keys sample_secret 1 [0; 1] [] [] sample_forged
           "authentication failed" sample_msg).
  - constructor.
  - constructor.
  - vm_compute. discriminate.
  - vm_compute. reflexivity.
  - reflexivity.
  - reflexivity.
  - vm_compute. discriminate.
Defined.

Lemma nonces_never_repeat_witness :
  NoDup (map nonce (sent sample_init [OEncrypt 0 [] sample_rnd; OEncrypt 1 [] sample_rnd;
                                      OEncrypt 0 [] sample_rnd])).
Proof.
  apply (nonces_never_repeat sample_secret 1 [0; 1]).
  - vm_compute. reflexivity.
  - repeat constructor.
  - repeat constructor.
Defined.

End SenderKeyProperties.
