(* ===== verification/UnitCrypto.v ===== *)
(** * The unit tests of the sender keys

    [derivation.rs], [ratchet.rs], [encryption.rs] and [error.rs] of
    [lockframe-crypto/src/sender_keys] and [sender_key_store.rs] of
    [lockframe-client].  The primitives are checksums: a digest is that of its
    inputs, a ciphertext is the text and the digest of the key, the nonce and the
    text. *)

From S2P Require Import Prelude SenderKeys UnitTesting.
Import Encryption.

Local Open Scope N_scope.

(** ** Checksums for the primitives *)

Definition checksum (bs : bytes) : N :=
  fold_left (fun a b => (a * 31 + Byte.to_N b + 7) mod (2 ^ 61 - 1)) bs 1.

Definition tag (k n p : bytes) : bytes := to_be_bytes 16 (checksum (k ++ n ++ p)).
Definition open_tag (k n c : bytes) : option bytes :=
  let p := take (length c - 16) c in
  if bool_decide (drop (length c - 16) c = tag k n p) then Some p else None.

Lemma open_tagged k n p c : Some (p ++ tag k n p) = Some c -> open_tag k n c = Some p.
Proof.
  intros [= <-]. unfold open_tag.
  assert (Ht : length (tag k n p) = 16%nat) by apply length_to_be_bytes.
  rewrite length_app, Ht. replace (length p + 16 - 16)%nat with (length p) by lia.
  rewrite take_app_length, drop_app_length. by rewrite bool_decide_eq_true_2.
Qed.

Lemma tagged_length k n p c : Some (p ++ tag k n p) = Some c -> len c = len p + 16.
Proof. intros [= <-]. by rewrite len_app. Qed.

#[export] Instance checksum_crypto : Crypto := {|
  hmac k m := to_be_bytes 32 (checksum (k ++ m));
  hmac_length k m := length_to_be_bytes 32 _;
  hkdf ikm info := to_be_bytes 32 (checksum (info ++ ikm));
  hkdf_length ikm info := length_to_be_bytes 32 _;
  aead_encrypt k n p := Some (p ++ tag k n p);
  aead_decrypt := open_tag;
  aead_decrypt_encrypt := open_tagged;
  aead_encrypt_total k n p _ := ex_intro _ _ eq_refl;
  aead_encrypt_length := tagged_length;
|}.

Definition check_ne {S A} `{EqDecision A} (a b : A) : test S unit := check (negb (bool_decide (a = b))).

(** The bytes 0, 1, 2, ... of [test_seed] and [test_epoch_secret]. *)
Definition counting (from : nat) : bytes := map (fun i => byte_of (N.of_nat (i + from))) (List.seq 0 32).

(** ** [derivation.rs] *)

Module DerivationTests.

Definition epoch_secret : bytes := str "test_epoch_secret_material_here!".

Definition derive_produces_32_byte_seed : test unit unit :=
  check_eq (len (derive_sender_key_seed (zeros 32) 0 0)) 32.

Definition derive_is_deterministic : test unit unit :=
  let seed1 := derive_sender_key_seed epoch_secret 42 7 in
  let seed2 := derive_sender_key_seed epoch_secret 42 7 in
  check_eq seed1 seed2.

Definition different_epochs_produce_different_seeds : test unit unit :=
  check_ne (derive_sender_key_seed epoch_secret 0 0) (derive_sender_key_seed epoch_secret 1 0).

Definition different_senders_produce_different_seeds : test unit unit :=
  check_ne (derive_sender_key_seed epoch_secret 5 0) (derive_sender_key_seed epoch_secret 5 1).

Definition different_epoch_secrets_produce_different_seeds : test unit unit :=
  let seed_a := derive_sender_key_seed (str "epoch_secret_a__________________") 0 0 in
  let seed_b := derive_sender_key_seed (str "epoch_secret_b__________________") 0 0 in
  check_ne seed_a seed_b.

Definition derive_all_produces_correct_count : test unit unit :=
  let seeds := derive_all_sender_seeds epoch_secret 0 [0; 1; 5; 10] in
  check_eq (len seeds) 4;;
  for_each [(0%nat, 0); (1%nat, 1); (2%nat, 5); (3%nat, 10)] (fun '(i, index_) =>
    s ← index seeds i; check_eq (fst s) index_).

Definition derive_all_matches_individual_derivation : test unit unit :=
  let epoch := 3 in
  for_each (derive_all_sender_seeds epoch_secret epoch [2; 7]) (fun '(index_, batch_seed) =>
    check_eq batch_seed (derive_sender_key_seed epoch_secret epoch index_)).

Definition works_with_empty_epoch_secret : test unit unit :=
  check_eq (len (derive_sender_key_seed [] 0 0)) 32.

Definition works_with_large_epoch_secret : test unit unit :=
  check_eq (len (derive_sender_key_seed (filled 0xAB 1024) 0 0)) 32.

(** The derivation has an answer at the bounds of its arguments. *)
Definition epoch_boundary_values : test unit unit :=
  for_each [(0, 0); (u64_MAX, 0); (0, u32_MAX)] (fun '(epoch, sender_index) =>
    let _ := derive_sender_key_seed epoch_secret epoch sender_index in mret tt).

(** The tests of [derivation.rs] pass on the model. *)
Lemma derivation_tests_pass : all_pass (map (fun t => run_test t tt)
  [derive_produces_32_byte_seed; derive_is_deterministic; different_epochs_produce_different_seeds;
   different_senders_produce_different_seeds; different_epoch_secrets_produce_different_seeds;
   derive_all_produces_correct_count; derive_all_matches_individual_derivation;
   works_with_empty_epoch_secret; works_with_large_epoch_secret;
   epoch_boundary_values]) = true.
Proof. vm_compute. reflexivity. Qed.

End DerivationTests.

(** ** [ratchet.rs] *)

Module RatchetTests.
Import SymmetricRatchet.

Abbreviation ratchet := SymmetricRatchet.t.
Definition test_seed : bytes := counting 0.
Definition generation_is (g : N) : test ratchet unit := x ← query generation; check_eq x g.
Definition first {E A} (c : M ratchet E A) : M (ratchet * ratchet) E A := fun '(r1, r2) =>
  let '(r1', x) := c r1 in ((r1', r2), x).
Definition second {E A} (c : M ratchet E A) : M (ratchet * ratchet) E A := fun '(r1, r2) =>
  let '(r2', x) := c r2 in ((r1, r2'), x).

Definition new_ratchet_starts_at_generation_zero : test ratchet unit := generation_is 0.

Definition advance_increments_generation : test ratchet unit :=
  key0 ← unwrap advance;
  check_eq (mk_generation key0) 0;;
  generation_is 1;;
  key1 ← unwrap advance;
  check_eq (mk_generation key1) 1;;
  generation_is 2.

Definition advance_produces_unique_keys : test ratchet unit :=
  key0 ← unwrap advance;
  key1 ← unwrap advance;
  key2 ← unwrap advance;
  check_ne (mk_key key0) (mk_key key1);;
  check_ne (mk_key key1) (mk_key key2);;
  check_ne (mk_key key0) (mk_key key2).

Definition ratchet_is_deterministic : test (ratchet * ratchet) unit :=
  for_range 0 10 (fun _ =>
    key1 ← unwrap (first advance);
    key2 ← unwrap (second advance);
    check_eq (mk_key key1) (mk_key key2);;
    check_eq (mk_generation key1) (mk_generation key2)).

(** Over the ratchets of two seeds. *)
Definition different_seeds_produce_different_keys : test (ratchet * ratchet) unit :=
  key1 ← unwrap (first advance);
  key2 ← unwrap (second advance);
  check_ne (mk_key key1) (mk_key key2).

Definition advance_to_current_generation : test ratchet unit :=
  key ← unwrap (advance_to 0);
  check_eq (mk_generation key) 0;;
  generation_is 1.

Definition advance_to_skips_forward : test ratchet unit :=
  key ← unwrap (advance_to 5);
  check_eq (mk_generation key) 5;;
  generation_is 6.

Definition advance_to_matches_sequential_advance : test (ratchet * ratchet) unit :=
  for_range 0 5 (fun _ => unwrap (first advance);; mret tt);;
  key_sequential ← unwrap (first advance);
  key_skip ← unwrap (second (advance_to 5));
  check_eq (mk_key key_sequential) (mk_key key_skip).

Definition advance_to_rejects_past_generation : test ratchet unit :=
  unwrap (advance_to 5);;
  result ← attempt (advance_to 3);
  match result with
  | Err (SenderKeyError.RatchetTooFarBehind current requested) =>
      check_eq current 6;; check_eq requested 3
  | _ => lift Panic
  end.

Definition advance_to_rejects_too_far_ahead : test ratchet unit :=
  result ← attempt (advance_to (MAX_SKIP + 100));
  match result with
  | Err (SenderKeyError.RatchetTooFarBehind _ _) => mret tt
  | _ => lift Panic
  end.

Definition message_key_has_32_byte_key : test ratchet unit :=
  key ← unwrap advance; check_eq (len (mk_key key)) 32.

(** The tests of [ratchet.rs] pass on the model. *)
Lemma ratchet_tests_pass : all_pass
  (map (fun t => run_test t (new test_seed))
     [new_ratchet_starts_at_generation_zero; advance_increments_generation;
      advance_produces_unique_keys; advance_to_current_generation; advance_to_skips_forward;
      advance_to_rejects_past_generation; advance_to_rejects_too_far_ahead;
      message_key_has_32_byte_key]
   ++ map (fun t => run_test t (new test_seed, new test_seed))
     [ratchet_is_deterministic; advance_to_matches_sequential_advance]
   ++ [run_test different_seeds_produce_different_keys
         (new (byte_of 1 :: zeros 31), new (byte_of 2 :: zeros 31))]) = true.
Proof. vm_compute. reflexivity. Qed.

End RatchetTests.

(** ** [encryption.rs] and [error.rs] *)

Module EncryptionTests.

Definition test_message_key (target_gen : N) : test unit MessageKey := fun u =>
  let advances : test SymmetricRatchet.t MessageKey :=
    for_range 0 target_gen (fun _ => unwrap SymmetricRatchet.advance;; mret tt);;
    unwrap SymmetricRatchet.advance in
  (u, snd (advances (SymmetricRatchet.new (counting (N.to_nat target_gen))))).

Definition encrypts (plaintext : bytes) (key : MessageKey) (epoch sender_index : N) (random : bytes)
    : test unit EncryptedMessage := unwrap (lift (encrypt_message plaintext key epoch sender_index random)).

(** The steps of the three round trips. *)
Definition round_trip (plaintext : bytes) (epoch sender_index : N) (random_suffix : bytes)
    : test unit unit :=
  message_key ← test_message_key 0;
  encrypted ← encrypts plaintext message_key epoch sender_index random_suffix;
  decrypted ← unwrap (lift (decrypt_message encrypted message_key));
  check_eq decrypted plaintext.

Definition encrypt_decrypt_roundtrip : test unit unit :=
  round_trip (str "Hello, World!") 1 42 (filled 0xAB NONCE_RANDOM_SIZE).
Definition encrypt_decrypt_empty_message : test unit unit :=
  round_trip [] 0 0 (filled 0 NONCE_RANDOM_SIZE).
Definition encrypt_decrypt_large_message : test unit unit :=
  round_trip (filled 0x42 (64 * 1024)) 100 200 (filled 0xFF NONCE_RANDOM_SIZE).

Definition encrypted_message_has_correct_metadata : test unit unit :=
  message_key ← test_message_key 5;
  encrypted ← encrypts (str "test") message_key 42 7 (filled 0 NONCE_RANDOM_SIZE);
  check_eq (epoch encrypted) 42;;
  check_eq (sender_index encrypted) 7;;
  check_eq (generation encrypted) 5.

Definition ciphertext_is_larger_than_plaintext : test unit unit :=
  message_key ← test_message_key 0;
  let plaintext := str "test message" in
  encrypted ← encrypts plaintext message_key 0 0 (filled 0 NONCE_RANDOM_SIZE);
  check_eq (len (ciphertext encrypted)) (len plaintext + POLY1305_TAG_SIZE).

Definition different_random_produces_different_nonces : test unit unit :=
  message_key ← test_message_key 0;
  encrypted1 ← encrypts (str "test") message_key 0 0 (filled 0 NONCE_RANDOM_SIZE);
  encrypted2 ← encrypts (str "test") message_key 0 0 (filled 0xFF NONCE_RANDOM_SIZE);
  check_ne (nonce encrypted1) (nonce encrypted2);;
  check_ne (ciphertext encrypted1) (ciphertext encrypted2).

Definition wrong_key_fails_decryption : test unit unit :=
  message_key ← test_message_key 0;
  encrypted ← encrypts (str "secret message") message_key 0 0 (filled 0 NONCE_RANDOM_SIZE);
  let different_seed := byte_of 0 :: filled 0xFF 31 in
  wrong_key ← unwrap (lift (snd (SymmetricRatchet.advance (SymmetricRatchet.new different_seed))));
  check (match decrypt_message encrypted wrong_key with
         | Err (SenderKeyError.DecryptionFailed reason) => contains_str "authentication" reason
         | _ => false
         end).

(** [encrypted.ciphertext[0] ^= 0xFF] where there is a byte. *)
Definition tampered_ciphertext_fails_decryption : test unit unit :=
  message_key ← test_message_key 0;
  encrypted ← encrypts (str "original message") message_key 0 0 (filled 0 NONCE_RANDOM_SIZE);
  let tampered :=
    mkEncrypted (epoch encrypted) (sender_index encrypted) (generation encrypted) (nonce encrypted)
      (match ciphertext encrypted with
       | [] => []
       | b :: rest => byte_of (N.lxor (Byte.to_N b) 0xFF) :: rest
       end) in
  check (is_err (decrypt_message tampered message_key)).

Definition nonce_structure : test unit unit :=
  let nonce := build_nonce 0x0102030405060708 0x090A0B0C 0x0D0E0F10 (filled 0xAB NONCE_RANDOM_SIZE) in
  check_eq (slice nonce 0 8) (lit [1; 2; 3; 4; 5; 6; 7; 8]);;
  check_eq (slice nonce 8 12) (lit [9; 10; 11; 12]);;
  check_eq (slice nonce 12 16) (lit [13; 14; 15; 16]);;
  check_eq (slice nonce 16 24) (filled 0xAB 8).

Definition plaintext_len_calculation : test unit unit :=
  message_key ← test_message_key 0;
  let plaintext := str "hello world" in
  encrypted ← encrypts plaintext message_key 0 0 (filled 0 NONCE_RANDOM_SIZE);
  check_eq (plaintext_len encrypted) (len plaintext).

Definition decryption_failed_is_fatal : test unit unit :=
  check (SenderKeyError.is_fatal (SenderKeyError.DecryptionFailed "tag mismatch")).
Definition unknown_sender_is_not_fatal : test unit unit :=
  check (negb (SenderKeyError.is_fatal (SenderKeyError.UnknownSender 42))).
Definition epoch_mismatch_is_not_fatal : test unit unit :=
  check (negb (SenderKeyError.is_fatal (SenderKeyError.EpochMismatch 5 3))).
Definition error_display : test unit unit :=
  check_eq (SenderKeyError.display (SenderKeyError.RatchetTooFarBehind 10 100))
    "ratchet too far behind: at generation 10, need 100"%string.

(** The tests of [encryption.rs] and [error.rs] pass on the model. *)
Lemma encryption_tests_pass : all_pass (map (fun t => run_test t tt)
  [encrypt_decrypt_roundtrip; encrypt_decrypt_empty_message;
   encrypted_message_has_correct_metadata; ciphertext_is_larger_than_plaintext;
   different_random_produces_different_nonces; wrong_key_fails_decryption;
   tampered_ciphertext_fails_decryption; nonce_structure; plaintext_len_calculation;
   decryption_failed_is_fatal; unknown_sender_is_not_fatal; epoch_mismatch_is_not_fatal;
   error_display]) = true.
Proof. vm_compute. reflexivity. Qed.

(** The round trip passes with every text; so does that of 64 KiB. *)
Lemma decrypt_encrypted p key e i r : len p < 2 ^ 32 ->
  exists m, encrypt_message p key e i r = Ok m /\ decrypt_message m key = Ok p.
Proof.
  intros Hp. unfold encrypt_message.
  destruct (aead_encrypt_total (mk_key key) (build_nonce e i (mk_generation key) r) p Hp) as [c Hc].
  rewrite Hc. eexists. split; [done|]. unfold decrypt_message. cbn [generation nonce ciphertext].
  rewrite N.eqb_refl. cbn [negb]. by rewrite (aead_decrypt_encrypt _ _ _ _ Hc).
Qed.

Lemma round_trip_passes plaintext e i random_suffix : len plaintext < 2 ^ 32 ->
  run_test (round_trip plaintext e i random_suffix) tt = Ok tt.
Proof.
  intros Hp. assert (Hk : exists key, test_message_key 0 tt = (tt, Ok key)) by (eexists; reflexivity).
  destruct Hk as [key Hk]. destruct (decrypt_encrypted plaintext key e i random_suffix Hp) as (m & He & Hd).
  unfold run_test, round_trip, encrypts, unwrap, check_eq, check. unfold_M. rewrite Hk, He, Hd.
  rewrite bool_decide_eq_true_2 by done. done.
Qed.

Lemma large_message_test_passes : run_test encrypt_decrypt_large_message tt = Ok tt.
Proof.
  apply round_trip_passes. unfold filled, len. rewrite length_replicate. lia.
Qed.

End EncryptionTests.

(** ** [sender_key_store.rs] *)

Module StoreTests.
Import SenderKeyStore.

Abbreviation store := SenderKeyStore.t.
Definition test_epoch_secret : bytes := counting 0.
Definition store_of (epoch : N) (members : list N) : store :=
  initialize_epoch test_epoch_secret epoch members.
(** A call on a second store. *)
Definition on {S A} (s : store) (c : M store SenderKeyError.t A) : test S A := unwrap (lift (snd (c s))).
Definition expects {A} `{EqDecision A} (f : store -> A) (a : A) : test store unit :=
  x ← query f; check_eq x a.

Definition initialize_epoch_creates_ratchets_for_all_members : test store unit :=
  expects store_epoch 1;;
  expects member_count 4;;
  for_each [0; 1; 5; 10] (fun i => expects (fun s => has_member s i) true);;
  expects (fun s => has_member s 2) false.

Definition encrypt_decrypt_roundtrip : test store unit :=
  let plaintext := str "Hello, World!" in
  encrypted ← unwrap (encrypt 0 plaintext (filled 0xAB NONCE_RANDOM_SIZE));
  check_eq (epoch encrypted) 1;;
  check_eq (sender_index encrypted) 0;;
  check_eq (generation encrypted) 0;;
  decrypted ← on (store_of 1 [0; 1]) (decrypt encrypted);
  check_eq decrypted plaintext.

Definition encrypt_advances_ratchet : test store unit :=
  expects (fun s => sender_generation s 0) (Some 0);;
  unwrap (encrypt 0 (str "msg1") (filled 0 NONCE_RANDOM_SIZE));;
  expects (fun s => sender_generation s 0) (Some 1);;
  unwrap (encrypt 0 (str "msg2") (filled 0 NONCE_RANDOM_SIZE));;
  expects (fun s => sender_generation s 0) (Some 2).

Definition decrypt_unknown_sender_fails : test store unit :=
  result ← attempt (decrypt (mkEncrypted 1 5 0 (zeros 24) (zeros 32)));
  check (match result with Err (SenderKeyError.UnknownSender i) => i =? 5 | _ => false end).

Definition decrypt_wrong_epoch_fails : test store unit :=
  result ← attempt (decrypt (mkEncrypted 2 0 0 (zeros 24) (zeros 32)));
  check (match result with
         | Err (SenderKeyError.EpochMismatch expected actual) => (expected =? 1) && (actual =? 2)
         | _ => false
         end).

(** The sender's store gives the messages, the receiver's takes them. *)
Definition out_of_order_messages_decrypt : test store unit :=
  let sender : test store (EncryptedMessage * EncryptedMessage) :=
    msg0 ← unwrap (encrypt 0 (str "msg0") (filled 0 NONCE_RANDOM_SIZE));
    unwrap (encrypt 0 (str "msg1") (filled 1 NONCE_RANDOM_SIZE));;
    msg2 ← unwrap (encrypt 0 (str "msg2") (filled 2 NONCE_RANDOM_SIZE));
    mret (msg0, msg2) in
  msgs ← lift (snd (sender (store_of 1 [0; 1])));
  let '(msg0, msg2) := msgs in
  decrypted ← unwrap (decrypt msg2);
  check_eq decrypted (str "msg2");;
  result ← attempt (decrypt msg0);
  check (match result with Err (SenderKeyError.RatchetTooFarBehind _ _) => true | _ => false end).

Definition different_epochs_produce_different_keys : test store unit :=
  msg1 ← unwrap (encrypt 0 (str "test") (filled 0 NONCE_RANDOM_SIZE));
  msg2 ← on (store_of 2 [0]) (encrypt 0 (str "test") (filled 0 NONCE_RANDOM_SIZE));
  check_ne (ciphertext msg1) (ciphertext msg2).

(** The tests of [sender_key_store.rs] pass on the model. *)
Lemma store_tests_pass : all_pass
  (run_test initialize_epoch_creates_ratchets_for_all_members (store_of 1 [0; 1; 5; 10]) ::
   map (fun t => run_test t (store_of 1 [0; 1]))
     [encrypt_decrypt_roundtrip; out_of_order_messages_decrypt]
   ++ map (fun t => run_test t (store_of 1 [0]))
     [encrypt_advances_ratchet; decrypt_unknown_sender_fails; decrypt_wrong_epoch_fails;
      different_epochs_produce_different_keys]) = true.
Proof. vm_compute. reflexivity. Qed.

End StoreTests.
