(* ===== verification/FuzzCrypto.v ===== *)
(** * The fuzz targets of the sender keys and of the signatures

    [fuzz/fuzz_targets/sender_key_fuzzer.rs] and [mls_signature_fuzzer.rs] as
    functions of their inputs, where a failed assertion is a panic.  What these
    targets assert of the primitives no finite argument gives, so the theorems
    name it: an input that makes a target fail exhibits a collision of the key
    derivation, a ciphertext that decrypts without having been made, or a
    signature that verifies without having been asked for. *)

From S2P Require Import Prelude Opcodes Header Framing Validator FuzzWire FuzzSequencer FuzzRooms SenderKeys.

Local Open Scope N_scope.

(** ** [sender_key_fuzzer] *)

Module SenderKeyFuzz.
Section target.
Context {crypto : Crypto}.

Inductive EpochSecret :=
  | Empty
  | Small (b : bytes)
  | Normal (b : bytes)
  | Large (b : bytes)
  | Arbitrary (b : bytes).

Definition as_bytes (s : EpochSecret) : bytes :=
  match s with Empty => [] | Small b | Normal b | Large b | Arbitrary b => b end.

Inductive RatchetOperation :=
  | Advance
  | AdvanceTo (target : N)
  | Encrypt (message : bytes)
  | VerifyDeterminism.

Record SenderKeyScenario := mkScenario {
  epoch_secret : EpochSecret;
  sc_epoch : N;
  sc_sender_index : N;
  operations : list RatchetOperation;
  sc_random_bytes : bytes }.

Definition check_seeds (sc : SenderKeyScenario) : res unit bytes :=
  let secret := as_bytes (epoch_secret sc) in
  let seed := derive_sender_key_seed secret (sc_epoch sc) (sc_sender_index sc) in
  asserts (len seed =? 32);;
  let seed2 := derive_sender_key_seed secret (sc_epoch sc) (sc_sender_index sc) in
  asserts (bool_decide (seed = seed2));;
  (if sc_epoch sc <? u64_MAX then
     asserts (bool_decide
       (seed <> derive_sender_key_seed secret (sc_epoch sc + 1) (sc_sender_index sc)))
   else Ok tt);;
  (if sc_sender_index sc <? u32_MAX then
     asserts (bool_decide
       (seed <> derive_sender_key_seed secret (sc_epoch sc) (sc_sender_index sc + 1)))
   else Ok tt);;
  Ok seed.

(** [corrupted.ciphertext[0] ^= 0xFF]. *)
Definition corrupt (e : Encryption.EncryptedMessage) : Encryption.EncryptedMessage :=
  Encryption.mkEncrypted (Encryption.epoch e) (Encryption.sender_index e)
    (Encryption.generation e) (Encryption.nonce e)
    (alter (fun b => byte_of (N.lxor (Byte.to_N b) 0xFF)) 0%nat (Encryption.ciphertext e)).

Definition check_encrypt (sc : SenderKeyScenario) (key : MessageKey) (message : bytes) : res unit unit :=
  match Encryption.encrypt_message message key (sc_epoch sc) (sc_sender_index sc)
          (sc_random_bytes sc) with
  | Ok encrypted =>
      asserts (len message <=? len (Encryption.ciphertext encrypted));;
      match Encryption.decrypt_message encrypted key with
      | Ok decrypted =>
          asserts (bool_decide (decrypted = message));;
          if bool_decide (Encryption.ciphertext encrypted = []) then Ok tt
          else
            match Encryption.decrypt_message (corrupt encrypted) key with
            | Err _ => Ok tt
            | _ => Panic
            end
      | _ => Panic
      end
  | _ => Panic
  end.

(** [for expected_gen in 0..n], from [expected_gen] on. *)
Fixpoint verify_ratchet (n : nat) (expected_gen : N) (r : SymmetricRatchet.t) : res unit unit :=
  match n with
  | O => Ok tt
  | S n' =>
      let '(r', k) := SymmetricRatchet.advance r in
      match k with
      | Panic => Panic
      | Err _ => Ok tt
      | Ok key => asserts (mk_generation key =? expected_gen)
      end;;
      verify_ratchet n' (expected_gen + 1) r'
  end.

(** The variables of the target: the ratchet and the last key. *)
Definition sz : Type := SymmetricRatchet.t * option MessageKey.

Definition on_operation (sc : SenderKeyScenario) (seed : bytes) (o : RatchetOperation) (s : sz)
    : res unit sz :=
  let '(ratchet, last_key) := s in
  match o with
  | Advance =>
      let '(ratchet', k) := SymmetricRatchet.advance ratchet in
      match k with
      | Panic => Panic
      | Err _ => Ok (ratchet', last_key)
      | Ok key => asserts (len (mk_key key) =? 32);; Ok (ratchet', Some key)
      end
  | AdvanceTo target =>
      let '(ratchet', k) := SymmetricRatchet.advance_to target ratchet in
      match k with
      | Panic => Panic
      | Err _ => Ok (ratchet', last_key)
      | Ok key => asserts (mk_generation key =? target);; Ok (ratchet', Some key)
      end
  | Encrypt message =>
      match last_key with
      | None => Ok s
      | Some key => check_encrypt sc key message;; Ok s
      end
  | VerifyDeterminism =>
      let current_gen := SymmetricRatchet.generation ratchet in
      verify_ratchet (N.to_nat (N.min current_gen 10)) 0 (SymmetricRatchet.new seed);; Ok s
  end.

Fixpoint on_operations (sc : SenderKeyScenario) (seed : bytes) (ops : list RatchetOperation) (s : sz)
    : res unit sz :=
  match ops with
  | [] => Ok s
  | o :: rest => s ← on_operation sc seed o s; on_operations sc seed rest s
  end.

Definition target (sc : SenderKeyScenario) : res unit unit :=
  seed ← check_seeds sc;
  let ratchet := SymmetricRatchet.new seed in
  asserts (SymmetricRatchet.generation ratchet =? 0);;
  on_operations sc seed (operations sc) (ratchet, None);;
  Ok tt.

(** ** When the target fails *)

Definition typed_operation (o : RatchetOperation) : Prop :=
  match o with
  | AdvanceTo target => target < 2 ^ 16
  | Encrypt message => len message < 2 ^ 32
  | _ => True
  end.

Definition typed (sc : SenderKeyScenario) : Prop :=
  sc_epoch sc < 2 ^ 64 /\ sc_sender_index sc < 2 ^ 32 /\ Forall typed_operation (operations sc).

(** Another epoch or sender gets the seed of the scenario's. *)
Definition seed_collision (sc : SenderKeyScenario) : Prop :=
  exists e i, e < 2 ^ 64 /\ i < 2 ^ 32 /\ (e, i) <> (sc_epoch sc, sc_sender_index sc) /\
    derive_sender_key_seed (as_bytes (epoch_secret sc)) e i
    = derive_sender_key_seed (as_bytes (epoch_secret sc)) (sc_epoch sc) (sc_sender_index sc).

(** A ciphertext decrypts after its first byte was flipped. *)
Definition corruption_accepted (sc : SenderKeyScenario) : Prop :=
  exists message key encrypted,
    Encryption.encrypt_message message key (sc_epoch sc) (sc_sender_index sc) (sc_random_bytes sc)
    = Ok encrypted /\
    is_ok (Encryption.decrypt_message (corrupt encrypted) key) = true.

Lemma check_seeds_ok sc : typed sc -> (exists seed, check_seeds sc = Ok seed) \/ seed_collision sc.
Proof.
  intros (He & Hi & _). unfold check_seeds. cbv zeta. set (seed := derive_sender_key_seed _ _ _).
  assert (Hl : (len seed =? 32) = true).
  { unfold len, seed, derive_sender_key_seed. by rewrite hkdf_length. }
  rewrite Hl. cbn [asserts mbind res_bind]. rewrite (bool_decide_eq_true_2 (seed = seed)) by done.
  cbn [asserts mbind res_bind].
  assert (Hd : forall e i (b : bool), (b = true -> e < 2 ^ 64 /\ i < 2 ^ 32) ->
    (e, i) <> (sc_epoch sc, sc_sender_index sc) ->
    (if b then asserts (E := unit) (bool_decide
       (seed <> derive_sender_key_seed (as_bytes (epoch_secret sc)) e i)) else Ok tt) = Ok tt \/
    seed_collision sc).
  { intros e i b Hb Hne. destruct b; [|by left]. destruct (Hb eq_refl) as [He' Hi'].
    case_bool_decide as Hs; [by left|]. right. by exists e, i. }
  destruct (Hd (sc_epoch sc + 1) (sc_sender_index sc) (sc_epoch sc <? u64_MAX)) as [->|?];
    [intros ?%N.ltb_lt; unfold u64_MAX in *; lia|intros [= ?]; lia| |by right].
  destruct (Hd (sc_epoch sc) (sc_sender_index sc + 1) (sc_sender_index sc <? u32_MAX)) as [->|?];
    [intros ?%N.ltb_lt; unfold u32_MAX in *; lia|intros [= ?]; lia| |by right].
  left. by exists seed.
Qed.

Lemma check_encrypt_ok sc key message : len message < 2 ^ 32 ->
  check_encrypt sc key message = Ok tt \/ corruption_accepted sc.
Proof.
  intros Hm. unfold check_encrypt.
  assert (He : exists enc, Encryption.encrypt_message message key (sc_epoch sc) (sc_sender_index sc)
    (sc_random_bytes sc) = Ok enc /\ len message <= len (Encryption.ciphertext enc)).
  { unfold Encryption.encrypt_message. cbv zeta.
    destruct (aead_encrypt_total (mk_key key) (Encryption.build_nonce (sc_epoch sc)
      (sc_sender_index sc) (mk_generation key) (sc_random_bytes sc)) message Hm) as [c Hc].
    rewrite Hc. eexists. split; [done|]. cbn. rewrite (aead_encrypt_length _ _ _ _ Hc). lia. }
  destruct He as (enc & He & Hlen). rewrite He.
  destruct (SenderKeyProperties.decrypt_message_encrypt _ _ _ _ _ _ He) as (Hd & _).
  rewrite (proj2 (N.leb_le _ _)) by done. cbn [asserts mbind res_bind]. rewrite Hd.
  rewrite (bool_decide_eq_true_2 (message = message)) by done. cbn [asserts mbind res_bind].
  case_bool_decide as Hempty; [by left|].
  destruct (Encryption.decrypt_message (corrupt enc) key) as [p|e|] eqn:Hc; [|by left|].
  - right. exists message, key, enc. by rewrite Hc.
  - exfalso. revert Hc. unfold Encryption.decrypt_message. case_match; [done|].
    by destruct (aead_decrypt _ _ _).
Qed.

Lemma verify_ratchet_ok seed n : forall g, g + N.of_nat n < u32_MAX ->
  verify_ratchet n g (SenderKeyProperties.at_gen seed g) = Ok tt.
Proof.
  induction n as [|n IH]; intros g Hg; [done|]. cbn [verify_ratchet].
  rewrite SenderKeyProperties.advance_at by lia. cbn [SenderKeyProperties.key_at mk_generation].
  rewrite N.eqb_refl. cbn [asserts mbind res_bind]. apply IH. lia.
Qed.

Lemma operation_ok sc seed o g last_key : typed_operation o -> g <= u32_MAX ->
  (exists g' key', on_operation sc seed o (SenderKeyProperties.at_gen seed g, last_key)
     = Ok (SenderKeyProperties.at_gen seed g', key') /\ g' <= u32_MAX) \/ corruption_accepted sc.
Proof.
  intros Ht Hg. destruct o as [|target|message|]; cbn [on_operation].
  - left. destruct (decide (g = u32_MAX)) as [->|Hne].
    + exists u32_MAX, last_key. unfold SymmetricRatchet.advance.
      by rewrite N.eqb_refl.
    + rewrite SenderKeyProperties.advance_at by lia. eexists (g + 1), _. split; [|lia].
      unfold len. cbn [SenderKeyProperties.key_at mk_key]. by rewrite hmac_length.
  - left. cbn in Ht. rewrite SenderKeyProperties.advance_to_cases by (unfold u32_MAX in *; lia).
    destruct ((target <? g) || _); [by exists g, last_key|].
    rewrite (proj2 (N.eqb_neq target u32_MAX)) by (unfold u32_MAX; lia).
    eexists (target + 1), _. split; [|unfold u32_MAX; lia].
    cbn [SenderKeyProperties.key_at mk_generation]. by rewrite N.eqb_refl.
  - destruct last_key as [key|]; [|left; by exists g, None].
    destruct (check_encrypt_ok sc key message Ht) as [->|?]; [left|by right]. by exists g, (Some key).
  - left. exists g, last_key. split; [|done].
    pose proof (verify_ratchet_ok seed (N.to_nat (N.min g 10)) 0) as Hv.
    change (SenderKeyProperties.at_gen seed 0) with (SymmetricRatchet.new seed) in Hv.
    change (SymmetricRatchet.generation (SenderKeyProperties.at_gen seed g)) with g.
    rewrite Hv; [done|]. unfold u32_MAX. lia.
Qed.

(** The target fails on an input only if the input exhibits two seeds that
    collide or a corrupted ciphertext that decrypts: in everything else the
    derivation, the ratchet and the encryption do what it asserts. *)
Theorem sender_key_fuzz_sound sc : typed sc ->
  target sc = Ok tt \/ seed_collision sc \/ corruption_accepted sc.
Proof.
  intros Ht. unfold target. destruct (check_seeds_ok sc Ht) as [[seed ->]|?]; [|by auto].
  cbn [mbind res_bind]. change (SymmetricRatchet.generation (SymmetricRatchet.new seed)) with 0.
  rewrite N.eqb_refl. cbn [asserts mbind res_bind]. destruct Ht as (_ & _ & Hops).
  change (SymmetricRatchet.new seed) with (SenderKeyProperties.at_gen seed 0).
  assert (Hg : 0 <= u32_MAX) by done. revert Hg. generalize (@None MessageKey). generalize 0.
  induction Hops as [|o ops Ho _ IH]; intros g key Hg; [by left|]. cbn [on_operations].
  destruct (operation_ok sc seed o g key Ho Hg) as [(g' & key' & -> & Hg')|?]; [|by auto].
  cbn [mbind res_bind]. by apply IH.
Qed.

End target.
End SenderKeyFuzz.

(** ** [mls_signature_fuzzer] *)

Module SignatureFuzz.
Section target.
Context {ed25519 : Ed25519} {signing : SigningKeys}.

Inductive TamperedField := TRoomId (v : N) | TSenderId (v : N) | TEpoch (v : N).
Inductive MalformedType := AllZeros | PatternFill (seed : N) | HighEntropyGarbage.
Inductive SigningKeyChoice := First | Second.

Inductive SignatureAttack :=
  | CorruptedSignature (byte_offset bit_offset : N)
  | WrongKey (signing_key : SigningKeyChoice)
  | TamperedData (field : TamperedField)
  | MalformedSignature (malformed : MalformedType).

Record FuzzInput := mkInput { seed : bytes; attack : SignatureAttack }.

Definition derive_key_bytes (seed : bytes) (index : N) : bytes :=
  imap (fun i byte => byte_of (N.lxor (Byte.to_N byte) ((index + N.of_nat i) mod 256))) seed.

Definition room_id : N := 100.
Definition sender_id : N := 1.
Definition epoch : N := 5.

Definition create_group_state (room_id epoch : N) (members : list N) (verifying_key : bytes)
    : MlsGroupState.t :=
  MlsGroupState.with_keys room_id epoch (replicate 32 (byte_of 0)) members
    (foldr (fun member_id keys => <[member_id := verifying_key]> keys) ∅ members).

Definition is_reject (r : ValidationResult) : bool :=
  match r with Accept => false | Reject _ => true end.

Definition malformed_sig (m : MalformedType) : bytes :=
  match m with
  | AllZeros => replicate 64 (byte_of 0)
  | PatternFill seed =>
      (fun i => byte_of ((seed * 7) mod 256 + N.of_nat i)) <$> List.seq 0 64
  | HighEntropyGarbage => (fun i => byte_of ((N.of_nat i * 7) mod 256 + 13)) <$> List.seq 0 64
  end.

(** The frame with a field changed, or [None] where the value is the same. *)
Definition tamper (field : TamperedField) (h : FrameHeader.t) : option FrameHeader.t :=
  match field with
  | TRoomId v =>
      if negb (v =? FrameHeader.room_id h) then Some (FrameHeader.set_room_id v h) else None
  | TSenderId v =>
      if negb (v =? FrameHeader.sender_id h) then Some (FrameHeader.set_sender_id v h) else None
  | TEpoch v => if negb (v =? FrameHeader.epoch h) then Some (FrameHeader.set_epoch v h) else None
  end.

Definition key1 (input : FuzzInput) : SigningKey :=
  signing_key_from_bytes (derive_key_bytes (seed input) 0).
Definition key2 (input : FuzzInput) : SigningKey :=
  signing_key_from_bytes (derive_key_bytes (seed input) 1).

Definition state_of (k : SigningKey) : MlsGroupState.t :=
  create_group_state room_id epoch [sender_id] (verifying_key_bytes k).

Definition target (input : FuzzInput) : res unit unit :=
  let key1 := key1 input in
  let key2 := key2 input in
  match attack input with
  | CorruptedSignature byte_offset bit_offset =>
      frame ← ChaosFuzz.create_signed_frame key1 sender_id epoch room_id;
      let state := state_of key1 in
      asserts (negb (is_reject (MlsValidator.validate_signature frame state)));;
      let corrupted_frame :=
        Members.flip_signature (byte_offset mod 64) (N.shiftl 1 (bit_offset mod 8)) frame in
      asserts (is_reject (MlsValidator.validate_signature corrupted_frame state))
  | WrongKey signing_key =>
      let '(signing_key, verifying_key) :=
        match signing_key with First => (key1, key2) | Second => (key2, key1) end in
      frame ← ChaosFuzz.create_signed_frame signing_key sender_id epoch room_id;
      asserts (is_reject (MlsValidator.validate_signature frame (state_of verifying_key)))
  | TamperedData field =>
      frame ← ChaosFuzz.create_signed_frame key1 sender_id epoch room_id;
      let state := state_of key1 in
      asserts (negb (is_reject (MlsValidator.validate_signature frame state)));;
      match tamper field (Frame.header frame) with
      | None => Ok tt
      | Some h =>
          asserts (is_reject (MlsValidator.validate_signature (Frame.mk h (Frame.payload frame)) state))
      end
  | MalformedSignature malformed =>
      let header := FrameHeader.set_room_id room_id (FrameHeader.set_epoch epoch
        (FrameHeader.set_sender_id sender_id (FrameHeader.new Opcode.AppMessage))) in
      frame ← Frame.new (FrameHeader.set_signature (malformed_sig malformed) header) [];
      asserts (is_reject (MlsValidator.validate_signature frame (state_of key1)))
  end.

(** ** When the target fails *)

(** The verifier accepts the signature [sig] of [data] under the key. *)
Definition accepts (k : SigningKey) (data sig : bytes) : Prop :=
  exists vk s, vk_from_bytes (verifying_key_bytes k) = Some vk /\
    signature_try_from sig = Some s /\ verify vk data s = true.

(** What a signature scheme is for: a signature that was made is accepted. *)
Hypothesis signed_accepts : forall k data, accepts k data (sign k data).

Definition typed_attack (a : SignatureAttack) : Prop :=
  match a with
  | TamperedData (TRoomId v) => v < 2 ^ 128
  | TamperedData (TSenderId v) => v < 2 ^ 64
  | TamperedData (TEpoch v) => v < 2 ^ 64
  | _ => True
  end.

Definition header0 : FrameHeader.t :=
  FrameHeader.set_room_id room_id (FrameHeader.set_epoch epoch
    (FrameHeader.set_sender_id sender_id (FrameHeader.new Opcode.AppMessage))).

(** What an input presents to the verifier: the key, what the key has signed,
    and the data and the signature. *)
Definition presented (input : FuzzInput) : option (SigningKey * list (bytes * bytes) * bytes * bytes) :=
  let data := FrameHeader.signing_data header0 in
  let sig := sign (key1 input) data in
  match attack input with
  | CorruptedSignature byte_offset bit_offset =>
      Some (key1 input, [(data, sig)], data,
        alter (fun b => byte_of (N.lxor (Byte.to_N b) (N.shiftl 1 (bit_offset mod 8))))
          (N.to_nat (byte_offset mod 64)) sig)
  | WrongKey First => Some (key2 input, [], data, sig)
  | WrongKey Second => Some (key1 input, [], data, sign (key2 input) data)
  | TamperedData field =>
      h ← tamper field header0; Some (key1 input, [(data, sig)], FrameHeader.signing_data h, sig)
  | MalformedSignature malformed => Some (key1 input, [], data, malformed_sig malformed)
  end.

Lemma header0_wf : FrameHeader.wf header0.
Proof. unfold header0. auto using FrameHeader.new_wf with lockframe. Qed.

Lemma signed_frame k :
  ChaosFuzz.create_signed_frame k sender_id epoch room_id
  = Ok (Frame.mk (FrameHeader.set_signature (sign k (FrameHeader.signing_data header0)) header0) []).
Proof. reflexivity. Qed.

(** The verdict on a frame of the member is the verifier's. *)
Lemma verdict k h payload :
  FrameHeader.f_sender_id h = FrameHeader.f_sender_id header0 ->
  is_reject (MlsValidator.validate_signature (Frame.mk h payload) (state_of k)) = true \/
  accepts k (FrameHeader.signing_data h) (FrameHeader.signature h).
Proof.
  intros Hs. destruct (MlsValidator.validate_signature _ _) eqn:Hv; [right|by left].
  apply MlsValidator.validate_signature_Accept in Hv as (vk & s & Hk & Hsig & Hver).
  exists vk, s. split; [|done]. rewrite <- Hk. unfold MlsGroupState.member_key.
  cbn [Frame.header]. replace (FrameHeader.sender_id h) with sender_id; [reflexivity|].
  unfold FrameHeader.sender_id. by rewrite Hs.
Qed.

Lemma honest_accepted k :
  is_reject (MlsValidator.validate_signature
    (Frame.mk (FrameHeader.set_signature (sign k (FrameHeader.signing_data header0)) header0) [])
    (state_of k)) = false.
Proof using signed_accepts.
  destruct (signed_accepts k (FrameHeader.signing_data header0)) as (vk & s & Hk & Hs & Hv).
  rewrite (proj2 (MlsValidator.validate_signature_Accept _ _)); [done|]. exists vk, s.
  split; [exact Hk|]. split; [exact Hs|]. exact Hv.
Qed.

Lemma flip_ne b i : byte_of (N.lxor (Byte.to_N b) (N.shiftl 1 (i mod 8))) <> b.
Proof.
  assert (Hi : i mod 8 < 8) by (by apply N.mod_lt). revert Hi. generalize (i mod 8). intros j Hj.
  assert (Hc : j = 0 \/ j = 1 \/ j = 2 \/ j = 3 \/ j = 4 \/ j = 5 \/ j = 6 \/ j = 7) by lia.
  destruct_or!; subst j; by destruct b.
Qed.

Lemma tamper_wf field h : tamper field header0 = Some h -> FrameHeader.wf h.
Proof.
  pose proof header0_wf. intros Hh. destruct field; cbn [tamper] in Hh; case_match; try done;
    injection Hh as <-; auto with lockframe.
Qed.

Lemma tampered_data field h :
  typed_attack (TamperedData field) -> tamper field header0 = Some h ->
  FrameHeader.f_sender_id h = FrameHeader.f_sender_id header0 ->
  FrameHeader.signing_data h <> FrameHeader.signing_data header0.
Proof.
  intros Ht Hh Hs E.
  apply FrameHeader.signing_data_inj in E; [|by eapply tamper_wf|exact header0_wf].
  pose proof (f_equal FrameHeader.room_id E) as Hr. pose proof (f_equal FrameHeader.epoch E) as He.
  destruct field as [v|v|v]; cbn [tamper] in Hh; case_match eqn:Hv; try done; injection Hh as <-;
    apply negb_true_iff, N.eqb_neq in Hv; apply Hv.
  - rewrite <- (FrameHeader.room_id_set v header0 Ht). exact Hr.
  - rewrite <- (FrameHeader.sender_id_set v header0 Ht). unfold FrameHeader.sender_id. by rewrite Hs.
  - rewrite <- (FrameHeader.epoch_set v header0 Ht). exact He.
Qed.

Lemma other_member_rejected k h payload : FrameHeader.sender_id h <> sender_id ->
  is_reject (MlsValidator.validate_signature (Frame.mk h payload) (state_of k)) = true.
Proof.
  intros Hs. destruct (MlsValidator.validate_signature _ _) eqn:Hv; [|done]. exfalso.
  apply MlsValidator.validate_signature_Accept in Hv as (vk & s & Hk & _).
  unfold MlsGroupState.member_key in Hk. cbn [Frame.header] in Hk.
  unfold state_of, create_group_state, MlsGroupState.with_keys in Hk.
  cbn [MlsGroupState.member_keys foldr] in Hk. by rewrite lookup_insert_ne in Hk.
Qed.

(** The verifier accepts what the input presents, a pair of data and signature
    that the key has not signed. *)
Definition forgery_accepted (input : FuzzInput) : Prop :=
  exists k signed data sig, presented input = Some (k, signed, data, sig) /\
    ~ ((data, sig) ∈ signed) /\ accepts k data sig.

Lemma corrupted_sound s i j :
  let input := mkInput s (CorruptedSignature i j) in
  target input = Ok tt \/ forgery_accepted input.
Proof using signed_accepts.
  intros input. unfold target. cbn [attack input]. rewrite signed_frame. cbn [mbind res_bind].
  rewrite honest_accepted. cbn [negb asserts mbind res_bind].
  unfold Members.flip_signature. cbn [Frame.header Frame.payload].
  set (sig := sign _ _). set (sig' := alter _ _ _). set (h := FrameHeader.set_signature sig' _).
  destruct (verdict (key1 input) h [] eq_refl) as [->|Ha]; [by left|right].
  eexists _, _, _, _. split; [reflexivity|]. split; [|exact Ha].
  intros [E|[]%elem_of_nil]%elem_of_cons. injection E as E. fold sig in E.
  assert (Hl : (N.to_nat (i mod 64) < length sig)%nat).
  { unfold sig. rewrite sign_length. pose proof (N.mod_lt i 64). lia. }
  destruct (lookup_lt_is_Some_2 sig _ Hl) as [b Hb].
  apply (f_equal (fun l => l !! N.to_nat (i mod 64))) in E. cbv beta in E.
  rewrite list_lookup_alter_eq, Hb in E. injection E as E. by apply (flip_ne b j).
Qed.

Lemma wrong_key_sound s choice :
  let input := mkInput s (WrongKey choice) in
  target input = Ok tt \/ forgery_accepted input.
Proof.
  intros input. unfold target. cbn [attack input].
  destruct choice; rewrite signed_frame; cbn [mbind res_bind]; set (sig := sign _ _).
  1: destruct (verdict (key2 input) (FrameHeader.set_signature sig header0) [] eq_refl) as [->|Ha];
       [by left|right].
  2: destruct (verdict (key1 input) (FrameHeader.set_signature sig header0) [] eq_refl) as [->|Ha];
       [by left|right].
  all: eexists _, _, _, _; split; [reflexivity|]; split; [by intros ?%elem_of_nil|exact Ha].
Qed.

Lemma tamper_signature field sig h :
  tamper field (FrameHeader.set_signature sig h)
  = FrameHeader.set_signature sig <$> tamper field h.
Proof. destruct field; cbn [tamper]; by destruct (negb _). Qed.

Lemma tampered_sound s field :
  let input := mkInput s (TamperedData field) in
  typed_attack (TamperedData field) -> target input = Ok tt \/ forgery_accepted input.
Proof using signed_accepts.
  intros input Ht. unfold target, forgery_accepted, presented. cbn [attack input].
  rewrite signed_frame. cbn [mbind res_bind]. rewrite honest_accepted.
  cbn [negb asserts mbind res_bind]. cbn [Frame.header Frame.payload]. rewrite tamper_signature.
  set (sig := sign _ _). destruct (tamper field header0) as [h|] eqn:Hh; [|by left].
  cbn [fmap option_fmap option_map]. pose proof (tamper_wf field h Hh) as Hw.
  destruct (decide (FrameHeader.f_sender_id h = FrameHeader.f_sender_id header0)) as [Hs|Hs].
  - destruct (verdict (key1 input) (FrameHeader.set_signature sig h) [] Hs) as [->|Ha]; [by left|right].
    rewrite FrameHeader.signing_data_set_signature in Ha by (done || apply sign_length).
    eexists _, _, _, _. split; [reflexivity|]. split; [|exact Ha].
    intros [E|[]%elem_of_nil]%elem_of_cons. apply (f_equal fst) in E. cbn [fst] in E.
    by apply (tampered_data field h Ht Hh Hs).
  - left. rewrite other_member_rejected; [done|]. destruct field as [v|v|v]; cbn [tamper] in Hh;
      destruct (negb _) eqn:Hv; try done; injection Hh as <-; [by destruct Hs| |by destruct Hs].
    apply negb_true_iff, N.eqb_neq in Hv.
    change (FrameHeader.sender_id (FrameHeader.set_signature sig (FrameHeader.set_sender_id v header0)))
      with (FrameHeader.sender_id (FrameHeader.set_sender_id v header0)).
    rewrite (FrameHeader.sender_id_set v header0 Ht). exact Hv.
Qed.

Lemma malformed_sound s m :
  let input := mkInput s (MalformedSignature m) in
  target input = Ok tt \/ forgery_accepted input.
Proof.
  intros input. unfold target. cbn [attack input]. fold header0.
  rewrite Frame.new_Ok by done. cbn [mbind res_bind].
  change (FrameHeader.set_payload_size (len []) (FrameHeader.set_signature (malformed_sig m) header0))
    with (FrameHeader.set_signature (malformed_sig m) header0).
  destruct (verdict (key1 input) (FrameHeader.set_signature (malformed_sig m) header0) [] eq_refl)
    as [->|Ha]; [by left|right].
  eexists _, _, _, _. split; [reflexivity|]. split; [by intros ?%elem_of_nil|exact Ha].
Qed.

(** The target fails on an input only if the verifier accepts what the input
    presents, a pair of data and signature that the key has not signed: the
    honest frame is accepted, the flipped signature and the tampered data are not
    the signed ones, and a frame in another member's name is refused whatever
    the verifier says. *)
Theorem signature_fuzz_sound input : typed_attack (attack input) ->
  target input = Ok tt \/ forgery_accepted input.
Proof using signed_accepts.
  destruct input as [s []]; intros Ht; [apply corrupted_sound|apply wrong_key_sound
    |by apply tampered_sound|apply malformed_sound].
Qed.

End target.
End SignatureFuzz.
