(* ===== verification/Mls.v ===== *)
(** * The client's MLS group

    [MlsGroup] of [lockframe-core/src/mls/group.rs]: the wrapper around a group
    of the openmls library, with the frames and actions of each operation, and
    the provider of [mls/provider.rs].  The library is the class [OpenMls]: its
    types are opaque and its calls are computations on the environment, the
    provider's storage and the library's group.  The clones of an environment
    share its state, so the environment of a provider is the caller's; the
    entropy of the operating system, from which the library draws key pairs, is
    part of that hidden state. *)

From S2P Require Import Prelude Env Opcodes Header Framing Validator.

Local Open Scope N_scope.

(** A member as [members()] lists it. *)
Record Member := mkMember {
  m_index : N;
  m_credential : bytes;
  m_signature_key : bytes }.

(** [ProcessedMessageContent]; a proposal is its [Debug] text. *)
Inductive ProcessedContent (StagedCommit : Type) :=
  | ApplicationMessage (plaintext : bytes)
  | ProposalMessage (debug : string)
  | ExternalJoinProposalMessage
  | StagedCommitMessage (staged : StagedCommit).
Arguments ApplicationMessage {StagedCommit} plaintext.
Arguments ProposalMessage {StagedCommit} debug.
Arguments ExternalJoinProposalMessage {StagedCommit}.
Arguments StagedCommitMessage {StagedCommit} staged.

(** What the code calls of [openmls] and its companion crates; an error is the
    text the code prints of it.  The ciphersuite and the configuration are
    constants. *)
Class OpenMls (Env : Type) := {
  Group : Type;
  KeyStore : Type;
  Signer : Type;
  KeyPackageIn : Type;
  KeyPackage : Type;
  MessageIn : Type;
  MessageOut : Type;
  GroupInfoOut : Type;
  ProtocolMessage : Type;
  StagedCommit : Type;
  Welcome : Type;
  StagedWelcome : Type;
  VerifiableGroupInfo : Type;
  ExternalGroup : Type;
  ExternalLoaded : Type;
  ExternalBuilt : Type;

  (** Key pairs and the storage of a provider. *)
  empty_key_store : KeyStore;
  signer_new : M (Env * KeyStore) string Signer;
  signer_public : Signer -> bytes;
  signer_sign : Signer -> bytes -> option bytes;

  (** Groups: reading. *)
  group_epoch : Group -> N;
  group_own_leaf_index : Group -> N;
  group_members : Group -> list Member;
  group_tree_hash : Group -> bytes;
  group_is_active : Group -> bool;
  group_has_pending_commit : Group -> bool;
  group_export_secret : Group -> string -> bytes -> N -> string + bytes;
  group_export_group_info : Group -> Signer -> string + MessageOut;

  (** Groups: creating and changing. *)
  group_new : Signer -> bytes -> bytes -> M (Env * KeyStore) string Group;
  group_clear_pending_commit : M (Env * KeyStore * Group) string unit;
  group_merge_pending_commit : M (Env * KeyStore * Group) string unit;
  group_process_message : ProtocolMessage ->
    M (Env * KeyStore * Group) string (bytes * ProcessedContent StagedCommit);
  group_merge_staged_commit : StagedCommit -> M (Env * KeyStore * Group) string unit;
  group_create_message : Signer -> bytes -> M (Env * KeyStore * Group) string MessageOut;
  group_add_members : Signer -> list KeyPackage ->
    M (Env * KeyStore * Group) string (MessageOut * MessageOut * GroupInfoOut);
  group_remove_members : Signer -> list N ->
    M (Env * KeyStore * Group) string (MessageOut * GroupInfoOut);
  group_leave_group : Signer -> M (Env * KeyStore * Group) string MessageOut;

  (** Messages and KeyPackages. *)
  message_serialize : MessageOut -> string + bytes;
  group_info_serialize : GroupInfoOut -> string + bytes;
  message_deserialize_exact : bytes -> string + MessageIn;
  message_deserialize : bytes -> string + MessageIn;
  message_into_protocol : MessageIn -> string + ProtocolMessage;
  message_extract_welcome : MessageIn -> option Welcome;
  message_into_group_info : MessageIn -> option VerifiableGroupInfo;
  key_package_deserialize : bytes -> string + KeyPackageIn;
  key_package_validate : KeyPackageIn -> string + KeyPackage;
  key_package_build : Signer -> bytes -> bytes -> M (Env * KeyStore) string KeyPackage;
  key_package_serialize : KeyPackage -> string + bytes;
  key_package_hash_ref : KeyPackage -> string + bytes;
  key_package_credential : KeyPackage -> bytes;

  (** Joining. *)
  staged_welcome_new : Welcome -> M (Env * KeyStore) string StagedWelcome;
  staged_welcome_into_group : StagedWelcome -> M (Env * KeyStore) string Group;
  external_build_group : VerifiableGroupInfo -> bytes -> bytes ->
    M (Env * KeyStore) string ExternalGroup;
  external_load_psks : ExternalGroup -> M (Env * KeyStore) string ExternalLoaded;
  external_build : Signer -> ExternalLoaded -> M (Env * KeyStore) string ExternalBuilt;
  external_finalize : ExternalBuilt -> M (Env * KeyStore) string (Group * MessageOut);
}.

Module MlsAction.

Inductive t : Type :=
  | SendProposal (frame : Frame.t)
  | SendCommit (frame : Frame.t)
  | SendWelcome (recipient : N) (frame : Frame.t)
  | SendMessage (frame : Frame.t)
  | DeliverMessage (sender : N) (plaintext : bytes)
  | RemoveGroup (reason : string)
  | PublishGroupInfo (room_id epoch : N) (group_info_bytes : bytes)
  | Log (message : string).

End MlsAction.

Definition extract_member_id_from_credential (credential : bytes) : res MlsError.t N :=
  if len credential <? 8 then
    Err (MlsError.Crypto ("Invalid credential: expected 8 bytes for member_id, got "
                            +:+ pretty (len credential)))
  else Ok (from_le_bytes (take 8 credential)).

(** A library result whose error is wrapped. *)
Definition wrap_err {A} (wrap : string -> MlsError.t) (context : string) (x : string + A)
    : res MlsError.t A :=
  match x with inl e => Err (wrap (context +:+ e)) | inr a => Ok a end.

(** [{:?}] of a list of numbers. *)
Definition fmt_list (ns : list N) : string :=
  "[" +:+ String.concat ", " (map (fun n : N => pretty n) ns) +:+ "]".

Module MlsGroup.

Record PendingCommit := mkPendingCommit { target_epoch : N; sent_at : Instant }.

Section group.
Context {Env : Type} `{!Environment Env} {openmls : OpenMls Env}.

Record t := mk {
  room_id : N;
  member_id : N;
  inner_group : Group;
  signer : Signer;
  provider : KeyStore;
  pending_commit : option PendingCommit }.

Record PendingJoinState := mkPendingJoin { pj_provider : KeyStore; pj_signer : Signer }.

(** The methods on [&mut self] also act on the environment. *)
Abbreviation method A := (M (Env * t) MlsError.t A).

Definition set_pending (p : option PendingCommit) (g : t) : t :=
  mk (room_id g) (member_id g) (inner_group g) (signer g) (provider g) p.

(** A call of the library on the group, and on the provider alone. *)
Definition call {A} (wrap : string -> MlsError.t) (context : string)
    (c : M (Env * KeyStore * Group) string A) : method A := fun '(e, g) =>
  let '((e', st', inner'), r) := c (e, provider g, inner_group g) in
  ((e', mk (room_id g) (member_id g) inner' (signer g) st' (pending_commit g)),
   map_err (fun err => wrap (context +:+ err)) r).

Definition provider_call {A} (context : string) (c : M (Env * KeyStore) string A)
    : M (Env * KeyStore) MlsError.t A := fun σ =>
  let '(σ', r) := c σ in (σ', map_err (fun err => MlsError.Crypto (context +:+ err)) r).

(** A constructor runs with a provider of its own, which it gives to the result. *)
Definition with_provider {A} (st : KeyStore) (c : M (Env * KeyStore) MlsError.t A)
    : M Env MlsError.t A := fun e =>
  let '((e', _), r) := c (e, st) in (e', r).

(** [self.provider.now()]. *)
Definition provider_now : method Instant := fun '(e, g) =>
  let '(t0, e') := now e in ((e', g), Ok t0).

Definition epoch (g : t) : N := group_epoch (inner_group g).
Definition own_leaf_index (g : t) : N := group_own_leaf_index (inner_group g).

Definition export_group_info (g : t) : res MlsError.t bytes :=
  group_info ← wrap_err MlsError.Crypto "Failed to export GroupInfo: "
                 (group_export_group_info (inner_group g) (signer g));
  wrap_err MlsError.Serialization "Failed to serialize GroupInfo: " (message_serialize group_info).

Definition new (room_id member_id : N) : M Env MlsError.t (t * list MlsAction.t) :=
  with_provider empty_key_store (
    signer ← provider_call "Failed to generate keypair: " signer_new;
    inner ← provider_call "Failed to create MLS group: "
              (group_new signer (to_le_bytes 8 member_id) (signer_public signer));
    σ ← get;
    let group := mk room_id member_id inner signer (snd σ) None in
    group_info_bytes ← lift (export_group_info group);
    mret (group,
          [MlsAction.PublishGroupInfo room_id 0 group_info_bytes;
           MlsAction.Log ("Created group " +:+ pretty room_id +:+ " at epoch 0 (member_id="
                            +:+ pretty member_id +:+ ")")])).

(** The signature is left out when signing fails or its length is not 64. *)
Definition sign_frame_header (g : t) (header : FrameHeader.t) : FrameHeader.t :=
  match signer_sign (signer g) (FrameHeader.signing_data header) with
  | Some signature =>
      if (length signature =? 64)%nat then FrameHeader.set_signature signature header else header
  | None => header
  end.

Definition member_leaf_indices (g : t) : list N := map m_index (group_members (inner_group g)).

(** The first member at the leaf whose credential parses. *)
Fixpoint find_at_leaf (leaf_index : N) (ms : list Member) : option N :=
  match ms with
  | [] => None
  | m :: ms' =>
      if m_index m =? leaf_index then
        match extract_member_id_from_credential (m_credential m) with
        | Ok id => Some id
        | _ => find_at_leaf leaf_index ms'
        end
      else find_at_leaf leaf_index ms'
  end.

Definition member_id_by_leaf_index (g : t) (leaf_index : N) : option N :=
  find_at_leaf leaf_index (group_members (inner_group g)).

Definition export_secret (g : t) (label : string) (context : bytes) (length : N)
    : res MlsError.t bytes :=
  wrap_err MlsError.Crypto "Failed to export secret: "
    (group_export_secret (inner_group g) label context length).

Definition has_pending_commit (g : t) : bool := bool_decide (is_Some (pending_commit g)).

Definition is_commit_timeout (g : t) (now timeout : N) : bool :=
  match pending_commit g with
  | None => false
  | Some pending =>
      if sent_at pending <=? now then timeout <=? instant_sub now (sent_at pending) else false
  end.

Definition clear_pending_commit : method unit :=
  modify (fun '(e, g) => (e, set_pending None g));;
  call MlsError.Crypto "Failed to merge pending commit: " group_clear_pending_commit.

Definition merge_pending_commit : method (list MlsAction.t) :=
  σ ← get;
  match pending_commit (snd σ) with
  | None => throw (MlsError.Crypto "No pending commit to merge")
  | Some _ =>
      call MlsError.Crypto "Failed to merge pending commit: " group_merge_pending_commit;;
      modify (fun '(e, g) => (e, set_pending None g));;
      σ' ← get;
      let g := snd σ' in
      group_info_bytes ← lift (export_group_info g);
      mret [MlsAction.PublishGroupInfo (room_id g) (epoch g) group_info_bytes]
  end.

Definition has_mls_pending_commit (g : t) : bool := group_has_pending_commit (inner_group g).

Definition validate_frame `{!Ed25519} (g : t) (frame : Frame.t)
    (mls_state : option MlsGroupState.t) : res MlsError.t unit :=
  let validation_result :=
    match mls_state with
    | Some state => MlsValidator.validate_frame frame (epoch g) state
    | None => MlsValidator.validate_frame_no_state frame
    end in
  match validation_result with
  | Accept => Ok tt
  | Reject reason => Err (MlsError.ValidationFailed reason)
  end.

Definition process_message (frame : Frame.t) : method (list MlsAction.t) :=
  mls_message ← lift (wrap_err MlsError.Serialization "Failed to deserialize MLS message: "
                        (message_deserialize_exact (Frame.payload frame)));
  protocol_message ← lift (wrap_err MlsError.Serialization "Invalid MLS message type: "
                             (message_into_protocol mls_message));
  processed ← call MlsError.Crypto "Failed to process message: "
                (group_process_message protocol_message);
  sender_id ← lift (extract_member_id_from_credential (fst processed));
  σ ← get;
  let epoch_text := pretty (epoch (snd σ)) in
  match snd processed with
  | ApplicationMessage plaintext => mret [MlsAction.DeliverMessage sender_id plaintext]
  | ProposalMessage debug =>
      mret [MlsAction.Log ("Received proposal in epoch " +:+ epoch_text +:+ ": " +:+ debug)]
  | ExternalJoinProposalMessage =>
      mret [MlsAction.Log ("Received external join proposal in epoch " +:+ epoch_text)]
  | StagedCommitMessage staged_commit =>
      call MlsError.Crypto "Failed to merge commit: " (group_merge_staged_commit staged_commit);;
      σ' ← get;
      let g := snd σ' in
      let log := MlsAction.Log ("Advanced to epoch " +:+ pretty (epoch g)) in
      if group_is_active (inner_group g) then
        group_info_bytes ← lift (export_group_info g);
        mret [log; MlsAction.PublishGroupInfo (room_id g) (epoch g) group_info_bytes]
      else mret [log; MlsAction.RemoveGroup "Removed from group by commit"]
  end.

(** A frame of this group without epoch or signature. *)
Definition group_header (op : Opcode.t) (g : t) : FrameHeader.t :=
  FrameHeader.set_sender_id (member_id g)
    (FrameHeader.set_room_id (room_id g) (FrameHeader.new op)).

Definition create_message (plaintext : bytes) : method (list MlsAction.t) :=
  σ ← get;
  mls_message ← call MlsError.Crypto "Failed to create message: "
                  (group_create_message (signer (snd σ)) plaintext);
  payload ← lift (wrap_err MlsError.Serialization "Failed to serialize message: "
                    (message_serialize mls_message));
  frame ← lift (Frame.new (group_header Opcode.AppMessage (snd σ)) payload);
  mret [MlsAction.SendMessage frame].

(** The part [add_members] and [remove_members] share: the epoch the commit
    creates and the time it is sent. *)
Definition next_epoch : method N :=
  σ ← get;
  lift (ok_or (checked_add u64_MAX (epoch (snd σ)) 1) (MlsError.Crypto "Epoch overflow")).

Definition commit_actions (op : Opcode.t) (target_epoch : N) (commit : MessageOut)
    (group_info : GroupInfoOut) : method (list MlsAction.t) :=
  σ ← get;
  let g := snd σ in
  group_info_bytes ← lift (wrap_err MlsError.Serialization "Failed to serialize GroupInfo: "
                             (group_info_serialize group_info));
  commit_payload ← lift (wrap_err MlsError.Serialization "Failed to serialize commit: "
                           (message_serialize commit));
  commit_frame ← lift (Frame.new (group_header op g) commit_payload);
  mret [MlsAction.PublishGroupInfo (room_id g) target_epoch group_info_bytes;
        MlsAction.SendCommit commit_frame].

(** The loop over the KeyPackages: one Welcome frame each. *)
Fixpoint welcome_frames (g : t) (welcome_payload : bytes) (kps : list KeyPackage)
    : res MlsError.t (list MlsAction.t) :=
  match kps with
  | [] => mret []
  | kp :: kps' =>
      recipient ← extract_member_id_from_credential (key_package_credential kp);
      frame ← Frame.new (FrameHeader.set_sender_id (member_id g)
                           (FrameHeader.set_room_id (room_id g)
                              (FrameHeader.set_recipient_id recipient
                                 (FrameHeader.new Opcode.Welcome)))) welcome_payload;
      rest ← welcome_frames g welcome_payload kps';
      mret (MlsAction.SendWelcome recipient frame :: rest)
  end.

Definition add_members (key_packages : list KeyPackage) : method (list MlsAction.t) :=
  target_epoch ← next_epoch;
  now ← provider_now;
  σ ← get;
  out ← call MlsError.Crypto "Failed to add members: "
          (group_add_members (signer (snd σ)) key_packages);
  let '(mls_message_out, welcome, group_info) := out in
  modify (fun '(e, g) => (e, set_pending (Some (mkPendingCommit target_epoch now)) g));;
  actions ← commit_actions Opcode.Commit target_epoch mls_message_out group_info;
  welcome_payload ← lift (wrap_err MlsError.Serialization "Failed to serialize welcome: "
                            (message_serialize welcome));
  welcomes ← lift (welcome_frames (snd σ) welcome_payload key_packages);
  mret (actions ++ welcomes ++
        [MlsAction.Log ("Adding " +:+ pretty (len key_packages) +:+ " members to group")]).

Fixpoint parse_key_packages (kps : list bytes) : res MlsError.t (list KeyPackage) :=
  match kps with
  | [] => mret []
  | bs :: kps' =>
      kp_in ← wrap_err MlsError.Serialization "Invalid KeyPackage: " (key_package_deserialize bs);
      kp ← wrap_err MlsError.Crypto "Invalid KeyPackage signature: " (key_package_validate kp_in);
      rest ← parse_key_packages kps';
      mret (kp :: rest)
  end.

Definition add_members_from_bytes (key_packages_bytes : list bytes) : method (list MlsAction.t) :=
  key_packages ← lift (parse_key_packages key_packages_bytes);
  add_members key_packages.

(** The leaf of the first member with the id. *)
Fixpoint find_leaf (target_id : N) (ms : list Member) : option N :=
  match ms with
  | [] => None
  | m :: ms' =>
      if (8 <=? len (m_credential m)) && (from_le_bytes (take 8 (m_credential m)) =? target_id)
      then Some (m_index m) else find_leaf target_id ms'
  end.

Fixpoint member_ids_to_leaf_indices (g : t) (member_ids : list N) : res MlsError.t (list N) :=
  match member_ids with
  | [] => mret []
  | target_id :: ids =>
      leaf_index ← ok_or (find_leaf target_id (group_members (inner_group g)))
        (MlsError.Crypto ("Member " +:+ pretty target_id +:+ " not found in group"));
      rest ← member_ids_to_leaf_indices g ids;
      mret (leaf_index :: rest)
  end.

Definition remove_members (member_ids : list N) : method (list MlsAction.t) :=
  match member_ids with
  | [] => throw (MlsError.Crypto "No members specified for removal")
  | _ =>
      σ0 ← get;
      if existsb (N.eqb (member_id (snd σ0))) member_ids then
        throw (MlsError.Crypto
                 "Cannot remove self with remove_members, use leave_group instead")
      else
        target_epoch ← next_epoch;
        now ← provider_now;
        σ ← get;
        leaf_indices ← lift (member_ids_to_leaf_indices (snd σ) member_ids);
        out ← call MlsError.Crypto "Failed to remove members: "
                (group_remove_members (signer (snd σ)) leaf_indices);
        modify (fun '(e, g) => (e, set_pending (Some (mkPendingCommit target_epoch now)) g));;
        actions ← commit_actions Opcode.Commit target_epoch (fst out) (snd out);
        mret (actions ++
              [MlsAction.Log ("Removing " +:+ pretty (len member_ids) +:+ " members from group: "
                                +:+ fmt_list member_ids)])
  end.

Definition leave_group : method (list MlsAction.t) :=
  σ ← get;
  mls_message_out ← call MlsError.Crypto "Failed to create leave proposal: "
                      (group_leave_group (signer (snd σ)));
  proposal_payload ← lift (wrap_err MlsError.Serialization "Failed to serialize proposal: "
                             (message_serialize mls_message_out));
  proposal_frame ← lift (Frame.new (group_header Opcode.Proposal (snd σ)) proposal_payload);
  mret [MlsAction.SendProposal proposal_frame;
        MlsAction.Log ("Created leave proposal for group " +:+ pretty (room_id (snd σ))
                         +:+ " (member_id=" +:+ pretty (member_id (snd σ)) +:+ ")")].

(** A proxy for the group's state: an exported secret. *)
Definition export_state (g : t) : res MlsError.t bytes :=
  map_err (fun e => MlsError.Crypto ("Failed to export group state: " +:+ MlsError.display e))
    (export_secret g "group_state" [] 64).

(** The members whose credential holds an id, and their keys. *)
Fixpoint members_and_keys (ms : list Member) (members : list N) (keys : gmap N bytes)
    : list N * gmap N bytes :=
  match ms with
  | [] => (members, keys)
  | m :: ms' =>
      if 8 <=? len (m_credential m) then
        let id := from_le_bytes (take 8 (m_credential m)) in
        members_and_keys ms' (members ++ [id])
          (if 32 <=? len (m_signature_key m) then <[id := take 32 (m_signature_key m)]> keys
           else keys)
      else members_and_keys ms' members keys
  end.

Definition export_group_state (g : t) : res MlsError.t MlsGroupState.t :=
  let '(members, member_keys) := members_and_keys (group_members (inner_group g)) [] ∅ in
  let tree_hash := group_tree_hash (inner_group g) in
  if (length tree_hash =? 32)%nat then
    Ok (MlsGroupState.with_keys (room_id g) (epoch g) tree_hash members member_keys)
  else Err (MlsError.Crypto "tree hash has unexpected length").

Definition export_validation_state (g : t) : MlsGroupState.t :=
  match export_group_state g with
  | Ok state => state
  | _ => MlsGroupState.new (room_id g) (epoch g) (zeros 32) []
  end.

Definition generate_key_package (member_id : N)
    : M Env MlsError.t (bytes * bytes * PendingJoinState) :=
  with_provider empty_key_store (
    signer ← provider_call "Failed to generate keypair: " signer_new;
    key_package ← provider_call "Failed to build KeyPackage: "
      (key_package_build signer (to_le_bytes 8 member_id) (signer_public signer));
    serialized ← lift (wrap_err MlsError.Serialization "Failed to serialize KeyPackage: "
                         (key_package_serialize key_package));
    hash_ref ← lift (wrap_err MlsError.Crypto "Failed to compute KeyPackage hash: "
                       (key_package_hash_ref key_package));
    σ ← get;
    mret (serialized, hash_ref, mkPendingJoin (snd σ) signer)).

Definition join_from_welcome (room_id member_id : N) (welcome_bytes : bytes)
    (pending_state : PendingJoinState) : M Env MlsError.t (t * list MlsAction.t) :=
  with_provider (pj_provider pending_state) (
    mls_message ← lift (wrap_err MlsError.Serialization "Failed to deserialize Welcome: "
                          (message_deserialize welcome_bytes));
    welcome ← lift (ok_or (message_extract_welcome mls_message)
                      (MlsError.Serialization "Message is not a Welcome"));
    staged ← provider_call "Failed to stage Welcome: " (staged_welcome_new welcome);
    inner ← provider_call "Failed to join group from Welcome: " (staged_welcome_into_group staged);
    σ ← get;
    mret (mk room_id member_id inner (pj_signer pending_state) (snd σ) None,
          [MlsAction.Log ("Joined group " +:+ pretty room_id +:+ " at epoch "
                            +:+ pretty (group_epoch inner) +:+ " via Welcome (member_id="
                            +:+ pretty member_id +:+ ")")])).

Definition join_from_external (room_id member_id : N) (group_info_bytes : bytes)
    : M Env MlsError.t (t * list MlsAction.t) :=
  with_provider empty_key_store (
    signer ← provider_call "Failed to generate keypair: " signer_new;
    mls_message_in ← lift (wrap_err MlsError.Serialization
      "Failed to deserialize GroupInfo message: " (message_deserialize group_info_bytes));
    verifiable ← lift (ok_or (message_into_group_info mls_message_in)
                         (MlsError.Serialization "Message is not a GroupInfo"));
    built ← provider_call "Failed to build external commit group: "
      (external_build_group verifiable (to_le_bytes 8 member_id) (signer_public signer));
    loaded ← provider_call "Failed to load PSKs: " (external_load_psks built);
    bundle ← provider_call "Failed to build external commit: " (external_build signer loaded);
    finalized ← provider_call "Failed to finalize external commit: " (external_finalize bundle);
    let '(inner, commit) := finalized in
    let epoch := group_epoch inner in
    commit_payload ← lift (wrap_err MlsError.Serialization "Failed to serialize commit: "
                             (message_serialize commit));
    commit_frame ← lift (Frame.new
      (FrameHeader.set_sender_id member_id
         (FrameHeader.set_room_id room_id (FrameHeader.new Opcode.ExternalCommit)))
      commit_payload);
    σ ← get;
    let group := mk room_id member_id inner signer (snd σ) None in
    group_info ← lift (export_group_info group);
    mret (group,
          [MlsAction.SendCommit commit_frame;
           MlsAction.PublishGroupInfo room_id epoch group_info;
           MlsAction.Log ("Created external commit to join room " +:+ pretty room_id
                            +:+ " at epoch " +:+ pretty epoch +:+ " (member_id="
                            +:+ pretty member_id +:+ ")")])).

(** ** The past of a group *)

(** The calls by which a client changes a group it has. *)
Inductive group_op :=
  | OpProcess (frame : Frame.t)
  | OpMerge
  | OpClear
  | OpAdd (key_packages : list bytes)
  | OpRemove (member_ids : list N).

(** The environment and the group after a call, whatever it answers. *)
Definition after (o : group_op) (s : Env * t) : Env * t :=
  match o with
  | OpProcess frame => fst (process_message frame s)
  | OpMerge => fst (merge_pending_commit s)
  | OpClear => fst (clear_pending_commit s)
  | OpAdd key_packages => fst (add_members_from_bytes key_packages s)
  | OpRemove member_ids => fst (remove_members member_ids s)
  end.

(** [past g0 g]: [g] is what [g0] has become by such calls. *)
Inductive past (g0 : t) : t -> Prop :=
  | past_here : past g0 g0
  | past_call g e o : past g0 g -> past g0 (snd (after o (e, g))).

End group.
End MlsGroup.

(** ** What the client relies on of the library *)

(** A call that answers with a result or an error. *)
Definition answers {S E A} (m : M S E A) : Prop := forall s, snd (m s) <> Panic.

(** A call on a group that moreover does not take it back to an earlier epoch. *)
Definition advances {Env} `{OpenMls Env} {A} (m : M (Env * KeyStore * Group) string A) : Prop :=
  forall s, snd (m s) <> Panic /\ group_epoch (snd s) <= group_epoch (snd (fst (m s))).

(** The calls report their failures, the epoch of a group only grows, epochs
    and leaf indices are of the width of their types, an inactive group exports no secret, and a message is not longer than a TLS
    vector (RFC 9420, 2.1.2). *)
Class OpenMlsLaws (Env : Type) `{!OpenMls Env} := {
  signer_new_answers : answers signer_new;
  group_new_answers s id key : answers (group_new s id key);
  key_package_build_answers s id key : answers (key_package_build s id key);
  staged_welcome_new_answers w : answers (staged_welcome_new w);
  staged_welcome_into_group_answers w : answers (staged_welcome_into_group w);
  external_build_group_answers i id key : answers (external_build_group i id key);
  external_load_psks_answers g : answers (external_load_psks g);
  external_build_answers s l : answers (external_build s l);
  external_finalize_answers b : answers (external_finalize b);

  clear_pending_advances : advances group_clear_pending_commit;
  merge_pending_advances : advances group_merge_pending_commit;
  process_message_advances m : advances (group_process_message m);
  merge_staged_advances c : advances (group_merge_staged_commit c);
  add_members_advances s kps : advances (group_add_members s kps);
  remove_members_advances s leaves : advances (group_remove_members s leaves);

  group_epoch_u64 g : group_epoch g < 2 ^ 64;
  group_own_leaf_index_u32 g : group_own_leaf_index g < 2 ^ 32;

  export_secret_inactive g label context n : group_is_active g = false ->
    exists e, group_export_secret g label context n = inl e;

  message_serialize_size m bs : message_serialize m = inr bs -> len bs < 2 ^ 30;
  group_info_serialize_size i bs : group_info_serialize i = inr bs -> len bs < 2 ^ 30;
  key_package_serialize_size kp bs : key_package_serialize kp = inr bs -> len bs < 2 ^ 30;
  key_package_hash_ref_size kp bs : key_package_hash_ref kp = inr bs -> len bs <= 64;
}.

Module MlsProperties.
Import MlsGroup.

Section properties.
Context {Env : Type} `{!Environment Env} {openmls : OpenMls Env} {laws : OpenMlsLaws Env}.

(** What a method does to its group: it stays the group of the same room and
    member and does not go back. *)
Definition onward (s s' : Env * t) : Prop :=
  room_id (snd s') = room_id (snd s) /\ member_id (snd s') = member_id (snd s) /\
  epoch (snd s) <= epoch (snd s').

#[export] Instance onward_preorder : PreOrder onward.
Proof.
  split; [intros s; split_and!; done || lia|].
  intros s1 s2 s3 (? & ? & ?) (? & ? & ?). unfold onward. split_and!; congruence || lia.
Qed.

(** The GroupInfo of an action fits a frame. *)
Definition action_fits (a : MlsAction.t) : Prop :=
  match a with MlsAction.PublishGroupInfo _ _ info => len info < 2 ^ 30 | _ => True end.

Abbreviation mwp m Q s := (wp (E := MlsError.t) (fun _ => True) onward m Q s).

Lemma wp_call {A} wrap context (m : M (Env * KeyStore * Group) string A) (Q : A -> Env * t -> Prop) s :
  advances m -> (forall a s', Q a s') -> mwp (call wrap context m) Q s.
Proof.
  intros Hm HQ _. destruct s as [e g]. unfold call. specialize (Hm (e, provider g, inner_group g)).
  destruct (m _) as [[[e' st'] inner'] r]. destruct Hm as [Hr Hle].
  split_and!; [done|by split_and!|by destruct r|by intros].
Qed.

Lemma wrap_err_answers {A} wrap context (x : string + A) : wrap_err wrap context x <> Panic.
Proof. by destruct x. Qed.

Lemma export_group_info_fits g : export_group_info g <> Panic /\
  forall bs, export_group_info g = Ok bs -> len bs < 2 ^ 30.
Proof using laws.
  unfold export_group_info, wrap_err. destruct (group_export_group_info _ _) as [e|m]; [done|].
  cbn. destruct (message_serialize m) as [e|bs] eqn:Hs; [done|]. split; [done|].
  intros ? [= <-]. by eapply message_serialize_size.
Qed.

Lemma credential_answers cred : extract_member_id_from_credential cred <> Panic.
Proof. unfold extract_member_id_from_credential. by case_match. Qed.

Lemma frame_new_answers {E} h bs : len bs < 2 ^ 30 -> Frame.new (E := E) h bs <> Panic.
Proof. unfold Frame.new, u32_MAX. intros. case_match; [bool2prop; lia|done]. Qed.

Lemma wp_wrapped {A} wrap context (x : string + A) (Q : A -> Env * t -> Prop) s :
  (forall a, x = inr a -> Q a s) -> mwp (lift (wrap_err wrap context x)) Q s.
Proof.
  intros HQ. wp_step; [apply wrap_err_answers|]. destruct x; [done|]. intros ? [= <-]. by apply HQ.
Qed.

Lemma wp_export_group_info g (Q : bytes -> Env * t -> Prop) s :
  (forall bs, len bs < 2 ^ 30 -> Q bs s) -> mwp (lift (export_group_info g)) Q s.
Proof using laws.
  intros HQ. destruct (export_group_info_fits g) as [Ha Hl]. wp_step; [done|]. intros bs Hbs.
  by apply HQ, Hl.
Qed.

Lemma wp_next_epoch (Q : N -> Env * t -> Prop) s : (forall n, Q n s) -> mwp next_epoch Q s.
Proof.
  intros HQ. unfold next_epoch. wp_step. wp_step; [by destruct (checked_add _ _ _)|by intros].
Qed.

Lemma wp_provider_now (Q : N -> Env * t -> Prop) s :
  (forall n s', snd s' = snd s -> Q n s') -> mwp provider_now Q s.
Proof.
  intros HQ _. destruct s as [e g]. unfold provider_now. destruct (now e) as [t0 e'].
  split_and!; [done|by split_and!|done|]. intros a _. by apply HQ.
Qed.

Lemma wp_set_pending p (Q : unit -> Env * t -> Prop) s :
  (forall s', Q tt s') -> mwp (modify (fun '(e, g) => (e, set_pending p g))) Q s.
Proof. intros HQ. apply wp_modify. destruct s as [e g]. intros _. by split_and!. Qed.

Lemma wp_frame_new h bs (Q : Frame.t -> Env * t -> Prop) s :
  len bs < 2 ^ 30 -> (forall f, Q f s) -> mwp (lift (Frame.new h bs)) Q s.
Proof. intros. wp_step; [by apply frame_new_answers|by intros]. Qed.

(** The actions of a method fit their frames. *)
Abbreviation sound m := (forall s, mwp m (fun acts _ => Forall action_fits acts) s).

Lemma commit_actions_sound op epoch commit info : sound (commit_actions op epoch commit info).
Proof using laws.
  intros s. unfold commit_actions. wp_step.
  wp_step. apply wp_wrapped. intros ib Hi%group_info_serialize_size.
  wp_step. apply wp_wrapped. intros pb Hp%message_serialize_size.
  wp_step. apply wp_frame_new; [done|]. intros frame. wp_step. by repeat constructor.
Qed.

Lemma welcome_frames_fit g bs kps : len bs < 2 ^ 30 ->
  welcome_frames g bs kps <> Panic /\
  forall acts, welcome_frames g bs kps = Ok acts -> Forall action_fits acts.
Proof.
  intros Hbs. induction kps as [|kp kps IH]; cbn [welcome_frames].
  { split; [done|]. intros ? [= <-]. constructor. }
  pose proof (credential_answers (key_package_credential kp)).
  destruct (extract_member_id_from_credential _) as [r| |]; [|done..]. cbn.
  match goal with |- context [Frame.new ?h bs] =>
    pose proof (frame_new_answers (E := MlsError.t) h bs Hbs); destruct (Frame.new h bs) end; [|done..].
  cbn. destruct (welcome_frames g bs kps) as [rest| |]; [|naive_solver..]. split; [done|].
  intros ? [= <-]. constructor; [done|]. by apply IH.
Qed.

Lemma parse_key_packages_answers kps : parse_key_packages kps <> Panic.
Proof.
  induction kps as [|bs kps IH]; [done|]. cbn [parse_key_packages]. unfold wrap_err.
  destruct (key_package_deserialize bs) as [|kp_in]; [done|]. cbn.
  destruct (key_package_validate kp_in); [done|]. cbn. by destruct (parse_key_packages kps).
Qed.

Lemma leaf_indices_answers g ids : member_ids_to_leaf_indices g ids <> Panic.
Proof.
  induction ids as [|i ids IH]; [done|]. cbn [member_ids_to_leaf_indices].
  destruct (find_leaf _ _); [|done]. cbn. by destruct (member_ids_to_leaf_indices g ids).
Qed.

Lemma add_members_sound kps : sound (add_members kps).
Proof using laws.
  intros s. unfold add_members. wp_step. apply wp_next_epoch. intros target.
  wp_step. apply wp_provider_now. intros t0 s1 Hs1. wp_step.
  wp_step. apply wp_call; [apply add_members_advances|]. intros [[commit welcome] info] s2.
  wp_step. apply wp_set_pending. intros s3.
  wp_step. eapply wp_mono; [apply commit_actions_sound|]. intros acts s4 _ _ Hacts.
  wp_step. apply wp_wrapped. intros bs Hbs%message_serialize_size.
  destruct (welcome_frames_fit (snd s1) bs kps Hbs) as [Ha Hf].
  wp_step. wp_step; [done|]. intros ws Hws%Hf. wp_step.
  rewrite !Forall_app. by repeat constructor.
Qed.

Lemma add_members_from_bytes_sound kps : sound (add_members_from_bytes kps).
Proof using laws.
  intros s. unfold add_members_from_bytes. wp_step.
  wp_step; [apply parse_key_packages_answers|]. intros. apply add_members_sound.
Qed.

Lemma remove_members_sound ids : sound (remove_members ids).
Proof using laws.
  intros s. unfold remove_members. destruct ids as [|i ids]; [wp_step|].
  wp_step. destruct (existsb _ _); [wp_step|].
  wp_step. apply wp_next_epoch. intros target.
  wp_step. apply wp_provider_now. intros t0 s1 Hs1. wp_step.
  wp_step. wp_step; [apply leaf_indices_answers|]. intros leaves _.
  wp_step. apply wp_call; [apply remove_members_advances|]. intros [commit info] s2.
  wp_step. apply wp_set_pending. intros s3.
  wp_step. eapply wp_mono; [apply commit_actions_sound|]. intros acts s4 _ _ Hacts.
  wp_step. rewrite Forall_app. by repeat constructor.
Qed.

Lemma clear_pending_commit_sound s : mwp clear_pending_commit (fun _ _ => True) s.
Proof using laws.
  unfold clear_pending_commit. wp_step. apply wp_set_pending. intros s'.
  apply wp_call; [apply clear_pending_advances|done].
Qed.

Lemma merge_pending_commit_sound : sound merge_pending_commit.
Proof using laws.
  intros s. unfold merge_pending_commit. wp_step. destruct (pending_commit _); [|wp_step].
  wp_step. apply wp_call; [apply merge_pending_advances|]. intros [] s1.
  wp_step. apply wp_set_pending. intros s2. wp_step.
  wp_step. apply wp_export_group_info. intros bs Hbs. wp_step. by repeat constructor.
Qed.

Lemma process_message_sound frame : sound (process_message frame).
Proof using laws.
  intros s. unfold process_message. wp_step. apply wp_wrapped. intros msg _.
  wp_step. apply wp_wrapped. intros proto _.
  wp_step. apply wp_call; [apply process_message_advances|]. intros [cred content] s1.
  wp_step. wp_step; [apply credential_answers|]. intros sender _. wp_step.
  destruct content as [p|d| |staged]; cbn [snd]; [by wp_step; repeat constructor..|].
  wp_step. apply wp_call; [apply merge_staged_advances|]. intros [] s2. wp_step.
  destruct (group_is_active _); [|by wp_step; repeat constructor].
  wp_step. apply wp_export_group_info. intros bs Hbs. wp_step. by repeat constructor.
Qed.

(** ** The constructors *)

Definition anywhere {S} (s s' : S) : Prop := True.
#[export] Instance anywhere_preorder {S} : PreOrder (@anywhere S).
Proof. by split. Qed.

Abbreviation cwp m Q s := (wp (E := MlsError.t) (fun _ => True) anywhere m Q s).

Lemma wp_with_provider {A} st (m : M (Env * KeyStore) MlsError.t A) (Q : A -> Prop) e :
  cwp m (fun a _ => Q a) (e, st) -> cwp (with_provider st m) (fun a _ => Q a) e.
Proof.
  intros Hm _. unfold with_provider. specialize (Hm I). destruct (m (e, st)) as [[e' st'] r].
  by destruct Hm as (_ & _ & ?).
Qed.

Lemma wp_provider_call {A} context (m : M (Env * KeyStore) string A)
    (Q : A -> Env * KeyStore -> Prop) s :
  answers m -> (forall a s', Q a s') -> cwp (provider_call context m) Q s.
Proof.
  intros Hm HQ _. unfold provider_call. specialize (Hm s). destruct (m s) as [s' r].
  by split_and!; [..|destruct r|].
Qed.

Lemma cwp_wrapped {S A} wrap context (x : string + A) (Q : A -> S -> Prop) s :
  (forall a, x = inr a -> Q a s) -> cwp (lift (wrap_err wrap context x)) Q s.
Proof.
  intros HQ. wp_step; [apply wrap_err_answers|]. destruct x; [done|]. intros ? [= <-]. by apply HQ.
Qed.

(** A group that is made is one of its room and member, and its actions fit. *)
Definition made (r m : N) (x : t * list MlsAction.t) : Prop :=
  room_id (fst x) = r /\ member_id (fst x) = m /\ Forall action_fits (snd x).

Lemma new_sound r m e : cwp (new r m) (fun x _ => made r m x) e.
Proof using laws.
  apply wp_with_provider.
  wp_step. apply wp_provider_call; [apply signer_new_answers|]. intros sgn s1.
  wp_step. apply wp_provider_call; [apply group_new_answers|]. intros inner s2. wp_step.
  wp_step. match goal with |- context [export_group_info ?g] =>
    destruct (export_group_info_fits g) as [Ha Hl] end.
  wp_step; [done|]. intros info Hinfo%Hl. wp_step. by repeat constructor.
Qed.

Lemma generate_key_package_sound m e :
  cwp (generate_key_package m) (fun x _ => len x.1.1 < 2 ^ 30 /\ len x.1.2 <= 64) e.
Proof using laws.
  apply (wp_with_provider _ _ (fun x => len x.1.1 < 2 ^ 30 /\ len x.1.2 <= 64)).
  wp_step. apply wp_provider_call; [apply signer_new_answers|]. intros sgn s1.
  wp_step. apply wp_provider_call; [apply key_package_build_answers|]. intros kp s2.
  wp_step. apply cwp_wrapped. intros bs Hbs%key_package_serialize_size.
  wp_step. apply cwp_wrapped. intros href Hh%key_package_hash_ref_size.
  wp_step. by wp_step.
Qed.

Lemma join_from_welcome_sound r m bs pj e :
  cwp (join_from_welcome r m bs pj) (fun x _ => made r m x) e.
Proof using laws.
  apply wp_with_provider.
  wp_step. apply cwp_wrapped. intros msg _.
  wp_step. wp_step; [by destruct (message_extract_welcome msg)|]. intros w _.
  wp_step. apply wp_provider_call; [apply staged_welcome_new_answers|]. intros sw s1.
  wp_step. apply wp_provider_call; [apply staged_welcome_into_group_answers|]. intros inner s2.
  wp_step. wp_step. by repeat constructor.
Qed.

Lemma join_from_external_sound r m bs e :
  cwp (join_from_external r m bs) (fun x _ => made r m x) e.
Proof using laws.
  apply wp_with_provider.
  wp_step. apply wp_provider_call; [apply signer_new_answers|]. intros sgn s1.
  wp_step. apply cwp_wrapped. intros msg _.
  wp_step. wp_step; [by destruct (message_into_group_info msg)|]. intros info _.
  wp_step. apply wp_provider_call; [apply external_build_group_answers|]. intros eg s2.
  wp_step. apply wp_provider_call; [apply external_load_psks_answers|]. intros el s3.
  wp_step. apply wp_provider_call; [apply external_build_answers|]. intros eb s4.
  wp_step. apply wp_provider_call; [apply external_finalize_answers|]. intros [inner commit] s5.
  wp_step. apply cwp_wrapped. intros cb Hcb%message_serialize_size.
  wp_step. wp_step; [by apply frame_new_answers|]. intros frame _. wp_step.
  wp_step. match goal with |- context [export_group_info ?g] =>
    destruct (export_group_info_fits g) as [Ha Hl] end.
  wp_step; [done|]. intros ib Hib%Hl. wp_step. by repeat constructor.
Qed.

Lemma export_secret_answers g label context n : export_secret g label context n <> Panic.
Proof. apply wrap_err_answers. Qed.

Lemma export_state_answers g : export_state g <> Panic.
Proof. unfold export_state, export_secret, wrap_err. by destruct (group_export_secret _ _ _ _). Qed.

End properties.
End MlsProperties.
