(* ===== verification/Samples.v ===== *)
(** * Concrete libraries

    Instances of the classes that stand for third-party code, to evaluate the
    model on concrete inputs: a codec of byte strings that has the laws of
    [Ciborium] and [CborSizes], and groups without cryptography that have the
    laws of [OpenMls]. *)

From S2P Require Import Prelude Env Payloads Mls.

Local Open Scope N_scope.

(** ** Codecs

    A codec accepts exactly its encodings, followed by anything. *)

Record codec (A : Type) := mkCodec {
  enc : A -> option bytes;
  dec : bytes -> option (A * bytes);
  dec_enc x bs rest : enc x = Some bs -> dec (bs ++ rest) = Some (x, rest);
  enc_dec x bs rest : dec bs = Some (x, rest) ->
    exists head, enc x = Some head /\ bs = head ++ rest }.
Arguments mkCodec {A} _ _ _ _.
Arguments enc {A} _ _.
Arguments dec {A} _ _.

(** A number of [w] bytes. *)
Definition num (w : nat) : codec N.
Proof.
refine (mkCodec
  (fun n => if n <? 256 ^ N.of_nat w then Some (to_be_bytes w n) else None)
  (fun bs => if (w <=? length bs)%nat then Some (from_be_bytes (take w bs), drop w bs) else None)
  _ _).
- intros n bs rest. destruct (N.ltb_spec n (256 ^ N.of_nat w)); [|done]. intros [= <-].
  rewrite length_app, length_to_be_bytes, (proj2 (Nat.leb_le _ _)) by lia.
  rewrite take_app_n, drop_app_n by apply length_to_be_bytes. by rewrite from_to_be_bytes.
- intros n bs rest. destruct (Nat.leb_spec w (length bs)); [|done]. intros [= <- <-].
  assert (Hl : length (take w bs) = w) by (rewrite length_take; lia).
  exists (take w bs). rewrite (proj2 (N.ltb_lt _ _)) by (by apply from_be_bytes_lt_n).
  rewrite to_from_be_bytes_n by done. by rewrite take_drop.
Defined.

(** Exactly [w] bytes. *)
Definition raw (w : nat) : codec bytes.
Proof.
refine (mkCodec
  (fun x => if (length x =? w)%nat then Some x else None)
  (fun bs => if (w <=? length bs)%nat then Some (take w bs, drop w bs) else None) _ _).
- intros x bs rest. destruct (Nat.eqb_spec (length x) w) as [Hw|]; [|done]. intros [= <-].
  rewrite length_app, Hw, (proj2 (Nat.leb_le _ _)) by lia.
  by rewrite take_app_n, drop_app_n.
- intros x bs rest. destruct (Nat.leb_spec w (length bs)); [|done]. intros [= <- <-].
  exists (take w bs). rewrite length_take, Nat.min_l, Nat.eqb_refl by lia.
  by rewrite take_drop.
Defined.

(** One value after another, the second depending on the first. *)
Definition seq {A B} (c : codec A) (f : A -> codec B) : codec (A * B).
Proof.
refine (mkCodec
  (fun '(a, b) => x ← enc c a; y ← enc (f a) b; Some (x ++ y))
  (fun bs => '(a, bs') ← dec c bs; '(b, rest) ← dec (f a) bs'; Some ((a, b), rest)) _ _).
- intros [a b] bs rest. destruct (enc c a) as [x|] eqn:Ha; [|done].
  destruct (enc (f a) b) as [y|] eqn:Hb; [|done]. intros [= <-].
  rewrite <- app_assoc, (dec_enc _ c a x _ Ha). cbn. by rewrite (dec_enc _ (f a) b y _ Hb).
- intros [a b] bs rest. destruct (dec c bs) as [[a' bs']|] eqn:Ha; [|done]. cbn.
  destruct (dec (f a') bs') as [[b' rest']|] eqn:Hb; [|done]. intros [= <- <- <-].
  apply enc_dec in Ha as (x & Ha & ->). apply enc_dec in Hb as (y & Hb & ->).
  exists (x ++ y). rewrite Ha. cbn. rewrite Hb. by rewrite app_assoc.
Defined.

(** A part of another type, into which it embeds. *)
Definition embed {A B} (c : codec B) (inj : A -> option B) (out : B -> option A)
    (Hio : forall a b, inj a = Some b <-> out b = Some a) : codec A.
Proof.
refine (mkCodec
  (fun a => b ← inj a; enc c b)
  (fun bs => '(b, rest) ← dec c bs; a ← out b; Some (a, rest)) _ _).
- intros a bs rest. destruct (inj a) as [b|] eqn:Hb; [|done]. cbn. intros He.
  rewrite (dec_enc _ c b bs rest He). cbn. by rewrite (proj1 (Hio a b) Hb).
- intros a bs rest. destruct (dec c bs) as [[b rest']|] eqn:Hd; [|done]. cbn.
  destruct (out b) as [a'|] eqn:Ha; [|done]. intros [= <- <-].
  apply enc_dec in Hd as (x & Hx & ->). exists x. by rewrite (proj2 (Hio a' b) Ha).
Defined.

(** A byte string of any length: a mark before each byte, and an end. *)
Fixpoint marked (bs : bytes) : bytes :=
  match bs with
  | [] => [Init.Byte.x00]
  | b :: bs' => Init.Byte.x01 :: b :: marked bs'
  end.

Fixpoint unmarked (bs : bytes) : option (bytes * bytes) :=
  match bs with
  | Init.Byte.x00 :: rest => Some ([], rest)
  | Init.Byte.x01 :: b :: bs' => '(x, rest) ← unmarked bs'; Some (b :: x, rest)
  | _ => None
  end.

Lemma unmarked_marked x rest : unmarked (marked x ++ rest) = Some (x, rest).
Proof. induction x as [|b x IH]; [done|]. cbn. by rewrite IH. Qed.

Lemma marked_unmarked n : forall bs x rest,
  (length bs <= n)%nat -> unmarked bs = Some (x, rest) -> bs = marked x ++ rest.
Proof.
  induction n as [|n IH]; intros [|m bs] x rest Hn; [done|cbn in Hn; lia|done|].
  destruct m; try done; [by intros [= <- <-]|]. destruct bs as [|b bs]; [done|]. cbn.
  destruct (unmarked bs) as [[y rest']|] eqn:Hu; [|done]. intros [= <- <-]. cbn in Hn.
  rewrite (IH bs y rest') by (done || lia). done.
Qed.

Definition blob : codec bytes.
Proof.
refine (mkCodec (fun x => Some (marked x)) unmarked _ _).
- intros x bs rest [= <-]. apply unmarked_marked.
- intros x bs rest H. exists (marked x). split; [done|]. by eapply marked_unmarked.
Defined.

Fixpoint rep {A} (c : codec A) (n : nat) : codec (list A).
Proof.
destruct n as [|n].
- refine (mkCodec (fun l => match l with [] => Some [] | _ => None end)
                  (fun bs => Some ([], bs)) _ _).
  + intros [|] bs rest; [|done]. by intros [= <-].
  + intros l bs rest [= <- <-]. by exists [].
- refine (embed (seq c (fun _ => rep A c n))
    (fun l => match l with x :: l' => Some (x, l') | [] => None end)
    (fun '(x, l') => Some (x :: l')) _).
  intros [|x l] [y l']; [done|]. split; by intros [= <- <-].
Defined.

Definition many {A} (c : codec A) : codec (list A).
Proof.
refine (embed (seq (num 4) (fun n => rep c (N.to_nat n))) (fun l => Some (len l, l))
  (fun '(n, l) => if n =? len l then Some l else None) _).
intros l [n l']. split.
- intros [= <- <-]. by rewrite N.eqb_refl.
- destruct (N.eqb_spec n (len l')); [|done]. intros [= <-]. by subst.
Defined.

Definition flag : codec bool.
Proof.
refine (embed (num 1) (fun b : bool => Some (if b then 1 else 0))
  (fun n => if n =? 0 then Some false else if n =? 1 then Some true else None) _).
intros b n. split; [intros [= <-]; by destruct b|].
destruct (N.eqb_spec n 0) as [->|]; [by intros [= <-]|].
destruct (N.eqb_spec n 1) as [->|]; [by intros [= <-]|done].
Defined.

(** An encoding of the parts of a record. *)
Definition record {A B} (c : codec B) (inj : A -> B) (out : B -> A)
    (Hio : forall a b, inj a = b <-> out b = a) : codec A.
Proof.
refine (embed c (fun a => Some (inj a)) (fun b => Some (out b)) _).
intros a b. split; intros [= H]; f_equal; by apply Hio.
Defined.


Definition sync_request_codec : codec SyncRequest.
Proof.
refine (record (seq (num 8) (fun _ => num 8)) (fun r => (from_log_index r, limit r))
  (fun '(i, l) => mkSyncRequest i l) _).
intros [i l] [j k]. split; by intros [= <- <-].
Defined.

Definition sync_response_codec : codec SyncResponse.
Proof.
refine (record (seq (many blob) (fun _ => seq flag (fun _ => num 8)))
  (fun r => (sync_frames r, (has_more r, server_epoch r)))
  (fun '(fs, (m, e)) => mkSyncResponse fs m e) _).
intros [fs m e] [fs' [m' e']]. split; by intros [= <- <- <-].
Defined.

Definition key_package_publish_codec : codec KeyPackagePublishRequest.
Proof.
refine (record (seq blob (fun _ => blob)) (fun r => (kpp_key_package_bytes r, kpp_hash_ref r))
  (fun '(k, h) => mkKeyPackagePublishRequest k h) _).
intros [k h] [k' h']. split; by intros [= <- <-].
Defined.

Definition key_package_fetch_codec : codec KeyPackageFetchPayload.
Proof.
refine (record (seq (num 8) (fun _ => seq blob (fun _ => blob)))
  (fun r => (kpf_user_id r, (kpf_key_package_bytes r, kpf_hash_ref r)))
  (fun '(u, (k, h)) => mkKeyPackageFetchPayload u k h) _).
intros [u k h] [u' [k' h']]. split; by intros [= <- <- <-].
Defined.

Definition group_info_request_codec : codec GroupInfoRequest.
Proof.
refine (record (num 16) gir_room_id mkGroupInfoRequest _).
intros [r] r'. split; [by intros <-|by intros [= <-]].
Defined.

Definition group_info_codec : codec GroupInfoPayload.
Proof.
refine (record (seq (num 16) (fun _ => seq (num 8) (fun _ => blob)))
  (fun r => (gip_room_id r, (gip_epoch r, gip_group_info_bytes r)))
  (fun '(r, (e, i)) => mkGroupInfoPayload r e i) _).
intros [r e i] [r' [e' i']]. split; by intros [= <- <- <-].
Defined.

(** Without push keys. *)
Definition app_message_codec : codec EncryptedMessage.
Proof.
refine (embed (seq (num 8) (fun _ => seq (num 4) (fun _ => seq (num 4) (fun _ =>
                 seq (raw 24) (fun _ => blob)))))
  (fun m => match em_push_keys m with
            | None => Some (em_epoch m, (em_sender_index m, (em_generation m,
                        (em_nonce m, em_ciphertext m))))
            | Some _ => None end)
  (fun '(e, (i, (g, (n, c)))) => Some (mkEncryptedMessage e i g n c None)) _).
intros [e i g n c [|]] (e' & i' & g' & n' & c'); cbn; [done|]. split; by intros [= <- <- <- <- <-].
Defined.

(** ** What an encoding says of a value *)

Lemma enc_num w n bs : enc (num w) n = Some bs -> n < 256 ^ N.of_nat w /\ length bs = w.
Proof.
  cbn. destruct (N.ltb_spec n (256 ^ N.of_nat w)); [|done]. intros [= <-].
  split; [done|apply length_to_be_bytes].
Qed.

Lemma enc_raw w x bs : enc (raw w) x = Some bs -> length x = w /\ length bs = w.
Proof. cbn. destruct (Nat.eqb_spec (length x) w); [|done]. by intros [= <-]. Qed.

Lemma enc_seq {A B} (c : codec A) (f : A -> codec B) a b bs :
  enc (seq c f) (a, b) = Some bs ->
  exists x y, enc c a = Some x /\ enc (f a) b = Some y /\ bs = x ++ y.
Proof.
  cbn. destruct (enc c a) as [x|]; [|done]. cbn. destruct (enc (f a) b) as [y|]; [|done].
  cbn. intros [= <-]. eauto.
Qed.

Lemma enc_blob x bs : enc blob x = Some bs -> (length bs = 1 + 2 * length x)%nat.
Proof. intros [= <-]. induction x as [|b x IH]; [done|]. cbn in *. lia. Qed.

Lemma enc_rep {A} (c : codec A) n : forall l bs,
  enc (rep c n) l = Some bs ->
  Forall (fun x => exists y, enc c x = Some y /\ (length y <= length bs)%nat) l.
Proof.
  induction n as [|n IH]; intros [|x l] bs H; try (by constructor); try done.
  unfold rep in H; fold (@rep A) in H. unfold embed in H. cbn [enc mbind option_bind] in H.
  apply enc_seq in H as (y & z & Hy & Hz & ->). apply IH in Hz. constructor.
  - exists y. rewrite length_app. split; [done|lia].
  - eapply Forall_impl; [exact Hz|]. intros x' (y' & ? & ?). exists y'. rewrite length_app.
    split; [done|lia].
Qed.

Lemma enc_many {A} (c : codec A) l bs :
  enc (many c) l = Some bs ->
  Forall (fun x => exists y, enc c x = Some y /\ (length y <= length bs)%nat) l.
Proof.
  intros H. unfold many, embed in H. cbn [enc mbind option_bind] in H.
  apply enc_seq in H as (h & y & _ & Hy & ->). apply enc_rep in Hy.
  eapply Forall_impl; [exact Hy|]. intros x (y' & ? & ?). exists y'. rewrite length_app.
  split; [done|lia].
Qed.

Lemma enc_num_total w n : n < 256 ^ N.of_nat w -> enc (num w) n = Some (to_be_bytes w n).
Proof. intros H. cbn. by rewrite (proj2 (N.ltb_lt _ _)). Qed.

Lemma enc_seq_total {A B} (c : codec A) (f : A -> codec B) a b x y :
  enc c a = Some x -> enc (f a) b = Some y -> enc (seq c f) (a, b) = Some (x ++ y).
Proof. intros Hx Hy. cbn. rewrite Hx. cbn. by rewrite Hy. Qed.

Lemma app_message_total e i g n c :
  e < 2 ^ 64 -> i < 2 ^ 32 -> g < 2 ^ 32 -> length n = 24%nat ->
  enc app_message_codec (mkEncryptedMessage e i g n c None)
  = Some (to_be_bytes 8 e ++ to_be_bytes 4 i ++ to_be_bytes 4 g ++ n ++ marked c).
Proof.
  intros He Hi Hg Hn. unfold app_message_codec, embed.
  cbn [enc mbind option_bind em_push_keys em_epoch em_sender_index em_generation em_nonce
       em_ciphertext].
  repeat (apply enc_seq_total; [by apply enc_num_total|]). apply enc_seq_total; [|done].
  cbn. by rewrite Hn.
Qed.

(** ** The codec of the payloads *)

Definition cbor_of {T} (c : codec T) : CborCodec T.
Proof.
refine {|
  into_writer x := match enc c x with Some bs => inr bs | None => inl "out of range"%string end;
  from_reader bs := match dec c bs with Some (x, []) => inr x | _ => inl "malformed"%string end |}.
intros x bs. destruct (enc c x) as [bs'|] eqn:He; [|done]. intros [= ->].
by rewrite <- (app_nil_r bs), (dec_enc _ c x bs [] He).
Defined.

Lemma cbor_of_read {T} (c : codec T) bs x :
  from_reader (CborCodec := cbor_of c) bs = inr x -> enc c x = Some bs.
Proof.
  cbn. destruct (dec c bs) as [[y [|]]|] eqn:Hd; [|done..]. intros [= ->].
  apply enc_dec in Hd as (h & Hh & ->). by rewrite app_nil_r.
Qed.

Lemma cbor_of_write {T} (c : codec T) bs x :
  into_writer (CborCodec := cbor_of c) x = inr bs -> enc c x = Some bs.
Proof. cbn. destruct (enc c x); [|done]. by intros [= <-]. Qed.

(** Takes the encoding of a record apart. *)
Ltac enc_parts H :=
  unfold record, embed in H; cbn [enc mbind option_bind] in H;
  repeat match goal with
  | H : enc (seq _ _) (_, _) = Some _ |- _ => apply enc_seq in H as (? & ? & ? & ? & ->)
  | H : enc (num _) _ = Some _ |- _ => apply enc_num in H as [? ?]
  | H : enc (raw _) _ = Some _ |- _ => apply enc_raw in H as [? ?]
  | H : enc blob _ = Some _ |- _ => apply enc_blob in H
  end;
  cbn in *; rewrite ?length_app in *.

Definition byte_ciborium : Ciborium.
Proof.
refine {|
  cbor_hello := cbor_hello (Ciborium := sample_ciborium);
  cbor_hello_reply := cbor_hello_reply (Ciborium := sample_ciborium);
  cbor_goodbye := cbor_goodbye (Ciborium := sample_ciborium);
  cbor_sync_request := cbor_of sync_request_codec;
  cbor_sync_response := cbor_of sync_response_codec;
  cbor_key_package := cbor_key_package (Ciborium := sample_ciborium);
  cbor_proposal := cbor_proposal (Ciborium := sample_ciborium);
  cbor_commit := cbor_commit (Ciborium := sample_ciborium);
  cbor_welcome := cbor_welcome (Ciborium := sample_ciborium);
  cbor_key_package_publish := cbor_of key_package_publish_codec;
  cbor_key_package_fetch := cbor_of key_package_fetch_codec;
  cbor_group_info_request := cbor_of group_info_request_codec;
  cbor_group_info := cbor_of group_info_codec;
  cbor_app_message := cbor_of app_message_codec;
  cbor_receipt := cbor_receipt (Ciborium := sample_ciborium);
  cbor_reaction := cbor_reaction (Ciborium := sample_ciborium);
  cbor_redact := cbor_redact (Ciborium := sample_ciborium);
  cbor_ban := cbor_ban (Ciborium := sample_ciborium);
  cbor_kick := cbor_kick (Ciborium := sample_ciborium);
  cbor_error := cbor_error (Ciborium := sample_ciborium);
|}.
- intros bs [i l] H%cbor_of_read. unfold sync_request_codec in H. enc_parts H. done.
- intros bs [r] H%cbor_of_read. unfold group_info_request_codec in H. enc_parts H. done.
- intros bs [r e i] H%cbor_of_read. unfold group_info_codec in H. enc_parts H. done.
- intros bs [e i g n c [|]] H%cbor_of_read; unfold app_message_codec, embed in H;
    cbn [enc mbind option_bind em_push_keys em_epoch em_sender_index em_generation em_nonce
         em_ciphertext] in H; [done|].
  enc_parts H. done.
- intros bs [fs m e] H%cbor_of_read. unfold sync_response_codec, record, embed in H.
  cbn [enc mbind option_bind] in H. apply enc_seq in H as (x & y & Hx & Hy & ->).
  apply enc_many in Hx. eapply Forall_impl; [exact Hx|]. intros fb (z & Hz & Hle).
  apply enc_blob in Hz. rewrite length_app. lia.
Defined.

#[local] Existing Instance byte_ciborium.

Definition byte_sizes : CborSizes.
Proof.
split.
- intros [e i g n c pk]. cbn [em_epoch em_sender_index em_generation em_nonce em_push_keys].
  intros He Hi Hg Hn ->. unfold into_writer, cbor_app_message, byte_ciborium, cbor_of.
  erewrite app_message_total by done. eauto.
- intros [e i g n c pk] bs H%cbor_of_write. cbn [em_push_keys]. intros ->.
  unfold app_message_codec, embed in H;
    cbn [enc mbind option_bind em_push_keys em_epoch em_sender_index em_generation em_nonce
         em_ciphertext] in H. enc_parts H. len_solve.
- intros [r e i] bs H%cbor_of_write. unfold group_info_codec in H. enc_parts H. len_solve.
- intros [r e i]. cbn [gip_room_id gip_epoch]. intros Hr He.
  unfold into_writer, cbor_group_info, byte_ciborium, cbor_of, group_info_codec, record, embed.
  cbn [enc mbind option_bind].
  erewrite enc_seq_total; [eauto|by apply enc_num_total|].
  erewrite enc_seq_total; [eauto|by apply enc_num_total|done].
- intros [k h] bs H%cbor_of_write. unfold key_package_publish_codec in H. enc_parts H. len_solve.
- intros [u k h] bs H%cbor_of_write. unfold key_package_fetch_codec in H. enc_parts H. len_solve.
- intros [r] bs H%cbor_of_write. unfold group_info_request_codec in H. enc_parts H. len_solve.
- intros [i l] bs H%cbor_of_write. unfold sync_request_codec in H. enc_parts H. len_solve.
- intros h bs. cbn. unfold table_into_writer. repeat case_match; try done. by intros [= <-] _ _.
- intros r bs. cbn. unfold table_into_writer. repeat case_match; try done. by intros [= <-] _ _.
- intros g bs. cbn. unfold table_into_writer. repeat case_match; try done. intros [= <-].
  etransitivity; [|apply N.le_add_r]. done.
Defined.

(** ** Groups without cryptography

    A group is its epoch and members; a Commit, a Welcome and a GroupInfo are
    the next epoch and members, a message is its text, a signature begins with
    the first byte of the key, and the secret of an epoch is its number. *)

Record PlainGroup := mkPlain {
  pg_epoch : N;
  pg_members : list Member;
  pg_own : N;
  pg_pending : option (list Member) }.

Definition pg_active (g : PlainGroup) : bool :=
  existsb (fun m => m_index m =? pg_own g) (pg_members g).

Definition member_codec : codec Member.
Proof.
refine (record (seq (num 4) (fun _ => seq (raw 8) (fun _ => raw 32)))
  (fun m => (m_index m, (m_credential m, m_signature_key m)))
  (fun '(i, (c, k)) => mkMember i c k) _).
intros [i c k] [i' [c' k']]. split; by intros [= <- <- <-].
Defined.

(** The kind of a message, the sender's credential, the epoch and the members
    or the text. *)
Definition message_codec : codec (N * (bytes * (N * (list Member * bytes)))) :=
  seq (num 1) (fun _ => seq (raw 8) (fun _ => seq (num 8) (fun _ =>
    seq (many member_codec) (fun _ => blob)))).

Definition PlainMessage : Type := N * (bytes * (N * (list Member * bytes))).

Definition write_message (m : PlainMessage) : string + bytes :=
  match enc message_codec m with
  | Some bs => if len bs <? 2 ^ 30 then inr bs else inl "InvalidVectorLength"%string
  | None => inl "EncodingError"%string
  end.

Definition read_message (bs : bytes) : string + PlainMessage :=
  match dec message_codec bs with
  | Some (m, []) => inr m
  | _ => inl "EndOfStream"%string
  end.

Definition own_credential (g : PlainGroup) : bytes :=
  match list_find (fun m => m_index m = pg_own g) (pg_members g) with
  | Some (_, m) => m_credential m
  | None => zeros 8
  end.

Definition next_leaf (ms : list Member) : N := foldr (fun m n => N.max (m_index m + 1) n) 0 ms.

Fixpoint with_new (ms : list Member) (kps : list (bytes * bytes)) : list Member :=
  match kps with
  | [] => ms
  | (cred, key) :: kps' => with_new (ms ++ [mkMember (next_leaf ms) cred key]) kps'
  end.

Definition group_info_of (epoch : N) (ms : list Member) : PlainMessage := (3, (zeros 8, (epoch, (ms, [])))).

(** The state after a commit. *)
Definition committed (ms : list Member) (g : PlainGroup) : PlainGroup :=
  mkPlain (pg_epoch g + 1) ms (pg_own g) None.

Abbreviation on_group A := (M (TestEnv * option bytes * PlainGroup) string A) (only parsing).

Definition plain_commit (ms : list Member)
    : on_group (PlainMessage * PlainMessage * PlainMessage) := fun '(e, k, g) =>
  match pg_pending g with
  | Some _ => ((e, k, g), Err "PendingCommit"%string)
  | None =>
      ((e, k, mkPlain (pg_epoch g) (pg_members g) (pg_own g) (Some ms)),
       Ok ((1, (own_credential g, (pg_epoch g + 1, (ms, [])))),
           (2, (zeros 8, (pg_epoch g + 1, (ms, [])))),
           group_info_of (pg_epoch g + 1) ms))
  end.

Definition plain_process (m : PlainMessage) : on_group (bytes * ProcessedContent (list Member)) :=
  fun '(e, k, g) =>
  let '(kind, (cred, (epoch, (ms, text)))) := m in
  ((e, k, g),
   if kind =? 1 then
     if epoch =? pg_epoch g + 1 then Ok (cred, StagedCommitMessage ms)
     else Err "WrongEpoch"%string
   else if kind =? 4 then Ok (cred, ApplicationMessage text)
   else Ok (cred, ProposalMessage "Remove")).

(** The last member with the key, as new members come last. *)
Definition plain_find (key : bytes) (ms : list Member) : option N :=
  (fun '(_, m) => m_index m) <$> list_find (fun m => m_signature_key m = key) (reverse ms).

Definition plain_openmls : OpenMls TestEnv := {|
  Group := PlainGroup;
  KeyStore := option bytes;
  Signer := bytes;
  KeyPackageIn := bytes * bytes;
  KeyPackage := bytes * bytes;
  MessageIn := PlainMessage;
  MessageOut := PlainMessage;
  GroupInfoOut := PlainMessage;
  ProtocolMessage := PlainMessage;
  StagedCommit := list Member;
  Welcome := PlainMessage;
  StagedWelcome := PlainMessage;
  VerifiableGroupInfo := PlainMessage;
  ExternalGroup := PlainGroup;
  ExternalLoaded := PlainGroup;
  ExternalBuilt := PlainGroup;
  empty_key_store := None;
  signer_new := fun '(e, k) => let '(bs, e') := random_bytes 32 e in ((e', k), Ok (reverse bs));
  signer_public := fun s => s;
  signer_sign := fun s _ => Some (take 1 s ++ zeros 63);
  group_epoch := fun g => N.min (pg_epoch g) u64_MAX;
  group_own_leaf_index := fun g => N.min (pg_own g) u32_MAX;
  group_members := pg_members;
  group_tree_hash := fun _ => zeros 32;
  group_is_active := pg_active;
  group_has_pending_commit := fun g => bool_decide (is_Some (pg_pending g));
  group_export_secret := fun g _ _ n =>
    if pg_active g then inr (to_be_bytes (N.to_nat n) (pg_epoch g)) else inl "UseAfterEviction"%string;
  group_export_group_info := fun g _ => inr (group_info_of (pg_epoch g) (pg_members g));
  group_new := fun _ cred key σ => (σ, Ok (mkPlain 0 [mkMember 0 cred key] 0 None));
  group_clear_pending_commit := fun '(e, k, g) =>
    ((e, k, mkPlain (pg_epoch g) (pg_members g) (pg_own g) None), Ok tt);
  group_merge_pending_commit := fun '(e, k, g) =>
    match pg_pending g with
    | Some ms => ((e, k, committed ms g), Ok tt)
    | None => ((e, k, g), Ok tt)
    end;
  group_process_message := plain_process;
  group_merge_staged_commit := fun ms '(e, k, g) => ((e, k, committed ms g), Ok tt);
  group_create_message := fun _ text '(e, k, g) =>
    ((e, k, g), Ok (4, (own_credential g, (pg_epoch g, ([], text)))));
  group_add_members := fun _ kps '(e, k, g) =>
    if next_leaf (pg_members g) + len kps <=? u32_MAX
    then plain_commit (with_new (pg_members g) kps) (e, k, g)
    else ((e, k, g), Err "TreeFull"%string);
  group_remove_members := fun _ leaves '(e, k, g) =>
    let '(σ, r) := plain_commit (filter (fun m => m_index m ∉ leaves) (pg_members g)) (e, k, g) in
    (σ, '(c, _, i) ← r; mret (c, i));
  group_leave_group := fun _ '(e, k, g) =>
    ((e, k, g), Ok (5, (own_credential g, (pg_epoch g, ([], [])))));
  message_serialize := write_message;
  group_info_serialize := write_message;
  message_deserialize_exact := read_message;
  message_deserialize := read_message;
  message_into_protocol := fun m =>
    if (fst m =? 1) || (fst m =? 4) || (fst m =? 5) then inr m else inl "WrongWireFormat"%string;
  message_extract_welcome := fun m => if fst m =? 2 then Some m else None;
  message_into_group_info := fun m => if fst m =? 3 then Some m else None;
  key_package_deserialize := fun bs =>
    if (length bs =? 40)%nat then inr (take 8 bs, drop 8 bs) else inl "EndOfStream"%string;
  key_package_validate := inr;
  key_package_build := fun _ cred key '(e, _) => ((e, Some key), Ok (cred, key));
  key_package_serialize := fun '(cred, key) =>
    if (length cred =? 8)%nat && (length key =? 32)%nat then inr (cred ++ key)
    else inl "InvalidVectorLength"%string;
  key_package_hash_ref := fun '(_, key) => inr (take 32 key);
  key_package_credential := fst;
  staged_welcome_new := fun w σ => (σ, Ok w);
  staged_welcome_into_group := fun w '(e, k) =>
    let '(_, (_, (epoch, (ms, _)))) := w in
    ((e, k), match key ← k; plain_find key ms with
             | Some leaf => Ok (mkPlain epoch ms leaf None)
             | None => Err "NoMatchingKeyPackage"%string
             end);
  external_build_group := fun i cred key σ =>
    let '(_, (_, (epoch, (ms, _)))) := i in
    (σ, if next_leaf ms <=? u32_MAX
        then Ok (mkPlain (epoch + 1) (with_new ms [(cred, key)]) (next_leaf ms) None)
        else Err "TreeFull"%string);
  external_load_psks := fun g σ => (σ, Ok g);
  external_build := fun _ g σ => (σ, Ok g);
  external_finalize := fun g σ =>
    (σ, Ok (g, (1, (own_credential g, (pg_epoch g, (pg_members g, []))))));
|}.

Lemma write_message_size m bs : write_message m = inr bs -> len bs < 2 ^ 30.
Proof.
  unfold write_message. destruct (enc message_codec m) as [bs'|]; [|done].
  destruct (N.ltb_spec (len bs') (2 ^ 30)); [|done]. by intros [= <-].
Qed.

Definition plain_laws : OpenMlsLaws TestEnv (OpenMls0 := plain_openmls).
Proof.
split; unfold answers, advances; cbn [plain_openmls signer_new group_new key_package_build
  staged_welcome_new staged_welcome_into_group external_build_group external_load_psks external_build
  external_finalize group_clear_pending_commit group_merge_pending_commit group_process_message
  group_merge_staged_commit group_add_members group_remove_members group_epoch group_own_leaf_index
  group_is_active group_export_secret message_serialize group_info_serialize key_package_serialize
  key_package_hash_ref].
- by intros [e k].
- done.
- by intros ? ? ? [e k].
- done.
- intros (? & ? & ? & ? & ?) [e [key|]]; cbn; [|done]. by destruct (plain_find _ _).
- intros (? & ? & ? & ? & ?) ? ? ?. cbn. by case_match.
- done.
- done.
- done.
- by intros [[e k] g].
- intros [[e k] g]. destruct (pg_pending g); split; done || (cbn; lia).
- intros (kind & ? & ep & ? & ?) [[e k] g]. cbn. split; [|done]. by repeat case_match.
- intros c [[e k] g]. split; [done|]. cbn. lia.
- intros s kps [[e k] g]. case_match; [|done]. unfold plain_commit. by destruct (pg_pending g).
- intros s leaves [[e k] g]. unfold plain_commit. by destruct (pg_pending g).
- intros g. unfold u64_MAX. lia.
- intros g. unfold u32_MAX. lia.
- intros g label context n ->. eauto.
- apply write_message_size.
- apply write_message_size.
- intros [c k] bs. destruct (Nat.eqb_spec (length c) 8) as [Hc|]; [|done].
  destruct (Nat.eqb_spec (length k) 32) as [Hk|]; [|done]. intros [= <-].
  rewrite len_app. unfold len. rewrite Hc, Hk. done.
- intros [c k] bs [= <-]. unfold len. rewrite length_take. lia.
Defined.
