(* ===== verification/FuzzSamples.v ===== *)
(** * Inputs of the fuzz targets

    Concrete inputs on which the theorems on the fuzz targets apply. *)

From S2P Require Import Prelude Env Payloads Connection FuzzConnection FuzzRooms Samples.

Local Open Scope N_scope.

(** A scheme whose signatures repeat the first byte of the key. *)
#[local] Program Instance toy_signing : SigningKeys := {|
  SigningKey := bytes;
  signing_key_from_bytes b := b;
  verifying_key_bytes k := k;
  sign k _ := replicate 64 (default (byte_of 0) (head k)) |}.
Next Obligation. intros. apply length_replicate. Qed.

(** A handshake, a message out of its place, a second handshake and a close. *)
Definition connection_input : ConnectionFuzz.FuzzInput :=
  ConnectionFuzz.mkFuzzInput 1000
    [ConnectionFuzz.ESendHello;
     ConnectionFuzz.EReceiveFrame (ConnectionFuzz.mkFuzzedFrame 2 (ConnectionFuzz.FHelloReply 7));
     ConnectionFuzz.EReceiveFrame (ConnectionFuzz.mkFuzzedFrame 9 (ConnectionFuzz.FRandomBytes (zeros 3)));
     ConnectionFuzz.ETick 50;
     ConnectionFuzz.ESendHello;
     ConnectionFuzz.EClose].

Lemma connection_fuzz_holds_witness :
  ConnectionFuzz.target (ciborium := byte_ciborium) connection_input = Ok tt.
Proof.
  apply (ConnectionFuzz.connection_fuzz_holds (ciborium := byte_ciborium) (sizes := byte_sizes) connection_input).
  split; [vm_compute; reflexivity|]. split; [|vm_compute; reflexivity].
  repeat constructor.
Defined.

(** Frames under a storage that fails in three calls of ten. *)
Definition chaos_scenario : ChaosFuzz.ChaosScenario :=
  ChaosFuzz.mkScenario (zeros 32) 47 3 4 2
    [ChaosFuzz.SendValidFrame 0; ChaosFuzz.SendCorruptedFrame 1; ChaosFuzz.QueryLatestIndex;
     ChaosFuzz.RoundTripMlsState; ChaosFuzz.SendValidFrame 1; ChaosFuzz.LoadFrames 0 5].

Lemma storage_chaos_holds_witness :
  ChaosFuzz.target 0 (mkTestEnv 0 1 0 1000) chaos_scenario = Ok tt.
Proof.
  apply (ChaosFuzz.storage_chaos_holds 0 (mkTestEnv 0 1 0 1000) chaos_scenario).
  split; [vm_compute; reflexivity|]. split; [|vm_compute; reflexivity].
  repeat constructor.
Defined.
