(* ===== verification/UnitCore.v ===== *)
(** * The unit tests of the core

    [env.rs], [error.rs], [connection.rs], [mls/constants.rs], [mls/error.rs],
    [mls/state.rs] and [mls/validator.rs] of [lockframe-core], and [sim_env.rs] of
    the harness.  The random generator counts, the CBOR codec is that of the
    samples, and a signature repeats the first byte of its key. *)

From S2P Require Import Prelude Env Environments Opcodes Header Framing Payloads Connection Validator.
From S2P Require Import FuzzRooms Samples FuzzSamples UnitTesting.

Local Open Scope N_scope.

(** The codec of the samples, with the messages of the handshakes in the tests. *)
#[export] Instance test_ciborium : Ciborium := {|
  cbor_hello := table_codec [mkHello 1 [] None None; mkHello 99 [] None None];
  cbor_hello_reply := table_codec
    (map (fun id => mkHelloReply id [] None) [1; 12345; 0x123456789ABCDEF0]);
  cbor_goodbye := table_codec (map mkGoodbye ["client shutdown"; "timeout"; "ack"]%string);
  cbor_sync_request := cbor_sync_request (Ciborium := byte_ciborium);
  cbor_sync_response := cbor_sync_response (Ciborium := byte_ciborium);
  cbor_key_package := cbor_key_package (Ciborium := byte_ciborium);
  cbor_proposal := cbor_proposal (Ciborium := byte_ciborium);
  cbor_commit := cbor_commit (Ciborium := byte_ciborium);
  cbor_welcome := cbor_welcome (Ciborium := byte_ciborium);
  cbor_key_package_publish := cbor_key_package_publish (Ciborium := byte_ciborium);
  cbor_key_package_fetch := cbor_key_package_fetch (Ciborium := byte_ciborium);
  cbor_group_info_request := cbor_group_info_request (Ciborium := byte_ciborium);
  cbor_group_info := cbor_group_info (Ciborium := byte_ciborium);
  cbor_app_message := cbor_app_message (Ciborium := byte_ciborium);
  cbor_receipt := cbor_receipt (Ciborium := byte_ciborium);
  cbor_reaction := cbor_reaction (Ciborium := byte_ciborium);
  cbor_redact := cbor_redact (Ciborium := byte_ciborium);
  cbor_ban := cbor_ban (Ciborium := byte_ciborium);
  cbor_kick := cbor_kick (Ciborium := byte_ciborium);
  cbor_error := cbor_error (Ciborium := byte_ciborium);
  sync_request_typed := sync_request_typed (Ciborium := byte_ciborium);
  group_info_request_typed := group_info_request_typed (Ciborium := byte_ciborium);
  group_info_typed := group_info_typed (Ciborium := byte_ciborium);
  app_message_typed := app_message_typed (Ciborium := byte_ciborium);
  sync_response_size := sync_response_size (Ciborium := byte_ciborium);
|}.

(** A generator that counts from its seed. *)
#[export] Program Instance counting_rng : SeededRng N := {|
  seed_from_u64 seed := 1 + seed * 2 ^ 32;
  fill_bytes n r := (to_be_bytes n r, r + 1) |}.
Next Obligation. intros. apply length_to_be_bytes. Qed.
(** A clock that stands still. *)
#[export] Program Instance still_clock : MonotonicClock N := {| read_clock t := (t, t); latest t := t |}.
Next Obligation. intros t. cbn. lia. Qed.

#[export] Existing Instance MockEnv.mock_environment.

(** ** [env.rs] and [sim_env.rs] *)

Module EnvTests.

Abbreviation env := (MockEnv.t (R := N)).
Definition random {S} `{Environment S} : test S N := call (fun e => let '(x, e') := random_u64 e in (e', x)).
Definition check_ne {S A} `{EqDecision A} (a b : A) : test S unit := check (negb (bool_decide (a = b))).
Definition time {S} `{Environment S} : test S Instant := call (fun e => let '(i, e') := now e in (e', i)).

Definition mock_env_rng_advances : test env unit :=
  val1 ← random;
  val2 ← random;
  val3 ← random;
  check_ne val1 val2;;
  check_ne val2 val3;;
  check_ne val1 val3.

(** Over two environments. *)
Definition mock_env_rng_deterministic : test env unit :=
  let three : test env (N * N * N) := x ← random; y ← random; z ← random; mret (x, y, z) in
  v1 ← lift (snd (three MockEnv.new));
  v2 ← lift (snd (three MockEnv.new));
  check_eq v1 v2.

Definition mock_env_time_advances : test env unit :=
  t0 ← time;
  r ← call (MockEnv.advance_time (from_secs 5));
  lift r;;
  t1 ← time;
  d ← lift (VirtualInstant.sub t1 t0); check_eq d (from_secs 5).

(** With the entropies of three environments. *)
Definition mock_env_crypto_rng_produces_random_bytes : test env unit :=
  val1 ← random;
  val2 ← random;
  check_ne val1 val2;;
  a1 ← lift (snd (random (MockEnv.with_crypto_rng 1000)));
  b1 ← lift (snd (random (MockEnv.with_crypto_rng 2000)));
  check_ne a1 b1.

Definition mock_env_wall_clock_secs_returns_fixed_value : test env unit :=
  s ← query (fun e => fst (MockEnv.wall_clock_secs e)); check_eq s 1704067200.

Definition virtual_instant_from_duration_and_since_epoch : test env unit :=
  let duration := from_secs 10 in
  check_eq (VirtualInstant.since_epoch (VirtualInstant.from_duration duration)) duration.

Definition virtual_instant_add_duration : test env unit :=
  let initial_duration := from_secs 5 in
  let add_duration := from_secs 3 in
  new_instant ← lift (VirtualInstant.add (VirtualInstant.from_duration initial_duration) add_duration);
  check_eq (VirtualInstant.since_epoch new_instant) (initial_duration + add_duration).

(** The tests of [env.rs] pass on the model. *)
Lemma env_tests_pass : all_pass (map (fun t => run_test t MockEnv.new)
  [mock_env_rng_advances; mock_env_rng_deterministic; mock_env_time_advances;
   mock_env_crypto_rng_produces_random_bytes; mock_env_wall_clock_secs_returns_fixed_value;
   virtual_instant_from_duration_and_since_epoch; virtual_instant_add_duration]) = true.
Proof. vm_compute. reflexivity. Qed.

Abbreviation sim := (SimEnv.t (R := N) (T := N)).
Definition draw (n : nat) : test sim bytes := call (fun e => let '(bs, e') := SimEnv.random_bytes n e in (e', bs)).

Definition sim_env_rng_is_deterministic : test sim unit :=
  let run_ (seed : N) := lift (snd (draw 64 (SimEnv.with_seed seed 0))) in
  bytes1 ← run_ 12345;
  bytes2 ← run_ 12345;
  check_eq bytes1 bytes2;;
  bytes3 ← run_ 54321;
  check_ne bytes1 bytes3.

Definition sim_env_rng_different_calls_different_output : test sim unit :=
  bytes1 ← draw 32; bytes2 ← draw 32; check_ne bytes1 bytes2.

(** The clone draws from the generator of the first. *)
Definition sim_env_clones_share_rng_state : test sim unit :=
  bytes1 ← draw 32; bytes2 ← draw 32; check_ne bytes1 bytes2.

(** The tests of [sim_env.rs] without the simulated time pass on the model. *)
Lemma sim_env_tests_pass : all_pass
  [run_test sim_env_rng_is_deterministic (SimEnv.new 0);
   run_test sim_env_rng_different_calls_different_output (SimEnv.new 0);
   run_test sim_env_clones_share_rng_state (SimEnv.with_seed 999 0)] = true.
Proof. vm_compute. reflexivity. Qed.

End EnvTests.

(** ** The errors *)

Module ErrorTests.

Definition timeout_errors_are_transient : test unit unit :=
  check (ConnectionError.is_transient (ConnectionError.HandshakeTimeout (from_secs 31)));;
  check (ConnectionError.is_transient (ConnectionError.IdleTimeout (from_secs 61))).

Definition protocol_violations_are_fatal : test unit unit :=
  for_each
    [ConnectionError.InvalidState Init "send_ping"; ConnectionError.UnexpectedFrame Init 3;
     ConnectionError.UnsupportedVersion 99; ConnectionError.InvalidPayload "Hello" 1;
     ConnectionError.Protocol "test error"; ConnectionError.Transport "network error"]
    (fun e => check (negb (ConnectionError.is_transient e))).

Definition test_transient_errors : test unit unit :=
  check (MlsError.is_transient (MlsError.EpochMismatch 5 4));;
  check (MlsError.is_transient (MlsError.Timeout (from_secs 30))).

Definition test_fatal_errors : test unit unit :=
  check (negb (MlsError.is_transient (MlsError.InvalidState 5 "commit")));;
  check (negb (MlsError.is_transient (MlsError.Crypto "signature verification failed")));;
  check (negb (MlsError.is_transient (MlsError.Protocol "invalid tree hash"))).

Definition max_epoch_is_reasonable : test unit unit :=
  let HOURS_PER_YEAR := 24 * 365 in
  let MIN_YEARS := 100 in
  check (HOURS_PER_YEAR * MIN_YEARS <=? MAX_EPOCH).

Definition max_epoch_prevents_overflow : test unit unit :=
  check (bool_decide (is_Some (checked_add u64_MAX MAX_EPOCH 1000))).

(** The tests of [error.rs], [mls/error.rs] and [mls/constants.rs] pass on the
    model. *)
Lemma core_error_tests_pass : all_pass (map (fun t => run_test t tt)
  [timeout_errors_are_transient; protocol_violations_are_fatal; test_transient_errors;
   test_fatal_errors; max_epoch_is_reasonable; max_epoch_prevents_overflow]) = true.
Proof. vm_compute. reflexivity. Qed.

End ErrorTests.

(** ** [connection.rs] *)

Module ConnectionTests.

(** The mock environment and the connection under test; calls of the connection. *)
Abbreviation world := (MockEnv.t (R := N) * Connection.t)%type.
Definition on_conn {E A} (c : M Connection.t E A) : M world E A := fun '(e, conn) =>
  let '(conn', r) := c conn in ((e, conn'), r).
Definition update (f : Connection.t -> Connection.t) : test world unit :=
  call (fun '(e, conn) => ((e, f conn), tt)).
Definition expects {A} `{EqDecision A} (f : Connection.t -> A) (a : A) : test world unit :=
  x ← query (fun w => f (snd w)); check_eq x a.

Definition t0 : Instant := fst (MockEnv.now (R := N) MockEnv.new).
Definition fresh : world := (MockEnv.new, Connection.new t0 default_connection_config).

Definition frame_of (p : Payload.t) (op : Opcode.t) : test world Frame.t :=
  unwrap (lift (Payload.into_frame p (FrameHeader.new op))).
Definition reply_frame : test world Frame.t :=
  frame_of (Payload.HelloReply (mkHelloReply 12345 [] None)) Opcode.HelloReply.
Definition send_hello : test world (list ConnectionAction) := unwrap (on_conn (Connection.send_hello t0)).
Definition handle_at (now : Instant) (f : Frame.t) : test world (list ConnectionAction) :=
  unwrap (on_conn (Connection.handle_frame f now)).
Definition rejected (f : Frame.t) (p : ConnectionError.t -> bool) : test world unit :=
  result ← attempt (on_conn (Connection.handle_frame f t0));
  check (match result with Err e => p e | _ => false end).
Definition bare_frame (op : Opcode.t) : test world Frame.t := lift (Frame.new (FrameHeader.new op) []).
(** The steps the tests share: the client's handshake. *)
Definition authenticate : test world (list ConnectionAction) :=
  send_hello;; f ← reply_frame; handle_at t0 f.

Definition is_send (a : ConnectionAction) : bool := match a with SendFrame _ => true | _ => false end.
Definition is_close (a : ConnectionAction) : bool := match a with SendFrame _ => false | _ => true end.
Definition sent (actions : list ConnectionAction) (i : nat) : test world Frame.t :=
  a ← index actions i;
  match a with SendFrame f => mret f | _ => lift Panic end.
Definition reply_in (f : Frame.t) : test world HelloReply :=
  p ← unwrap (lift (Payload.from_frame f));
  match p with Payload.HelloReply r => mret r | _ => lift Panic end.
Definition opcode_is (f : Frame.t) (op : Opcode.t) : test world unit :=
  check_eq (FrameHeader.opcode_enum (Frame.header f)) (Some op).

Definition connection_lifecycle : test world unit :=
  expects Connection.state Init;;
  expects Connection.session_id None;;
  actions ← send_hello;
  expects Connection.state Pending;;
  check_eq (len actions) 1;;
  a ← index actions 0; check (is_send a);;
  f ← reply_frame;
  actions ← handle_at t0 f;
  expects Connection.state Authenticated;;
  expects Connection.session_id (Some 12345);;
  check_eq (len actions) 0;;
  update Connection.close;;
  expects Connection.state Closed.

Definition handle_ping_responds_with_pong : test world unit :=
  authenticate;;
  ping_frame ← bare_frame Opcode.Ping;
  actions ← handle_at t0 ping_frame;
  check_eq (len actions) 1;;
  frame ← sent actions 0;
  opcode_is frame Opcode.Pong;;
  check_eq (len (Frame.payload frame)) 0.

Definition handle_pong_updates_activity : test world unit :=
  authenticate;;
  pong_frame ← bare_frame Opcode.Pong;
  let t1 := t0 + from_secs 30 in
  actions ← handle_at t1 pong_frame;
  check_eq (len actions) 0;;
  let t2 := t1 + from_secs 40 in
  expects (fun c => Connection.check_timeout c t2) None.

Definition handle_ping_before_authenticated : test world unit :=
  ping_frame ← bare_frame Opcode.Ping;
  rejected ping_frame (fun e => match e with ConnectionError.UnexpectedFrame _ _ => true | _ => false end).

Definition hello (version : N) : Hello := mkHello version [] None None.

Definition server_handle_hello : test world unit :=
  update (Connection.set_session_id 0x123456789ABCDEF0);;
  hello_frame ← frame_of (Payload.Hello (hello 1)) Opcode.Hello;
  actions ← handle_at t0 hello_frame;
  check_eq (len actions) 1;;
  expects Connection.state Authenticated;;
  expects Connection.session_id (Some 0x123456789ABCDEF0);;
  frame ← sent actions 0;
  opcode_is frame Opcode.HelloReply;;
  reply ← reply_in frame;
  check_eq (reply_session_id reply) 0x123456789ABCDEF0.

Definition server_hello_without_session_id : test world unit :=
  hello_frame ← frame_of (Payload.Hello (hello 1)) Opcode.Hello;
  rejected hello_frame (fun e => match e with ConnectionError.Protocol _ => true | _ => false end).

Definition server_hello_unsupported_version : test world unit :=
  update (Connection.set_session_id 12345);;
  hello_frame ← frame_of (Payload.Hello (hello 99)) Opcode.Hello;
  rejected hello_frame
    (fun e => match e with ConnectionError.UnsupportedVersion v => v =? 99 | _ => false end).

Definition server_generates_session_id_from_environment : test world unit :=
  actions ← unwrap (Connection.handle_hello (hello 1) t0);
  check_eq (len actions) 1;;
  frame ← sent actions 0;
  opcode_is frame Opcode.HelloReply;;
  reply ← reply_in frame;
  EnvTests.check_ne (reply_session_id reply) 0;;
  id ← query (fun w => Connection.session_id (snd w)); check (bool_decide (is_Some id)).

Definition handle_hello_rejects_unsupported_version : test world unit :=
  result ← attempt (Connection.handle_hello (hello 99) t0);
  check (match result with Err (ConnectionError.UnsupportedVersion v) => v =? 99 | _ => false end).

Definition handle_hello_rejects_if_not_init_state : test world unit :=
  authenticate;;
  expects Connection.state Authenticated;;
  result ← attempt (Connection.handle_hello (hello 1) t0);
  check (match result with Err (ConnectionError.InvalidState _ _) => true | _ => false end).

Definition goodbye_frame (reason : string) : test world Frame.t :=
  frame_of (Payload.Goodbye (mkGoodbye reason)) Opcode.Goodbye.

Definition handle_goodbye_authenticated : test world unit :=
  authenticate;;
  f ← goodbye_frame "client shutdown";
  actions ← handle_at t0 f;
  expects Connection.state Closed;;
  check_eq (len actions) 2;;
  a ← index actions 0; check (is_send a);;
  a ← index actions 1; check (is_close a).

Definition handle_goodbye_pending : test world unit :=
  send_hello;;
  f ← goodbye_frame "timeout";
  actions ← handle_at t0 f;
  expects Connection.state Closed;;
  check_eq (len actions) 2.

Definition handle_error_frame : test world unit :=
  authenticate;;
  error_frame ← bare_frame Opcode.Error;
  actions ← handle_at t0 error_frame;
  expects Connection.state Closed;;
  check_eq (len actions) 1;;
  a ← index actions 0; check (is_close a).

(** The tests of [connection.rs] pass on the model. *)
Lemma connection_tests_pass : all_pass (map (fun t => run_test t fresh)
  [connection_lifecycle; handle_ping_responds_with_pong; handle_pong_updates_activity;
   handle_ping_before_authenticated; server_handle_hello; server_hello_without_session_id;
   server_hello_unsupported_version; server_generates_session_id_from_environment;
   handle_hello_rejects_unsupported_version; handle_hello_rejects_if_not_init_state;
   handle_goodbye_authenticated; handle_goodbye_pending; handle_error_frame]) = true.
Proof. vm_compute. reflexivity. Qed.

End ConnectionTests.

(** ** [mls/state.rs] and [mls/validator.rs]

    [SigningKey::generate] is the key of a number. *)

Module MlsTests.
#[local] Existing Instance toy_signing.
#[local] Existing Instance MlsValidator.toy_ed25519.

Definition test_new_state : test unit unit :=
  let state := MlsGroupState.new 100 5 (filled 42 32) [1; 2; 3] in
  check_eq (MlsGroupState.room_id state) 100;;
  check_eq (MlsGroupState.epoch state) 5;;
  check_eq (MlsGroupState.tree_hash state) (filled 42 32);;
  check_eq (MlsGroupState.members state) [1; 2; 3].

Definition test_is_member : test unit unit :=
  let state := MlsGroupState.new 100 0 (zeros 32) [100; 200; 300] in
  check (MlsGroupState.is_member state 100);;
  check (MlsGroupState.is_member state 200);;
  check (MlsGroupState.is_member state 300);;
  check (negb (MlsGroupState.is_member state 400)).

Definition test_member_count : test unit unit :=
  let state := MlsGroupState.new 100 0 (zeros 32) [1; 2; 3; 4; 5] in
  check_eq (MlsGroupState.member_count state) 5.

Definition generate (n : N) : SigningKey := signing_key_from_bytes (filled n 32).

Definition test_header (sender_id epoch : N) : FrameHeader.t :=
  FrameHeader.set_room_id 100 (FrameHeader.set_epoch epoch (FrameHeader.set_sender_id sender_id
    (FrameHeader.new Opcode.AppMessage))).
Definition create_test_frame (sender_id epoch : N) : test unit Frame.t :=
  lift (Frame.new (test_header sender_id epoch) []).
Definition create_test_state (epoch : N) (members : list N) : MlsGroupState.t :=
  MlsGroupState.new 100 epoch (zeros 32) members.

Definition signed_frame (key : SigningKey) (header : FrameHeader.t) : test unit Frame.t :=
  let signature := sign key (FrameHeader.signing_data header) in
  lift (Frame.new (FrameHeader.set_signature signature header) []).
Definition keyed_state (epoch : N) (members : list N) (keys : N -> SigningKey) : MlsGroupState.t :=
  MlsGroupState.with_keys 100 epoch (zeros 32) members
    (list_to_map (map (fun m => (m, verifying_key_bytes (keys m))) members)).

Definition create_signed_frame_and_state (sender_id epoch : N) (members : list N)
    : test unit (Frame.t * MlsGroupState.t) :=
  check (bool_decide (sender_id ∈ members));;
  frame ← signed_frame (generate sender_id) (test_header sender_id epoch);
  mret (frame, keyed_state epoch members generate).

Definition accepted (result : ValidationResult) : test unit unit :=
  check (match result with Accept => true | _ => false end).
Definition rejected (result : ValidationResult) (parts : list string) : test unit unit :=
  match result with
  | Reject reason => for_each parts (fun part => check (contains_str part reason))
  | Accept => lift Panic
  end.

Definition test_valid_frame_accepted : test unit unit :=
  p ← create_signed_frame_and_state 100 5 [100; 200; 300];
  let '(frame, state) := p in
  accepted (MlsValidator.validate_frame frame 5 state).

Definition test_old_epoch_rejected : test unit unit :=
  frame ← create_test_frame 100 3;
  let state := create_test_state 5 [100; 200] in
  rejected (MlsValidator.validate_frame frame 5 state) ["epoch mismatch"; "expected 5"; "got 3"]%string.

Definition test_future_epoch_rejected : test unit unit :=
  frame ← create_test_frame 100 7;
  let state := create_test_state 5 [100; 200] in
  rejected (MlsValidator.validate_frame frame 5 state) ["epoch mismatch"; "expected 5"; "got 7"]%string.

Definition test_non_member_rejected : test unit unit :=
  frame ← create_test_frame 999 5;
  let state := create_test_state 5 [100; 200; 300] in
  rejected (MlsValidator.validate_frame frame 5 state) ["sender 999"; "not in group"]%string.

Definition test_all_members_accepted : test unit unit :=
  let members := [100; 200; 300] in
  let epoch := 5 in
  let state := keyed_state epoch members generate in
  for_each members (fun sender =>
    frame ← signed_frame (generate sender) (test_header sender epoch);
    accepted (MlsValidator.validate_frame frame epoch state)).

Definition test_validate_no_state_epoch_zero : test unit unit :=
  frame ← create_test_frame 100 0;
  accepted (MlsValidator.validate_frame_no_state frame).

Definition test_validate_no_state_non_zero_epoch_rejected : test unit unit :=
  frame ← create_test_frame 100 5;
  rejected (MlsValidator.validate_frame_no_state frame) ["no MLS state"; "expected epoch 0"]%string.

Definition test_valid_signature_accepted : test unit unit :=
  let signing_key := generate 1 in
  frame ← signed_frame signing_key (test_header 100 5);
  accepted (MlsValidator.validate_frame frame 5 (keyed_state 5 [100] (fun _ => signing_key))).

(** Signed over the first bytes of the header. *)
Definition test_invalid_signature_rejected : test unit unit :=
  let signing_key := generate 1 in
  let wrong_key := generate 2 in
  let header := test_header 100 5 in
  let signature := sign signing_key (take 64 (FrameHeader.to_bytes header)) in
  frame ← lift (Frame.new (FrameHeader.set_signature signature header) []);
  rejected (MlsValidator.validate_frame frame 5 (keyed_state 5 [100] (fun _ => wrong_key)))
    ["signature verification failed"]%string.

Definition test_no_key_rejects_frame : test unit unit :=
  frame ← create_test_frame 100 5;
  let state := create_test_state 5 [100; 200; 300] in
  rejected (MlsValidator.validate_frame frame 5 state)
    ["no signature key"; "group state inconsistency"]%string.

Definition test_validate_signature_only : test unit unit :=
  p ← create_signed_frame_and_state 100 5 [100];
  let '(frame, state) := p in
  accepted (MlsValidator.validate_signature frame state).

Definition test_validate_signature_rejects_invalid : test unit unit :=
  let signing_key := generate 1 in
  let wrong_key := generate 2 in
  frame ← signed_frame signing_key (test_header 100 5);
  rejected (MlsValidator.validate_signature frame (keyed_state 5 [100] (fun _ => wrong_key)))
    ["signature verification failed"]%string.

(** The tests of [mls/state.rs] without serialization, and those of
    [mls/validator.rs], pass on the model. *)
Lemma validator_tests_pass : all_pass (map (fun t => run_test t tt)
  [test_new_state; test_is_member; test_member_count; test_valid_frame_accepted;
   test_old_epoch_rejected; test_future_epoch_rejected; test_non_member_rejected;
   test_all_members_accepted; test_validate_no_state_epoch_zero;
   test_validate_no_state_non_zero_epoch_rejected; test_valid_signature_accepted;
   test_invalid_signature_rejected; test_no_key_rejects_frame; test_validate_signature_only;
   test_validate_signature_rejects_invalid]) = true.
Proof. vm_compute. reflexivity. Qed.

End MlsTests.
