(* ===== verification/Client.v ===== *)
(** * The client

    [Client] of [lockframe-client/src/client.rs], with the events and actions
    of [event.rs] and the errors of [error.rs]: the state machine that joins
    rooms, sends and reads messages, and follows the commits of the MLS groups.
    Every handler is a computation in the state-error monad over the client.
    The iteration order of a hash map is the order of the model's finite map. *)

From S2P Require Import Prelude Env Opcodes Header Framing Payloads Validator SenderKeys Mls.

Local Open Scope N_scope.

Module ClientError.

Inductive t : Type :=
  | RoomNotFound (room_id : N)
  | EpochMismatch (expected actual : N)
  | RoomAlreadyExists (room_id : N)
  | Mls (reason : string)
  | SenderKey (e : SenderKeyError.t)
  | InvalidFrame (reason : string)
  | InvalidState (reason : string)
  | SyncRequired (room_id target_epoch : N).

#[global] Instance client_error_eq_dec : EqDecision t.
Proof. solve_decision. Defined.

Definition display (e : t) : string :=
  match e with
  | RoomNotFound room_id => "room not found: " +:+ fmt_hex 0 room_id
  | EpochMismatch expected actual =>
      "epoch mismatch: expected " +:+ pretty expected +:+ ", got " +:+ pretty actual
  | RoomAlreadyExists room_id => "room already exists: " +:+ fmt_hex 0 room_id
  | Mls reason => "MLS error: " +:+ reason
  | SenderKey e => "sender key error: " +:+ SenderKeyError.display e
  | InvalidFrame reason => "invalid frame: " +:+ reason
  | InvalidState reason => "invalid state: " +:+ reason
  | SyncRequired room_id target_epoch =>
      "sync required: room " +:+ fmt_hex 0 room_id +:+ " needs epoch " +:+ pretty target_epoch
  end.

Definition is_fatal (e : t) : bool :=
  match e with
  | InvalidFrame _ | InvalidState _ | Mls _ => true
  | SenderKey e => SenderKeyError.is_fatal e
  | RoomNotFound _ | RoomAlreadyExists _ | EpochMismatch _ _ | SyncRequired _ _ => false
  end.

End ClientError.

Inductive ClientEvent :=
  | CEFrameReceived (frame : Frame.t)
  | CETick (now : Instant)
  | CESendMessage (room_id : N) (plaintext : bytes)
  | CECreateRoom (room_id : N)
  | CEJoinRoom (room_id : N) (welcome : bytes)
  | CELeaveRoom (room_id : N)
  | CEAddMembers (room_id : N) (key_packages : list bytes)
  | CERemoveMembers (room_id : N) (member_ids : list N)
  | CEPublishKeyPackage
  | CEFetchAndAddMember (room_id user_id : N)
  | CEExternalJoin (room_id : N).

Record RoomStateSnapshot := mkSnapshot {
  snap_room_id : N;
  snap_epoch : N;
  snap_mls_state : bytes;
  snap_my_leaf_index : N }.

Inductive ClientAction :=
  | CASend (frame : Frame.t)
  | CADeliverMessage (room_id sender_id : N) (plaintext : bytes) (log_index timestamp : N)
  | CARequestSync (room_id from_epoch to_epoch : N)
  | CAPersistRoom (snapshot : RoomStateSnapshot)
  | CARoomRemoved (room_id : N) (reason : string)
  | CALog (message : string)
  | CAMemberAdded (room_id user_id : N)
  | CAKeyPackagePublished
  | CAKeyPackageNeeded (reason : string)
  | CARoomJoined (room_id epoch : N).

(** The constants of [client.rs]. *)
Definition CLIENT_SENDER_KEY_LABEL : string := "lockframe sender keys v1".
Definition SENDER_KEY_CONTEXT : bytes := [].
Definition SENDER_KEY_SECRET_SIZE : N := 32.
Definition COMMIT_TIMEOUT : Duration := from_secs 30.
Definition KEY_PACKAGE_FETCH_TIMEOUT : Duration := from_mins 1.

(** [{:?}] of a string, for the characters of ASCII. *)
Definition quote : string := String "034"%char EmptyString.

Fixpoint debug_escape (s : string) : string :=
  match s with
  | EmptyString => EmptyString
  | String c s' =>
      let n := N_of_ascii c in
      let here :=
        if n =? 34 then String "092"%char quote
        else if n =? 92 then String "092"%char (String "092"%char EmptyString)
        else if n =? 10 then String "092"%char "n"
        else if n =? 13 then String "092"%char "r"
        else if n =? 9 then String "092"%char "t"
        else if n =? 0 then String "092"%char "0"
        else if (n <? 32) || (n =? 127) then
          String "092"%char ("u{" +:+ fmt_hex 0 n +:+ "}")
        else String c EmptyString in
      here +:+ debug_escape s'
  end.

Definition debug_string (s : string) : string := quote +:+ debug_escape s +:+ quote.

(** [#[derive(Debug)]] of [ProtocolError]. *)
Definition debug_protocol_error (e : ProtocolError.t) : string :=
  match e with
  | ProtocolError.FrameTooShort expected actual =>
      "FrameTooShort { expected: " +:+ pretty expected +:+ ", actual: " +:+ pretty actual +:+ " }"
  | ProtocolError.InvalidMagic => "InvalidMagic"
  | ProtocolError.UnsupportedVersion v =>
      "UnsupportedVersion(" +:+ pretty (Byte.to_N v) +:+ ")"
  | ProtocolError.PayloadTooLarge size max =>
      "PayloadTooLarge { size: " +:+ pretty size +:+ ", max: " +:+ pretty max +:+ " }"
  | ProtocolError.FrameTruncated expected actual =>
      "FrameTruncated { expected: " +:+ pretty expected +:+ ", actual: " +:+ pretty actual +:+ " }"
  | ProtocolError.CborEncode msg => "CborEncode(" +:+ debug_string msg +:+ ")"
  | ProtocolError.CborDecode msg => "CborDecode(" +:+ debug_string msg +:+ ")"
  | ProtocolError.InvalidOpcode op => "InvalidOpcode(" +:+ pretty op +:+ ")"
  | ProtocolError.PayloadSizeMismatch header actual =>
      "PayloadSizeMismatch { header: " +:+ pretty header +:+ ", actual: " +:+ pretty actual +:+ " }"
  | ProtocolError.InvalidFlags f => "InvalidFlags(" +:+ pretty (Byte.to_N f) +:+ ")"
  end.

(** ** Conversions of encrypted messages *)

Definition crypto_to_proto_encrypted (c : Encryption.EncryptedMessage) : EncryptedMessage :=
  mkEncryptedMessage (Encryption.epoch c) (Encryption.sender_index c) (Encryption.generation c)
    (Encryption.nonce c) (Encryption.ciphertext c) None.

Definition proto_to_crypto_encrypted (p : EncryptedMessage) : Encryption.EncryptedMessage :=
  Encryption.mkEncrypted (em_epoch p) (em_sender_index p) (em_generation p) (em_nonce p)
    (em_ciphertext p).

(** An encoding error is an [expect] that fails. *)
Definition serialize_encrypted_message `{Ciborium} {E} (encrypted : EncryptedMessage)
    : res E bytes :=
  match into_writer encrypted with inl _ => Panic | inr data => Ok data end.

Definition deserialize_encrypted_message `{Ciborium} (data : bytes)
    : res ClientError.t EncryptedMessage :=
  match from_reader data with
  | inl e => Err (ClientError.InvalidFrame ("CBOR decode failed: " +:+ e))
  | inr m => Ok m
  end.

Module Client.

Section client.
Context {Env : Type} `{!Environment Env} {openmls : OpenMls Env} {crypto : Crypto}
  {ed25519 : Ed25519} {ciborium : Ciborium}.

Record RoomState := mkRoom {
  mls_group : MlsGroup.t;
  sender_keys : SenderKeyStore.t;
  my_leaf_index : N }.

Record t := mk {
  env : Env;
  sender_id : N;
  rooms : gmap N RoomState;
  pending_joins : gmap bytes MlsGroup.PendingJoinState;
  pending_adds : gmap (N * N) Instant;
  pending_external_joins : gset N }.

Abbreviation client A := (M t ClientError.t A).

Definition new (e : Env) (sender_id : N) : t := mk e sender_id ∅ ∅ ∅ ∅.

Definition with_env (e : Env) (c : t) : t :=
  mk e (sender_id c) (rooms c) (pending_joins c) (pending_adds c) (pending_external_joins c).
Definition with_rooms (rs : gmap N RoomState) (c : t) : t :=
  mk (env c) (sender_id c) rs (pending_joins c) (pending_adds c) (pending_external_joins c).
Definition with_joins (js : gmap bytes MlsGroup.PendingJoinState) (c : t) : t :=
  mk (env c) (sender_id c) (rooms c) js (pending_adds c) (pending_external_joins c).
Definition with_adds (adds : gmap (N * N) Instant) (c : t) : t :=
  mk (env c) (sender_id c) (rooms c) (pending_joins c) adds (pending_external_joins c).
Definition with_external (ext : gset N) (c : t) : t :=
  mk (env c) (sender_id c) (rooms c) (pending_joins c) (pending_adds c) ext.

(** ** Reading *)

Definition room_count (c : t) : N := N.of_nat (size (rooms c)).
Definition is_member (c : t) (room_id : N) : bool := bool_decide (is_Some (rooms c !! room_id)).
Definition epoch (c : t) (room_id : N) : option N :=
  (fun r => MlsGroup.epoch (mls_group r)) <$> rooms c !! room_id.
Definition tree_hash (c : t) (room_id : N) : option bytes :=
  room ← rooms c !! room_id;
  match MlsGroup.export_group_state (mls_group room) with
  | Ok state => Some (MlsGroupState.tree_hash state)
  | _ => None
  end.
Definition member_ids (c : t) (room_id : N) : option (list N) :=
  room ← rooms c !! room_id;
  match MlsGroup.export_group_state (mls_group room) with
  | Ok state => Some (MlsGroupState.members state)
  | _ => None
  end.

(** ** Calls of the parts *)

Definition mls_err (e : MlsError.t) : ClientError.t := ClientError.Mls (MlsError.display e).

Definition env_now : client Instant := fun c =>
  let '(t0, e) := now (env c) in (with_env e c, Ok t0).

(** [self.rooms.get_mut(&room_id).ok_or(RoomNotFound)?]. *)
Definition get_room (room_id : N) : client RoomState := fun c =>
  (c, ok_or (rooms c !! room_id) (ClientError.RoomNotFound room_id)).

Definition set_group (g : MlsGroup.t) (r : RoomState) : RoomState :=
  mkRoom g (sender_keys r) (my_leaf_index r).

(** A method of the group of a room, which has been found. *)
Definition group_call {A} (room_id : N) (m : M (Env * MlsGroup.t) MlsError.t A)
    : M t MlsError.t A := fun c =>
  match rooms c !! room_id with
  | None => (c, Panic)
  | Some room =>
      let '((e, g), r) := m (env c, mls_group room) in
      (with_rooms (<[room_id := set_group g room]> (rooms c)) (with_env e c), r)
  end.

(** A constructor of groups. *)
Definition group_make {A} (m : M Env MlsError.t A) : M t MlsError.t A := fun c =>
  let '(e, r) := m (env c) in (with_env e c, r).

Definition try_mls {A} (m : M t MlsError.t A) : client A := fun c =>
  let '(c', r) := m c in (c', map_err mls_err r).

(** The ratchets of a room. *)
Definition keys_call {A} (room_id : N) (m : M SenderKeyStore.t SenderKeyError.t A)
    : client A := fun c =>
  match rooms c !! room_id with
  | None => (c, Panic)
  | Some room =>
      let '(ks, r) := m (sender_keys room) in
      (with_rooms (<[room_id := mkRoom (mls_group room) ks (my_leaf_index room)]> (rooms c)) c,
       map_err ClientError.SenderKey r)
  end.

Definition initialize_sender_keys (g : MlsGroup.t) : res ClientError.t SenderKeyStore.t :=
  epoch_secret ← map_err mls_err
    (MlsGroup.export_secret g CLIENT_SENDER_KEY_LABEL SENDER_KEY_CONTEXT SENDER_KEY_SECRET_SIZE);
  mret (SenderKeyStore.initialize_epoch epoch_secret (MlsGroup.epoch g)
          (MlsGroup.member_leaf_indices g)).

(** The match of [convert_mls_actions]; a GroupInfo of 4 GiB panics. *)
Definition convert_mls_action (room_id : N) (action : MlsAction.t) : res ClientError.t ClientAction :=
  match action with
  | MlsAction.SendCommit frame | MlsAction.SendProposal frame
  | MlsAction.SendMessage frame | MlsAction.SendWelcome _ frame => Ok (CASend frame)
  | MlsAction.DeliverMessage sender plaintext =>
      Ok (CADeliverMessage room_id sender plaintext 0 0)
  | MlsAction.RemoveGroup reason => Ok (CARoomRemoved room_id reason)
  | MlsAction.PublishGroupInfo info_room_id epoch group_info_bytes =>
      match Payload.into_frame
              (Payload.GroupInfo (mkGroupInfoPayload info_room_id epoch group_info_bytes))
              (FrameHeader.new Opcode.GroupInfo) with
      | Ok frame => Ok (CASend frame)
      | Err e => Ok (CALog ("Failed to create GroupInfo frame: " +:+ debug_protocol_error e))
      | Panic => Panic
      end
  | MlsAction.Log message => Ok (CALog message)
  end.

Fixpoint convert_mls_actions (room_id : N) (actions : list MlsAction.t)
    : res ClientError.t (list ClientAction) :=
  match actions with
  | [] => mret []
  | a :: rest =>
      ca ← convert_mls_action room_id a;
      cas ← convert_mls_actions room_id rest;
      mret (ca :: cas)
  end.

(** [into_frame] with the error of the client. *)
Definition make_frame (p : Payload.t) : res ClientError.t Frame.t :=
  map_err (fun e => ClientError.InvalidFrame (ProtocolError.display e))
    (Payload.into_frame p (FrameHeader.new (Payload.opcode p))).

(** ** Handlers *)

Definition generate_key_package : client (bytes * bytes) :=
  c ← get;
  made ← try_mls (group_make (MlsGroup.generate_key_package (sender_id c)));
  let '(kp_bytes, hash_ref, pending_state) := made in
  modify (fun c => with_joins (<[hash_ref := pending_state]> (pending_joins c)) c);;
  mret (kp_bytes, hash_ref).

(** The room is entered before the actions are converted. *)
Definition insert_room (room_id : N) (room : RoomState) : client unit :=
  modify (fun c => with_rooms (<[room_id := room]> (rooms c)) c).

Definition handle_create_room (room_id : N) : client (list ClientAction) :=
  c ← get;
  if is_member c room_id then throw (ClientError.RoomAlreadyExists room_id)
  else
    made ← try_mls (group_make (MlsGroup.new room_id (sender_id c)));
    let '(group, mls_actions) := made in
    keys ← lift (initialize_sender_keys group);
    let leaf := MlsGroup.own_leaf_index group in
    initial_state ← lift (map_err mls_err (MlsGroup.export_state group));
    insert_room room_id (mkRoom group keys leaf);;
    actions ← lift (convert_mls_actions room_id mls_actions);
    mret (actions ++
          [CAPersistRoom (mkSnapshot room_id 0 initial_state leaf);
           CALog ("Created room " +:+ fmt_hex 0 room_id +:+ " at epoch 0")]).

Definition handle_send_message (room_id : N) (plaintext : bytes) : client (list ClientAction) :=
  room ← get_room room_id;
  random ← (fun c => let '(bs, e) := random_bytes NONCE_RANDOM_SIZE (env c) in
                     (with_env e c, Ok bs));
  crypto_encrypted ← keys_call room_id
    (SenderKeyStore.encrypt (my_leaf_index room) plaintext random);
  payload ← lift (serialize_encrypted_message (crypto_to_proto_encrypted crypto_encrypted));
  if u32_MAX <? len payload then throw (ClientError.InvalidFrame "Payload too large")
  else
    c ← get;
    let header :=
      FrameHeader.set_payload_size (len payload)
        (FrameHeader.set_epoch (MlsGroup.epoch (mls_group room))
           (FrameHeader.set_sender_id (sender_id c)
              (FrameHeader.set_room_id room_id (FrameHeader.new Opcode.AppMessage)))) in
    frame ← lift (Frame.new (MlsGroup.sign_frame_header (mls_group room) header) payload);
    mret [CASend frame].

Definition handle_app_message (room_id : N) (frame : Frame.t) : client (list ClientAction) :=
  c ← get;
  let header := Frame.header frame in
  let header_sender_id := FrameHeader.sender_id header in
  if header_sender_id =? sender_id c then mret []
  else
    room ← get_room room_id;
    let frame_epoch := FrameHeader.epoch header in
    let room_epoch := MlsGroup.epoch (mls_group room) in
    if negb (frame_epoch =? room_epoch) then
      mret [CALog ("Epoch mismatch for room " +:+ fmt_hex 0 room_id +:+ ": frame "
                     +:+ pretty frame_epoch +:+ ", room " +:+ pretty room_epoch
                     +:+ ". Requesting sync.");
            CARequestSync room_id room_epoch frame_epoch]
    else
      lift (map_err (fun e => ClientError.InvalidFrame (MlsError.display e))
              (MlsGroup.validate_frame (mls_group room) frame
                 (Some (MlsGroup.export_validation_state (mls_group room)))));;
      proto_encrypted ← lift (deserialize_encrypted_message (Frame.payload frame));
      let sender_index := em_sender_index proto_encrypted in
      verified_sender_id ← lift
        (ok_or (MlsGroup.member_id_by_leaf_index (mls_group room) sender_index)
           (ClientError.InvalidFrame ("unknown sender_index " +:+ pretty sender_index
                                        +:+ " in encrypted payload")));
      if negb (header_sender_id =? verified_sender_id) then
        throw (ClientError.InvalidFrame
                 ("sender_id mismatch: header claims " +:+ pretty header_sender_id
                    +:+ ", but sender_index " +:+ pretty sender_index +:+ " belongs to "
                    +:+ pretty verified_sender_id))
      else
        plaintext ← keys_call room_id
          (SenderKeyStore.decrypt (proto_to_crypto_encrypted proto_encrypted));
        mret [CADeliverMessage room_id verified_sender_id plaintext
                (FrameHeader.log_index header) (FrameHeader.hlc_timestamp header)].

(** The actions of a commit, or [None] when it has been applied already. *)
Definition apply_commit (room_id : N) (frame : Frame.t) : client (option (list ClientAction)) :=
  c ← get;
  let is_own_commit := FrameHeader.sender_id (Frame.header frame) =? sender_id c in
  room ← get_room room_id;
  if is_own_commit && MlsGroup.has_pending_commit (mls_group room) then
    mls_actions ← try_mls (group_call room_id MlsGroup.merge_pending_commit);
    actions ← lift (convert_mls_actions room_id mls_actions);
    mret (Some actions)
  else if is_own_commit && negb (MlsGroup.has_mls_pending_commit (mls_group room)) then
    mret None
  else
    mls_actions ← try_mls (group_call room_id (MlsGroup.process_message frame));
    actions ← lift (convert_mls_actions room_id mls_actions);
    mret (Some actions).

Definition handle_commit (room_id : N) (frame : Frame.t) : client (list ClientAction) :=
  applied ← apply_commit room_id frame;
  match applied with
  | None =>
      mret [CALog ("Ignoring own external commit for room " +:+ fmt_hex 32 room_id
                     +:+ " (already applied)")]
  | Some actions =>
      room ← get_room room_id;
      let g := mls_group room in
      new_sender_keys ← lift (initialize_sender_keys g);
      let leaf_index := MlsGroup.own_leaf_index g in
      insert_room room_id (mkRoom g new_sender_keys leaf_index);;
      state ← lift (map_err mls_err (MlsGroup.export_state g));
      mret (actions ++
            [CAPersistRoom (mkSnapshot room_id (MlsGroup.epoch g) state leaf_index)])
  end.

(** The loop over the pending KeyPackages: a state that is tried is consumed. *)
Fixpoint try_pending (room_id : N) (welcome_bytes : bytes) (hashes : list bytes)
    (last_error : option MlsError.t) : client (MlsGroup.t * list MlsAction.t) :=
  match hashes with
  | [] =>
      throw (ClientError.Mls
               ("No pending KeyPackage matched this Welcome: "
                  +:+ match last_error with None => "unknown" | Some e => MlsError.display e end))
  | hash_ref :: rest =>
      c ← get;
      match pending_joins c !! hash_ref with
      | None => try_pending room_id welcome_bytes rest last_error
      | Some pending_state =>
          modify (fun c => with_joins (delete hash_ref (pending_joins c)) c);;
          joined ← (fun c =>
            let '(e, r) := MlsGroup.join_from_welcome room_id (sender_id c) welcome_bytes
                             pending_state (env c) in
            (with_env e c, match r with Panic => Panic | r => Ok r end));
          match joined with
          | Ok result => mret result
          | Err e => try_pending room_id welcome_bytes rest (Some e)
          | Panic => lift Panic
          end
      end
  end.

Definition try_join_from_welcome (room_id : N) (welcome_bytes : bytes)
    : client (MlsGroup.t * list MlsAction.t) :=
  c ← get;
  match (map_to_list (pending_joins c)).*1 with
  | [] => throw (ClientError.Mls "No pending KeyPackage state available for Welcome")
  | hashes => try_pending room_id welcome_bytes hashes None
  end.

(** An answer that is looked at: [match result { Ok .., Err .. }]. *)
Definition catch {A} (m : client A) : client (res ClientError.t A) := fun c =>
  let '(c', r) := m c in (c', match r with Panic => Panic | r => Ok r end).

Definition handle_welcome (room_id : N) (frame : Frame.t) : client (list ClientAction) :=
  c ← get;
  if is_member c room_id then throw (ClientError.RoomAlreadyExists room_id)
  else
    joined ← catch (try_join_from_welcome room_id (Frame.payload frame));
    match joined with
    | Err e =>
        mret [CALog ("Welcome for room " +:+ fmt_hex 0 room_id +:+ " failed: "
                       +:+ ClientError.display e);
              CAKeyPackageNeeded (ClientError.display e)]
    | Panic => lift Panic
    | Ok (group, mls_actions) =>
        keys ← lift (initialize_sender_keys group);
        let leaf := MlsGroup.own_leaf_index group in
        let current_epoch := MlsGroup.epoch group in
        mls_state ← lift (map_err mls_err (MlsGroup.export_state group));
        insert_room room_id (mkRoom group keys leaf);;
        actions ← lift (convert_mls_actions room_id mls_actions);
        mret (actions ++
              [CALog ("Joined room " +:+ fmt_hex 0 room_id +:+ " via Welcome");
               CAPersistRoom (mkSnapshot room_id current_epoch mls_state leaf);
               CARequestSync room_id current_epoch current_epoch])
    end.

Definition handle_join_room (room_id : N) (welcome : bytes) : client (list ClientAction) :=
  c ← get;
  if is_member c room_id then throw (ClientError.RoomAlreadyExists room_id)
  else
    joined ← try_join_from_welcome room_id welcome;
    let '(group, mls_actions) := joined in
    keys ← lift (initialize_sender_keys group);
    insert_room room_id (mkRoom group keys (MlsGroup.own_leaf_index group));;
    actions ← lift (convert_mls_actions room_id mls_actions);
    mret (actions ++
          [CALog ("Joined room " +:+ fmt_hex 0 room_id +:+ " via JoinRoom event")]).

Definition handle_add_members (room_id : N) (key_packages : list bytes)
    : client (list ClientAction) :=
  _ ← get_room room_id;
  mls_actions ← try_mls (group_call room_id (MlsGroup.add_members_from_bytes key_packages));
  lift (convert_mls_actions room_id mls_actions).

Definition handle_remove_members (room_id : N) (ids : list N) : client (list ClientAction) :=
  _ ← get_room room_id;
  mls_actions ← try_mls (group_call room_id (MlsGroup.remove_members ids));
  lift (convert_mls_actions room_id mls_actions).

Definition handle_publish_key_package : client (list ClientAction) :=
  made ← generate_key_package;
  let '(kp_bytes, hash_ref) := made in
  frame ← lift (make_frame (Payload.KeyPackagePublish
                              (mkKeyPackagePublishRequest kp_bytes hash_ref)));
  mret [CASend frame; CALog "Published KeyPackage to server"; CAKeyPackagePublished].

Definition handle_fetch_and_add_member (room_id user_id : N) : client (list ClientAction) :=
  c ← get;
  if negb (is_member c room_id) then throw (ClientError.RoomNotFound room_id)
  else
    t0 ← env_now;
    modify (fun c => with_adds (<[(room_id, user_id) := t0]> (pending_adds c)) c);;
    frame ← lift (make_frame (Payload.KeyPackageFetch (mkKeyPackageFetchPayload user_id [] [])));
    mret [CASend frame;
          CALog ("Fetching KeyPackage for user " +:+ pretty user_id +:+ " to add to room "
                   +:+ fmt_hex 0 room_id)].

(** The pending adds of a user, in iteration order. *)
Definition adds_of (user_id : N) (c : t) : list (N * N) :=
  filter (fun key => snd key = user_id) (map_to_list (pending_adds c)).*1.

Definition remove_add (key : N * N) : client unit :=
  modify (fun c => with_adds (delete key (pending_adds c)) c).

Fixpoint remove_adds (keys : list (N * N)) : client unit :=
  match keys with [] => mret tt | key :: rest => remove_add key;; remove_adds rest end.

(** The loop of [handle_key_package_fetch_response]. *)
Fixpoint complete_adds (key_package_bytes : bytes) (keys : list (N * N))
    : client (list ClientAction) :=
  match keys with
  | [] => mret []
  | (room_id, user_id) :: rest =>
      remove_add (room_id, user_id);;
      c ← get;
      here ← (if is_member c room_id then
        added ← (fun c =>
          let '(c', r) := group_call room_id
                            (MlsGroup.add_members_from_bytes [key_package_bytes]) c in
          (c', match r with Panic => Panic | r => Ok r end));
        match added with
        | Ok mls_actions =>
            room_actions ← lift (convert_mls_actions room_id mls_actions);
            mret (room_actions ++
                  [CAMemberAdded room_id user_id;
                   CALog ("Added user " +:+ pretty user_id +:+ " to room " +:+ fmt_hex 0 room_id
                            +:+ " using fetched KeyPackage")])
        | Err e =>
            mret [CALog ("Failed to add user " +:+ pretty user_id +:+ " to room "
                           +:+ fmt_hex 0 room_id +:+ ": " +:+ MlsError.display e)]
        | Panic => lift Panic
        end
      else
        mret [CALog ("Room " +:+ fmt_hex 0 room_id +:+ " not found for pending add, skipping")]);
      actions ← complete_adds key_package_bytes rest;
      mret (here ++ actions)
  end.

Definition handle_key_package_fetch_response (frame : Frame.t) : client (list ClientAction) :=
  match from_reader (T := KeyPackageFetchPayload) (Frame.payload frame) with
  | inl e =>
      throw (ClientError.InvalidFrame ("Failed to decode KeyPackageFetch response: " +:+ e))
  | inr payload =>
      c ← get;
      let matching := adds_of (kpf_user_id payload) c in
      match kpf_key_package_bytes payload with
      | [] =>
          remove_adds matching;;
          mret [CALog ("No KeyPackage found for user " +:+ pretty (kpf_user_id payload))]
      | key_package_bytes =>
          match matching with
          | [] =>
              throw (ClientError.InvalidFrame
                       ("No pending add for user " +:+ pretty (kpf_user_id payload)))
          | _ => complete_adds key_package_bytes matching
          end
      end
  end.

Definition handle_external_join (room_id : N) : client (list ClientAction) :=
  c ← get;
  if is_member c room_id then throw (ClientError.RoomAlreadyExists room_id)
  else
    modify (fun c => with_external ({[ room_id ]} ∪ pending_external_joins c) c);;
    frame ← lift (make_frame (Payload.GroupInfoRequest (mkGroupInfoRequest room_id)));
    mret [CASend frame;
          CALog ("Requesting GroupInfo to join room " +:+ fmt_hex 32 room_id)].

Definition handle_group_info_response (frame : Frame.t) : client (list ClientAction) :=
  match from_reader (T := GroupInfoPayload) (Frame.payload frame) with
  | inl e => throw (ClientError.InvalidFrame ("Failed to decode GroupInfo response: " +:+ e))
  | inr payload =>
      let room_id := gip_room_id payload in
      c ← get;
      if negb (bool_decide (room_id ∈ pending_external_joins c)) then
        throw (ClientError.InvalidFrame
                 ("No pending external join for room " +:+ fmt_hex 32 room_id))
      else
        modify (fun c => with_external (pending_external_joins c ∖ {[ room_id ]}) c);;
        made ← try_mls (group_make (MlsGroup.join_from_external room_id (sender_id c)
                                      (gip_group_info_bytes payload)));
        let '(group, mls_actions) := made in
        keys ← lift (initialize_sender_keys group);
        let leaf := MlsGroup.own_leaf_index group in
        let epoch := MlsGroup.epoch group in
        initial_state ← lift (map_err mls_err (MlsGroup.export_state group));
        insert_room room_id (mkRoom group keys leaf);;
        actions ← lift (convert_mls_actions room_id mls_actions);
        mret (actions ++
              [CAPersistRoom (mkSnapshot room_id epoch initial_state leaf);
               CARoomJoined room_id epoch])
  end.

(** The frames of a sync response, through a handler of frames; [i] counts
    them. *)
Fixpoint sync_frames_loop (handle : Frame.t -> client (list ClientAction)) (i : N)
    (frames : list bytes) : client (list ClientAction) :=
  match frames with
  | [] => mret []
  | frame_bytes :: rest =>
      sync_frame ← lift (map_err (fun e => ClientError.InvalidFrame
                          ("Failed to decode sync frame " +:+ pretty i +:+ ": "
                             +:+ ProtocolError.display e)) (Frame.decode frame_bytes));
      handled ← catch (handle sync_frame);
      let here :=
        match handled with
        | Ok actions => actions
        | Err e => [CALog ("Sync frame " +:+ pretty i +:+ " processing error (may be expected): "
                             +:+ ClientError.display e)]
        | Panic => []
        end in
      actions ← sync_frames_loop handle (i + 1) rest;
      mret (here ++ actions)
  end.

Definition room_epoch_or_0 (room_id : N) (c : t) : N := default 0 (epoch c room_id).

Definition fmt_bool (b : bool) : string := if b then "true" else "false".

Definition handle_sync_response (handle : Frame.t -> client (list ClientAction)) (room_id : N)
    (frame : Frame.t) : client (list ClientAction) :=
  match from_reader (T := SyncResponse) (Frame.payload frame) with
  | inl e => throw (ClientError.InvalidFrame ("Failed to decode SyncResponse: " +:+ e))
  | inr sync_response =>
      actions ← sync_frames_loop handle 0 (sync_frames sync_response);
      c ← get;
      let current_epoch := room_epoch_or_0 room_id c in
      mret ([CALog ("Processing sync response for room " +:+ fmt_hex 0 room_id +:+ ": "
                      +:+ pretty (len (sync_frames sync_response)) +:+ " frames, has_more="
                      +:+ fmt_bool (has_more sync_response) +:+ ", server_epoch="
                      +:+ pretty (server_epoch sync_response))]
            ++ actions ++
            if has_more sync_response then
              [CARequestSync room_id current_epoch (server_epoch sync_response);
               CALog ("Sync incomplete, requesting more frames for room " +:+ fmt_hex 0 room_id
                        +:+ " (current epoch: " +:+ pretty current_epoch +:+ ", target: "
                        +:+ pretty (server_epoch sync_response) +:+ ")")]
            else
              [CALog ("Sync complete for room " +:+ fmt_hex 0 room_id +:+ ", now at epoch "
                        +:+ pretty current_epoch)])
  end.

(** Frames of any opcode without a handler of their own. *)
Definition handle_other (room_id : N) (frame : Frame.t) : client (list ClientAction) :=
  _ ← get_room room_id;
  mls_actions ← try_mls (group_call room_id (MlsGroup.process_message frame));
  lift (convert_mls_actions room_id mls_actions).

(** A sync response holds frames, which may be sync responses: the nesting is
    the fuel. *)
Fixpoint handle_frame_fuel (fuel : nat) (frame : Frame.t) : client (list ClientAction) :=
  let room_id := FrameHeader.room_id (Frame.header frame) in
  match fuel, FrameHeader.opcode_enum (Frame.header frame) with
  | O, _ => lift Panic
  | S _, None =>
      throw (ClientError.InvalidFrame ("Unknown opcode: "
               +:+ pretty (FrameHeader.opcode (Frame.header frame))))
  | S fuel', Some opcode =>
      match opcode with
      | Opcode.HelloReply | Opcode.Pong => mret []
      | Opcode.Error => mret [CALog ("Server error: room_id=" +:+ fmt_hex 0 room_id)]
      | Opcode.AppMessage => handle_app_message room_id frame
      | Opcode.Commit | Opcode.ExternalCommit => handle_commit room_id frame
      | Opcode.Welcome => handle_welcome room_id frame
      | Opcode.SyncResponse => handle_sync_response (handle_frame_fuel fuel') room_id frame
      | Opcode.KeyPackageFetch => handle_key_package_fetch_response frame
      | Opcode.GroupInfo => handle_group_info_response frame
      | _ => handle_other room_id frame
      end
  end.

(** A frame within a frame is shorter, so the length of the payload is enough. *)
Definition handle_frame (frame : Frame.t) : client (list ClientAction) :=
  handle_frame_fuel (S (length (Frame.payload frame))) frame.

(** The stale pending adds of [handle_tick]. *)
Fixpoint expire_adds (keys : list (N * N)) : client (list ClientAction) :=
  match keys with
  | [] => mret []
  | (room_id, user_id) :: rest =>
      c ← get;
      let present := is_Some (pending_adds c !! (room_id, user_id)) in
      remove_add (room_id, user_id);;
      actions ← expire_adds rest;
      mret ((if bool_decide present then
               [CALog ("KeyPackage fetch timeout for user " +:+ pretty user_id +:+ " in room "
                         +:+ fmt_hex 0 room_id +:+ ", removing pending operation")]
             else []) ++ actions)
  end.

(** The rooms of [handle_tick]: a failure keeps what was done before it. *)
Fixpoint expire_commits (now : Instant) (ids : list N) : client (list ClientAction) :=
  match ids with
  | [] => mret []
  | room_id :: rest =>
      room ← get_room room_id;
      here ← (if MlsGroup.is_commit_timeout (mls_group room) now COMMIT_TIMEOUT then
        let current_epoch := MlsGroup.epoch (mls_group room) in
        try_mls (group_call room_id MlsGroup.clear_pending_commit);;
        mret [CARequestSync room_id current_epoch (saturating_add u64_MAX current_epoch 1);
              CALog ("Commit timeout in room " +:+ fmt_hex 0 room_id
                       +:+ ", requesting sync from epoch " +:+ pretty current_epoch)]
      else mret []);
      actions ← expire_commits now rest;
      mret (here ++ actions)
  end.

Definition handle_tick (now : Instant) : client (list ClientAction) :=
  c ← get;
  let stale_adds :=
    (filter (fun entry => KEY_PACKAGE_FETCH_TIMEOUT < instant_sub now (snd entry))
       (map_to_list (pending_adds c))).*1 in
  add_actions ← expire_adds stale_adds;
  c' ← get;
  commit_actions ← expire_commits now (map_to_list (rooms c')).*1;
  mret (add_actions ++ commit_actions).

Definition handle_leave_room (room_id : N) : client (list ClientAction) :=
  c ← get;
  if negb (is_member c room_id) then throw (ClientError.RoomNotFound room_id)
  else
    modify (fun c => with_rooms (delete room_id (rooms c)) c);;
    mret [CARoomRemoved room_id "Left room"].

Definition handle (event : ClientEvent) : client (list ClientAction) :=
  match event with
  | CECreateRoom room_id => handle_create_room room_id
  | CESendMessage room_id plaintext => handle_send_message room_id plaintext
  | CEFrameReceived frame => handle_frame frame
  | CETick now => handle_tick now
  | CELeaveRoom room_id => handle_leave_room room_id
  | CEJoinRoom room_id welcome => handle_join_room room_id welcome
  | CEAddMembers room_id key_packages => handle_add_members room_id key_packages
  | CERemoveMembers room_id ids => handle_remove_members room_id ids
  | CEPublishKeyPackage => handle_publish_key_package
  | CEFetchAndAddMember room_id user_id => handle_fetch_and_add_member room_id user_id
  | CEExternalJoin room_id => handle_external_join room_id
  end.

End client.
End Client.
