(* ===== verification/UnitClient.v ===== *)
(** * The unit tests of groups and clients

    [mls/group.rs] of [lockframe-core], [client.rs] and [error.rs] of
    [lockframe-client], over the plain MLS library and the codec of the samples
    and the checksums of the crypto tests. *)

From S2P Require Import Prelude Env Opcodes Header Framing Payloads Validator Mls SenderKeys Samples.
From S2P Require Import Client UnitTesting UnitCrypto.

Local Open Scope N_scope.

#[local] Existing Instance plain_openmls.
#[local] Existing Instance byte_ciborium.
#[local] Existing Instance MlsValidator.toy_ed25519.
#[local] Existing Instance checksum_crypto.

(** The clock stands still at zero. *)
Definition fresh_env : TestEnv := mkTestEnv 0 0 1 1704067200.

(** [actions.iter().any(..)] and [find_map(..).expect(..)]. *)
Definition any {S A} (p : A -> bool) (l : list A) : test S unit := check (existsb p l).
Definition find_map {S A B} (f : A -> option B) (l : list A) : test S B :=
  some (head (omap f l)).

(** ** [mls/group.rs] *)

Module GroupTests.
Import MlsGroup.

Abbreviation group := (MlsGroup.t (Env := TestEnv)).
Definition room : N := 0x123456789abcdef0123456789abcdef0.
Definition alice_id : N := 42.
Definition bob_id : N := 100.

(** A method of a group, with the group after it. *)
Definition on {A} (g : group) (m : M (TestEnv * group) MlsError.t A) : test TestEnv (group * A) := fun e =>
  let '((e', g'), r) := m (e, g) in
  (e', match r with Ok a => Ok (g', a) | _ => Panic end).
Definition fails {A} (g : group) (m : M (TestEnv * group) MlsError.t A) : test TestEnv string := fun e =>
  let '((e', _), r) := m (e, g) in
  (e', match r with Err err => Ok (MlsError.display err) | _ => Panic end).

(** The steps the tests share: Alice creates the group and adds Bob. *)
Definition alice_creates : test TestEnv group :=
  p ← unwrap (MlsGroup.new room alice_id); mret (fst p).
Definition bob_key_package : test TestEnv (bytes * PendingJoinState) :=
  p ← unwrap (generate_key_package bob_id); let '(kp, _, pending) := p in mret (kp, pending).
Definition welcome_in (actions : list MlsAction.t) : test TestEnv (N * Frame.t) :=
  find_map (fun a => match a with MlsAction.SendWelcome r f => Some (r, f) | _ => None end) actions.
Definition is_log (a : MlsAction.t) : bool := match a with MlsAction.Log _ => true | _ => false end.

Definition create_group : test TestEnv unit :=
  let member := 1 in
  p ← unwrap (MlsGroup.new room member);
  let '(group, actions) := p in
  check_eq (room_id group) room;;
  check_eq (member_id group) member;;
  check_eq (epoch group) 0;;
  check (negb (has_pending_commit group));;
  check_eq (len actions) 2;;
  a ← index actions 0; check (match a with MlsAction.PublishGroupInfo _ _ _ => true | _ => false end);;
  a ← index actions 1; check (is_log a).

Definition commit_timeout_detection : test TestEnv unit :=
  now ← UnitTesting.call (fun e => let '(i, e') := now e in (e', i));
  p ← unwrap (MlsGroup.new room 1);
  let group := fst p in
  check (negb (is_commit_timeout group now (from_secs 5)));;
  let group := set_pending (Some (mkPendingCommit 1 now)) group in
  check (negb (is_commit_timeout group (now + from_secs 4) (from_secs 5)));;
  check (is_commit_timeout group (now + from_secs 5) (from_secs 5));;
  check (is_commit_timeout group (now + from_secs 6) (from_secs 5)).

Definition process_message_returns_correct_sender : test TestEnv unit :=
  alice ← alice_creates;
  kp ← bob_key_package; let '(bob_kp_bytes, bob_pending) := kp in
  r ← on alice (add_members_from_bytes [bob_kp_bytes]); let '(alice, add_actions) := r in
  w ← welcome_in add_actions;
  r ← on alice merge_pending_commit; let '(alice, _) := r in
  p ← unwrap (join_from_welcome room bob_id (Frame.payload (snd w)) bob_pending);
  r ← on alice (create_message (str "Hello from Alice")); let '(_, message_actions) := r in
  message_frame ← find_map (fun a => match a with MlsAction.SendMessage f => Some f | _ => None end)
    message_actions;
  r ← on (fst p) (process_message message_frame); let '(_, receive_actions) := r in
  d ← find_map (fun a => match a with MlsAction.DeliverMessage s t => Some (s, t) | _ => None end)
    receive_actions;
  check_eq (fst d) alice_id;;
  check_eq (snd d) (str "Hello from Alice").

Definition add_members_returns_correct_welcome_recipient : test TestEnv unit :=
  alice ← alice_creates;
  kp ← bob_key_package;
  r ← on alice (add_members_from_bytes [fst kp]);
  w ← welcome_in (snd r); let '(welcome_recipient, welcome_frame) := w in
  check_eq welcome_recipient bob_id;;
  check_eq (FrameHeader.recipient_id (Frame.header welcome_frame)) bob_id;;
  check_eq (FrameHeader.room_id (Frame.header welcome_frame)) room;;
  check_eq (FrameHeader.sender_id (Frame.header welcome_frame)) alice_id.

(** The members whose credentials have eight bytes. *)
Definition members (g : group) : list N :=
  omap (fun m => if 8 <=? len (m_credential m) then Some (from_le_bytes (take 8 (m_credential m)))
                 else None) (group_members (inner_group g)).

Definition remove_members_produces_commit : test TestEnv unit :=
  alice ← alice_creates;
  kp ← bob_key_package;
  r ← on alice (add_members_from_bytes [fst kp]);
  r ← on (fst r) merge_pending_commit; let '(alice, _) := r in
  check (bool_decide (bob_id ∈ members alice));;
  r ← on alice (remove_members [bob_id]); let '(_, remove_actions) := r in
  any (fun a => match a with MlsAction.SendCommit _ => true | _ => false end) remove_actions;;
  any (fun a => match a with MlsAction.Log m => contains_str "100" m | _ => false end) remove_actions.

Definition remove_members_rejects_self_removal : test TestEnv unit :=
  alice ← alice_creates;
  e ← fails alice (remove_members [alice_id]); check (contains_str "leave_group" e).

Definition remove_members_rejects_unknown_member : test TestEnv unit :=
  alice ← alice_creates;
  e ← fails alice (remove_members [999]); check (contains_str "not found" e).

Definition leave_group_produces_commit_and_remove_action : test TestEnv unit :=
  alice ← alice_creates;
  kp ← bob_key_package; let '(bob_kp_bytes, bob_pending) := kp in
  r ← on alice (add_members_from_bytes [bob_kp_bytes]); let '(alice, add_actions) := r in
  on alice merge_pending_commit;;
  w ← welcome_in add_actions;
  p ← unwrap (join_from_welcome room bob_id (Frame.payload (snd w)) bob_pending);
  r ← on (fst p) leave_group; let '(_, leave_actions) := r in
  any (fun a => match a with MlsAction.SendProposal _ => true | _ => false end) leave_actions;;
  check (negb (existsb (fun a => match a with MlsAction.RemoveGroup _ => true | _ => false end)
                 leave_actions)).

Definition join_from_external_creates_commit : test TestEnv unit :=
  alice ← alice_creates;
  group_info_bytes ← unwrap (lift (export_group_info alice));
  p ← unwrap (join_from_external room bob_id group_info_bytes); let '(bob, actions) := p in
  check_eq (room_id bob) room;;
  check_eq (member_id bob) bob_id;;
  any (fun a => match a with
                | MlsAction.SendCommit f =>
                    bool_decide (FrameHeader.opcode_enum (Frame.header f) = Some Opcode.ExternalCommit)
                | _ => false
                end) actions.

Definition join_from_external_rejects_invalid_group_info : test TestEnv unit :=
  result ← attempt (join_from_external room bob_id (lit [1; 2; 3; 4])); check (is_err result).

(** The tests of [mls/group.rs] pass on the model. *)
Lemma group_tests_pass : all_pass (map (fun t => run_test t fresh_env)
  [create_group; commit_timeout_detection; process_message_returns_correct_sender;
   add_members_returns_correct_welcome_recipient; remove_members_produces_commit;
   remove_members_rejects_self_removal; remove_members_rejects_unknown_member;
   leave_group_produces_commit_and_remove_action; join_from_external_creates_commit;
   join_from_external_rejects_invalid_group_info]) = true.
Proof. vm_compute. reflexivity. Qed.

End GroupTests.

(** ** [client.rs] and [error.rs] *)

Module ClientTests.

Abbreviation client := (Client.t (Env := TestEnv)).
Definition fresh : client := Client.new fresh_env 42.
Definition handle (event : ClientEvent) : test client (list ClientAction) := unwrap (Client.handle event).
Definition rejects (event : ClientEvent) (p : ClientError.t -> bool) : test client unit :=
  result ← attempt (Client.handle event);
  check (match result with Err e => p e | _ => false end).
Definition expects {A} `{EqDecision A} (f : client -> A) (a : A) : test client unit :=
  x ← query f; check_eq x a.
Definition room_id : N := 0x1234.
Definition is_member (room_id : N) (b : bool) : test client unit :=
  expects (fun c => Client.is_member c room_id) b.
Definition pending_add (room_id user_id : N) (b : bool) : test client unit :=
  expects (fun c => bool_decide (is_Some (Client.pending_adds c !! (room_id, user_id)))) b.
Definition sent (actions : list ClientAction) : test client Frame.t :=
  a ← index actions 0;
  match a with CASend f => mret f | _ => lift Panic end.
Definition logs (part : string) (a : ClientAction) : bool :=
  match a with CALog m => contains_str part m | _ => false end.
Definition key_package_needed (a : ClientAction) : bool :=
  match a with CAKeyPackageNeeded _ => true | _ => false end.

Definition create_client : test client unit :=
  expects Client.sender_id 42;;
  expects Client.room_count 0.

Definition create_room : test client unit :=
  let room_id := 0x123456789abcdef0 in
  actions ← handle (CECreateRoom room_id);
  is_member room_id true;;
  expects (fun c => Client.epoch c room_id) (Some 0);;
  check (negb (len actions =? 0)).

Definition create_duplicate_room_fails : test client unit :=
  handle (CECreateRoom room_id);;
  rejects (CECreateRoom room_id)
    (fun e => match e with ClientError.RoomAlreadyExists _ => true | _ => false end).

Definition send_message_to_unknown_room_fails : test client unit :=
  rejects (CESendMessage 0x9999 (str "hello"))
    (fun e => match e with ClientError.RoomNotFound _ => true | _ => false end).

Definition leave_room : test client unit :=
  handle (CECreateRoom room_id);;
  is_member room_id true;;
  actions ← handle (CELeaveRoom room_id);
  is_member room_id false;;
  a ← index actions 0; check (match a with CARoomRemoved _ _ => true | _ => false end).

Definition leave_unknown_room_fails : test client unit :=
  rejects (CELeaveRoom 0x9999)
    (fun e => match e with ClientError.RoomNotFound _ => true | _ => false end).

Definition send_message_produces_encrypted_frame : test client unit :=
  handle (CECreateRoom room_id);;
  actions ← handle (CESendMessage room_id (str "Hello, World!"));
  check_eq (len actions) 1;;
  frame ← sent actions;
  check_eq (FrameHeader.opcode_enum (Frame.header frame)) (Some Opcode.AppMessage);;
  check_eq (FrameHeader.room_id (Frame.header frame)) room_id;;
  check (negb (len (Frame.payload frame) =? 0));;
  check_ne (Frame.payload frame) (str "Hello, World!").

Definition app_message_with_invalid_signature_is_rejected : test client unit :=
  handle (CECreateRoom room_id);;
  let header := FrameHeader.set_epoch 0 (FrameHeader.set_sender_id 99
    (FrameHeader.set_room_id room_id (FrameHeader.new Opcode.AppMessage))) in
  frame ← lift (Frame.new header []);
  rejects (CEFrameReceived frame)
    (fun e => match e with ClientError.InvalidFrame _ => true | _ => false end).

Definition encrypt_decrypt_roundtrip_same_client : test client unit :=
  handle (CECreateRoom room_id);;
  actions ← handle (CESendMessage room_id (str "Secret message"));
  frame ← sent actions;
  encrypted ← unwrap (lift (deserialize_encrypted_message (Frame.payload frame)));
  check_eq (em_epoch encrypted) 0;;
  check_eq (em_sender_index encrypted) 0;;
  check_eq (em_generation encrypted) 0;;
  check (negb (len (em_ciphertext encrypted) =? 0));;
  o ← query (fun c => Client.rooms c !! room_id); room ← some o;
  check_eq (SenderKeyStore.sender_generation (Client.sender_keys room) 0) (Some 1).

Definition pending_adds_timeout_cleanup : test client unit :=
  let user_id := 123 in
  handle (CECreateRoom room_id);;
  handle (CEFetchAndAddMember room_id user_id);;
  pending_add room_id user_id true;;
  now ← query (fun c => fst (now (Client.env c)));
  actions ← handle (CETick (now + KEY_PACKAGE_FETCH_TIMEOUT + from_secs 1));
  pending_add room_id user_id false;;
  any (logs "KeyPackage fetch timeout") actions.

Definition pending_adds_multiple_rooms_same_user : test client unit :=
  let room_id1 := 0x1234 in
  let room_id2 := 0x5678 in
  let user_id := 123 in
  handle (CECreateRoom room_id1);;
  handle (CECreateRoom room_id2);;
  handle (CEFetchAndAddMember room_id1 user_id);;
  handle (CEFetchAndAddMember room_id2 user_id);;
  pending_add room_id1 user_id true;;
  pending_add room_id2 user_id true;;
  expects (fun c => size (Client.pending_adds c)) 2%nat;;
  let payload := mkKeyPackageFetchPayload user_id (lit [1; 2; 3; 4]) (lit [5; 6; 7; 8]) in
  frame ← unwrap (lift (Payload.into_frame (Payload.KeyPackageFetch payload)
                          (FrameHeader.new Opcode.KeyPackageFetch)));
  actions ← handle (CEFrameReceived frame);
  pending_add room_id1 user_id false;;
  pending_add room_id2 user_id false;;
  expects (fun c => size (Client.pending_adds c)) 0%nat;;
  let failed (room_id : N) :=
    ("Failed to add user " +:+ pretty user_id +:+ " to room " +:+ fmt_hex 0 room_id)%string in
  any (logs (failed room_id1)) actions;;
  any (logs (failed room_id2)) actions;;
  check_eq (length (List.filter (logs "Failed to add user") actions)) 2%nat.

Definition welcome_frame : test client Frame.t :=
  lift (Frame.new (FrameHeader.set_room_id room_id (FrameHeader.new Opcode.Welcome)) (lit [1; 2; 3; 4])).

Definition welcome_without_pending_keypackage_emits_keypackage_needed : test client unit :=
  frame ← welcome_frame;
  actions ← handle (CEFrameReceived frame);
  any key_package_needed actions;;
  any (fun a => logs "Welcome" a && logs "failed" a) actions.

Definition welcome_with_wrong_keypackage_emits_keypackage_needed : test client unit :=
  unwrap Client.generate_key_package;;
  expects (fun c => size (Client.pending_joins c)) 1%nat;;
  frame ← welcome_frame;
  actions ← handle (CEFrameReceived frame);
  expects (fun c => size (Client.pending_joins c)) 0%nat;;
  any key_package_needed actions.

Definition welcome_to_existing_room_returns_error : test client unit :=
  handle (CECreateRoom room_id);;
  frame ← welcome_frame;
  rejects (CEFrameReceived frame)
    (fun e => match e with ClientError.RoomAlreadyExists _ => true | _ => false end).

Definition room_not_found_is_transient : test client unit :=
  check (negb (ClientError.is_fatal (ClientError.RoomNotFound 123))).
Definition invalid_frame_is_fatal : test client unit :=
  check (ClientError.is_fatal (ClientError.InvalidFrame "bad magic")).
Definition sync_required_is_transient : test client unit :=
  check (negb (ClientError.is_fatal (ClientError.SyncRequired 123 5))).
Definition error_display : test client unit :=
  check_eq (ClientError.display (ClientError.EpochMismatch 5 3)) "epoch mismatch: expected 5, got 3"%string.

(** The tests of [client.rs] and [error.rs] pass on the model. *)
Lemma client_tests_pass : all_pass (map (fun t => run_test t fresh)
  [create_client; create_room; create_duplicate_room_fails; send_message_to_unknown_room_fails;
   leave_room; leave_unknown_room_fails; send_message_produces_encrypted_frame;
   app_message_with_invalid_signature_is_rejected; encrypt_decrypt_roundtrip_same_client;
   pending_adds_timeout_cleanup; pending_adds_multiple_rooms_same_user;
   welcome_without_pending_keypackage_emits_keypackage_needed;
   welcome_with_wrong_keypackage_emits_keypackage_needed; welcome_to_existing_room_returns_error;
   room_not_found_is_transient; invalid_frame_is_fatal; sync_required_is_transient;
   error_display]) = true.
Proof. vm_compute. reflexivity. Qed.

End ClientTests.
