(* ===== verification/Cluster.v ===== *)
(** * A cluster of clients

    [TestCluster] of [lockframe-harness/src/cluster.rs]: clients of the real
    state machine, and a store of GroupInfos in the place of the server; it
    creates rooms, joins clients by Welcome and by external commit, and sends
    messages whose delivery it checks.  The clones of the simulation's
    environment share their state, so the cluster has one environment, with
    which every call of a client runs. *)

From S2P Require Import Prelude Env Opcodes Header Framing Payloads Validator SenderKeys Mls Client.

Local Open Scope N_scope.

Module TestCluster.

Section cluster.
Context {Env : Type} `{!Environment Env} {openmls : OpenMls Env} {crypto : Crypto}
  {ed25519 : Ed25519} {ciborium : Ciborium}.

Record t := mk {
  clients : list Client.t;
  env : Env;
  group_info_storage : gmap N (N * bytes) }.

Abbreviation cluster A := (M t string A).

Definition new (e : Env) (num_clients : nat) : t :=
  mk (map (fun i => Client.new e (N.of_nat i + 1)) (List.seq 0 num_clients)) e ∅.

Definition store_group_info (room_id epoch : N) (group_info_bytes : bytes) (cl : t) : t :=
  mk (clients cl) (env cl) (<[room_id := (epoch, group_info_bytes)]> (group_info_storage cl)).

Definition load_group_info (cl : t) (room_id : N) : option (N * bytes) :=
  group_info_storage cl !! room_id.

(** The epoch of every client that has the room. *)
Definition epochs (cl : t) (room_id : N) : list (nat * N) :=
  omap (fun '(i, c) => (fun e => (i, e)) <$> Client.epoch c room_id)
    (imap pair (clients cl)).

(** A call of the client [self.clients[i]]. *)
Definition on_client {A} (i : nat) (m : M Client.t ClientError.t A)
    : cluster (res ClientError.t A) := fun cl =>
  match clients cl !! i with
  | None => (cl, Panic)
  | Some c =>
      let '(c', r) := m (Client.with_env (env cl) c) in
      (mk (<[i := c']> (clients cl)) (Client.env c') (group_info_storage cl),
       match r with Panic => Panic | r => Ok r end)
  end.

(** [.map_err(|e| format!("{context}: {e}"))?]. *)
Definition try_client {A} (i : nat) (context : string) (m : M Client.t ClientError.t A) : cluster A :=
  r ← on_client i m;
  lift (map_err (fun e => context +:+ ": " +:+ ClientError.display e) r).

(** The GroupInfos among the frames that actions send. *)
Definition group_info_of (action : ClientAction) : option (N * bytes) :=
  match action with
  | CASend frame =>
      if bool_decide (FrameHeader.opcode_enum (Frame.header frame) = Some Opcode.GroupInfo) then
        match Payload.from_frame frame with
        | Ok (Payload.GroupInfo payload) => Some (gip_epoch payload, gip_group_info_bytes payload)
        | _ => None
        end
      else None
  | _ => None
  end.

Definition store_group_infos (room_id : N) (actions : list ClientAction) : cluster unit :=
  modify (fun cl => fold_left (fun cl '(epoch, info) => store_group_info room_id epoch info cl)
                      (omap group_info_of actions) cl).

Definition create_room (room_id : N) : cluster unit :=
  actions ← try_client 0 "create room failed" (Client.handle (CECreateRoom room_id));
  store_group_infos room_id actions.

(** The frames that actions send, of the opcodes; the loops keep the last. *)
Definition frames_of (opcodes : list Opcode.t) (actions : list ClientAction) : list Frame.t :=
  omap (fun action =>
    match action with
    | CASend frame =>
        match FrameHeader.opcode_enum (Frame.header frame) with
        | Some op => if bool_decide (op ∈ opcodes) then Some frame else None
        | None => None
        end
    | _ => None
    end) actions.

(** The loop over the other members in [join_via_welcome]; an error is dropped. *)
Fixpoint forward_commit (room_id : N) (joiner_idx : nat) (commit : Frame.t) (idxs : list nat)
    : cluster unit :=
  match idxs with
  | [] => mret tt
  | i :: rest =>
      (if ((i =? 0)%nat || (i =? joiner_idx)%nat) then mret tt
       else
         cl ← get;
         match clients cl !! i with
         | Some c =>
             if Client.is_member c room_id
             then _ ← on_client i (Client.handle (CEFrameReceived commit)); mret tt
             else mret tt
         | None => mret tt
         end);;
      forward_commit room_id joiner_idx commit rest
  end.

(** [self.clients.iter_mut().enumerate()]. *)
Definition indices (cl : t) : list nat := List.seq 0 (length (clients cl)).

Definition join_via_welcome (room_id : N) (joiner_idx : nat) : cluster unit :=
  kp ← try_client joiner_idx "keygen failed" Client.generate_key_package;
  add_actions ← try_client 0 "add member failed"
                  (Client.handle (CEAddMembers room_id [fst kp]));
  welcome ← lift (ok_or (last (frames_of [Opcode.Welcome] add_actions)) "no Welcome frame"%string);
  commit ← lift (ok_or (last (frames_of [Opcode.Commit] add_actions)) "no Commit frame"%string);
  commit_actions ← try_client 0 "creator commit failed"
                     (Client.handle (CEFrameReceived commit));
  store_group_infos room_id commit_actions;;
  try_client joiner_idx "join via welcome failed"
    (Client.handle (CEJoinRoom room_id (Frame.payload welcome)));;
  cl ← get;
  forward_commit room_id joiner_idx commit (indices cl).

(** The loop over all members in [join_via_external]: an error counts as no
    actions, and the last GroupInfo is kept. *)
Fixpoint apply_external (room_id : N) (joiner_idx : nat) (commit : Frame.t) (idxs : list nat)
    (joiner_group_info : option (N * bytes)) : cluster (option (N * bytes)) :=
  match idxs with
  | [] => mret joiner_group_info
  | i :: rest =>
      cl ← get;
      let member := match clients cl !! i with Some c => Client.is_member c room_id | None => false end in
      if member || (i =? joiner_idx)%nat then
        answer ← on_client i (Client.handle (CEFrameReceived commit));
        let commit_actions := match answer with Ok actions => actions | _ => [] end in
        apply_external room_id joiner_idx commit rest
          (match last (omap group_info_of commit_actions) with
           | Some info => Some info
           | None => joiner_group_info
           end)
      else apply_external room_id joiner_idx commit rest joiner_group_info
  end.

Definition join_via_external (room_id : N) (joiner_idx : nat) : cluster unit :=
  cl ← get;
  info ← lift (ok_or (load_group_info cl room_id) "no GroupInfo stored for room"%string);
  try_client joiner_idx "external join init failed" (Client.handle (CEExternalJoin room_id));;
  gi_frame ← lift (map_err (fun e => "GroupInfo frame failed: " +:+ ProtocolError.display e)
                     (Payload.into_frame
                        (Payload.GroupInfo (mkGroupInfoPayload room_id (fst info) (snd info)))
                        (FrameHeader.new Opcode.GroupInfo)));
  join_actions ← try_client joiner_idx "process GroupInfo failed"
                   (Client.handle (CEFrameReceived gi_frame));
  commit ← lift (ok_or (last (frames_of [Opcode.Commit; Opcode.ExternalCommit] join_actions))
                   "no external commit frame"%string);
  cl' ← get;
  joiner_group_info ← apply_external room_id joiner_idx commit (indices cl') None;
  match joiner_group_info with
  | Some (epoch, info) => modify (store_group_info room_id epoch info)
  | None => mret tt
  end.

(** [matches!(a, DeliverMessage { sender_id: s, plaintext, .. } if ..)]. *)
Definition delivers (sender_id : N) (message : bytes) (action : ClientAction) : bool :=
  match action with
  | CADeliverMessage _ s plaintext _ _ => (s =? sender_id) && bool_decide (plaintext = message)
  | _ => false
  end.

(** The loop over the readers in [send_and_verify]. *)
Fixpoint verify_delivery (room_id : N) (sender_idx : nat) (sender_id : N) (message : bytes)
    (msg_frame : Frame.t) (idxs : list nat) : cluster unit :=
  match idxs with
  | [] => mret tt
  | i :: rest =>
      cl ← get;
      let member := match clients cl !! i with Some c => Client.is_member c room_id | None => false end in
      (if (i =? sender_idx)%nat || negb member then mret tt
       else
         recv_actions ← try_client i ("client " +:+ pretty (N.of_nat i) +:+ " receive failed")
                          (Client.handle (CEFrameReceived msg_frame));
         if existsb (delivers sender_id message) recv_actions then mret tt
         else throw ("client " +:+ pretty (N.of_nat i) +:+ " did not receive message"));;
      verify_delivery room_id sender_idx sender_id message msg_frame rest
  end.

Definition send_and_verify (room_id : N) (sender_idx : nat) (message : bytes) : cluster unit :=
  cl ← get;
  match clients cl !! sender_idx with
  | None => lift Panic
  | Some sender =>
      let sender_id := Client.sender_id sender in
      send_actions ← try_client sender_idx "send failed"
                       (Client.handle (CESendMessage room_id message));
      msg_frame ← lift (ok_or (head (frames_of [Opcode.AppMessage] send_actions))
                          "no AppMessage frame"%string);
      cl' ← get;
      verify_delivery room_id sender_idx sender_id message msg_frame (indices cl')
  end.

End cluster.
End TestCluster.
