(* ===== verification/ClientInv.v ===== *)
(** * The invariant of the client

    What holds of a client after any events, whatever frames the server sends:
    the nesting of sync responses is bounded by their size, the rooms and their
    groups belong together, the sender keys of a room are key sequences of its
    members, epochs do not go back, and no frame makes the client panic. *)

From S2P Require Import Prelude Env Opcodes Header Framing Payloads Validator SenderKeys Mls.
From S2P Require Import Samples Client.

Local Open Scope N_scope.

Module ClientInvariant.
Import Client.

(** The step of a client. *)
Section step.
Context {Env : Type} `{!Environment Env} {openmls : OpenMls Env} {crypto : Crypto}
  {ed25519 : Ed25519} {ciborium : Ciborium}.

Definition client_step (c : t) (ev : ClientEvent) : t := fst (handle ev c).

(** A text to send is shorter than 4 GiB. *)
Definition event_fits (ev : ClientEvent) : Prop :=
  match ev with CESendMessage _ plaintext => len plaintext < 2 ^ 32 | _ => True end.

(** The sender keys of a room are key sequences of the members at one epoch of
    its group: this very group had a state, now or before, that exported the
    secret of the keys, and whose members and own leaf are those of the keys; it
    has not gone back behind the epoch of that state. *)
Definition keys_of_group (room : RoomState) : Prop :=
  exists (g0 : MlsGroup.t) secret,
    MlsGroup.past g0 (mls_group room) /\
    MlsGroup.export_secret g0 CLIENT_SENDER_KEY_LABEL SENDER_KEY_CONTEXT SENDER_KEY_SECRET_SIZE
    = Ok secret /\
    MlsGroup.epoch g0 <= MlsGroup.epoch (mls_group room) /\
    SenderKeyProperties.synced secret (MlsGroup.epoch g0) (sender_keys room) /\
    dom (SenderKeyStore.ratchets (sender_keys room))
    = list_to_set (MlsGroup.member_leaf_indices g0) /\
    my_leaf_index room = MlsGroup.own_leaf_index g0.

Definition room_inv (sid r : N) (room : RoomState) : Prop :=
  MlsGroup.room_id (mls_group room) = r /\ MlsGroup.member_id (mls_group room) = sid /\
  keys_of_group room.

Definition client_inv (c : t) : Prop :=
  forall r room, rooms c !! r = Some room -> room_inv (sender_id c) r room.

(** The rooms but those of [X] are still there, at the same or a later epoch. *)
Definition keeps (X : gset N) (c c' : t) : Prop :=
  sender_id c' = sender_id c /\
  forall r room, r ∉ X -> rooms c !! r = Some room ->
    exists room', rooms c' !! r = Some room' /\
      MlsGroup.epoch (mls_group room) <= MlsGroup.epoch (mls_group room').

(** No room is lost. *)
Definition grows (c c' : t) : Prop := forall r, is_Some (rooms c !! r) -> is_Some (rooms c' !! r).

(** The rooms an action tells of joining are rooms of the client. *)
Definition joins_known (c : t) (a : ClientAction) : Prop :=
  match a with
  | CAPersistRoom snapshot => is_Some (rooms c !! snap_room_id snapshot)
  | CARoomJoined r _ => is_Some (rooms c !! r)
  | _ => True
  end.

Definition known (c : t) (acts : list ClientAction) : Prop := Forall (joins_known c) acts.

Lemma known_grows c c' acts : grows c c' -> known c acts -> known c' acts.
Proof.
  intros Hg Hk. eapply Forall_impl; [exact Hk|]. intros [] Ha; cbn in *; auto.
Qed.

End step.

(** ** Nested sync responses *)

Section nesting.
Context {Env : Type} `{!Environment Env} {openmls : OpenMls Env} {crypto : Crypto}
  {ed25519 : Ed25519} {ciborium : Ciborium}.

Abbreviation client A := (M t ClientError.t A).

Lemma sync_frames_loop_ext (h h' : Frame.t -> client (list ClientAction)) fbs :
  (forall fb f c, fb ∈ fbs -> Frame.decode fb = Ok f -> h f c = h' f c) ->
  forall i c, sync_frames_loop h i fbs c = sync_frames_loop h' i fbs c.
Proof.
  intros Hh. induction fbs as [|fb fbs IH]; intros i c; [done|]. cbn [sync_frames_loop].
  unfold mbind, M_bind, lift at 1 2.
  destruct (Frame.decode fb) as [f|e|] eqn:Hd; cbn [map_err]; [|done..].
  unfold catch. rewrite (Hh fb f c) by (done || left).
  destruct (h' f c) as [c' [acts|e|]]; [| |done].
  all: rewrite IH by (intros; eapply Hh; [right|]; eassumption); done.
Qed.

Lemma decoded_shorter fb f :
  Frame.decode fb = Ok f -> (length (Frame.payload f) <= length fb)%nat.
Proof.
  intros (_ & rest & ->)%Frame.decode_Ok. unfold Frame.wire. rewrite !length_app. lia.
Qed.

Lemma handle_sync_response_ext (h h' : Frame.t -> client (list ClientAction)) r frame c :
  (forall f c, (length (Frame.payload f) < length (Frame.payload frame))%nat -> h f c = h' f c) ->
  handle_sync_response h r frame c = handle_sync_response h' r frame c.
Proof.
  intros Hh. unfold handle_sync_response.
  destruct (from_reader (Frame.payload frame)) as [e|resp] eqn:Hr; [done|].
  apply sync_response_size in Hr. unfold mbind, M_bind.
  rewrite (sync_frames_loop_ext h h'); [done|]. intros fb f c' Hin Hd. apply Hh.
  rewrite Forall_forall in Hr. specialize (Hr fb Hin). apply decoded_shorter in Hd. lia.
Qed.

Lemma handle_frame_fuel_ext n m frame c :
  (length (Frame.payload frame) < n)%nat -> (length (Frame.payload frame) < m)%nat ->
  handle_frame_fuel n frame c = handle_frame_fuel m frame c.
Proof.
  revert m frame c. induction n as [|n IH]; intros m frame c Hn Hm; [lia|].
  destruct m as [|m]; [lia|]. cbn [handle_frame_fuel].
  destruct (FrameHeader.opcode_enum _) as [[]|]; try done.
  apply handle_sync_response_ext. intros f c' Hf. apply IH; lia.
Qed.

(** C38: the nesting of sync responses ends: handling a frame gives the same
    answer and the same client with every fuel above the length of its payload,
    so the recursion of the handler into the frames of a sync response is never
    deeper than the payload is long. *)
Theorem handle_frame_nesting fuel frame c :
  (length (Frame.payload frame) < fuel)%nat ->
  handle_frame_fuel fuel frame c = handle_frame frame c.
Proof. intros Hf. apply handle_frame_fuel_ext; [done|]. lia. Qed.

End nesting.

(** ** The handlers keep the invariant *)

Section handlers.
Context {Env : Type} `{!Environment Env} {openmls : OpenMls Env} {laws : OpenMlsLaws Env}
  {crypto : Crypto} {ed25519 : Ed25519} {ciborium : Ciborium} {sizes : CborSizes}.
Context (X : gset N).

Definition inv (c : t) : Prop := client_inv c /\ pending_external_joins c ⊆ X.

Definition stays (c c' : t) : Prop := keeps X c c' /\ grows c c'.

#[local] Instance stays_preorder : PreOrder stays.
Proof.
  split.
  { intros c. split; [|by intros r]. split; [done|]. intros r room _ Hr. by exists room. }
  intros c1 c2 c3 [[H1 K1] G1] [[H2 K2] G2]. split; [|intros r Hr; auto].
  split; [congruence|]. intros r room HX Hr.
  destruct (K1 r room HX Hr) as (room2 & Hr2 & ?). destruct (K2 r room2 HX Hr2) as (room3 & ? & ?).
  exists room3. split; [done|lia].
Qed.

Abbreviation cwp E m Q c := (wp (E := E) inv stays m Q c).

(** A change of the parts a room does not depend on. *)
Lemma inv_same c c' :
  sender_id c' = sender_id c -> rooms c' = rooms c ->
  pending_external_joins c' ⊆ pending_external_joins c -> inv c -> inv c' /\ stays c c'.
Proof.
  intros Hs Hr He [HI HX]. split.
  - split; [|by etrans]. intros r room. rewrite Hs, Hr. apply HI.
  - split; [split; [done|]; intros r room _; rewrite Hr; intros; by exists room|].
    intros r. by rewrite Hr.
Qed.

Lemma inv_insert c r room :
  room_inv (sender_id c) r room ->
  (r ∈ X \/ forall room0, rooms c !! r = Some room0 ->
     MlsGroup.epoch (mls_group room0) <= MlsGroup.epoch (mls_group room)) ->
  inv c -> inv (with_rooms (<[r := room]> (rooms c)) c) /\
           stays c (with_rooms (<[r := room]> (rooms c)) c).
Proof.
  intros Hroom Hle [HI HX].
  split; [split; [|done]|split; [split; [done|]|]]; intros r'; cbn.
  - intros room'. destruct (decide (r' = r)) as [->|Hne].
    + rewrite lookup_insert_eq. by intros [= <-].
    + rewrite lookup_insert_ne by done. apply HI.
  - intros room0 HnX Hr. destruct (decide (r' = r)) as [->|Hne].
    + exists room. rewrite lookup_insert_eq. split; [done|]. destruct Hle; [done|auto].
    + exists room0. by rewrite lookup_insert_ne.
  - intros Hr. destruct (decide (r' = r)) as [->|Hne].
    + by rewrite lookup_insert_eq.
    + by rewrite lookup_insert_ne.
Qed.

Lemma wp_insert_room c r room (Q : unit -> t -> Prop) :
  (inv c -> room_inv (sender_id c) r room) ->
  (r ∈ X \/ forall room0, rooms c !! r = Some room0 ->
     MlsGroup.epoch (mls_group room0) <= MlsGroup.epoch (mls_group room)) ->
  (forall c', is_Some (rooms c' !! r) -> Q tt c') -> cwp ClientError.t (insert_room r room) Q c.
Proof.
  intros Hroom Hle HQ. apply wp_modify. intros HI. destruct (inv_insert c r room); auto.
  split_and!; [done..|]. apply HQ. cbn. by rewrite lookup_insert_eq.
Qed.

Lemma wp_get_room r (Q : RoomState -> t -> Prop) c :
  (forall room, rooms c !! r = Some room -> Q room c) -> cwp ClientError.t (get_room r) Q c.
Proof.
  intros HQ HI. unfold get_room. split_and!; [done..|by destruct (rooms c !! r)|].
  intros room. destruct (rooms c !! r) as [room'|]; [|done]. intros [= <-]. by apply HQ.
Qed.

Lemma wp_try_mls {A} (m : M t MlsError.t A) (Q : A -> t -> Prop) c :
  cwp MlsError.t m Q c -> cwp ClientError.t (try_mls m) Q c.
Proof.
  intros Hm HI. specialize (Hm HI). unfold try_mls. destruct (m c) as [c' r].
  destruct Hm as (? & ? & Hr & HQ). split_and!; [done..|by destruct r|].
  intros a Ha. apply HQ. by destruct r; simplify_eq/=.
Qed.

(** A constructor of groups touches only the environment. *)
Lemma wp_group_make {A} (m : M Env MlsError.t A) (P : A -> Prop) c :
  wp (fun _ => True) MlsProperties.anywhere m (fun a _ => P a) (env c) ->
  cwp MlsError.t (group_make m) (fun a c' => P a /\ exists e, c' = with_env e c) c.
Proof.
  intros Hm HI. specialize (Hm I). unfold group_make. destruct (m (env c)) as [e r].
  destruct Hm as (_ & _ & Hr & HP).
  destruct (inv_same c (with_env e c)) as [? ?]; [done..|]. split_and!; eauto.
Qed.

Lemma room_inv_group sid r room g e o :
  g = snd (MlsGroup.after o (e, mls_group room)) ->
  MlsGroup.room_id g = MlsGroup.room_id (mls_group room) ->
  MlsGroup.member_id g = MlsGroup.member_id (mls_group room) ->
  MlsGroup.epoch (mls_group room) <= MlsGroup.epoch g ->
  room_inv sid r room -> room_inv sid r (set_group g room).
Proof.
  intros Hg Hr Hm He (Hr' & Hm' & g0 & secret & ? & ? & ? & ? & ? & ?).
  split_and!; cbn; [congruence..|]. exists g0, secret. cbn. split_and!; try (done || lia).
  rewrite Hg. by constructor.
Qed.

(** The call of a method is one of the calls that make the past of a group. *)
Definition is_group_op {A} (m : M (Env * MlsGroup.t) MlsError.t A) : Prop :=
  exists o, forall s, fst (m s) = MlsGroup.after o s.

Lemma is_process frame : is_group_op (MlsGroup.process_message frame).
Proof. by exists (MlsGroup.OpProcess frame). Qed.
Lemma is_merge : is_group_op MlsGroup.merge_pending_commit.
Proof. by exists MlsGroup.OpMerge. Qed.
Lemma is_clear : is_group_op MlsGroup.clear_pending_commit.
Proof. by exists MlsGroup.OpClear. Qed.
Lemma is_add kps : is_group_op (MlsGroup.add_members_from_bytes kps).
Proof. by exists (MlsGroup.OpAdd kps). Qed.
Lemma is_remove ids : is_group_op (MlsGroup.remove_members ids).
Proof. by exists (MlsGroup.OpRemove ids). Qed.
#[local] Hint Resolve is_process is_merge is_clear is_add is_remove : core.

(** A method of a group. *)
Lemma wp_group_call {A} r (m : M (Env * MlsGroup.t) MlsError.t A) (P : A -> Prop) c :
  is_Some (rooms c !! r) -> is_group_op m ->
  (forall s, wp (fun _ => True) MlsProperties.onward m (fun a _ => P a) s) ->
  cwp MlsError.t (group_call r m) (fun a _ => P a) c.
Proof.
  intros [room Hroom] [o Ho] Hm HI. unfold group_call. rewrite Hroom.
  specialize (Hm (env c, mls_group room) I). specialize (Ho (env c, mls_group room)).
  destruct (m _) as [[e g] res]. cbn [fst] in Ho.
  destruct Hm as (_ & (Hr & Hmem & He) & Hres & HP). cbn in Hr, Hmem, He.
  destruct (inv_same c (with_env e c)) as [HIe Hke]; [done..|].
  destruct (inv_insert (with_env e c) r (set_group g room)) as [HI' HK'].
  - apply (room_inv_group _ _ _ _ (env c) o); [by rewrite <- Ho|done..|]. by apply HI.
  - right. cbn. intros room0. rewrite Hroom. by intros [= <-].
  - done.
  - split_and!; [done| |done..]. by etrans.
Qed.

(** ** The sender keys *)

Definition same_members (s s' : SenderKeyStore.t) : Prop :=
  dom (SenderKeyStore.ratchets s') = dom (SenderKeyStore.ratchets s).
#[local] Instance same_members_preorder : PreOrder same_members.
Proof. split; [by intros s|]. intros s1 s2 s3 H1 H2. unfold same_members in *. congruence. Qed.

Lemma ratchet_call_members {A} i (m : M SymmetricRatchet.t SenderKeyError.t A) :
  steps same_members (SenderKeyStore.ratchet_call i m).
Proof.
  intros s. unfold same_members, SenderKeyStore.ratchet_call.
  destruct (_ !! i) as [r|] eqn:Hi; [|done].
  destruct (m r) as [r' a]. cbn. by apply dom_insert_lookup_L.
Qed.

Lemma step_members o s : same_members s (SenderKeyProperties.step s o).
Proof.
  destruct o as [i p rnd|msg]; unfold SenderKeyProperties.step,
    SenderKeyStore.encrypt, SenderKeyStore.decrypt, mbind at 1, M_bind at 1, get.
  - apply (steps_bind same_members); [apply ratchet_call_members|]. intros k. apply steps_lift, _.
  - destruct (negb _); [done|].
    apply (steps_bind same_members); [apply ratchet_call_members|]. intros k. apply steps_lift, _.
Qed.

Lemma room_inv_keys sid r room o :
  SenderKeyProperties.op_typed o -> room_inv sid r room ->
  room_inv sid r (mkRoom (mls_group room) (SenderKeyProperties.step (sender_keys room) o)
                    (my_leaf_index room)).
Proof.
  intros Ho (? & ? & g0 & secret & ? & ? & ? & Hs & Hd & ?). split_and!; [done..|].
  exists g0, secret. cbn. rewrite (step_members o). split_and!; try done.
  by apply SenderKeyProperties.step_synced.
Qed.

(** A call of the ratchets of a room. *)
Lemma wp_keys_call {A} r room (m : M SenderKeyStore.t SenderKeyError.t A) o (P : A -> Prop) c :
  rooms c !! r = Some room -> SenderKeyProperties.op_typed o ->
  (forall s, fst (m s) = SenderKeyProperties.step s o) ->
  (forall secret (g0 : Group) s,
     SenderKeyProperties.synced secret (group_epoch g0) s ->
     my_leaf_index room = group_own_leaf_index g0 ->
     snd (m s) <> Panic /\ forall a, snd (m s) = Ok a -> P a) ->
  cwp ClientError.t (keys_call r m) (fun a _ => P a) c.
Proof.
  intros Hroom Ho Hm Hp HI. unfold keys_call. rewrite Hroom.
  destruct HI as [HI HX]. pose proof (HI r room Hroom) as Hinv.
  destruct Hinv as (? & ? & g0 & secret & ? & ? & ? & Hs & _ & Hleaf).
  specialize (Hp _ (MlsGroup.inner_group g0) _ Hs Hleaf). specialize (Hm (sender_keys room)). apply HI in Hroom as Hinv.
  destruct (m (sender_keys room)) as [ks a] eqn:E. cbn in Hm, Hp. subst ks.
  destruct (inv_insert c r (mkRoom (mls_group room)
    (SenderKeyProperties.step (sender_keys room) o) (my_leaf_index room))).
  - by apply room_inv_keys.
  - right. cbn. intros room0. rewrite Hroom. by intros [= <-].
  - by split.
  - split_and!; [done..|by destruct a; destruct Hp|].
    intros x Hx. apply Hp. by destruct a; simplify_eq/=.
Qed.

(** ** The parts of the handlers *)

Lemma initialize_answers g : initialize_sender_keys g <> Panic.
Proof.
  unfold initialize_sender_keys.
  pose proof (MlsProperties.export_secret_answers g CLIENT_SENDER_KEY_LABEL SENDER_KEY_CONTEXT
                SENDER_KEY_SECRET_SIZE) as Ha.
  by destruct (MlsGroup.export_secret _ _ _ _).
Qed.

Lemma initialize_room_inv sid r g ks :
  initialize_sender_keys g = Ok ks -> MlsGroup.room_id g = r -> MlsGroup.member_id g = sid ->
  room_inv sid r (mkRoom g ks (MlsGroup.own_leaf_index g)).
Proof.
  unfold initialize_sender_keys, MlsGroup.export_secret, wrap_err. intros Hi Hr Hm.
  destruct (group_export_secret _ _ _ _) as [e|secret] eqn:Hs; [done|].
  injection Hi as <-. split_and!; [done..|]. exists g, secret. cbn [mls_group sender_keys].
  unfold MlsGroup.export_secret. rewrite Hs.
  split_and!; [constructor|done|reflexivity|apply SenderKeyProperties.init_synced| |done].
  apply set_eq. intros i. rewrite elem_of_dom, elem_of_list_to_set.
  rewrite SenderKeyProperties.ratchets_init. unfold MlsGroup.member_leaf_indices.
  case_decide; split; intros; (done || by destruct select (is_Some None)).
Qed.

Lemma convert_answers r acts :
  Forall MlsProperties.action_fits acts -> convert_mls_actions r acts <> Panic.
Proof using sizes.
  induction 1 as [|a acts Ha Hacts IH]; [done|]. cbn [convert_mls_actions].
  assert (H : convert_mls_action r a <> Panic).
  { destruct a as [| | | | | |ir ie info|]; cbn [convert_mls_action]; try done.
    cbn in Ha. match goal with |- context [Payload.into_frame ?p ?h] =>
      assert (Payload.into_frame p h <> Panic) by frame_size group_info_size;
      by destruct (Payload.into_frame p h) end. }
  destruct (convert_mls_action r a); [|done..]. cbn. by destruct (convert_mls_actions r acts).
Qed.

(** The library's actions tell of no room. *)
Lemma convert_known r acts cas c : convert_mls_actions r acts = Ok cas -> known c cas.
Proof.
  revert cas. induction acts as [|m acts IH]; intros cas; cbn [convert_mls_actions].
  { intros [= <-]. constructor. }
  destruct (convert_mls_action r m) as [ca| |] eqn:Hm; [|done..]. cbn.
  destruct (convert_mls_actions r acts) as [rest| |]; [|done..]. cbn. intros [= <-].
  constructor; [|by apply IH].
  destruct m as [| | | | | |ir ie info|]; cbn in Hm; simplify_eq; try done.
  by destruct (Payload.into_frame _ _); simplify_eq.
Qed.

Lemma wp_convert r acts (Q : list ClientAction -> t -> Prop) c :
  Forall MlsProperties.action_fits acts -> (forall cas, (forall c', known c' cas) -> Q cas c) ->
  cwp ClientError.t (lift (convert_mls_actions r acts)) Q c.
Proof using sizes.
  intros Ha HQ. wp_step; [by apply convert_answers|]. intros cas Hcas. apply HQ. intros c'.
  by eapply convert_known.
Qed.

Lemma wp_make_frame p (Q : Frame.t -> t -> Prop) c :
  Payload.into_frame p (FrameHeader.new (Payload.opcode p)) <> Panic -> (forall f, Q f c) ->
  cwp ClientError.t (lift (make_frame p)) Q c.
Proof.
  intros Hp HQ. wp_step; [|by intros]. unfold make_frame. by destruct (Payload.into_frame _ _).
Qed.

Lemma wp_export_state g (Q : bytes -> t -> Prop) c :
  (forall bs, Q bs c) -> cwp ClientError.t (lift (map_err mls_err (MlsGroup.export_state g))) Q c.
Proof.
  intros HQ. wp_step; [|by intros]. pose proof (MlsProperties.export_state_answers g).
  by destruct (MlsGroup.export_state g).
Qed.

(** A change that touches no room. *)
Lemma wp_modify_same f (Q : unit -> t -> Prop) c :
  sender_id (f c) = sender_id c -> rooms (f c) = rooms c ->
  pending_external_joins (f c) ⊆ pending_external_joins c -> Q tt (f c) ->
  cwp ClientError.t (modify f) Q c.
Proof. intros. apply wp_modify. intros HI. destruct (inv_same c (f c)); auto. Qed.

(** The room of a group just made, entered where there was none. *)
Lemma wp_enter_room c c0 r group acts ks (Q : unit -> t -> Prop) :
  MlsProperties.made r (sender_id c) (group, acts) -> initialize_sender_keys group = Ok ks ->
  r ∈ X \/ rooms c !! r = None -> sender_id c0 = sender_id c -> rooms c0 = rooms c ->
  (forall c', is_Some (rooms c' !! r) -> Q tt c') ->
  cwp ClientError.t (insert_room r (mkRoom group ks (MlsGroup.own_leaf_index group))) Q c0.
Proof.
  intros (Hr & Hm & _) Hk HX Hs Hrooms HQ. apply wp_insert_room; [|..|done].
  - intros _. rewrite Hs. by apply initialize_room_inv.
  - destruct HX as [|Hn]; [by left|]. right. rewrite Hrooms, Hn. done.
Qed.

Lemma is_member_false c r : is_member c r = false -> rooms c !! r = None.
Proof. unfold is_member. intros Hb%bool_decide_eq_false. by apply eq_None_not_Some. Qed.

Lemma is_member_true c r : is_member c r = true -> is_Some (rooms c !! r).
Proof. unfold is_member. by intros Hb%bool_decide_eq_true. Qed.

(** ** The handlers *)

Abbreviation safe m := (forall c, cwp ClientError.t m (fun acts c' => known c' acts) c).

(** Actions that tell of no room, or of one that is known. *)
Ltac known_solve :=
  unfold known in *; rewrite ?Forall_app; repeat split; auto;
  repeat (apply Forall_cons; split; [first [done|assumption]|]); try apply Forall_nil; auto.

Lemma create_room_safe r : safe (handle_create_room r).
Proof using laws sizes.
  intros c. unfold handle_create_room. wp_step. destruct (is_member c r) eqn:Hm; [wp_step|].
  apply is_member_false in Hm. wp_step. eapply wp_mono.
  { apply wp_try_mls, wp_group_make, MlsProperties.new_sound. }
  intros x c1 _ _ [Hmade [e ->]]. pose proof (proj2 (proj2 Hmade)) as Hacts.
  destruct x as [group acts]. wp_step. wp_step; [apply initialize_answers|]. intros ks Hks.
  wp_step. apply wp_export_state. intros st.
  wp_step. apply (wp_enter_room c _ r group acts); [done|done|by right|done|done|]. intros c' Hc'.
  wp_step. apply wp_convert; [done|]. intros cas Hcas. wp_step. known_solve.
Qed.

(** What a room encrypts is of the widths of the message's fields. *)
Definition encrypted_typed (m : Encryption.EncryptedMessage) : Prop :=
  Encryption.epoch m < 2 ^ 64 /\ Encryption.sender_index m < 2 ^ 32 /\
  Encryption.generation m < 2 ^ 32 /\ length (Encryption.nonce m) = 24%nat.

Lemma encrypt_typed secret (g0 : Group) s p rnd :
  SenderKeyProperties.synced secret (group_epoch g0) s -> len p < 2 ^ 32 -> length rnd = 8%nat ->
  let r := snd (SenderKeyStore.encrypt (group_own_leaf_index g0) p rnd s) in
  r <> Panic /\ forall m, r = Ok m -> encrypted_typed m.
Proof using laws.
  intros Hs Hp Hrnd. rewrite (SenderKeyProperties.encrypt_cases secret (group_epoch g0)) by done.
  destruct (SenderKeyStore.sender_generation _ _) as [g|] eqn:Hg; [|done].
  destruct (SenderKeyProperties.synced_at _ _ _ _ _ Hs Hg) as [Hle _].
  destruct (N.eqb_spec g u32_MAX) as [|Hne]; [done|]. cbn [snd]. unfold Encryption.encrypt_message.
  case_match eqn:Ha.
  2:{ by apply eq_None_not_Some in Ha as []; apply aead_encrypt_total. }
  split; [done|]. intros m [= <-]. unfold encrypted_typed, Encryption.build_nonce.
  cbn [Encryption.epoch Encryption.sender_index Encryption.generation Encryption.nonce
       SenderKeyProperties.key_at mk_generation].
  pose proof (group_epoch_u64 g0). pose proof (group_own_leaf_index_u32 g0).
  unfold u32_MAX in *. rewrite !length_app, !length_to_be_bytes, Hrnd. split_and!; done || lia.
Qed.

Lemma send_message_safe r p : len p < 2 ^ 32 -> safe (handle_send_message r p).
Proof using laws sizes.
  intros Hp c. unfold handle_send_message. wp_step. apply wp_get_room. intros room Hroom.
  wp_step. intros HI. pose proof (random_bytes_length NONCE_RANDOM_SIZE (env c)) as Hrnd.
  destruct (random_bytes _ (env c)) as [rnd e].
  destruct (inv_same c (with_env e c)) as [HI' HK]; [done..|].
  split_and!; [done..|]. intros ? [= <-]. wp_step. eapply wp_mono.
  { apply (wp_keys_call _ room _ (SenderKeyProperties.OEncrypt (my_leaf_index room) p rnd)
             encrypted_typed); [done..|].
    intros secret g0 s Hs ->. by apply (encrypt_typed secret). }
  intros enc c1 _ _ (? & ? & ? & ?). wp_step. unfold serialize_encrypted_message.
  destruct (app_message_encodes (crypto_to_proto_encrypted enc)) as [bs Hbs]; [done..|]. rewrite Hbs.
  wp_step; [done|]. intros ? [= <-]. destruct (u32_MAX <? len bs) eqn:Hlen; [wp_step|].
  wp_step. wp_step. wp_step; [unfold Frame.new; by rewrite Hlen|]. intros frame _. wp_step.
  known_solve.
Qed.

Lemma decrypt_answers secret e s m :
  SenderKeyProperties.synced secret e s -> Encryption.generation m <= u32_MAX ->
  snd (SenderKeyStore.decrypt m s) <> Panic.
Proof.
  intros Hs Hg. rewrite (SenderKeyProperties.decrypt_cases secret e) by done.
  destruct (negb _); [done|]. destruct (SenderKeyStore.sender_generation _ _); [|done].
  cbv zeta. destruct (_ || _); [done|]. destruct (_ =? u32_MAX); [done|].
  unfold Encryption.decrypt_message. cbn [snd]. destruct (negb _); [done|].
  by destruct (aead_decrypt _ _ _).
Qed.

Lemma app_message_safe r frame : safe (handle_app_message r frame).
Proof.
  intros c. unfold handle_app_message. wp_step. destruct (_ =? _); [wp_step; known_solve|].
  wp_step. apply wp_get_room. intros room Hroom. destruct (negb _); [wp_step; known_solve|].
  wp_step. wp_step.
  { unfold MlsGroup.validate_frame. by destruct (MlsValidator.validate_frame _ _ _). }
  intros [] _. wp_step. unfold deserialize_encrypted_message.
  destruct (from_reader (Frame.payload frame)) as [e|proto] eqn:Hr; wp_step; try done.
  intros ? [= <-]. wp_step. wp_step; [by destruct (MlsGroup.member_id_by_leaf_index _ _)|].
  intros vid _. destruct (negb _); [wp_step|]. apply app_message_typed in Hr as (_ & _ & Hg & _).
  assert (Hg' : Encryption.generation (proto_to_crypto_encrypted proto) <= u32_MAX)
    by (unfold u32_MAX; cbn; lia).
  wp_step. eapply wp_mono.
  { apply (wp_keys_call _ room _ (SenderKeyProperties.ODecrypt (proto_to_crypto_encrypted proto))
             (fun _ => True)); [done..|].
    intros secret g0 s Hs _. split; [|done]. by apply (decrypt_answers secret (group_epoch g0)). }
  intros plain c1 _ _ _. wp_step. known_solve.
Qed.

(** A method of the group of a room that gives actions to send. *)
Lemma wp_room_actions r (m : M (Env * MlsGroup.t) MlsError.t (list MlsAction.t))
    (Q : list ClientAction -> t -> Prop) c :
  is_Some (rooms c !! r) -> is_group_op m ->
  (forall s, wp (fun _ => True) MlsProperties.onward m
               (fun acts _ => Forall MlsProperties.action_fits acts) s) ->
  (forall cas c', (forall c, known c cas) -> Q cas c') ->
  cwp ClientError.t (mls_actions ← try_mls (group_call r m);
                     lift (convert_mls_actions r mls_actions)) Q c.
Proof using sizes.
  intros Hroom Ho Hm HQ. wp_step. eapply wp_mono; [by apply wp_try_mls, wp_group_call|].
  intros acts c1 _ _ Hacts. apply wp_convert; [done|]. auto.
Qed.

Lemma bind_assoc {A B D} (m : M t ClientError.t A) (f : A -> M t ClientError.t B)
    (h : B -> M t ClientError.t D) Q c :
  cwp ClientError.t ((m ≫= f) ≫= h) Q c -> cwp ClientError.t (m ≫= fun a => f a ≫= h) Q c.
Proof.
  unfold wp, mbind, M_bind. intros H HI. specialize (H HI). by destruct (m c) as [c' [a|e|]].
Qed.

Lemma apply_commit_safe r frame (Q : option (list ClientAction) -> t -> Prop) c :
  (forall x c', (forall acts c'', x = Some acts -> known c'' acts) -> Q x c') ->
  cwp ClientError.t (apply_commit r frame) Q c.
Proof using laws sizes.
  intros HQ. unfold apply_commit. wp_step. wp_step. apply wp_get_room. intros room Hroom.
  cbv beta iota zeta. destruct (_ && _); [|destruct (_ && _); [wp_step; by apply HQ|]].
  - apply bind_assoc. wp_step. apply wp_room_actions; [by exists room|auto| |].
    + intros s. apply MlsProperties.merge_pending_commit_sound.
    + intros cas c' Hcas. wp_step. apply HQ. by intros ? ? [= <-].
  - apply bind_assoc. wp_step. apply wp_room_actions; [by exists room|auto| |].
    + intros s. apply MlsProperties.process_message_sound.
    + intros cas c' Hcas. wp_step. apply HQ. by intros ? ? [= <-].
Qed.

Lemma commit_safe r frame : safe (handle_commit r frame).
Proof using laws sizes.
  intros c. unfold handle_commit. wp_step. apply apply_commit_safe. intros [acts|] c1 Hacts;
    [|wp_step; known_solve].
  wp_step. apply wp_get_room. intros room Hroom. wp_step.
  wp_step; [apply initialize_answers|]. intros ks Hks. wp_step. apply wp_insert_room.
  - intros [HI _]. destruct (HI r room Hroom) as (Hr & Hm & _). by apply initialize_room_inv.
  - right. rewrite Hroom. by intros ? [= <-].
  - intros c2 Hc2. wp_step. apply wp_export_state. intros st. wp_step. known_solve.
Qed.

Lemma other_safe r frame : safe (handle_other r frame).
Proof using laws sizes.
  intros c. unfold handle_other. wp_step. apply wp_get_room. intros room Hroom.
  apply wp_room_actions; [by exists room|auto|apply MlsProperties.process_message_sound|auto].
Qed.

Lemma add_members_safe r kps : safe (handle_add_members r kps).
Proof using laws sizes.
  intros c. unfold handle_add_members. wp_step. apply wp_get_room. intros room Hroom.
  apply wp_room_actions; [by exists room|auto|apply MlsProperties.add_members_from_bytes_sound|auto].
Qed.

Lemma remove_members_safe r ids : safe (handle_remove_members r ids).
Proof using laws sizes.
  intros c. unfold handle_remove_members. wp_step. apply wp_get_room. intros room Hroom.
  apply wp_room_actions; [by exists room|auto|apply MlsProperties.remove_members_sound|auto].
Qed.

(** ** Joining by a Welcome *)

Definition joined_as (r : N) (c : t) (x : MlsGroup.t * list MlsAction.t) (c' : t) : Prop :=
  MlsProperties.made r (sender_id c) x /\ sender_id c' = sender_id c /\ rooms c' = rooms c.

Lemma try_pending_safe r bs hashes : forall c err,
  cwp ClientError.t (try_pending r bs hashes err) (joined_as r c) c.
Proof using laws.
  induction hashes as [|h hashes IH]; intros c err; cbn [try_pending]; [wp_step|].
  wp_step. destruct (pending_joins c !! h) as [pj|]; [|apply IH].
  wp_step. apply wp_modify_same; [done..|]. set (c1 := with_joins _ c).
  wp_step. intros HI. pose proof (MlsProperties.join_from_welcome_sound r (sender_id c1) bs pj
                                    (env c1) I) as Hj.
  destruct (MlsGroup.join_from_welcome _ _ _ _ _) as [e res]. destruct Hj as (_ & _ & Hp & Hmade).
  destruct (inv_same c1 (with_env e c1)) as [HI' HK]; [done..|].
  split_and!; [done..|by destruct res|]. intros a Ha.
  destruct res as [x|e1|]; [|..|done]; injection Ha as <-.
  - wp_step. split_and!; [|done..]. by apply Hmade.
  - eapply wp_mono; [apply IH|]. intros x c2 _ _ (? & ? & ?). split_and!; done.
Qed.

Lemma try_join_safe r bs c :
  cwp ClientError.t (try_join_from_welcome r bs) (joined_as r c) c.
Proof using laws.
  unfold try_join_from_welcome. wp_step. destruct (map_to_list _).*1; [wp_step|].
  apply try_pending_safe.
Qed.

Lemma wp_catch {A} (m : M t ClientError.t A) (Q : A -> t -> Prop) c :
  cwp ClientError.t m Q c ->
  cwp ClientError.t (catch m)
    (fun r c' => match r with Ok a => Q a c' | Err _ => True | Panic => False end) c.
Proof.
  intros Hm HI. specialize (Hm HI). unfold catch. destruct (m c) as [c' r].
  destruct Hm as (? & ? & Hr & HQ). split_and!; [done..|by destruct r|].
  intros a Ha. destruct r as [x| |]; [|..|done]; injection Ha as <-; [|done]. by apply HQ.
Qed.

Lemma welcome_safe r frame : safe (handle_welcome r frame).
Proof using laws sizes.
  intros c. unfold handle_welcome. wp_step. destruct (is_member c r) eqn:Hm; [wp_step|].
  apply is_member_false in Hm. wp_step. eapply wp_mono; [apply wp_catch, try_join_safe|].
  intros [[group acts]|e|] c1 _ _ Hj; [|wp_step; known_solve|done]. destruct Hj as (Hmade & Hs & Hr).
  pose proof (proj2 (proj2 Hmade)) as Hacts.
  wp_step. wp_step; [apply initialize_answers|]. intros ks Hks.
  wp_step. apply wp_export_state. intros st.
  wp_step. apply (wp_enter_room c _ r group acts); [done|done|by right|done|done|]. intros c' Hc'.
  wp_step. apply wp_convert; [done|]. intros cas Hcas. wp_step. known_solve.
Qed.

Lemma join_room_safe r bs : safe (handle_join_room r bs).
Proof using laws sizes.
  intros c. unfold handle_join_room. wp_step. destruct (is_member c r) eqn:Hm; [wp_step|].
  apply is_member_false in Hm. wp_step. eapply wp_mono; [apply try_join_safe|].
  intros [group acts] c1 _ _ (Hmade & Hs & Hr). pose proof (proj2 (proj2 Hmade)) as Hacts.
  wp_step. wp_step; [apply initialize_answers|]. intros ks Hks.
  wp_step. apply (wp_enter_room c _ r group acts); [done|done|by right|done|done|]. intros c' Hc'.
  wp_step. apply wp_convert; [done|]. intros cas Hcas. wp_step. known_solve.
Qed.

Lemma group_info_response_safe frame : safe (handle_group_info_response frame).
Proof using laws sizes.
  intros c. unfold handle_group_info_response.
  destruct (from_reader (Frame.payload frame)) as [e|info]; [wp_step|].
  wp_step. destruct (bool_decide _) eqn:Hb; cbn [negb]; [|wp_step].
  apply bool_decide_eq_true in Hb. apply wp_assume. intros [_ HX]. specialize (HX _ Hb).
  wp_step. apply wp_modify_same; [done..|cbn; apply subseteq_difference_l; done|].
  wp_step. eapply wp_mono.
  { apply wp_try_mls, wp_group_make, MlsProperties.join_from_external_sound. }
  intros [group acts] c1 _ _ [Hmade [e ->]]. pose proof (proj2 (proj2 Hmade)) as Hacts.
  wp_step. wp_step; [apply initialize_answers|]. intros ks Hks.
  wp_step. apply wp_export_state. intros st.
  wp_step. apply (wp_enter_room c _ _ group acts); [done|done|by left|done|done|]. intros c' Hc'.
  wp_step. apply wp_convert; [done|]. intros cas Hcas. wp_step. known_solve.
Qed.

(** ** KeyPackages *)

Lemma publish_key_package_safe : safe handle_publish_key_package.
Proof using laws sizes.
  intros c. unfold handle_publish_key_package. wp_step. unfold generate_key_package.
  wp_step. wp_step. eapply wp_mono.
  { apply wp_try_mls, (wp_group_make _ (fun x => len x.1.1 < 2 ^ 30 /\ len x.1.2 <= 64)),
      MlsProperties.generate_key_package_sound. }
  intros [[kp href] pj] c1 _ _ [[Hkp Hh] _]. cbn in Hkp, Hh.
  wp_step. apply wp_modify_same; [done..|]. wp_step.
  wp_step. apply wp_make_frame; [frame_size key_package_publish_size|]. intros f. wp_step.
  known_solve.
Qed.

Lemma wp_env_now (Q : N -> t -> Prop) c :
  (forall t0 c', rooms c' = rooms c -> Q t0 c') -> cwp ClientError.t env_now Q c.
Proof.
  intros HQ HI. unfold env_now. destruct (now (env c)) as [t0 e].
  destruct (inv_same c (with_env e c)); [done..|]. split_and!; [done..|]. intros a _. by apply HQ.
Qed.

Lemma fetch_and_add_member_safe r u : safe (handle_fetch_and_add_member r u).
Proof using sizes.
  intros c. unfold handle_fetch_and_add_member. wp_step. destruct (negb _); [wp_step|].
  wp_step. apply wp_env_now. intros t0 c1 _. wp_step. apply wp_modify_same; [done..|].
  wp_step. apply wp_make_frame; [frame_size key_package_fetch_size|]. intros f. wp_step.
  known_solve.
Qed.

Lemma wp_remove_add key (Q : unit -> t -> Prop) c :
  (forall c', rooms c' = rooms c -> Q tt c') -> cwp ClientError.t (remove_add key) Q c.
Proof. intros HQ. apply wp_modify_same; [done..|]. by apply HQ. Qed.

Lemma remove_adds_safe keys c : cwp ClientError.t (remove_adds keys) (fun _ _ => True) c.
Proof.
  revert c. induction keys as [|key keys IH]; intros c; cbn [remove_adds]; [by wp_step|].
  wp_step. apply wp_remove_add. intros c' _. apply IH.
Qed.

(** The answer of a method is looked at, not passed on. *)
Lemma wp_group_call_caught {A} r (m : M (Env * MlsGroup.t) MlsError.t A) (P : A -> Prop) c :
  is_Some (rooms c !! r) -> is_group_op m ->
  (forall s, wp (fun _ => True) MlsProperties.onward m (fun a _ => P a) s) ->
  cwp ClientError.t (fun c => let '(c', r) := group_call r m c in
                              (c', match r with Panic => Panic | r => Ok r end))
    (fun x _ => match x with Ok a => P a | Err _ => True | Panic => False end) c.
Proof.
  intros Hr Ho Hm HI. pose proof (wp_group_call r m P c Hr Ho Hm HI) as Hc.
  destruct (group_call r m c) as [c' res]. destruct Hc as (? & ? & Hres & HP).
  split_and!; [done..|by destruct res|]. intros x Hx.
  destruct res as [a| |]; [|..|done]; injection Hx as <-; [|done]. by apply HP.
Qed.

Lemma complete_adds_safe bs keys : safe (complete_adds bs keys).
Proof using laws sizes.
  induction keys as [|[r u] keys IH]; intros c; cbn [complete_adds]; [wp_step; known_solve|].
  wp_step. apply wp_remove_add. intros c1 _. wp_step. wp_step.
  apply (wp_mono _ _ _ (fun acts c' => known c' acts)).
  2:{ intros here c2 _ _ Hhere. wp_step. eapply wp_mono; [apply IH|].
      intros acts c3 _ [_ Hg] Hacts. wp_step. apply (known_grows _ _ _ Hg) in Hhere. known_solve. }
  destruct (is_member c1 r) eqn:Hm; [|wp_step; known_solve]. apply is_member_true in Hm. wp_step.
  eapply wp_mono; [apply (wp_group_call_caught _ _ (Forall MlsProperties.action_fits)); [done|auto|];
                   apply MlsProperties.add_members_from_bytes_sound|].
  intros [acts|e|] c2 _ _ Hacts; [|wp_step; known_solve|done].
  wp_step. apply wp_convert; [done|]. intros cas Hcas. wp_step. known_solve.
Qed.

Lemma key_package_fetch_response_safe frame : safe (handle_key_package_fetch_response frame).
Proof using laws sizes.
  intros c. unfold handle_key_package_fetch_response.
  destruct (from_reader (Frame.payload frame)) as [e|p]; [wp_step|]. wp_step.
  destruct (kpf_key_package_bytes p) as [|b bs].
  - wp_step. eapply wp_mono; [apply remove_adds_safe|]. intros. wp_step. known_solve.
  - destruct (adds_of _ c); [wp_step|]. apply complete_adds_safe.
Qed.

(** ** Sync responses and all frames *)

Lemma sync_frames_loop_safe (h : Frame.t -> M t ClientError.t (list ClientAction)) fbs :
  (forall fb f, fb ∈ fbs -> Frame.decode fb = Ok f -> safe (h f)) ->
  forall i, safe (sync_frames_loop h i fbs).
Proof.
  induction fbs as [|fb fbs IH]; intros Hh i c; cbn [sync_frames_loop]; [wp_step; known_solve|].
  wp_step. wp_step.
  { pose proof (Frame.decode_no_panic fb). by destruct (Frame.decode fb). }
  intros f Hf. assert (Hd : Frame.decode fb = Ok f) by (by destruct (Frame.decode fb); simplify_eq/=).
  wp_step. eapply wp_mono; [apply wp_catch, (Hh fb f); [left|done]|].
  intros x c1 _ _ Hx. wp_step. eapply wp_mono; [apply IH|].
  { intros. eapply Hh; [by right|done]. }
  intros acts c2 _ [_ Hg] Hacts. wp_step. destruct x as [acts0|e|]; [|known_solve|done].
  apply (known_grows _ _ _ Hg) in Hx. known_solve.
Qed.

Lemma sync_response_safe (h : Frame.t -> M t ClientError.t (list ClientAction)) r frame :
  (forall f, (length (Frame.payload f) < length (Frame.payload frame))%nat -> safe (h f)) ->
  safe (handle_sync_response h r frame).
Proof.
  intros Hh c. unfold handle_sync_response.
  destruct (from_reader (Frame.payload frame)) as [e|resp] eqn:Hr; [wp_step|].
  apply sync_response_size in Hr. rewrite Forall_forall in Hr.
  wp_step. eapply wp_mono; [apply sync_frames_loop_safe|].
  { intros fb f Hin Hd. apply Hh. specialize (Hr fb Hin). apply decoded_shorter in Hd. lia. }
  intros acts c1 _ _ Hacts. wp_step. wp_step. destruct (has_more resp); known_solve.
Qed.

Lemma handle_frame_fuel_safe n : forall frame,
  (length (Frame.payload frame) < n)%nat -> safe (handle_frame_fuel n frame).
Proof using laws sizes.
  induction n as [|n IH]; intros frame Hn c; [lia|]. cbn [handle_frame_fuel].
  destruct (FrameHeader.opcode_enum _) as [op|]; [|wp_step].
  destruct op; first [by wp_step; known_solve|apply other_safe|apply app_message_safe|apply commit_safe
    |apply welcome_safe|apply key_package_fetch_response_safe|apply group_info_response_safe|idtac].
  apply sync_response_safe. intros f Hf. apply IH. lia.
Qed.

Lemma frame_safe frame : safe (handle_frame frame).
Proof using laws sizes. apply handle_frame_fuel_safe. lia. Qed.

(** ** Timers *)

Lemma expire_adds_safe keys : safe (expire_adds keys).
Proof.
  induction keys as [|[r u] keys IH]; intros c; cbn [expire_adds]; [wp_step; known_solve|].
  wp_step. wp_step. apply wp_remove_add. intros c1 _. wp_step.
  eapply wp_mono; [apply IH|]. intros acts c2 _ _ Hacts. wp_step. case_bool_decide; known_solve.
Qed.

Lemma expire_commits_safe t0 ids : safe (expire_commits t0 ids).
Proof using laws.
  induction ids as [|r ids IH]; intros c; cbn [expire_commits]; [wp_step; known_solve|].
  wp_step. apply wp_get_room. intros room Hroom. wp_step.
  apply (wp_mono _ _ _ (fun acts c' => known c' acts)).
  2:{ intros here c1 _ _ Hhere. wp_step. eapply wp_mono; [apply IH|].
      intros acts c2 _ [_ Hg] Hacts. wp_step. apply (known_grows _ _ _ Hg) in Hhere. known_solve. }
  destruct (MlsGroup.is_commit_timeout _ _ _); [|wp_step; known_solve].
  wp_step. eapply wp_mono.
  { apply wp_try_mls, (wp_group_call _ _ (fun _ => True)); [by exists room|auto|].
    apply MlsProperties.clear_pending_commit_sound. }
  intros [] c1 _ _ _. wp_step. known_solve.
Qed.

Lemma tick_safe t0 : safe (handle_tick t0).
Proof using laws.
  intros c. unfold handle_tick. wp_step. wp_step. eapply wp_mono; [apply expire_adds_safe|].
  intros acts c1 _ _ Hacts. wp_step. wp_step. eapply wp_mono; [apply expire_commits_safe|].
  intros acts' c2 _ [_ Hg] Hacts'. wp_step. apply (known_grows _ _ _ Hg) in Hacts. known_solve.
Qed.

Lemma external_join_safe r : r ∈ X -> safe (handle_external_join r).
Proof using sizes.
  intros HX c. unfold handle_external_join. wp_step. destruct (is_member c r); [wp_step|].
  wp_step. apply wp_modify. intros [HI Hsub]. split; [split|split].
  - done.
  - cbn. apply union_subseteq. split; [|done]. by apply singleton_subseteq_l.
  - split; [|by intros r0]. split; [done|]. intros r0 room _ Hr. by exists room.
  - wp_step. apply wp_make_frame; [frame_size group_info_request_size|]. intros f. wp_step. known_solve.
Qed.

End handlers.

(** ** Any events *)

Section events.
Context {Env : Type} `{!Environment Env} {openmls : OpenMls Env} {laws : OpenMlsLaws Env}
  {crypto : Crypto} {ed25519 : Ed25519} {ciborium : Ciborium} {sizes : CborSizes}.

(** The rooms an event may take away or replace: the one the user leaves, and
    those for which the user has asked for an external join. *)
Definition exempt (ev : ClientEvent) (c : t) : gset N :=
  match ev with
  | CELeaveRoom r => {[ r ]} ∪ pending_external_joins c
  | _ => pending_external_joins c
  end.

(** What one event does; only the user's leaving a room takes one away. *)
Definition event_ok (c c' : t) (ev : ClientEvent) (answer : res ClientError.t (list ClientAction))
    : Prop :=
  client_inv c' /\ answer <> Panic /\ keeps (exempt ev c) c c' /\
  (forall acts, answer = Ok acts -> known c' acts) /\
  ((forall r, ev <> CELeaveRoom r) -> grows c c').

Lemma wp_event c ev (m : M t ClientError.t (list ClientAction)) :
  handle ev = m -> pending_external_joins c ⊆ exempt ev c ->
  wp (inv (exempt ev c)) (stays (exempt ev c)) m (fun acts c' => known c' acts) c -> client_inv c ->
  let '(c', answer) := handle ev c in event_ok c c' ev answer.
Proof.
  intros -> HX Hm HI. specialize (Hm (conj HI HX)). destruct (m c) as [c' r].
  destruct Hm as ([? _] & [? ?] & ? & ?). by split_and!.
Qed.

(** An event that is refused. *)
Lemma refused_ok c ev e : client_inv c -> event_ok c c ev (Err e).
Proof.
  intros HI. split; [done|]. split; [done|]. split; [|split; [done|by intros _ r]].
  split; [done|]. intros r0 room _ Hr. by exists room.
Qed.

Lemma leave_ok r c :
  client_inv c -> let '(c', answer) := handle (CELeaveRoom r) c in event_ok c c' (CELeaveRoom r) answer.
Proof.
  intros HI. cbn [handle]. unfold handle_leave_room, mbind, M_bind, get.
  destruct (negb _); [by apply refused_ok|]. split; [|split; [done|split; [split; [done|]|split]]].
  - intros r0 room. cbn. intros [_ Hr]%lookup_delete_Some. by apply HI.
  - intros r0 room Hr0 Hr. exists room. split; [|done]. apply lookup_delete_Some.
    split; [|done]. intros ->. apply Hr0. cbn. by apply elem_of_union_l, elem_of_singleton.
  - intros acts [= <-]. by repeat constructor.
  - intros Hne. by destruct (Hne r).
Qed.

Lemma external_join_ok r c :
  client_inv c ->
  let '(c', answer) := handle (CEExternalJoin r) c in event_ok c c' (CEExternalJoin r) answer.
Proof using laws sizes.
  intros HI. cbn [handle]. set (X := {[ r ]} ∪ pending_external_joins c).
  pose proof (external_join_safe X r ltac:(by apply elem_of_union_l, elem_of_singleton) c
                (conj HI (union_subseteq_r _ _))) as H.
  destruct (is_member c r) eqn:Hm.
  { unfold handle_external_join, mbind, M_bind, get. rewrite Hm. by apply refused_ok. }
  apply is_member_false in Hm. destruct (handle_external_join r c) as [c' answer].
  destruct H as ([HI' _] & [[Hs HK] Hg] & Hp & Hk). split; [done|]. split; [done|]. split; [|by split].
  split; [done|]. intros r0 room Hr0 Hr. apply HK; [|done]. apply not_elem_of_union. split; [|done].
  intros ->%elem_of_singleton. congruence.
Qed.

Lemma handle_ok ev c :
  event_fits ev -> client_inv c ->
  let '(c', answer) := handle ev c in event_ok c c' ev answer.
Proof using laws sizes.
  intros Hev HI. destruct ev as [frame|t0|r p|r|r w|r|r kps|r ids| |r u|r];
    [..|by apply external_join_ok]; cycle 5; [by apply leave_ok|..];
    (eapply wp_event; [reflexivity|reflexivity| |exact HI]).
  - apply add_members_safe.
  - apply remove_members_safe.
  - apply publish_key_package_safe.
  - apply fetch_and_add_member_safe.
  - apply frame_safe.
  - apply tick_safe.
  - by apply send_message_safe.
  - apply create_room_safe.
  - apply join_room_safe.
Qed.

Lemma run_client_inv evs c :
  Forall event_fits evs -> client_inv c -> client_inv (run client_step c evs).
Proof using laws sizes.
  intros Hev. revert c. induction Hev as [|ev evs Hev Hevs IH]; intros c HI; [done|].
  apply IH. pose proof (handle_ok ev c Hev HI) as H. unfold client_step.
  destruct (handle ev c) as [c' answer]. apply H.
Qed.

Lemma reached_inv e sid evs : Forall event_fits evs -> client_inv (run client_step (new e sid) evs).
Proof using laws sizes.
  intros Hevs. apply run_client_inv; [done|]. intros r room. cbn. by rewrite lookup_empty.
Qed.


End events.
End ClientInvariant.

(** ** Two clients

    Bob publishes a KeyPackage, Alice creates a room, adds Bob and applies the
    commit, Bob joins by the Welcome; then Alice sends a text. *)

Module ClientSample.
Import Client ClientInvariant.

#[export] Existing Instances byte_ciborium byte_sizes plain_openmls plain_laws
  SenderKeyProperties.toy_crypto MlsValidator.toy_ed25519.

Definition sends (acts : list ClientAction) : list Frame.t :=
  omap (fun a => match a with CASend f => Some f | _ => None end) acts.

(** The [i]-th frame an event sends. *)
Definition sent_frame (i : nat) (ev : ClientEvent) (c : t) : Frame.t :=
  match snd (handle ev c) with
  | Ok acts => default Frame.sample (sends acts !! i)
  | _ => Frame.sample
  end.

Definition bob_new : t := new (mkTestEnv 0 1 66 0) 2.
Definition bob_published : t := client_step bob_new CEPublishKeyPackage.
Definition bob_key_package : bytes :=
  match Payload.from_frame (sent_frame 0 CEPublishKeyPackage bob_new) with
  | Ok (Payload.KeyPackagePublish k) => kpp_key_package_bytes k
  | _ => []
  end.

Definition alice_new : t := new (mkTestEnv 0 1 65 0) 1.
Definition alice_created : t := client_step alice_new (CECreateRoom 7).
Definition adding : ClientEvent := CEAddMembers 7 [bob_key_package].
Definition commit_frame : Frame.t := sent_frame 1 adding alice_created.
Definition welcome_frame : Frame.t := sent_frame 2 adding alice_created.
Definition alice_events : list ClientEvent := [CECreateRoom 7; adding; CEFrameReceived commit_frame].
Definition alice : t := run client_step alice_new alice_events.
Definition bob_events : list ClientEvent := [CEPublishKeyPackage; CEFrameReceived welcome_frame].
Definition bob : t := run client_step bob_new bob_events.

Definition greeting : ClientEvent := CESendMessage 7 SenderKeyProperties.sample_text.
Definition greeting_frame : Frame.t := sent_frame 0 greeting alice.

Definition frame_bytes (f : Frame.t) : bytes :=
  match Frame.encode f [] with Ok bs => bs | _ => [] end.
Definition sync_frame (fs : list Frame.t) : Frame.t :=
  match Payload.into_frame (Payload.SyncResponse (mkSyncResponse (map frame_bytes fs) false 1))
          (FrameHeader.set_room_id 7 (FrameHeader.new Opcode.SyncResponse)) with
  | Ok f => f
  | _ => Frame.sample
  end.

(** A sync response within a sync response. *)
Definition nested_frame : Frame.t := sync_frame [welcome_frame; sync_frame [greeting_frame]].

Definition delivered (r : res ClientError.t (list ClientAction)) : list ClientAction :=
  match r with
  | Ok acts => omap (fun a => match a with CADeliverMessage _ _ _ _ _ => Some a | _ => None end) acts
  | _ => []
  end.

Lemma handle_frame_nesting_witness :
  handle_frame_fuel 5000 nested_frame bob_published = handle_frame nested_frame bob_published /\
  delivered (snd (handle_frame nested_frame bob_published))
  = [CADeliverMessage 7 1 SenderKeyProperties.sample_text 0 0].
Proof.
  split; [|vm_compute; reflexivity]. apply (handle_frame_nesting 5000 nested_frame bob_published).
  apply Nat.ltb_lt. vm_compute. reflexivity.
Defined.


End ClientSample.
