(* ===== verification/EndToEnd.v ===== *)
(** * From one client to another

    The path of a message through the whole system: the client that sends it,
    the server that orders it, the client that reads it; and what a client does
    with messages and commits, on every branch that matters to the user. *)

From S2P Require Import Prelude Env Opcodes Header Framing Payloads Validator Storage.
From S2P Require Import Sequencer RoomManager Driver DriverInv Delivery SenderKeys Mls Samples.
From S2P Require Import Client ClientInv.

Local Open Scope N_scope.

Module EndToEnd.
Import Client ClientInvariant.

(** ** Reading a message *)

Section reading.
Context {Env : Type} `{!Environment Env} {openmls : OpenMls Env} {crypto : Crypto}
  {ed25519 : Ed25519} {ciborium : Ciborium}.

(** The message [m] in [frame] is one the client reads: not its own, of the
    epoch of the room, signed by the member at the leaf the message names. *)
Definition readable (c : t) (frame : Frame.t) (room : RoomState) (m : EncryptedMessage) : Prop :=
  let h := Frame.header frame in
  let g := mls_group room in
  let state := MlsGroup.export_validation_state g in
  rooms c !! FrameHeader.room_id h = Some room /\
  FrameHeader.sender_id h <> sender_id c /\
  FrameHeader.epoch h = MlsGroup.epoch g /\
  FrameHeader.sender_id h ∈ MlsGroupState.members state /\
  (exists key vk sig,
     MlsGroupState.member_keys state !! FrameHeader.sender_id h = Some key /\
     vk_from_bytes key = Some vk /\
     signature_try_from (FrameHeader.signature h) = Some sig /\
     verify vk (FrameHeader.signing_data h) sig = true) /\
  from_reader (Frame.payload frame) = inr m /\
  MlsGroup.member_id_by_leaf_index g (em_sender_index m) = Some (FrameHeader.sender_id h).

(** Reading it is decrypting it with the keys of the room. *)
Definition decrypts (room : RoomState) (m : EncryptedMessage) : res SenderKeyError.t bytes :=
  snd (SenderKeyStore.decrypt (proto_to_crypto_encrypted m) (sender_keys room)).

Definition delivery (frame : Frame.t) (plaintext : bytes) : ClientAction :=
  let h := Frame.header frame in
  CADeliverMessage (FrameHeader.room_id h) (FrameHeader.sender_id h) plaintext
    (FrameHeader.log_index h) (FrameHeader.hlc_timestamp h).

(** The text [p] of [m] is sealed with the key of the sender's leaf and of its
    generation, from the secret that the group of [room], in a state it has or
    had at the message's epoch, exported; the leaf is a member's there. *)
Definition sealed_in_group (room : RoomState) (m : EncryptedMessage) (p : bytes) : Prop :=
  exists (g0 : MlsGroup.t) secret,
    MlsGroup.past g0 (mls_group room) /\
    MlsGroup.export_secret g0 CLIENT_SENDER_KEY_LABEL SENDER_KEY_CONTEXT SENDER_KEY_SECRET_SIZE
    = Ok secret /\
    MlsGroup.epoch g0 = em_epoch m /\
    em_sender_index m ∈ MlsGroup.member_leaf_indices g0 /\
    aead_decrypt
      (mk_key (SenderKeyProperties.key_at
                 (derive_sender_key_seed secret (em_epoch m) (em_sender_index m))
                 (em_generation m)))
      (em_nonce m) (em_ciphertext m) = Some p.

(** ** Lemmas *)

Lemma validated g frame :
  MlsGroup.validate_frame g frame (Some (MlsGroup.export_validation_state g)) = Ok tt <->
  MlsValidator.validate_frame frame (MlsGroup.epoch g) (MlsGroup.export_validation_state g) = Accept.
Proof. unfold MlsGroup.validate_frame. by destruct (MlsValidator.validate_frame _ _ _). Qed.

Lemma app_message_answer c frame room m :
  readable c frame room m ->
  let r := FrameHeader.room_id (Frame.header frame) in
  handle_app_message r frame c
  = let '(ks, x) := SenderKeyStore.decrypt (proto_to_crypto_encrypted m) (sender_keys room) in
    (with_rooms (<[r := mkRoom (mls_group room) ks (my_leaf_index room)]> (rooms c)) c,
     map_err ClientError.SenderKey (p ← x; mret [delivery frame p])).
Proof.
  intros (Hroom & Hid & He & Hin & Hk & Hm & Hleaf) r.
  unfold handle_app_message, mbind at 1, M_bind at 1, get at 1.
  rewrite (proj2 (N.eqb_neq _ _) Hid). unfold mbind at 1, M_bind at 1, get_room.
  unfold r. rewrite Hroom. cbn [ok_or]. rewrite He, N.eqb_refl. cbn [negb].
  assert (Hv : MlsGroup.validate_frame (mls_group room) frame
                 (Some (MlsGroup.export_validation_state (mls_group room))) = Ok tt).
  { apply validated, MlsValidator.validate_frame_accepts. done. }
  unfold mbind at 1, M_bind at 1, lift at 1. rewrite Hv. cbn [map_err].
  unfold mbind at 1, M_bind at 1, lift at 1, deserialize_encrypted_message. rewrite Hm.
  unfold mbind at 1, M_bind at 1, lift at 1. rewrite Hleaf. cbn [ok_or].
  rewrite N.eqb_refl. cbn [negb]. unfold mbind at 1, M_bind at 1, keys_call. rewrite Hroom.
  by destruct (SenderKeyStore.decrypt _ _) as [ks [p|e|]].
Qed.

Lemma app_message_read c frame room m :
  readable c frame room m ->
  snd (handle_app_message (FrameHeader.room_id (Frame.header frame)) frame c)
  = map_err ClientError.SenderKey (p ← decrypts room m; mret [delivery frame p]).
Proof.
  intros Hr. rewrite (app_message_answer c frame room m Hr). unfold decrypts.
  by destruct (SenderKeyStore.decrypt _ _).
Qed.

(** A message that is delivered was readable. *)
Lemma app_message_was_readable c frame acts a :
  snd (handle_app_message (FrameHeader.room_id (Frame.header frame)) frame c) = Ok acts ->
  a ∈ acts -> (forall text, a <> CALog text) -> (forall r e e', a <> CARequestSync r e e') ->
  exists room m p, readable c frame room m /\ decrypts room m = Ok p /\ a = delivery frame p.
Proof.
  unfold handle_app_message, mbind at 1, M_bind at 1, get at 1.
  destruct (N.eqb_spec (FrameHeader.sender_id (Frame.header frame)) (sender_id c)) as [|Hid].
  { intros [= <-] Ha. by apply elem_of_nil in Ha. }
  unfold mbind at 1, M_bind at 1, get_room.
  destruct (rooms c !! _) as [room|] eqn:Hroom; [|done]. cbn [ok_or].
  destruct (N.eqb_spec (FrameHeader.epoch (Frame.header frame)) (MlsGroup.epoch (mls_group room)))
    as [He|]; cbn [negb].
  2:{ intros [= <-] Ha Hl Hr. set_unfold in Ha. naive_solver. }
  unfold mbind at 1, M_bind at 1, lift at 1.
  destruct (MlsGroup.validate_frame _ _ _) as [[]| |] eqn:Hv; [|done..]. cbn [map_err].
  apply validated, MlsValidator.validate_frame_accepts in Hv as (_ & Hin & Hk).
  unfold mbind at 1, M_bind at 1, lift at 1, deserialize_encrypted_message.
  destruct (from_reader (Frame.payload frame)) as [|m] eqn:Hm; [done|].
  unfold mbind at 1, M_bind at 1, lift at 1.
  destruct (MlsGroup.member_id_by_leaf_index _ _) as [id|] eqn:Hleaf; [|done]. cbn [ok_or].
  destruct (N.eqb_spec (FrameHeader.sender_id (Frame.header frame)) id) as [<-|]; [|done].
  cbn [negb]. unfold mbind at 1, M_bind at 1, keys_call. rewrite Hroom.
  destruct (SenderKeyStore.decrypt _ _) as [ks [p|e|]] eqn:Hd; [|done..]. cbn.
  intros [= <-] Ha%list_elem_of_singleton _ _. subst a. exists room, m, p.
  split_and!; try done. unfold decrypts. by rewrite Hd.
Qed.

(** In a store of key sequences, a text that is decrypted was sealed with the
    key of its sender and generation. *)
Lemma decrypt_key secret e s m p :
  SenderKeyProperties.synced secret e s -> Encryption.generation m <= u32_MAX ->
  snd (SenderKeyStore.decrypt m s) = Ok p ->
  Encryption.epoch m = e /\ is_Some (SenderKeyStore.ratchets s !! Encryption.sender_index m) /\
  aead_decrypt
    (mk_key (SenderKeyProperties.key_at
               (derive_sender_key_seed secret e (Encryption.sender_index m))
               (Encryption.generation m)))
    (Encryption.nonce m) (Encryption.ciphertext m) = Some p.
Proof.
  intros Hs Hg. rewrite (SenderKeyProperties.decrypt_cases secret e) by done.
  destruct (N.eqb_spec (Encryption.epoch m) e) as [He|]; cbn [negb]; [|done].
  destruct (SenderKeyStore.sender_generation s (Encryption.sender_index m)) as [g|] eqn:Hsg; [|done].
  apply fmap_Some in Hsg as (r & Hr & _).
  cbv zeta. destruct (_ || _); [done|]. destruct (_ =? u32_MAX); [done|]. cbn [snd].
  unfold Encryption.decrypt_message. cbn [mk_generation SenderKeyProperties.key_at].
  rewrite N.eqb_refl. cbn [negb]. destruct (aead_decrypt _ _ _) as [p'|] eqn:Ha; [|done].
  intros [= ->]. rewrite Hr. eauto.
Qed.

Lemma handle_app_frame frame c :
  FrameHeader.opcode_enum (Frame.header frame) = Some Opcode.AppMessage ->
  handle (CEFrameReceived frame) c
  = handle_app_message (FrameHeader.room_id (Frame.header frame)) frame c.
Proof. intros Hop. cbn [handle]. unfold handle_frame. cbn [handle_frame_fuel]. by rewrite Hop. Qed.

(** A delivered text comes from a readable message, sealed with a key of a state
    that the room's group has or had. *)
Lemma delivered_authentic (c : t) frame acts r s p i ts :
  client_inv c ->
  FrameHeader.opcode_enum (Frame.header frame) = Some Opcode.AppMessage ->
  snd (handle (CEFrameReceived frame) c) = Ok acts ->
  CADeliverMessage r s p i ts ∈ acts ->
  acts = [CADeliverMessage r s p i ts] /\ CADeliverMessage r s p i ts = delivery frame p /\
  exists room m, readable c frame room m /\ sealed_in_group room m p.
Proof.
  intros HI Hop. rewrite handle_app_frame by done. intros Hans Hin.
  destruct (app_message_was_readable c frame acts _ Hans Hin) as (room & m & p' & Hr & Hd & Ha);
    [done..|].
  assert (p' = p) as -> by (unfold delivery in Ha; congruence).
  rewrite (app_message_read c frame room m Hr), Hd in Hans. injection Hans as <-.
  rewrite Ha. split_and!; [done..|]. exists room, m. split; [done|].
  pose proof Hr as (Hroom & _ & _ & _ & _ & Hm & _). apply app_message_typed in Hm as (_ & _ & Hg & _).
  destruct (HI _ _ Hroom) as (_ & _ & g0 & secret & Hpast & Hsec & _ & Hs & Hdom & _).
  destruct (decrypt_key secret (MlsGroup.epoch g0) (sender_keys room) (proto_to_crypto_encrypted m) p)
    as (He & Hleaf & Hp); [done|unfold u32_MAX; cbn; lia|done|]. cbn in He, Hleaf, Hp.
  exists g0, secret. split_and!; try done.
  - apply elem_of_dom in Hleaf. rewrite Hdom in Hleaf. by apply elem_of_list_to_set in Hleaf.
  - by rewrite He.
Qed.

End reading.

Section authenticity.
Context {Env : Type} `{!Environment Env} {openmls : OpenMls Env} {laws : OpenMlsLaws Env}
  {crypto : Crypto} {ed25519 : Ed25519} {ciborium : Ciborium} {sizes : CborSizes}.

(** C5: what a client delivers is authentic.  Take a client after any events,
    with frames of any content among them and texts to send shorter than 4 GiB;
    when an application frame makes it deliver a text, that is the frame's one
    effect on the user, with the room, sender, log index and timestamp of the
    frame; the sender is another member of the room's group, whose key verifies
    the frame's signature, at the group's epoch; the payload names the leaf of
    that member; and the text is what the key of that leaf and generation opens,
    derived from the secret which this room's own group exported in a state it
    has or had at the message's epoch, where the leaf was a member's. *)
Theorem delivered_messages_authentic e sid evs frame acts r s p i ts :
  Forall event_fits evs ->
  let c := run client_step (new e sid) evs in
  FrameHeader.opcode_enum (Frame.header frame) = Some Opcode.AppMessage ->
  snd (handle (CEFrameReceived frame) c) = Ok acts ->
  CADeliverMessage r s p i ts ∈ acts ->
  acts = [CADeliverMessage r s p i ts] /\ CADeliverMessage r s p i ts = delivery frame p /\
  exists room m, readable c frame room m /\ sealed_in_group room m p.
Proof using laws sizes. intros Hevs c. by apply delivered_authentic, reached_inv. Qed.

End authenticity.

(** ** Sending a message *)

Section sending.
Context {Env : Type} `{!Environment Env} {openmls : OpenMls Env} {laws : OpenMlsLaws Env}
  {crypto : Crypto} {ed25519 : Ed25519} {ciborium : Ciborium} {sizes : CborSizes}.

Definition message_header (sid r epoch size : N) : FrameHeader.t :=
  FrameHeader.set_payload_size size
    (FrameHeader.set_epoch epoch
       (FrameHeader.set_sender_id sid
          (FrameHeader.set_room_id r (FrameHeader.new Opcode.AppMessage)))).

(** The frame of a payload that a room sends. *)
Definition message_frame (sid r : N) (g : MlsGroup.t) (payload : bytes) : Frame.t :=
  Frame.mk
    (FrameHeader.set_payload_size (len payload)
       (MlsGroup.sign_frame_header g (message_header sid r (MlsGroup.epoch g) (len payload))))
    payload.

(** The signatures of a signer verify under a key. *)
Definition signs_for (sg : Signer) (key : bytes) : Prop :=
  forall data, exists sb vk sig,
    signer_sign sg data = Some sb /\ length sb = 64%nat /\ vk_from_bytes key = Some vk /\
    signature_try_from sb = Some sig /\ verify vk data sig = true.

Lemma message_frame_signed sid r g payload key :
  signs_for (MlsGroup.signer g) key -> len payload <= u32_MAX ->
  let h := message_header sid r (MlsGroup.epoch g) (len payload) in
  exists sb, length sb = 64%nat /\
    Frame.header (message_frame sid r g payload) = FrameHeader.set_signature sb h /\
    exists vk sig, vk_from_bytes key = Some vk /\ signature_try_from sb = Some sig /\
      verify vk (FrameHeader.signing_data h) sig = true.
Proof.
  intros Hs Hlen h. destruct (Hs (FrameHeader.signing_data h)) as (sb & vk & sig & H1 & H2 & H3 & H4 & H5).
  exists sb. split_and!; [done| |eauto]. unfold message_frame, MlsGroup.sign_frame_header. fold h.
  rewrite H1, (proj2 (Nat.eqb_eq _ _) H2). cbn [Frame.header]. done.
Qed.


Lemma message_header_wf sid r epoch size : FrameHeader.wf (message_header sid r epoch size).
Proof. unfold message_header. auto with lockframe. Qed.

Lemma message_frame_wf sid r g payload key :
  signs_for (MlsGroup.signer g) key -> len payload <= FrameHeader.MAX_PAYLOAD_SIZE ->
  Frame.wf (message_frame sid r g payload).
Proof.
  intros Hs Hlen. assert (Hle : len payload <= u32_MAX)
    by (unfold FrameHeader.MAX_PAYLOAD_SIZE, u32_MAX in *; lia).
  destruct (message_frame_signed sid r g payload key Hs Hle) as (sb & Hsb & Hh & _).
  unfold Frame.wf. rewrite Hh.
  assert (Hsize : FrameHeader.payload_size (FrameHeader.set_signature sb
    (message_header sid r (MlsGroup.epoch g) (len payload))) = len payload).
  { apply (FrameHeader.payload_size_set (len payload) (message_header sid r (MlsGroup.epoch g) 0)).
    unfold u32_MAX in Hle. lia. }
  split_and!; [apply FrameHeader.set_signature_wf; [done|apply message_header_wf]| |done].
  pose proof (FrameHeader.new_valid Opcode.AppMessage) as (Hm & Hv & _).
  split_and!; [exact Hm|exact Hv|]. by rewrite Hsize.
Qed.

(** Two members of a room at the same epoch, with keys of the same secret; the
    second knows the first one's leaf and key. *)
Record peers (A B : t) (r : N) (ra rb : RoomState) (secret : bytes) : Prop := mk_peers {
  pe_a : rooms A !! r = Some ra;
  pe_b : rooms B !! r = Some rb;
  pe_ids : sender_id A <> sender_id B;
  pe_u64 : sender_id A < 2 ^ 64;
  pe_leaf_u32 : my_leaf_index ra < 2 ^ 32;
  pe_epoch : MlsGroup.epoch (mls_group rb) = MlsGroup.epoch (mls_group ra);
  pe_keys_a : SenderKeyProperties.synced secret (MlsGroup.epoch (mls_group ra)) (sender_keys ra);
  pe_keys_b : SenderKeyProperties.synced secret (MlsGroup.epoch (mls_group ra)) (sender_keys rb);
  pe_leaf : MlsGroup.member_id_by_leaf_index (mls_group rb) (my_leaf_index ra) = Some (sender_id A);
  pe_member : sender_id A
    ∈ MlsGroupState.members (MlsGroup.export_validation_state (mls_group rb));
  pe_signer : exists key,
    MlsGroupState.member_keys (MlsGroup.export_validation_state (mls_group rb)) !! sender_id A
    = Some key /\ signs_for (MlsGroup.signer (mls_group ra)) key }.

(** The sender can still encrypt, and the reader is not too far behind. *)
Definition in_window (ra rb : RoomState) : Prop :=
  exists gA gB,
    SenderKeyStore.sender_generation (sender_keys ra) (my_leaf_index ra) = Some gA /\
    SenderKeyStore.sender_generation (sender_keys rb) (my_leaf_index ra) = Some gB /\
    gA < u32_MAX /\ gB <= gA /\ gA <= gB + MAX_SKIP.

(** What a member sends: its store encrypts the text, and the message is the
    payload of a frame. *)
Lemma message_sent A r ra secret g p :
  rooms A !! r = Some ra -> my_leaf_index ra < 2 ^ 32 ->
  SenderKeyProperties.synced secret (MlsGroup.epoch (mls_group ra)) (sender_keys ra) ->
  SenderKeyStore.sender_generation (sender_keys ra) (my_leaf_index ra) = Some g -> g < u32_MAX ->
  len p < 2 ^ 22 ->
  exists e rnd ks msg payload,
    handle (CESendMessage r p) A
    = (with_rooms (<[r := mkRoom (mls_group ra) ks (my_leaf_index ra)]> (rooms A)) (with_env e A),
       Ok [CASend (message_frame (sender_id A) r (mls_group ra) payload)]) /\
    SenderKeyStore.encrypt (my_leaf_index ra) p rnd (sender_keys ra) = (ks, Ok msg) /\
    Encryption.sender_index msg = my_leaf_index ra /\
    into_writer (crypto_to_proto_encrypted msg) = inr payload /\
    len payload <= FrameHeader.MAX_PAYLOAD_SIZE.
Proof using laws sizes.
  intros Hroom Hleaf Hs Hg Hlt Hp. cbn [handle].
  pose proof (random_bytes_length NONCE_RANDOM_SIZE (env A)) as Hrnd.
  unfold handle_send_message, mbind at 1, M_bind at 1, get_room. rewrite Hroom. cbn [ok_or].
  unfold mbind at 1, M_bind at 1. destruct (random_bytes _ (env A)) as [rnd e]. cbn [fst] in Hrnd.
  destruct (SenderKeyProperties.synced_roundtrip secret _ _ _ (my_leaf_index ra) p rnd g g Hs Hs)
    as (msg & Hmsg & Hme & Hmi & Hmg & Hmn & Hmc & _); [lia|done..|].
  unfold mbind at 1, M_bind at 1, keys_call. cbn [rooms with_env]. rewrite Hroom.
  destruct (SenderKeyStore.encrypt _ _ _ _) as [ks ans] eqn:Henc. cbn [snd] in Hmsg. subst ans.
  cbn [map_err].
  assert (Hepoch : MlsGroup.epoch (mls_group ra) < 2 ^ 64) by apply group_epoch_u64.
  assert (Hnonce : length (Encryption.nonce msg) = 24%nat).
  { rewrite Hmn. unfold Encryption.build_nonce. by rewrite !length_app, !length_to_be_bytes, Hrnd. }
  assert (Hgen : g < 2 ^ 32) by (unfold u32_MAX in Hlt; lia).
  destruct (app_message_encodes (crypto_to_proto_encrypted msg)) as [payload Hpay];
    [cbn; congruence..|done|done|].
  assert (Hsize : len payload <= FrameHeader.MAX_PAYLOAD_SIZE).
  { pose proof (app_message_size _ _ Hpay eq_refl) as Hsz. cbn in Hsz. rewrite Hmc in Hsz.
    unfold FrameHeader.MAX_PAYLOAD_SIZE. unfold len at 2 in Hsz. rewrite Hnonce in Hsz. lia. }
  exists e, rnd, ks, msg, payload. split_and!; [|done..].
  unfold mbind at 1, M_bind at 1, lift at 1, serialize_encrypted_message. rewrite Hpay.
  assert (Hlt32 : (u32_MAX <? len payload) = false)
    by (apply N.ltb_ge; unfold FrameHeader.MAX_PAYLOAD_SIZE, u32_MAX in *; lia).
  rewrite Hlt32. unfold mbind, M_bind, get, lift, Frame.new. by rewrite Hlt32.
Qed.

Lemma proto_crypto_encrypted msg :
  proto_to_crypto_encrypted (crypto_to_proto_encrypted msg) = msg.
Proof. by destruct msg. Qed.

(** What the sender sends is a frame whose message the reader can decrypt. *)
Lemma send_and_decrypt A B r ra rb secret p :
  peers A B r ra rb secret -> in_window ra rb -> len p < 2 ^ 22 ->
  exists m payload,
    snd (handle (CESendMessage r p) A)
    = Ok [CASend (message_frame (sender_id A) r (mls_group ra) payload)] /\
    into_writer m = inr payload /\ em_sender_index m = my_leaf_index ra /\
    len payload <= FrameHeader.MAX_PAYLOAD_SIZE /\ decrypts rb m = Ok p.
Proof using laws sizes.
  intros [] (gA & gB & HgA & HgB & Hlt & Hle & Hskip) Hp.
  destruct (message_sent A r ra secret gA p) as (e & rnd & ks & msg & payload & -> & Henc & Hi & Hpay & Hsize);
    [done..|].
  destruct (SenderKeyProperties.synced_roundtrip secret _ _ _ (my_leaf_index ra) p rnd gA gB
              pe_keys_a0 pe_keys_b0) as (msg' & Hmsg & _ & _ & _ & _ & _ & _ & Hdec); [lia|done..|].
  rewrite Henc in Hmsg. injection Hmsg as <-.
  exists (crypto_to_proto_encrypted msg), payload. split_and!; [done..|].
  unfold decrypts. rewrite proto_crypto_encrypted.
  destruct (SenderKeyStore.decrypt msg (sender_keys rb)) as [ks' ans].
  rewrite (proj2 (N.ltb_ge gA gB)), (proj2 (N.ltb_ge MAX_SKIP (gA - gB))) in Hdec by lia.
  by destruct Hdec as [-> _].
Qed.

End sending.

(** ** Through the server *)

Section delivery.
Context {Env : Type} `{!Environment Env} {openmls : OpenMls Env} {laws : OpenMlsLaws Env}
  {crypto : Crypto} {ed25519 : Ed25519} {ciborium : Ciborium} {sizes : CborSizes}.
Context {SEnv St : Type} `{!Environment SEnv} `{!Storage St} `{!StorageSpec St} `{!StorageTotal St}.
Abbreviation server := (ServerDriver.t SEnv St).

(** A frame crosses a connection unchanged. *)
Definition transmitted (f : Frame.t) : Prop :=
  exists bytes, Frame.encode f [] = Ok bytes /\ Frame.decode bytes = Ok f.

Lemma wf_transmitted f : Frame.wf f -> transmitted f.
Proof.
  intros Hw. exists (Frame.wire f). split; [by apply Frame.encode_wf|].
  rewrite <- (app_nil_r (Frame.wire f)). by apply Frame.decode_wire.
Qed.

(** The header of a message, at an index of the log. *)
Lemma message_frame_fields sid r g payload key i :
  signs_for (MlsGroup.signer g) key -> len payload <= FrameHeader.MAX_PAYLOAD_SIZE ->
  sid < 2 ^ 64 -> r < 2 ^ 128 -> i < 2 ^ 64 ->
  let h := Frame.header (Sequencer.at_index i (message_frame sid r g payload)) in
  FrameHeader.opcode_enum h = Some Opcode.AppMessage /\ FrameHeader.room_id h = r /\
  FrameHeader.sender_id h = sid /\ FrameHeader.epoch h = MlsGroup.epoch g /\
  FrameHeader.log_index h = i /\ FrameHeader.hlc_timestamp h = 0 /\
  exists vk sig, vk_from_bytes key = Some vk /\
    signature_try_from (FrameHeader.signature h) = Some sig /\
    verify vk (FrameHeader.signing_data h) sig = true.
Proof using laws.
  intros Hs Hlen Hsid Hr Hi h.
  destruct (message_frame_signed sid r g payload key Hs) as (sb & Hsb & Hh & vk & sig & Hk & Hsig & Hv).
  { unfold FrameHeader.MAX_PAYLOAD_SIZE, u32_MAX in *. lia. }
  unfold h, Sequencer.at_index. cbn [Frame.header]. rewrite Hh. split_and!.
  - apply (FrameHeader.opcode_enum_new Opcode.AppMessage).
  - exact (from_to_be_bytes 16 r Hr).
  - exact (from_to_be_bytes 8 sid Hsid).
  - exact (from_to_be_bytes 8 _ (group_epoch_u64 _)).
  - by apply FrameHeader.log_index_set.
  - vm_compute. reflexivity.
  - exists vk, sig. split_and!; [done..|]. pose proof (message_header_wf sid r (MlsGroup.epoch g) (len payload)).
    rewrite MlsValidator.signing_data_set_log_index by (by apply FrameHeader.set_signature_wf).
    by rewrite FrameHeader.signing_data_set_signature.
Qed.

(** From the sender's client to the reader's. *)
Lemma message_crosses (A B : t) r ra rb secret p (d : server) s conn :
  peers A B r ra rb secret -> in_window ra rb -> len p < 2 ^ 22 ->
  r < 2 ^ 128 -> r <> 0 -> MlsGroup.epoch (mls_group ra) <= MAX_EPOCH ->
  Delivery.coherent d -> ServerDriver.connections d !! s = Some conn ->
  ServerDriver.has_room d r = true -> len (Delivery.log_of d r) < u64_MAX ->
  exists f,
    snd (handle (CESendMessage r p) A) = Ok [CASend f] /\ transmitted f /\
    let '(d', answer) := ServerDriver.process_event (FrameReceived s f) d in
    let i := len (Delivery.log_of d r) in
    let f' := Sequencer.at_index i f in
    answer = Ok [Broadcast (ServerDriver.sessions_in_room d r) f'] /\
    Delivery.log_of d' r = Delivery.log_of d r ++ [f'] /\ transmitted f' /\
    snd (handle (CEFrameReceived f') B) = Ok [CADeliverMessage r (sender_id A) p i 0].
Proof using laws sizes StorageTotal0.
  intros Hpeers Hwin Hp Hr Hr0 He Hc Hs Hroom Hlen.
  destruct (send_and_decrypt A B r ra rb secret p Hpeers Hwin Hp) as (m & payload & Hsend & Hm & Hleaf & Hsize & Hdec).
  destruct Hpeers. destruct pe_signer0 as (key & Hkey & Hsigns).
  set (f := message_frame (sender_id A) r (mls_group ra) payload) in *.
  assert (Hwf : Frame.wf f) by (by eapply message_frame_wf).
  exists f. split; [done|]. split; [by apply wf_transmitted|].
  pose proof (Delivery.app_message_delivered d s conn f Hc Hs Hwf) as Hd.
  set (i := len (Delivery.log_of d r)). assert (Hi : i < 2 ^ 64) by (unfold i, u64_MAX in *; lia).
  destruct (message_frame_fields (sender_id A) r (mls_group ra) payload key i Hsigns Hsize) as
    (Hop & Hroomid & Hsid & Hep & Hidx & Hts & vk & sig & Hvk & Hsig & Hver); [done..|].
  fold f in Hop, Hroomid, Hsid, Hep, Hidx, Hts, Hsig, Hver.
  change (FrameHeader.opcode_enum (Frame.header f) = Some Opcode.AppMessage) in Hop.
  change (FrameHeader.room_id (Frame.header f) = r) in Hroomid.
  cbv zeta in Hd. rewrite Hroomid in Hd. unfold Sequencer.sequenceable in Hd. rewrite Hroomid in Hd.
  specialize (Hd (conj Hr0 (eq_ind_r (fun x => x <= MAX_EPOCH) He Hep)) Hop Hroom Hlen).
  destruct (ServerDriver.process_event _ d) as [d' answer]. destruct Hd as [Hans Hlog].
  split; [done|]. split; [done|]. split; [by apply wf_transmitted, Sequencer.at_index_wf|].
  fold i. rewrite handle_app_frame by done.
  change (FrameHeader.room_id (Frame.header (Sequencer.at_index i f)) = r) in Hroomid.
  rewrite (app_message_read B _ rb m), Hdec.
  - unfold delivery. by rewrite Hroomid, Hsid, Hidx, Hts.
  - unfold readable. rewrite Hroomid, Hsid, Hep, Hleaf. split_and!; try done; [eauto 10|].
    by apply from_reader_into_writer.
Qed.


End delivery.

(** ** Alice and Bob *)

Import ClientSample.

(** The server with the two sessions in the room. *)
Definition room_setup : list driver_op :=
  [DEvent (ConnectionAccepted 1); DEvent (ConnectionAccepted 2);
   DCreateRoom 7 1; DSubscribe 2 7].
Definition room_server : ServerDriver.t TestEnv MemoryStorage.t :=
  fst (Delivery.exec_all room_setup Delivery.sample_driver).

Lemma room_server_coherent : Delivery.coherent room_server.
Proof.
  assert (Ho : Forall Delivery.op_typed room_setup) by (repeat constructor).
  pose proof (Delivery.exec_all_delivers room_setup Delivery.sample_driver
                Delivery.sample_coherent Ho) as H.
  unfold room_server. destruct (Delivery.exec_all room_setup Delivery.sample_driver). apply H.
Qed.

Definition fresh_keys : SenderKeyStore.t :=
  SenderKeyStore.initialize_epoch (to_be_bytes 32 1) 1 [0; 1].

(** The parts of a room that the samples evaluate. *)
Definition room_parts (room : RoomState) : SenderKeyStore.t * N * N * option N * bytes :=
  (sender_keys room, my_leaf_index room, MlsGroup.epoch (mls_group room),
   MlsGroup.member_id_by_leaf_index (mls_group room) 0, MlsGroup.signer (mls_group room)).

Lemma alice_bob_peers : exists ra rb,
  peers alice bob 7 ra rb (to_be_bytes 32 1) /\ in_window ra rb /\
  MlsGroup.epoch (mls_group ra) = 1.
Proof.
  assert (Ha : room_parts <$> rooms alice !! 7 = Some (fresh_keys, 0, 1, Some 1, reverse (to_be_bytes 32 65)))
    by (vm_compute; reflexivity).
  assert (Hb : room_parts <$> rooms bob !! 7 = Some (fresh_keys, 1, 1, Some 1, reverse (to_be_bytes 32 66)))
    by (vm_compute; reflexivity).
  assert (Hk : (fun rb => MlsGroupState.member_keys (MlsGroup.export_validation_state (mls_group rb)) !! 1)
                 <$> rooms bob !! 7 = Some (Some (reverse (to_be_bytes 32 65))))
    by (vm_compute; reflexivity).
  assert (Hm : (fun rb => bool_decide (1 ∈ MlsGroupState.members (MlsGroup.export_validation_state (mls_group rb))))
                 <$> rooms bob !! 7 = Some true)
    by (vm_compute; reflexivity).
  destruct (rooms alice !! 7) as [ra|] eqn:Era; [|discriminate Ha].
  destruct (rooms bob !! 7) as [rb|] eqn:Erb; [|discriminate Hb].
  apply (inj Some) in Ha, Hb, Hk, Hm. apply bool_decide_eq_true in Hm.
  assert (Hka : sender_keys ra = fresh_keys) by exact (f_equal (fun x => x.1.1.1.1) Ha).
  assert (Hla : my_leaf_index ra = 0) by exact (f_equal (fun x => x.1.1.1.2) Ha).
  assert (Hea : MlsGroup.epoch (mls_group ra) = 1) by exact (f_equal (fun x => x.1.1.2) Ha).
  assert (Hsa : MlsGroup.signer (mls_group ra) = reverse (to_be_bytes 32 65)) by exact (f_equal snd Ha).
  assert (Hkb : sender_keys rb = fresh_keys) by exact (f_equal (fun x => x.1.1.1.1) Hb).
  assert (Heb : MlsGroup.epoch (mls_group rb) = 1) by exact (f_equal (fun x => x.1.1.2) Hb).
  assert (Hib : MlsGroup.member_id_by_leaf_index (mls_group rb) 0 = Some 1)
    by exact (f_equal (fun x => x.1.2) Hb).
  assert (Hids : sender_id alice = 1 /\ sender_id bob = 2) by (vm_compute; split; reflexivity).
  destruct Hids as [Hid1 Hid2]. exists ra, rb. split; [split|split; [|exact Hea]].
  - exact Era.
  - exact Erb.
  - rewrite Hid1, Hid2. discriminate.
  - rewrite Hid1. reflexivity.
  - rewrite Hla. reflexivity.
  - rewrite Hea, Heb. reflexivity.
  - rewrite Hka, Hea. apply SenderKeyProperties.init_synced.
  - rewrite Hkb, Hea. apply SenderKeyProperties.init_synced.
  - rewrite Hla, Hid1. exact Hib.
  - rewrite Hid1. exact Hm.
  - exists (reverse (to_be_bytes 32 65)). rewrite Hid1. split; [exact Hk|]. rewrite Hsa. intros data.
    eexists _, _, _. split_and!; vm_compute; reflexivity.
  - exists 0, 0. rewrite Hka, Hkb, Hla. split_and!; vm_compute; reflexivity || discriminate.
Qed.


Lemma delivered_messages_authentic_witness :
  exists room m, readable bob greeting_frame room m /\ em_sender_index m = 0.
Proof.
  assert (Hop : FrameHeader.opcode_enum (Frame.header greeting_frame) = Some Opcode.AppMessage)
    by (vm_compute; reflexivity).
  assert (Ha : snd (handle (CEFrameReceived greeting_frame) bob)
    = Ok [CADeliverMessage 7 1 SenderKeyProperties.sample_text 0 0]) by (vm_compute; reflexivity).
  destruct (delivered_messages_authentic (mkTestEnv 0 1 66 0) 2 bob_events greeting_frame _ 7 1
              SenderKeyProperties.sample_text 0 0 ltac:(repeat constructor) Hop Ha ltac:(left))
    as (_ & _ & room & m & Hr & _).
  exists room, m. split; [exact Hr|]. destruct Hr as (_ & _ & _ & _ & _ & Hm & _).
  assert (Hi : em_sender_index <$> (match from_reader (T := EncryptedMessage) (Frame.payload greeting_frame)
    with inr m => Some m | inl _ => None end) = Some 0) by (vm_compute; reflexivity).
  rewrite Hm in Hi. cbn in Hi. by injection Hi.
Defined.

End EndToEnd.
