(* ===== verification/Agreement.v ===== *)
(** * What the members of an MLS group agree on

    The epochs of a group (RFC 9420, sections 8 and 12): members that have
    applied the same commits are in the same epoch, where they see the same
    members, tree and secrets; a commit that adds members takes every member of
    one epoch to the same next one, a Welcome and an external commit take the new
    member there.  The class [MlsEpochs] names what the library's values mean,
    [MlsAgreement] states what is relied on, and the groups of [Samples] are an
    instance. *)

From S2P Require Import Prelude Env Opcodes Header Framing Payloads Validator SenderKeys Mls.
From S2P Require Import Samples Client ClientInv EndToEnd.

Local Open Scope N_scope.

Module Agreement.
Import EndToEnd.

Class MlsEpochs (Env : Type) `{!OpenMls Env} := {
  (** What the members share in an epoch: the group context and its secrets. *)
  Epoch : Type;
  epoch_members : Epoch -> list Member;
  group_at : Group -> Epoch;
  (** Where the pending commit of a group leads. *)
  pending_to : Group -> option Epoch;

  (** A message as it is read after it has been written. *)
  sent : MessageOut -> MessageIn;
  (** A commit from one epoch to the next that only adds members; the Welcome to
      the members it adds by KeyPackages; the GroupInfo of an epoch. *)
  commit_adds : ProtocolMessage -> Epoch -> Epoch -> Prop;
  welcomes : Welcome -> Epoch -> list KeyPackage -> list Member -> Prop;
  describes : VerifiableGroupInfo -> Epoch -> Prop;

  key_package_key : KeyPackage -> bytes;
  (** The storage has the private keys of the KeyPackage. *)
  holds : KeyStore -> KeyPackage -> Prop;

  (** The stages of a join by external commit, with credential and key. *)
  joining_group : ExternalGroup -> Epoch -> bytes -> bytes -> Prop;
  joining_loaded : ExternalLoaded -> Epoch -> bytes -> bytes -> Prop;
  joining_built : ExternalBuilt -> Epoch -> bytes -> bytes -> Prop;
}.

(** The members [news] come to [old]; no leaf is given twice. *)
Definition grown (old news now : list Member) : Prop :=
  now ≡ₚ old ++ news /\ (NoDup (map m_index old) -> NoDup (map m_index now)).

(** A group in an epoch, as the member at a leaf, without a pending commit. *)
Definition settled {Env} `{MlsEpochs Env} (σ : Epoch) (leaf : N) (g : Group) : Prop :=
  group_at g = σ /\ group_own_leaf_index g = leaf /\ group_is_active g = true /\ pending_to g = None.

(** The member a KeyPackage makes. *)
Definition member_of {Env} `{MlsEpochs Env} (kp : KeyPackage) (m : Member) : Prop :=
  m_credential m = key_package_credential kp /\ m_signature_key m = key_package_key kp.

(** The GroupInfos of an epoch are smaller than 4 MiB. *)
Definition epoch_fits {Env} `{MlsEpochs Env} (σ : Epoch) : Prop :=
  forall g sg out bs, group_at g = σ -> group_export_group_info g sg = inr out ->
    message_serialize out = inr bs -> len bs < 2 ^ 22.

Class MlsAgreement (Env : Type) `{!OpenMls Env} `{!Ed25519} `{!MlsEpochs Env} := {
  (** In an epoch there is one view of the group. *)
  group_at_members g : group_members g = epoch_members (group_at g);
  group_at_epoch g1 g2 : group_at g1 = group_at g2 ->
    group_epoch g1 = group_epoch g2 /\ group_tree_hash g1 = group_tree_hash g2;
  group_at_secret g1 g2 label context n : group_at g1 = group_at g2 ->
    group_is_active g1 = true -> group_is_active g2 = true ->
    group_export_secret g1 label context n = group_export_secret g2 label context n;
  (** A member can export secrets up to the limit of HKDF with SHA-256. *)
  group_exports g label context n : group_is_active g = true -> n <= 255 * 32 ->
    exists secret, group_export_secret g label context n = inr secret;
  tree_hash_length g : length (group_tree_hash g) = 32%nat;
  pending_known g : group_has_pending_commit g = bool_decide (is_Some (pending_to g));

  (** A new key pair is one of Ed25519. *)
  signer_new_signs s s' sg : signer_new s = (s', Ok sg) ->
    length (signer_public sg) = 32%nat /\ signs_for sg (signer_public sg);
  message_sent m bs : message_serialize m = inr bs ->
    message_deserialize_exact bs = inr (sent m) /\ message_deserialize bs = inr (sent m);

  (** A new group has one member. *)
  group_new_at sg cred key s s' g : group_new sg cred key s = (s', Ok g) ->
    exists σ leaf, settled σ leaf g /\ epoch_members σ = [mkMember leaf cred key];

  (** GroupInfos: when one member can publish that of its epoch, all can. *)
  info_describes g sg out : group_export_group_info g sg = inr out ->
    exists vgi, message_into_group_info (sent out) = Some vgi /\ describes vgi (group_at g);
  info_shared g1 g2 sg1 sg2 out1 bs1 : group_at g1 = group_at g2 ->
    group_is_active g1 = true -> group_is_active g2 = true ->
    group_export_group_info g1 sg1 = inr out1 -> message_serialize out1 = inr bs1 ->
    exists out2 bs2, group_export_group_info g2 sg2 = inr out2 /\ message_serialize out2 = inr bs2;

  (** Adding members: the commit stays pending until it is merged, ... *)
  add_members_at sg kps e st g σ leaf s' commit welcome info : settled σ leaf g ->
    group_add_members sg kps (e, st, g) = (s', Ok (commit, welcome, info)) ->
    exists σ' news pm w,
      group_at (snd s') = σ /\ group_own_leaf_index (snd s') = leaf /\
      group_is_active (snd s') = true /\ pending_to (snd s') = Some σ' /\
      grown (epoch_members σ) news (epoch_members σ') /\ Forall2 member_of kps news /\
      message_into_protocol (sent commit) = inr pm /\ commit_adds pm σ σ' /\
      message_extract_welcome (sent welcome) = Some w /\ welcomes w σ' kps news;
  merge_pending_at e st g σ' s' : pending_to g = Some σ' -> group_is_active g = true ->
    epoch_members (group_at g) ⊆ epoch_members σ' ->
    group_merge_pending_commit (e, st, g) = (s', Ok tt) ->
    settled σ' (group_own_leaf_index g) (snd s');
  (** ... every other member accepts it, ... *)
  process_adding pm σ σ' leaf e st g : commit_adds pm σ σ' -> settled σ leaf g ->
    exists cred staged s1 s2,
      group_process_message pm (e, st, g) = (s1, Ok (cred, StagedCommitMessage staged)) /\
      cred ∈ map m_credential (epoch_members σ') /\
      group_merge_staged_commit staged s1 = (s2, Ok tt) /\ settled σ' leaf (snd s2);
  (** ... and the owner of a KeyPackage joins as one of the new members. *)
  key_package_built sg cred key s s' kp : key_package_build sg cred key s = (s', Ok kp) ->
    key_package_credential kp = cred /\ key_package_key kp = key /\ holds (snd s') kp;
  key_package_read kp bs kp_in kp' : key_package_serialize kp = inr bs ->
    key_package_deserialize bs = inr kp_in -> key_package_validate kp_in = inr kp' -> kp' = kp;
  welcome_joins w σ kps news kp e st s1 sw s2 g : welcomes w σ kps news -> kp ∈ kps -> holds st kp ->
    staged_welcome_new w (e, st) = (s1, Ok sw) -> staged_welcome_into_group sw s1 = (s2, Ok g) ->
    exists m, m ∈ news /\ settled σ (m_index m) g;

  (** A join by external commit. *)
  external_group_at vgi σ cred key s s' eg : describes vgi σ ->
    external_build_group vgi cred key s = (s', Ok eg) -> joining_group eg σ cred key;
  external_loaded_at eg σ cred key s s' el : joining_group eg σ cred key ->
    external_load_psks eg s = (s', Ok el) -> joining_loaded el σ cred key;
  external_built_at sg el σ cred key s s' eb : joining_loaded el σ cred key ->
    external_build sg el s = (s', Ok eb) -> joining_built eb σ cred key;
  external_joins eb σ cred key s s' g commit : joining_built eb σ cred key ->
    external_finalize eb s = (s', Ok (g, commit)) ->
    exists σ' leaf pm, settled σ' leaf g /\
      grown (epoch_members σ) [mkMember leaf cred key] (epoch_members σ') /\
      message_into_protocol (sent commit) = inr pm /\ commit_adds pm σ σ';
}.

(** ** The groups without cryptography *)

Import ClientSample.

Lemma next_leaf_above ms m : m ∈ ms -> m_index m < next_leaf ms.
Proof.
  induction 1 as [m ms|m m' ms _ IH]; cbn [next_leaf foldr]; [lia|].
  change (foldr _ 0 ms) with (next_leaf ms). lia.
Qed.

Lemma next_leaf_snoc ms m : next_leaf (ms ++ [m]) = N.max (next_leaf ms) (m_index m + 1).
Proof.
  induction ms as [|m' ms IH]; cbn [next_leaf foldr app]; [lia|].
  change (foldr _ 0 (ms ++ [m])) with (next_leaf (ms ++ [m])).
  change (foldr _ 0 ms) with (next_leaf ms). rewrite IH. lia.
Qed.

Definition plain_member (kp : bytes * bytes) (m : Member) : Prop :=
  m_credential m = fst kp /\ m_signature_key m = snd kp.

Lemma with_new_spec kps : forall ms, exists news,
  with_new ms kps = ms ++ news /\ Forall2 plain_member kps news /\
  Forall (fun m => m_index m < next_leaf ms + len kps) news /\
  (NoDup (map m_index ms) -> NoDup (map m_index (with_new ms kps))).
Proof.
  induction kps as [|[cred key] kps IH]; intros ms; cbn [with_new].
  { exists []. rewrite app_nil_r. by split_and!. }
  set (m := mkMember (next_leaf ms) cred key).
  destruct (IH (ms ++ [m])) as (news & E & Hm & Hi & Hd).
  rewrite next_leaf_snoc in Hi. rewrite E, <- app_assoc in *.
  exists (m :: news). split_and!; [done|by constructor|constructor; cbn|].
  - unfold len. cbn. lia.
  - eapply Forall_impl; [exact Hi|]. intros m'. cbn. unfold len. cbn [length]. lia.
  - intros Hms. apply Hd. rewrite map_app. apply NoDup_app. split_and!; [done| |apply NoDup_singleton].
    intros i (m' & -> & Hm')%list_elem_of_fmap Hin%list_elem_of_singleton.
    apply next_leaf_above in Hm'. cbn in Hin. lia.
Qed.

Definition plain_welcome (σ : N * list Member) : PlainMessage := (2, (zeros 8, (fst σ, (snd σ, [])))).

(** The member at a leaf and its group. *)
Definition plain_joined (g : PlainGroup) (σ : N * list Member) (cred key : bytes) : Prop :=
  g = mkPlain (fst σ + 1) (with_new (snd σ) [(cred, key)]) (next_leaf (snd σ)) None /\
  next_leaf (snd σ) <= u32_MAX.

Definition plain_commit_adds (pm : PlainMessage) (σ σ' : N * list Member) : Prop :=
  exists cred, pm = (1, (cred, (fst σ', (snd σ', [])))) /\ fst σ' = fst σ + 1 /\
    cred ∈ map m_credential (snd σ') /\ snd σ ⊆ snd σ'.

Definition plain_welcomes (w : PlainMessage) (σ : N * list Member) (kps : list (bytes * bytes))
    (news : list Member) : Prop :=
  w = plain_welcome σ /\ Forall2 plain_member kps news /\
  Forall (fun m => m_index m <= u32_MAX) news /\ exists old, snd σ = old ++ news.

Definition plain_epochs : MlsEpochs TestEnv.
Proof.
refine (Build_MlsEpochs TestEnv plain_openmls (N * list Member) snd
  (fun g => (pg_epoch g, pg_members g))
  (fun g => (fun ms => (pg_epoch g + 1, ms)) <$> pg_pending g)
  (fun m => m) plain_commit_adds plain_welcomes (fun i σ => i = group_info_of (fst σ) (snd σ))
  snd (fun st kp => st = Some (snd kp)) plain_joined plain_joined plain_joined).
Defined.
#[export] Existing Instance plain_epochs.

Lemma plain_active g : pg_active g = true <-> exists m, m ∈ pg_members g /\ m_index m = pg_own g.
Proof.
  unfold pg_active. rewrite existsb_exists. split; intros (m & Hm & Hi); exists m.
  - by rewrite list_elem_of_In, <- (proj1 (N.eqb_eq _ _) Hi).
  - by rewrite <- list_elem_of_In, N.eqb_eq.
Qed.

Lemma plain_own_credential g : pg_active g = true ->
  own_credential g ∈ map m_credential (pg_members g).
Proof.
  intros (m & Hm & Hi)%plain_active. unfold own_credential.
  destruct (list_find_elem_of (fun m => m_index m = pg_own g) _ m Hm Hi) as ([i m'] & E).
  rewrite E. apply list_find_Some in E as (Hl & _). apply list_elem_of_fmap_2.
  by eapply list_elem_of_lookup_2.
Qed.

Lemma plain_signs s s' sg : signer_new (Env := TestEnv) s = (s', Ok sg) ->
  length (signer_public sg) = 32%nat /\ signs_for sg (signer_public sg).
Proof.
  destruct s as [e k]. cbn [signer_new plain_openmls].
  pose proof (random_bytes_length 32 e) as Hl. destruct (random_bytes 32 e) as [bs e'].
  intros [= _ <-]. cbn in Hl. cbn [signer_public plain_openmls].
  assert (Hr : length (reverse bs) = 32%nat) by (by rewrite length_reverse).
  split; [done|]. intros data. cbn [signer_sign plain_openmls vk_from_bytes signature_try_from verify
    MlsValidator.toy_ed25519]. rewrite Hr. destruct (reverse bs) as [|b bs']; [done|].
  eexists _, _, _. split_and!; try reflexivity. by apply bool_decide_eq_true.
Qed.

(** A list of parts of one size. *)
Lemma rep_length {A} (c : codec A) k n : (forall x bs, enc c x = Some bs -> length bs = k) ->
  forall l bs, enc (rep c n) l = Some bs -> length bs = (length l * k)%nat.
Proof.
  intros Hc. induction n as [|n IH]; intros [|x l] bs H; try done; [by injection H as <-|].
  unfold rep in H; fold (@rep A) in H. unfold embed in H. cbn [enc mbind option_bind] in H.
  apply enc_seq in H as (y & z & Hy & Hz & ->). rewrite length_app, (Hc x y Hy), (IH l z Hz). done.
Qed.

Lemma member_length m bs : enc member_codec m = Some bs -> length bs = 44%nat.
Proof.
  unfold member_codec, record, embed. cbn [enc mbind option_bind].
  intros (x & y & [_ Hx]%enc_num & (u & v & [_ Hu]%enc_raw & [_ Hv]%enc_raw & ->)%enc_seq & ->)%enc_seq.
  rewrite !length_app. lia.
Qed.

Lemma group_info_length e ms bs : write_message (group_info_of e ms) = inr bs ->
  length bs = (22 + length ms * 44)%nat.
Proof.
  unfold write_message, group_info_of. destruct (enc message_codec _) as [bs'|] eqn:E; [|done].
  case_match; [|done]. intros [= <-]. revert E. unfold message_codec.
  intros (k & y & [_ Hk]%enc_num & (c & z & [_ Hc]%enc_raw & (n & u & [_ Hn]%enc_num &
    (l & t & Hl & Ht%enc_blob & ->)%enc_seq & ->)%enc_seq & ->)%enc_seq & ->)%enc_seq.
  unfold many, embed in Hl. cbn [enc mbind option_bind] in Hl.
  apply enc_seq in Hl as (h & v & [_ Hh]%enc_num & Hv & ->).
  apply (rep_length _ 44 _ member_length) in Hv. cbn in Ht. rewrite !length_app. lia.
Qed.

Lemma read_write m bs : write_message m = inr bs -> read_message bs = inr m.
Proof.
  unfold write_message, read_message. destruct (enc message_codec m) as [bs'|] eqn:E; [|done].
  case_match; [|done]. intros [= <-]. rewrite <- (app_nil_r bs').
  by rewrite (dec_enc _ message_codec m bs' [] E).
Qed.

Lemma plain_stays_active g ms : pg_active g = true -> pg_members g ⊆ ms ->
  pg_active (committed ms g) = true.
Proof. rewrite !plain_active. intros (m & Hm & Hi) Hs. exists m. split; [by apply Hs|done]. Qed.

Lemma plain_add_members sg kps e st (g : PlainGroup) σ leaf s' commit welcome info :
  settled σ leaf g ->
  group_add_members (Env := TestEnv) sg kps (e, st, g) = (s', Ok (commit, welcome, info)) ->
  exists σ' news pm w,
    group_at (snd s') = σ /\ group_own_leaf_index (snd s') = leaf /\
    group_is_active (snd s') = true /\ pending_to (snd s') = Some σ' /\
    grown (epoch_members σ) news (epoch_members σ') /\ Forall2 member_of kps news /\
    message_into_protocol (sent commit) = inr pm /\ commit_adds pm σ σ' /\
    message_extract_welcome (sent welcome) = Some w /\ welcomes w σ' kps news.
Proof.
  intros (<- & <- & Ha & Hp). cbn [group_add_members plain_openmls].
  destruct (_ <=? u32_MAX) eqn:Hle; [|done]. apply N.leb_le in Hle.
  destruct g as [ep ms own p]. cbn in Hp. destruct p; [done|]. cbn [plain_commit pg_pending].
  intros [= <- <- <- <-]. cbn [pg_members pg_epoch pg_own] in *.
  destruct (with_new_spec kps ms) as (news & E & Hm & Hi & Hd).
  exists (ep + 1, with_new ms kps), news. eexists _, _. split_and!; try reflexivity; try done.
  - split; [cbn; by rewrite E|exact Hd].
  - exists (own_credential (mkPlain ep ms own None)). split_and!; try done; cbn; rewrite E.
    + apply (plain_own_credential (mkPlain ep ms own None)) in Ha. cbn in Ha. set_solver.
    + set_solver.
  - split_and!; [done..| |by exists ms]. eapply Forall_impl; [exact Hi|]. cbn. lia.
Qed.

Lemma plain_process_adding (pm : PlainMessage) σ σ' leaf e st (g : PlainGroup) :
  commit_adds (Env := TestEnv) pm σ σ' -> settled σ leaf g ->
  exists cred staged s1 s2,
    group_process_message (Env := TestEnv) pm (e, st, g)
    = (s1, Ok (cred, StagedCommitMessage staged)) /\
    cred ∈ map m_credential (epoch_members σ') /\
    group_merge_staged_commit staged s1 = (s2, Ok tt) /\ settled σ' leaf (snd s2).
Proof.
  intros (cred & -> & He & Hc & Hs) (<- & <- & Ha & Hp). destruct σ' as [ep ms]. cbn in *. subst ep.
  exists cred, ms. rewrite N.eqb_refl. eexists _, _. split_and!; try reflexivity; [done|].
  split_and!; try reflexivity. by apply plain_stays_active.
Qed.

Lemma plain_welcome_joins (w : PlainMessage) σ kps news kp e st s1 sw s2 (g : PlainGroup) :
  welcomes (Env := TestEnv) w σ kps news -> kp ∈ kps -> holds st kp ->
  staged_welcome_new (Env := TestEnv) w (e, st) = (s1, Ok sw) ->
  staged_welcome_into_group sw s1 = (s2, Ok g) ->
  exists m, m ∈ news /\ settled σ (m_index m) g.
Proof.
  intros (-> & Hm & Hi & old & E) Hkp -> [= <- <-]. destruct σ as [ep ms]. cbn in E. subst ms.
  cbn [staged_welcome_into_group plain_openmls plain_welcome fst snd]. cbn [mbind option_bind].
  apply list_elem_of_lookup in Hkp as (i & Hkp).
  destruct (Forall2_lookup_l _ _ _ _ _ Hm Hkp) as (m & Hl & _ & Hk).
  apply list_elem_of_lookup_2 in Hl.
  destruct (list_find_elem_of (fun m => m_signature_key m = snd kp) (reverse news) m) as ([j m'] & Hf);
    [by apply elem_of_reverse|done|].
  unfold plain_find. rewrite reverse_app, (list_find_app_l _ _ _ _ _ Hf). cbn. intros [= _ <-].
  apply list_find_Some in Hf as (Hj%list_elem_of_lookup_2%elem_of_reverse & _ & _).
  rewrite ?reverse_involutive in Hj.
  exists m'. split; [done|]. split_and!; try reflexivity.
  - rewrite Forall_forall in Hi. specialize (Hi m' Hj). cbn in *. lia.
  - apply plain_active. exists m'. split; [|done]. cbn. set_solver.
Qed.

Lemma plain_external_joins (eb : PlainGroup) σ cred key s s' (g : PlainGroup) commit :
  joining_built (Env := TestEnv) eb σ cred key ->
  external_finalize (Env := TestEnv) eb s = (s', Ok (g, commit)) ->
  exists σ' leaf pm, settled σ' leaf g /\
    grown (epoch_members σ) [mkMember leaf cred key] (epoch_members σ') /\
    message_into_protocol (sent commit) = inr pm /\ commit_adds pm σ σ'.
Proof.
  intros [-> Hle] [= _ <- <-]. destruct σ as [ep ms]. cbn [fst snd] in *.
  destruct (with_new_spec [(cred, key)] ms) as (news & E & _ & _ & Hd). cbn [with_new] in *.
  set (m := mkMember (next_leaf ms) cred key) in *.
  assert (Ha : pg_active (mkPlain (ep + 1) (ms ++ [m]) (next_leaf ms) None) = true).
  { apply plain_active. exists m. split; [|done]. cbn. set_solver. }
  exists (ep + 1, ms ++ [m]), (next_leaf ms). eexists.
  split; [split_and!; try reflexivity; [cbn; lia|done]|].
  split; [by split|]. split; [reflexivity|]. cbn.
  exists (own_credential (mkPlain (ep + 1) (ms ++ [m]) (next_leaf ms) None)).
  split_and!; try reflexivity; [by apply plain_own_credential in Ha|]. cbn. set_solver.
Qed.

Lemma plain_fits (σ : Epoch) : (length (epoch_members σ) <= 1000)%nat -> epoch_fits σ.
Proof.
  intros Hl g sg out bs <- [= <-] H%group_info_length. cbn in Hl. unfold len. lia.
Qed.

Definition plain_agreement : MlsAgreement TestEnv.
Proof.
split.
- done.
- intros [e1 ms1 o1 p1] [e2 ms2 o2 p2] [= <- <-]. done.
- intros [e1 ms1 o1 p1] [e2 ms2 o2 p2] label context n [= <- <-]. cbn. by intros -> ->.
- intros g label context n. cbn. intros -> _. eauto.
- done.
- intros g. cbn. apply bool_decide_ext. by rewrite fmap_is_Some.
- apply plain_signs.
- intros m bs H%read_write. done.
- intros sg cred key s s' g [= _ <-]. eexists _, 0. split; [split_and!|]; reflexivity.
- intros g sg out [= <-]. eexists. split; reflexivity.
- intros [e1 ms1 o1 p1] [e2 ms2 o2 p2] sg1 sg2 out1 bs1 [= <- <-] _ _ [= <-] H. eauto.
- apply plain_add_members.
- intros e k g σ' s'. cbn. destruct (pg_pending g) as [ms|]; [|done]. intros [= <-] Ha Hs [= <-].
  split_and!; [done..| |done]. by apply plain_stays_active.
- apply plain_process_adding.
- intros sg cred key [e k] s' kp [= <- <-]. done.
- intros [c k] bs kp_in kp'. cbn. destruct (Nat.eqb_spec (length c) 8) as [Hc|]; [|done].
  destruct (Nat.eqb_spec (length k) 32) as [Hk|]; [|done]. intros [= <-].
  rewrite length_app, Hc, Hk. intros [= <-] [= <-]. by rewrite take_app_n, drop_app_n.
- apply plain_welcome_joins.
- intros vgi σ cred key s s' eg -> [= _ H]. revert H. case_match; [|done]. intros [= <-].
  bool2prop. done.
- by intros eg σ cred key s s' el Hj [= _ <-].
- by intros sg eg σ cred key s s' el Hj [= _ <-].
- apply plain_external_joins.
Defined.

End Agreement.
