(* ===== verification/Membership.v ===== *)
(** * How a client follows the membership of its rooms

    What commits, Welcomes and timers do to a client: the keys after a commit,
    a commit that removes the client, a commit under another opcode, a Welcome
    that fails, the operations that a tick gives up. *)

From S2P Require Import Prelude Env Opcodes Header Framing Payloads Validator SenderKeys Mls.
From S2P Require Import Samples Client ClientInv EndToEnd.

Local Open Scope N_scope.

Module Membership.
Import Client ClientInvariant EndToEnd.

Section membership.
Context {Env : Type} `{!Environment Env} {openmls : OpenMls Env} {laws : OpenMlsLaws Env}
  {crypto : Crypto} {ed25519 : Ed25519} {ciborium : Ciborium}.

Definition is_commit (f : Frame.t) : Prop :=
  FrameHeader.opcode_enum (Frame.header f) = Some Opcode.Commit \/
  FrameHeader.opcode_enum (Frame.header f) = Some Opcode.ExternalCommit.

(** The action tells the user that the room is gone. *)
Definition reports_removal (a : ClientAction) : Prop :=
  match a with CARoomRemoved _ _ => True | _ => False end.

Lemma handle_commit_frame f c :
  is_commit f ->
  handle (CEFrameReceived f) c = handle_commit (FrameHeader.room_id (Frame.header f)) f c.
Proof.
  intros H. cbn [handle]. unfold handle_frame. cbn [handle_frame_fuel]. by destruct H as [-> | ->].
Qed.

(** ** Where removals come from *)

Lemma convert_removal r acts cas a :
  convert_mls_actions r acts = Ok cas -> a ∈ cas -> reports_removal a ->
  exists reason, MlsAction.RemoveGroup reason ∈ acts.
Proof.
  revert cas. induction acts as [|m acts IH]; intros cas; cbn [convert_mls_actions].
  { intros [= <-] Ha%elem_of_nil. done. }
  destruct (convert_mls_action r m) as [ca| |] eqn:Hm; [|done..]. cbn.
  destruct (convert_mls_actions r acts) as [rest| |]; [|done..]. cbn. intros [= <-].
  rewrite elem_of_cons. intros [->|Ha] Hr.
  - destruct m as [| | | | |reason|ir ie info|]; cbn in Hm; simplify_eq; try done.
    + exists reason. left.
    + by destruct (Payload.into_frame _ _); simplify_eq.
  - destruct (IH rest eq_refl Ha Hr) as [reason H]. exists reason. by right.
Qed.

(** The library's actions ask for no KeyPackage. *)
Lemma convert_no_request r acts cas reason :
  convert_mls_actions r acts = Ok cas -> CAKeyPackageNeeded reason ∉ cas.
Proof.
  revert cas. induction acts as [|m acts IH]; intros cas; cbn [convert_mls_actions].
  { intros [= <-]. apply not_elem_of_nil. }
  destruct (convert_mls_action r m) as [ca| |] eqn:Hm; [|done..]. cbn.
  destruct (convert_mls_actions r acts) as [rest| |]; [|done..]. cbn. intros [= <-].
  apply not_elem_of_cons. split; [|by apply IH]. intros <-.
  destruct m as [| | | | | |ir ie info|]; cbn in Hm; simplify_eq.
  by destruct (Payload.into_frame _ _); simplify_eq.
Qed.

(** A library call that merges a commit removes the group only when it has
    become inactive. *)
Lemma process_message_removal frame s s' acts reason :
  MlsGroup.process_message frame s = (s', Ok acts) -> MlsAction.RemoveGroup reason ∈ acts ->
  group_is_active (MlsGroup.inner_group (snd s')) = false.
Proof.
  unfold MlsGroup.process_message, mbind at 1, M_bind at 1, lift at 1.
  destruct (wrap_err _ _ _) as [msg| |]; [|done..].
  unfold mbind at 1, M_bind at 1, lift at 1. destruct (wrap_err _ _ _) as [pm| |]; [|done..].
  unfold mbind at 1, M_bind at 1. destruct (MlsGroup.call _ _ _ _) as [s1 [[cred content]| |]]; [|done..].
  unfold mbind at 1, M_bind at 1, lift at 1.
  destruct (extract_member_id_from_credential _) as [id| |]; [|done..].
  unfold mbind at 1, M_bind at 1, get at 1. cbn [snd].
  destruct content as [p|d| |staged].
  1-3: intros [= <- <-] Ha; set_unfold in Ha; naive_solver.
  unfold mbind at 1, M_bind at 1. destruct (MlsGroup.call _ _ _ _) as [s2 [[]| |]]; [|done..].
  unfold mbind at 1, M_bind at 1, get at 1. destruct (group_is_active _) eqn:Hact.
  - unfold mbind, M_bind, lift. destruct (MlsGroup.export_group_info _); [|done..].
    intros [= <- <-] Ha. set_unfold in Ha. naive_solver.
  - intros [= <- <-] _. done.
Qed.

Lemma merge_pending_removal s s' acts reason :
  MlsGroup.merge_pending_commit s = (s', Ok acts) -> MlsAction.RemoveGroup reason ∉ acts.
Proof.
  unfold MlsGroup.merge_pending_commit, mbind at 1, M_bind at 1, get at 1.
  destruct (MlsGroup.pending_commit _); [|done].
  unfold mbind at 1, M_bind at 1. destruct (MlsGroup.call _ _ _ _) as [s1 [[]| |]]; [|done..].
  unfold mbind, M_bind, modify, get, lift. cbv beta iota zeta.
  destruct (MlsGroup.export_group_info _); [|done..].
  intros [= <- <-] Ha. set_unfold in Ha. naive_solver.
Qed.

(** What a method of the group of a room leaves behind. *)
Lemma group_call_room {A} r (m : M (Env * MlsGroup.t) MlsError.t A) c c' (x : res ClientError.t A) :
  try_mls (group_call r m) c = (c', x) -> forall room, rooms c !! r = Some room ->
  exists s' x', m (env c, mls_group room) = (s', x') /\ x = map_err mls_err x' /\
    rooms c' !! r = Some (set_group (snd s') room).
Proof.
  unfold try_mls, group_call. intros H room Hroom. rewrite Hroom in H.
  destruct (m (env c, mls_group room)) as [[e g] x']. injection H as <- <-.
  eexists _, _. split_and!; [done..|]. cbn. by rewrite lookup_insert_eq.
Qed.

Lemma apply_commit_removal r f c c' acts a :
  apply_commit r f c = (c', Ok (Some acts)) -> a ∈ acts -> reports_removal a ->
  exists room', rooms c' !! r = Some room' /\
    group_is_active (MlsGroup.inner_group (mls_group room')) = false.
Proof.
  unfold apply_commit, mbind at 1, M_bind at 1, get at 1.
  unfold mbind at 1, M_bind at 1, get_room.
  destruct (rooms c !! r) as [room|] eqn:Hroom; [|done]. cbn [ok_or]. destruct (_ && _).
  - unfold mbind, M_bind.
    destruct (try_mls _ c) as [c1 [mls| |]] eqn:Hc; [|done..]. unfold lift.
    destruct (convert_mls_actions r mls) as [cas| |] eqn:Hcas; [|done..]. intros [= <- <-] Ha Hr.
    destruct (convert_removal r mls cas a Hcas Ha Hr) as [reason Hrem].
    destruct (group_call_room r _ _ _ _ Hc room Hroom) as (s' & [x| |] & Hm & Hx & _); simplify_eq/=.
    by destruct (merge_pending_removal _ _ _ reason Hm).
  - destruct (_ && _); [done|]. unfold mbind, M_bind.
    destruct (try_mls _ c) as [c1 [mls| |]] eqn:Hc; [|done..]. unfold lift.
    destruct (convert_mls_actions r mls) as [cas| |] eqn:Hcas; [|done..]. intros [= <- <-] Ha Hr.
    destruct (convert_removal r mls cas a Hcas Ha Hr) as [reason Hrem].
    destruct (group_call_room r _ _ _ _ Hc room Hroom) as (s' & [x| |] & Hm & Hx & Hroom'); simplify_eq/=.
    eexists. split; [done|]. by eapply process_message_removal.
Qed.

Lemma inactive_has_no_keys g :
  group_is_active (MlsGroup.inner_group g) = false -> is_ok (initialize_sender_keys g) = false.
Proof using laws.
  intros Hact. unfold initialize_sender_keys, MlsGroup.export_secret.
  by destruct (export_secret_inactive _ CLIENT_SENDER_KEY_LABEL SENDER_KEY_CONTEXT
                 SENDER_KEY_SECRET_SIZE Hact) as [e ->].
Qed.

(** ** The keys after a commit *)

Definition own_commit (c : t) (f : Frame.t) : bool :=
  FrameHeader.sender_id (Frame.header f) =? sender_id c.

(** The group [g] of the client [c] once the library has applied the frame:
    it merged the client's pending commit; or it read a commit in the frame and
    merged that; or it processed a message of the frame that holds no commit. *)
Inductive commit_applied (c : t) (f : Frame.t) (g : MlsGroup.t) : MlsGroup.t -> Prop :=
  | applied_pending e st inner :
      own_commit c f = true -> MlsGroup.has_pending_commit g = true ->
      group_merge_pending_commit (env c, MlsGroup.provider g, MlsGroup.inner_group g)
      = ((e, st, inner), Ok tt) ->
      commit_applied c f g
        (MlsGroup.mk (MlsGroup.room_id g) (MlsGroup.member_id g) inner (MlsGroup.signer g) st None)
  | applied_staged m pm s1 cred staged e st inner :
      message_deserialize_exact (Frame.payload f) = inr m -> message_into_protocol m = inr pm ->
      group_process_message pm (env c, MlsGroup.provider g, MlsGroup.inner_group g)
      = (s1, Ok (cred, StagedCommitMessage staged)) ->
      group_merge_staged_commit staged s1 = ((e, st, inner), Ok tt) ->
      commit_applied c f g
        (MlsGroup.mk (MlsGroup.room_id g) (MlsGroup.member_id g) inner (MlsGroup.signer g) st
           (MlsGroup.pending_commit g))
  | applied_no_commit m pm e st inner cred content :
      message_deserialize_exact (Frame.payload f) = inr m -> message_into_protocol m = inr pm ->
      group_process_message pm (env c, MlsGroup.provider g, MlsGroup.inner_group g)
      = ((e, st, inner), Ok (cred, content)) ->
      (forall staged, content <> StagedCommitMessage staged) ->
      commit_applied c f g
        (MlsGroup.mk (MlsGroup.room_id g) (MlsGroup.member_id g) inner (MlsGroup.signer g) st
           (MlsGroup.pending_commit g)).

Lemma merge_pending_applied c f g s' acts :
  own_commit c f = true -> MlsGroup.has_pending_commit g = true ->
  MlsGroup.merge_pending_commit (env c, g) = (s', Ok acts) -> commit_applied c f g (snd s').
Proof.
  intros Hown Hp. unfold MlsGroup.merge_pending_commit, mbind at 1, M_bind at 1, get at 1.
  cbn [snd]. destruct (MlsGroup.pending_commit g); [|done].
  unfold mbind at 1, M_bind at 1, MlsGroup.call.
  destruct (group_merge_pending_commit _) as [[[e st] inner] [[]| |]] eqn:Hm; [|done..].
  unfold mbind, M_bind, modify, get, lift. cbn.
  destruct (MlsGroup.export_group_info _); [|done..]. intros [= <- _]. exact (applied_pending c f g e st inner Hown Hp Hm).
Qed.

Lemma process_message_applied c f g s' acts :
  MlsGroup.process_message f (env c, g) = (s', Ok acts) -> commit_applied c f g (snd s').
Proof.
  unfold MlsGroup.process_message, mbind at 1, M_bind at 1, lift at 1, wrap_err at 1.
  destruct (message_deserialize_exact _) as [|m] eqn:Hm; [done|].
  unfold mbind at 1, M_bind at 1, lift at 1, wrap_err at 1.
  destruct (message_into_protocol m) as [|pm] eqn:Hpm; [done|].
  unfold mbind at 1, M_bind at 1, MlsGroup.call at 1.
  destruct (group_process_message pm _) as [[[e st] inner] [[cred content]| |]] eqn:Hg; [|done..].
  cbn [map_err]. unfold mbind at 1, M_bind at 1, lift at 1.
  destruct (extract_member_id_from_credential _) as [id| |]; [|done..].
  unfold mbind at 1, M_bind at 1, get at 1. cbn [snd].
  destruct content as [p|d| |staged].
  1-3: intros [= <- _]; by eapply applied_no_commit.
  unfold mbind at 1, M_bind at 1, MlsGroup.call at 1. cbn [MlsGroup.provider MlsGroup.inner_group].
  destruct (group_merge_staged_commit staged _) as [[[e2 st2] inner2] [[]| |]] eqn:Hs; [|done..].
  unfold mbind at 1, M_bind at 1, get at 1. cbn [map_err snd].
  destruct (group_is_active _); cycle 1.
  { intros [= <- _]. by eapply applied_staged. }
  unfold mbind, M_bind, lift. destruct (MlsGroup.export_group_info _); [|done..].
  intros [= <- _]. by eapply applied_staged.
Qed.

(** The two answers of [apply_commit]. *)
Lemma apply_commit_answer r f c c' o :
  apply_commit r f c = (c', Ok o) ->
  exists room, rooms c !! r = Some room /\
  match o with
  | None => c' = c /\ own_commit c f = true /\
      MlsGroup.has_pending_commit (mls_group room) = false /\
      MlsGroup.has_mls_pending_commit (mls_group room) = false
  | Some _ => exists g', commit_applied c f (mls_group room) g' /\
      rooms c' !! r = Some (set_group g' room)
  end.
Proof.
  unfold apply_commit, mbind at 1, M_bind at 1, get at 1. fold (own_commit c f).
  unfold mbind at 1, M_bind at 1, get_room.
  destruct (rooms c !! r) as [room|] eqn:Hroom; [|done]. cbn [ok_or]. intros H. exists room.
  split; [done|]. destruct (own_commit c f && MlsGroup.has_pending_commit _) eqn:H1.
  - apply andb_true_iff in H1 as [Hown Hp]. unfold mbind, M_bind in H.
    destruct (try_mls _ c) as [c1 [mls| |]] eqn:Hc; [|done..]. unfold lift in H.
    destruct (convert_mls_actions r mls); [|done..]. injection H as <- <-.
    destruct (group_call_room r _ _ _ _ Hc room Hroom) as (s' & [x| |] & Hm & Hx & ?); simplify_eq/=.
    exists (snd s'). split; [by eapply merge_pending_applied|done].
  - destruct (own_commit c f && negb _) eqn:H2.
    { apply andb_true_iff in H2 as [Hown Hn%negb_true_iff]. rewrite Hown in H1. by injection H as <- <-. }
    unfold mbind, M_bind in H. destruct (try_mls _ c) as [c1 [mls| |]] eqn:Hc; [|done..].
    unfold lift in H. destruct (convert_mls_actions r mls); [|done..]. injection H as <- <-.
    destruct (group_call_room r _ _ _ _ Hc room Hroom) as (s' & [x| |] & Hm & Hx & ?); simplify_eq/=.
    exists (snd s'). split; [by eapply process_message_applied|done].
Qed.

(** The opcodes without a handler of their own. *)
Definition has_no_handler (op : Opcode.t) : Prop :=
  match op with
  | Opcode.HelloReply | Opcode.Pong | Opcode.Error | Opcode.AppMessage | Opcode.Commit
  | Opcode.ExternalCommit | Opcode.Welcome | Opcode.SyncResponse | Opcode.KeyPackageFetch
  | Opcode.GroupInfo => False
  | _ => True
  end.

Lemma handle_other_frame f c op :
  FrameHeader.opcode_enum (Frame.header f) = Some op -> has_no_handler op ->
  handle (CEFrameReceived f) c = handle_other (FrameHeader.room_id (Frame.header f)) f c.
Proof.
  intros Hop Hno. cbn [handle]. unfold handle_frame. cbn [handle_frame_fuel]. rewrite Hop.
  by destruct op.
Qed.

(** ** Timers *)

Lemma expire_adds_spec keys : forall c,
  let '(c', x) := expire_adds keys c in
  is_ok x = true /\ c' = with_adds (pending_adds c') c /\
  forall k, pending_adds c' !! k = if decide (k ∈ keys) then None else pending_adds c !! k.
Proof.
  induction keys as [|[r u] keys IH]; intros c; cbn [expire_adds].
  { split_and!; [done|by destruct c|done]. }
  unfold mbind, M_bind, get, remove_add, modify.
  specialize (IH (with_adds (delete (r, u) (pending_adds c)) c)).
  destruct (expire_adds keys _) as [c' [acts| |]]; destruct IH as (Hx & Hc & Hk); try done.
  split_and!; [done|by rewrite Hc|]. intros k. rewrite Hk. cbn [pending_adds with_adds].
  destruct (decide (k = (r, u))) as [->|Hne].
  - rewrite lookup_delete_eq, (decide_True (P := _ ∈ _ :: _)) by left. by case_decide.
  - rewrite lookup_delete_ne by done. apply decide_ext. rewrite elem_of_cons. naive_solver.
Qed.

(** The room has no commit that has been pending for too long. *)
Definition commit_fresh (t0 : Instant) (o : option RoomState) : Prop :=
  forall room, o = Some room -> MlsGroup.is_commit_timeout (mls_group room) t0 COMMIT_TIMEOUT = false.

(** One room of a tick. *)
Lemma clear_commit_spec r c c' x room :
  rooms c !! r = Some room -> try_mls (group_call r MlsGroup.clear_pending_commit) c = (c', x) ->
  pending_adds c' = pending_adds c /\
  (exists room', rooms c' !! r = Some room' /\ MlsGroup.pending_commit (mls_group room') = None) /\
  forall r', r' <> r -> rooms c' !! r' = rooms c !! r'.
Proof.
  intros Hroom. unfold try_mls, group_call. rewrite Hroom.
  unfold MlsGroup.clear_pending_commit, mbind, M_bind, modify, MlsGroup.call. cbv beta iota zeta.
  destruct (group_clear_pending_commit _) as [[[e st] inner] y]. intros [= <- <-].
  split_and!; [done| |].
  - eexists. split; [apply lookup_insert_eq|done].
  - intros r' Hne. by apply lookup_insert_ne.
Qed.

Lemma expire_commits_spec t0 ids : forall c c' acts,
  expire_commits t0 ids c = (c', Ok acts) ->
  pending_adds c' = pending_adds c /\
  forall r, r ∈ ids \/ commit_fresh t0 (rooms c !! r) -> commit_fresh t0 (rooms c' !! r).
Proof.
  induction ids as [|r ids IH]; intros c c' acts; cbn [expire_commits].
  { intros [= <- <-]. split; [done|]. intros r [Hr%elem_of_nil|]; done. }
  unfold mbind at 1, M_bind at 1, get_room. destruct (rooms c !! r) as [room|] eqn:Hroom; [|done].
  cbn [ok_or]. unfold mbind at 1, M_bind at 1. intros H.
  match type of H with context [(if ?b then ?m1 else ?m2) c] =>
    destruct ((if b then m1 else m2) c) as [c1 [here| |]] eqn:E end; [|done..].
  assert (pending_adds c1 = pending_adds c /\ commit_fresh t0 (rooms c1 !! r) /\
    forall r', r' <> r -> rooms c1 !! r' = rooms c !! r') as (Ha & Hr & Ho).
  { revert E. destruct (MlsGroup.is_commit_timeout _ _ _) eqn:Hto; cycle 1.
    { intros [= <- <-]. split_and!; [done| |done]. intros room0. rewrite Hroom. by intros [= <-]. }
    unfold mbind, M_bind. destruct (try_mls _ c) as [c2 [[]| |]] eqn:Hc; [|done..].
    destruct (clear_commit_spec r c c2 _ room Hroom Hc) as (Ha & (room' & Hr' & Hp) & Ho).
    intros [= <- <-]. split_and!; [done| |done]. intros room0. rewrite Hr'. intros [= <-].
    unfold MlsGroup.is_commit_timeout. by rewrite Hp. }
  unfold mbind, M_bind in H.
  destruct (expire_commits t0 ids c1) as [c2 [rest| |]] eqn:E2; [|done..]. injection H as <- <-.
  destruct (IH c1 c2 rest E2) as [Ha2 Hf2]. split; [congruence|]. intros r' Hr'. apply Hf2.
  destruct (decide (r' = r)) as [->|Hne]; [by right|]. rewrite Ho by done.
  rewrite elem_of_cons in Hr'. naive_solver.
Qed.

(** ** Welcomes *)

(** Trying a Welcome uses up the KeyPackages it is tried with. *)
Lemma try_pending_fails r bs hashes : forall c err c' e,
  try_pending r bs hashes err c = (c', Err e) ->
  rooms c' = rooms c /\
  forall h, pending_joins c' !! h = if decide (h ∈ hashes) then None else pending_joins c !! h.
Proof.
  induction hashes as [|h hashes IH]; intros c err c' e; cbn [try_pending].
  { intros [= <- <-]. done. }
  unfold mbind at 1, M_bind at 1, get at 1.
  destruct (pending_joins c !! h) as [pj|] eqn:Hh; cycle 1.
  { intros (Hr & Hj)%IH. split; [done|]. intros k. rewrite Hj.
    destruct (decide (k = h)) as [->|Hne].
    - rewrite (decide_True (P := h ∈ h :: _)) by left. by case_decide.
    - apply decide_ext. rewrite elem_of_cons. naive_solver. }
  unfold mbind at 1, M_bind at 1, modify. unfold mbind at 1, M_bind at 1.
  destruct (MlsGroup.join_from_welcome _ _ _ _ _) as [e1 [x| |]]; [done| |done].
  intros (Hr & Hj)%IH. split; [done|]. intros k. rewrite Hj. cbn [pending_joins with_env with_joins].
  destruct (decide (k = h)) as [->|Hne].
  - rewrite lookup_delete_eq, (decide_True (P := h ∈ h :: _)) by left. by case_decide.
  - rewrite lookup_delete_ne by done. apply decide_ext. rewrite elem_of_cons. naive_solver.
Qed.

Lemma try_join_fails r bs c c' e :
  try_join_from_welcome r bs c = (c', Err e) -> rooms c' = rooms c /\ pending_joins c' = ∅.
Proof.
  unfold try_join_from_welcome, mbind, M_bind, get.
  destruct ((map_to_list (pending_joins c)).*1) as [|h hashes] eqn:Hk.
  - intros [= <- <-]. split; [done|]. apply map_empty. intros h.
    apply eq_None_not_Some. intros [pj Hpj%elem_of_map_to_list].
    apply (list_elem_of_fmap_2 fst) in Hpj. rewrite Hk in Hpj. by apply elem_of_nil in Hpj.
  - intros (Hr & Hj)%try_pending_fails. split; [done|]. apply map_empty. intros k. rewrite Hj.
    case_decide as Hin; [done|]. apply eq_None_not_Some. intros [pj Hpj%elem_of_map_to_list].
    apply (list_elem_of_fmap_2 fst) in Hpj. by rewrite Hk in Hpj.
Qed.

(** ** Properties *)


(** A commit under another opcode leaves the keys behind: a frame of an
    opcode without a handler of its own (a proposal, a ping) is processed by the
    MLS group too, also when it is a commit, but the sender keys stay.  When the
    group has gone on to a later epoch by it, and the keys were those of the
    group's epoch before, then every message of the new epoch, however well
    signed, is refused. *)
Theorem relabelled_commit_leaves_keys (c : t) f op r room :
  FrameHeader.opcode_enum (Frame.header f) = Some op -> has_no_handler op ->
  r = FrameHeader.room_id (Frame.header f) -> rooms c !! r = Some room ->
  SenderKeyStore.store_epoch (sender_keys room) = MlsGroup.epoch (mls_group room) ->
  let c' := fst (handle (CEFrameReceived f) c) in
  exists room', rooms c' !! r = Some room' /\ sender_keys room' = sender_keys room /\
    my_leaf_index room' = my_leaf_index room /\
    (MlsGroup.epoch (mls_group room) < MlsGroup.epoch (mls_group room') ->
     forall f' m,
       FrameHeader.opcode_enum (Frame.header f') = Some Opcode.AppMessage ->
       readable c' f' room' m -> em_epoch m = MlsGroup.epoch (mls_group room') ->
       snd (handle (CEFrameReceived f') c')
       = Err (ClientError.SenderKey (SenderKeyError.EpochMismatch
                (MlsGroup.epoch (mls_group room)) (em_epoch m)))).
Proof.
  intros Hop Hno -> Hroom Hkeys. rewrite (handle_other_frame f c op) by done.
  set (r := FrameHeader.room_id (Frame.header f)) in *. intros c'.
  assert (Hr : exists g', rooms c' !! r = Some (set_group g' room)).
  { unfold c', handle_other, mbind, M_bind, get_room. rewrite Hroom. cbn [ok_or].
    destruct (try_mls _ c) as [c1 x] eqn:Hc.
    destruct (group_call_room r _ _ _ _ Hc room Hroom) as (s' & x' & _ & _ & Hroom').
    exists (snd s'). by destruct x as [acts| |]. }
  destruct Hr as [g' Hr']. exists (set_group g' room). split_and!; [done..|].
  intros Hlt f' m Hop' Hread Hm. rewrite handle_app_frame by done.
  rewrite (app_message_read c' f' _ m Hread). unfold decrypts, SenderKeyStore.decrypt.
  unfold mbind at 1 2, M_bind at 1, get. cbn [sender_keys set_group Encryption.epoch proto_to_crypto_encrypted].
  rewrite Hkeys, (proj2 (N.eqb_neq _ _)) by (cbn in Hlt, Hm |- *; lia). done.
Qed.

(** C40: a client is never told that it has been removed: no commit, from
    whomever and with whatever effect, is answered by an action that reports the
    removal of a room.  The report is made when the group has become inactive;
    but then the refresh of the sender keys fails, and the answer is that
    error. *)
Theorem removal_never_reported (c : t) f :
  is_commit f ->
  match snd (handle (CEFrameReceived f) c) with
  | Ok acts => Forall (fun a => ~ reports_removal a) acts
  | _ => True
  end.
Proof using laws.
  intros Hf. rewrite handle_commit_frame by done. set (r := FrameHeader.room_id (Frame.header f)).
  unfold handle_commit, mbind at 1, M_bind at 1.
  destruct (apply_commit r f c) as [c1 [[acts|]| |]] eqn:Hc;
    [|apply Forall_singleton; by intros []|done..].
  unfold mbind at 1, M_bind at 1, get_room.
  destruct (rooms c1 !! r) as [room|] eqn:Hroom; [|done]. cbn [ok_or].
  unfold mbind at 1, M_bind at 1, lift at 1.
  destruct (initialize_sender_keys (mls_group room)) as [ks| |] eqn:Hks; [|done..].
  unfold mbind at 1, M_bind at 1, insert_room at 1, modify at 1.
  unfold mbind, M_bind, lift. destruct (map_err _ (MlsGroup.export_state _)) as [st| |]; [|done..]. cbn [snd].
  apply Forall_app. split; [|apply Forall_singleton; by intros []].
  apply Forall_forall. intros a Ha Hr.
  destruct (apply_commit_removal r f c c1 acts a Hc Ha Hr) as (room' & Hroom' & Hact).
  rewrite Hroom in Hroom'. injection Hroom' as <-.
  apply inactive_has_no_keys in Hact. by rewrite Hks in Hact.
Qed.

(** A tick gives up what has waited too long: the requests for a
    KeyPackage that are kept are exactly those made at most a minute before; and
    when the tick succeeds, no room has a commit that has been pending for 30
    seconds or more. *)
Theorem tick_gives_up (c : t) (t0 : Instant) :
  let '(c', answer) := handle (CETick t0) c in
  (forall key at_time, pending_adds c !! key = Some at_time ->
     instant_sub t0 at_time <= KEY_PACKAGE_FETCH_TIMEOUT ->
     is_ok answer = true -> pending_adds c' !! key = Some at_time) /\
  (is_ok answer = true ->
     (forall key at_time, pending_adds c' !! key = Some at_time ->
        instant_sub t0 at_time <= KEY_PACKAGE_FETCH_TIMEOUT) /\
     forall r, commit_fresh t0 (rooms c' !! r)).
Proof.
  cbn [handle]. unfold handle_tick, mbind at 1, M_bind at 1, get at 1. cbv zeta.
  set (stale := (filter _ (map_to_list (pending_adds c))).*1).
  assert (Hstale : forall key, key ∈ stale <-> exists at_time,
    pending_adds c !! key = Some at_time /\ KEY_PACKAGE_FETCH_TIMEOUT < instant_sub t0 at_time).
  { intros key. unfold stale. rewrite list_elem_of_fmap. split.
    - intros ([k at_time] & -> & [Hlt Hin]%list_elem_of_filter). exists at_time.
      by apply elem_of_map_to_list in Hin.
    - intros (at_time & Hin & Hlt). exists (key, at_time). split; [done|].
      apply list_elem_of_filter. by rewrite elem_of_map_to_list. }
  unfold mbind at 1, M_bind at 1. pose proof (expire_adds_spec stale c) as Hadds.
  destruct (expire_adds stale c) as [c1 [acts1| |]]; destruct Hadds as (Hok & Hc1 & Hk); try done.
  unfold mbind at 1, M_bind at 1, get at 1. unfold mbind, M_bind.
  destruct (expire_commits t0 _ c1) as [c2 [acts2| |]] eqn:E; [|by split..].
  destruct (expire_commits_spec t0 _ _ _ _ E) as [Ha Hf]. split; [|intros _; split].
  - intros key at_time Hkey Hle _. rewrite Ha, Hk, decide_False; [done|].
    intros (at' & Hat & Hlt)%Hstale. simplify_eq. lia.
  - intros key at_time. rewrite Ha, Hk. case_decide as Hin; [done|]. intros Hkey.
    destruct (N.le_gt_cases (instant_sub t0 at_time) KEY_PACKAGE_FETCH_TIMEOUT); [done|].
    destruct Hin. apply Hstale. eauto.
  - intros r. destruct (rooms c1 !! r) as [room|] eqn:Hr.
    + apply Hf. left. apply elem_of_map_to_list in Hr. by apply (list_elem_of_fmap_2 fst) in Hr.
    + apply Hf. right. by rewrite Hr.
Qed.

(** One bad Welcome costs all KeyPackages: when a Welcome frame, whoever
    made it, cannot be joined, the client has used up every KeyPackage it has
    published, and asks the user for new ones; the rooms are as before. *)
Theorem failed_welcome_consumes (c : t) f c' acts reason :
  FrameHeader.opcode_enum (Frame.header f) = Some Opcode.Welcome ->
  handle (CEFrameReceived f) c = (c', Ok acts) -> CAKeyPackageNeeded reason ∈ acts ->
  rooms c' = rooms c /\ pending_joins c' = ∅.
Proof.
  intros Hop. cbn [handle]. unfold handle_frame. cbn [handle_frame_fuel]. rewrite Hop.
  set (r := FrameHeader.room_id (Frame.header f)).
  unfold handle_welcome, mbind at 1, M_bind at 1, get at 1. destruct (is_member c r); [done|].
  unfold mbind at 1, M_bind at 1, catch.
  destruct (try_join_from_welcome r (Frame.payload f) c) as [c1 [[group mls]|e|]] eqn:Hj; [|..|done].
  - unfold mbind, M_bind, insert_room, modify, lift.
    destruct (initialize_sender_keys group); [|done..].
    destruct (map_err _ (MlsGroup.export_state group)); [|done..].
    destruct (convert_mls_actions r mls) as [cas| |] eqn:Hcas; [|done..].
    intros [= <- <-] [Ha|Ha]%elem_of_app; [|set_unfold in Ha; naive_solver].
    by destruct (convert_no_request r mls cas reason Hcas).
  - intros [= <- <-] _. by apply try_join_fails in Hj.
Qed.

End membership.

(** ** Alice, Bob and Carol *)

Import ClientSample.

Definition removing : ClientEvent := CERemoveMembers 7 [2].
Definition removal_frame : Frame.t := sent_frame 1 removing alice.

(** Bob is removed: the group is inactive, the answer is an error, the room
    stays. *)
Lemma removal_never_reported_witness :
  match snd (handle (CEFrameReceived removal_frame) bob) with
  | Ok acts => Forall (fun a => ~ reports_removal a) acts
  | _ => True
  end /\
  snd (handle (CEFrameReceived removal_frame) bob)
  = Err (ClientError.Mls "crypto error: Failed to export secret: UseAfterEviction") /\
  let bob' := client_step bob (CEFrameReceived removal_frame) in
  (fun room => group_is_active (MlsGroup.inner_group (mls_group room))) <$> rooms bob' !! 7
  = Some false.
Proof.
  split; [|split; vm_compute; reflexivity].
  apply (removal_never_reported bob removal_frame). left. vm_compute. reflexivity.
Defined.

Definition alice_adding : t := client_step alice_created adding.


(** Alice adds Carol; the server relays the commit to Bob as a proposal. *)
Definition adding_carol : ClientEvent := CEAddMembers 7 [to_le_bytes 8 3 ++ zeros 32].
Definition carol_commit : Frame.t := sent_frame 1 adding_carol alice.
Definition relabelled : Frame.t :=
  Frame.mk (Payload.set_opcode Opcode.Proposal (Frame.header carol_commit))
    (Frame.payload carol_commit).

Lemma relabelled_commit_leaves_keys_witness :
  let bob' := client_step bob (CEFrameReceived relabelled) in
  epoch bob' 7 = Some 2 /\
  (fun room => SenderKeyStore.store_epoch (sender_keys room)) <$> rooms bob' !! 7 = Some 1 /\
  exists room room', rooms bob !! 7 = Some room /\ rooms bob' !! 7 = Some room' /\
    sender_keys room' = sender_keys room.
Proof.
  split; [vm_compute; reflexivity|]. split; [vm_compute; reflexivity|].
  assert (Hk : (fun room => (SenderKeyStore.store_epoch (sender_keys room),
                             MlsGroup.epoch (mls_group room))) <$> rooms bob !! 7 = Some (1, 1))
    by (vm_compute; reflexivity).
  destruct (rooms bob !! 7) as [room|] eqn:Hr; [|discriminate Hk]. apply (inj Some) in Hk.
  destruct (relabelled_commit_leaves_keys bob relabelled Opcode.Proposal 7 room) as (room' & Hr' & Hs & _).
  - vm_compute. reflexivity.
  - exact I.
  - vm_compute. reflexivity.
  - exact Hr.
  - exact (eq_trans (f_equal fst Hk) (eq_sym (f_equal snd Hk))).
  - exists room, room'. split; [reflexivity|]. split; [exact Hr'|exact Hs].
Defined.

(** Bob has published a KeyPackage and gets a Welcome that is none. *)
Definition bad_welcome : Frame.t :=
  Frame.mk (FrameHeader.set_room_id 7 (FrameHeader.new Opcode.Welcome)) [].

Lemma failed_welcome_consumes_witness :
  size (pending_joins bob_published) = 1%nat /\
  pending_joins (fst (handle (CEFrameReceived bad_welcome) bob_published)) = ∅.
Proof.
  split; [vm_compute; reflexivity|].
  assert (Ha : match snd (handle (CEFrameReceived bad_welcome) bob_published) with
    | Ok acts => omap (fun a => match a with CAKeyPackageNeeded s => Some s | _ => None end) acts
    | _ => [] end
    = ["MLS error: No pending KeyPackage matched this Welcome: serialization error: Failed to deserialize Welcome: EndOfStream"%string])
    by (vm_compute; reflexivity).
  destruct (handle (CEFrameReceived bad_welcome) bob_published) as [c' [acts| |]] eqn:E;
    [|discriminate Ha..].
  cbn [snd] in Ha. match type of Ha with _ = [?s] =>
    destruct (failed_welcome_consumes bob_published bad_welcome c' acts s) as [_ Hj] end.
  - vm_compute. reflexivity.
  - exact E.
  - assert (Hin : ltac:(match type of Ha with _ = [?s] => exact s end) ∈ omap (fun a =>
      match a with CAKeyPackageNeeded s => Some s | _ => None end) acts)
      by (rewrite Ha; left).
    apply list_elem_of_omap in Hin as (a & Hin & Hs). destruct a; try discriminate Hs.
    injection Hs as ->. exact Hin.
  - exact Hj.
Defined.

End Membership.
