(* ===== verification/ClusterInv.v ===== *)
(** * The members of a cluster converge

    After any operations of the cluster, the clients of a room are in one epoch
    of its group, with the same members and one store of sender keys, and a
    message of any of them reaches all others. *)

From S2P Require Import Prelude Env Opcodes Header Framing Payloads Validator SenderKeys Mls.
From S2P Require Import Samples Client ClientInv EndToEnd Agreement Membership Cluster.

Local Open Scope N_scope.

Module ClusterInvariant.
Import Client EndToEnd Agreement.

Section members.
Context {Env : Type} `{!Environment Env} {openmls : OpenMls Env} {laws : OpenMlsLaws Env}
  {crypto : Crypto} {ed25519 : Ed25519} {ciborium : Ciborium} {sizes : CborSizes}
  {meaning : MlsEpochs Env} {agreement : MlsAgreement Env}.

(** ** Groups *)

(** The group of the client [id] for the room [r], in an epoch and without a
    pending commit. *)
Record member_group (id r : N) (σ : Epoch) (leaf : N) (g : MlsGroup.t) : Prop := mk_member_group {
  mg_room : MlsGroup.room_id g = r;
  mg_member : MlsGroup.member_id g = id;
  mg_settled : settled σ leaf (MlsGroup.inner_group g);
  mg_pending : MlsGroup.pending_commit g = None;
  mg_key : length (signer_public (MlsGroup.signer g)) = 32%nat;
  mg_signs : signs_for (MlsGroup.signer g) (signer_public (MlsGroup.signer g)) }.

(** The client as a member of its group. *)
Definition own_member (id leaf : N) (g : MlsGroup.t) : Member :=
  mkMember leaf (to_le_bytes 8 id) (signer_public (MlsGroup.signer g)).

(** The bytes are the GroupInfo of an epoch. *)
Definition info_ok (σ : Epoch) (info : bytes) : Prop :=
  exists msg vgi, message_deserialize info = inr msg /\ message_into_group_info msg = Some vgi /\
    describes vgi σ.

Lemma wrap_err_Ok {A} wrap context (x : string + A) a : wrap_err wrap context x = Ok a -> x = inr a.
Proof. destruct x; cbn; congruence. Qed.

Lemma ok_or_Ok {E A} (o : option A) (e : E) a : ok_or o e = Ok a -> o = Some a.
Proof. destruct o; cbn; congruence. Qed.

Lemma provider_call_Ok {A} context (m : M (Env * KeyStore) string A) s s' a :
  MlsGroup.provider_call context m s = (s', Ok a) -> m s = (s', Ok a).
Proof.
  unfold MlsGroup.provider_call. destruct (m s) as [s1 r]. intros [= <- H%map_err_Ok]. by subst.
Qed.

Lemma with_provider_Ok {A} st (m : M (Env * KeyStore) MlsError.t A) e e' a :
  MlsGroup.with_provider st m e = (e', Ok a) -> exists st', m (e, st) = ((e', st'), Ok a).
Proof. unfold MlsGroup.with_provider. destruct (m (e, st)) as [[e1 st1] r]. intros [= <- ->]. eauto. Qed.

Lemma call_Ok {A} wrap context (m : M (Env * KeyStore * Group) string A) e g s' a :
  MlsGroup.call wrap context m (e, g) = (s', Ok a) ->
  exists e' st' inner', m (e, MlsGroup.provider g, MlsGroup.inner_group g) = ((e', st', inner'), Ok a) /\
    s' = (e', MlsGroup.mk (MlsGroup.room_id g) (MlsGroup.member_id g) inner' (MlsGroup.signer g) st'
                (MlsGroup.pending_commit g)).
Proof.
  unfold MlsGroup.call. destruct (m _) as [[[e' st'] inner'] r]. intros [= <- H%map_err_Ok]. subst. eauto.
Qed.

Lemma export_info_Ok g bs : MlsGroup.export_group_info g = Ok bs ->
  exists out, group_export_group_info (MlsGroup.inner_group g) (MlsGroup.signer g) = inr out /\
    message_serialize out = inr bs.
Proof.
  unfold MlsGroup.export_group_info.
  intros (out & Hout%wrap_err_Ok & Hbs%wrap_err_Ok)%res_bind_Ok. eauto.
Qed.

Lemma export_info_ok g bs : MlsGroup.export_group_info g = Ok bs ->
  info_ok (group_at (MlsGroup.inner_group g)) bs.
Proof using agreement.
  intros (out & Hout & Hbs)%export_info_Ok. destruct (info_describes _ _ _ Hout) as (vgi & Hv & Hd).
  exists (sent out), vgi. split_and!; [|done..]. by apply message_sent.
Qed.

(** When one member publishes the GroupInfo of an epoch, all can. *)
Lemma export_info_shared g1 g2 σ leaf1 leaf2 bs :
  settled σ leaf1 (MlsGroup.inner_group g1) -> settled σ leaf2 (MlsGroup.inner_group g2) ->
  MlsGroup.export_group_info g1 = Ok bs -> exists bs', MlsGroup.export_group_info g2 = Ok bs'.
Proof using agreement.
  intros (H1 & _ & Ha1 & _) (H2 & _ & Ha2 & _) (out & Hout & Hbs)%export_info_Ok.
  destruct (info_shared _ (MlsGroup.inner_group g2) _ (MlsGroup.signer g2) _ _
              (eq_trans H1 (eq_sym H2)) Ha1 Ha2 Hout Hbs) as (out2 & bs2 & Hout2 & Hbs2).
  exists bs2. unfold MlsGroup.export_group_info. rewrite Hout2. cbn. by rewrite Hbs2.
Qed.

Lemma group_new_ok r id e e' g acts :
  MlsGroup.new r id e = (e', Ok (g, acts)) ->
  exists σ leaf info text, member_group id r σ leaf g /\ epoch_members σ = [own_member id leaf g] /\
    MlsGroup.export_group_info g = Ok info /\
    acts = [MlsAction.PublishGroupInfo r 0 info; MlsAction.Log text].
Proof using agreement.
  intros (st' & H)%with_provider_Ok.
  apply bind_Ok in H as (sg & s1 & Hsg%provider_call_Ok & H).
  apply bind_Ok in H as (inner & s2 & Hg%provider_call_Ok & H).
  apply bind_Ok in H as (σ0 & s3 & [= <- <-] & H).
  apply bind_Ok in H as (info & s4 & [-> Hi]%lift_Ok & H). injection H as _ <- <-.
  destruct (group_new_at _ _ _ _ _ _ Hg) as (σ & leaf & Hset & Hm).
  destruct (signer_new_signs _ _ _ Hsg) as [Hl Hs].
  eexists σ, leaf, info, _. by split_and!.
Qed.

(** A key package with the state its owner keeps for it. *)
Definition kept (id : N) (bs : bytes) (pj : MlsGroup.PendingJoinState) (kp : KeyPackage) : Prop :=
  key_package_serialize kp = inr bs /\ key_package_credential kp = to_le_bytes 8 id /\
  key_package_key kp = signer_public (MlsGroup.pj_signer pj) /\ holds (MlsGroup.pj_provider pj) kp /\
  length (signer_public (MlsGroup.pj_signer pj)) = 32%nat /\
  signs_for (MlsGroup.pj_signer pj) (signer_public (MlsGroup.pj_signer pj)).

Lemma group_key_package_ok id e e' bs h pj :
  MlsGroup.generate_key_package id e = (e', Ok (bs, h, pj)) -> exists kp, kept id bs pj kp.
Proof using agreement.
  intros (st' & H)%with_provider_Ok.
  apply bind_Ok in H as (sg & s1 & Hsg%provider_call_Ok & H).
  apply bind_Ok in H as (kp & s2 & Hk%provider_call_Ok & H).
  apply bind_Ok in H as (ser & s3 & [-> Hb%wrap_err_Ok]%lift_Ok & H).
  apply bind_Ok in H as (href & s4 & [-> _]%lift_Ok & H).
  apply bind_Ok in H as (σ0 & s5 & [= <- <-] & H). injection H as _ <- _ <-.
  destruct (key_package_built _ _ _ _ _ _ Hk) as (Hc & Hkey & Hh).
  destruct (signer_new_signs _ _ _ Hsg) as [Hl Hs]. exists kp. by split_and!.
Qed.

(** A frame of the room that carries a commit from one epoch to the next. *)
Record commit_frame (op : Opcode.t) (id r : N) (σ σ' : Epoch) (f : Frame.t) : Prop := mk_commit_frame {
  cf_opcode : FrameHeader.opcode_enum (Frame.header f) = Some op;
  cf_room : FrameHeader.room_id (Frame.header f) = r;
  cf_sender : FrameHeader.sender_id (Frame.header f) = id;
  cf_commit : exists msg pm, message_deserialize_exact (Frame.payload f) = inr msg /\
    message_into_protocol msg = inr pm /\ commit_adds pm σ σ' }.

Lemma frame_new_Ok {E} h p f : Frame.new (E := E) h p = Ok f ->
  f = Frame.mk (FrameHeader.set_payload_size (len p) h) p.
Proof. unfold Frame.new. destruct (_ <? _); [done|]. by intros [= <-]. Qed.

(** The fields of the frames that groups send. *)
Lemma group_frame_fields op id r h p f :
  r < 2 ^ 128 -> id < 2 ^ 64 ->
  h = FrameHeader.set_sender_id id (FrameHeader.set_room_id r (FrameHeader.new op)) ->
  f = Frame.mk (FrameHeader.set_payload_size (len p) h) p ->
  FrameHeader.opcode_enum (Frame.header f) = Some op /\ FrameHeader.room_id (Frame.header f) = r /\
  FrameHeader.sender_id (Frame.header f) = id /\ Frame.payload f = p.
Proof.
  intros Hr Hid -> ->. split_and!; [apply (FrameHeader.opcode_enum_new op)| | |done].
  - exact (from_to_be_bytes 16 r Hr).
  - exact (from_to_be_bytes 8 id Hid).
Qed.

(** The Welcome of a frame takes the owner of the KeyPackage into an epoch. *)
Definition welcome_frame (σ : Epoch) (kp : KeyPackage) (m : Member) (f : Frame.t) : Prop :=
  FrameHeader.opcode_enum (Frame.header f) = Some Opcode.Welcome /\
  exists msg w, message_deserialize (Frame.payload f) = inr msg /\
    message_extract_welcome msg = Some w /\ welcomes w σ [kp] [m].

(** The group waits for the commit that takes it to an epoch. *)
Record waiting_group (id r : N) (σ σ' : Epoch) (leaf : N) (g : MlsGroup.t) : Prop := mk_waiting {
  wg_room : MlsGroup.room_id g = r;
  wg_member : MlsGroup.member_id g = id;
  wg_at : group_at (MlsGroup.inner_group g) = σ;
  wg_leaf : group_own_leaf_index (MlsGroup.inner_group g) = leaf;
  wg_active : group_is_active (MlsGroup.inner_group g) = true;
  wg_to : pending_to (MlsGroup.inner_group g) = Some σ';
  wg_pending : is_Some (MlsGroup.pending_commit g);
  wg_key : length (signer_public (MlsGroup.signer g)) = 32%nat;
  wg_signs : signs_for (MlsGroup.signer g) (signer_public (MlsGroup.signer g)) }.

Lemma provider_now_Ok e g s' t0 :
  MlsGroup.provider_now (e, g) = (s', Ok t0) -> exists e', s' = (e', g).
Proof. unfold MlsGroup.provider_now. destruct (now e). intros [= <- _]. eauto. Qed.

Lemma parse_own kp bs kps : key_package_serialize kp = inr bs ->
  MlsGroup.parse_key_packages [bs] = Ok kps -> kps = [kp].
Proof using agreement.
  intros Hs. cbn [MlsGroup.parse_key_packages].
  intros (kin & Hk%wrap_err_Ok & (kp' & Hv%wrap_err_Ok & H)%res_bind_Ok)%res_bind_Ok.
  injection H as <-. by rewrite (key_package_read kp bs kin kp' Hs Hk Hv).
Qed.

Lemma welcome_frames_ok g bs kp acts : MlsGroup.welcome_frames g bs [kp] = Ok acts ->
  exists recipient f, acts = [MlsAction.SendWelcome recipient f] /\
    FrameHeader.opcode_enum (Frame.header f) = Some Opcode.Welcome /\ Frame.payload f = bs.
Proof.
  cbn [MlsGroup.welcome_frames].
  intros (rcp & _ & (f & Hf%frame_new_Ok & H)%res_bind_Ok)%res_bind_Ok. injection H as <-.
  exists rcp, f. subst f. split_and!; [done| |done]. apply (FrameHeader.opcode_enum_new Opcode.Welcome).
Qed.

Lemma commit_actions_ok op target commit info e g s' acts :
  MlsGroup.commit_actions op target commit info (e, g) = (s', Ok acts) ->
  s' = (e, g) /\ exists ib pb f, message_serialize commit = inr pb /\
    f = Frame.mk (FrameHeader.set_payload_size (len pb) (MlsGroup.group_header op g)) pb /\
    acts = [MlsAction.PublishGroupInfo (MlsGroup.room_id g) target ib; MlsAction.SendCommit f].
Proof.
  unfold MlsGroup.commit_actions. intros H.
  apply bind_Ok in H as (s0 & s1 & [= <- <-] & H).
  apply bind_Ok in H as (ib & s2 & [-> _]%lift_Ok & H).
  apply bind_Ok in H as (pb & s3 & [-> Hp%wrap_err_Ok]%lift_Ok & H).
  apply bind_Ok in H as (f & s4 & [-> Hf%frame_new_Ok]%lift_Ok & H). injection H as <- <-.
  split; [done|]. by exists ib, pb, f.
Qed.

Lemma group_add_ok id r σ leaf g kp bs e s' acts :
  member_group id r σ leaf g -> key_package_serialize kp = inr bs -> r < 2 ^ 128 -> id < 2 ^ 64 ->
  MlsGroup.add_members_from_bytes [bs] (e, g) = (s', Ok acts) ->
  exists σ' m target info cf recipient wf text,
    waiting_group id r σ σ' leaf (snd s') /\ MlsGroup.signer (snd s') = MlsGroup.signer g /\
    grown (epoch_members σ) [m] (epoch_members σ') /\ member_of kp m /\
    acts = [MlsAction.PublishGroupInfo r target info; MlsAction.SendCommit cf;
            MlsAction.SendWelcome recipient wf; MlsAction.Log text] /\
    commit_frame Opcode.Commit id r σ σ' cf /\ welcome_frame σ' kp m wf.
Proof using agreement.
  intros [] Hkp Hr Hid. unfold MlsGroup.add_members_from_bytes. intros H.
  apply bind_Ok in H as (kps & s1 & [-> ->%(parse_own kp _ _ Hkp)]%lift_Ok & H).
  unfold MlsGroup.add_members in H.
  apply bind_Ok in H as (target & s2 & [-> _]%lift_Ok & H).
  apply bind_Ok in H as (t0 & s3 & (e3 & ->)%provider_now_Ok & H).
  apply bind_Ok in H as (σ0 & s4 & [= <- <-] & H).
  apply bind_Ok in H as ([[commit welcome] info] & s5 & (e5 & st5 & inner & Hadd & ->)%call_Ok & H).
  apply bind_Ok in H as ([] & s6 & [= <-] & H).
  apply bind_Ok in H as (cacts & s7 & (-> & ib & pb & cf & Hpb & Hcf & ->)%commit_actions_ok & H).
  apply bind_Ok in H as (wb & s8 & [-> Hwb%wrap_err_Ok]%lift_Ok & H).
  apply bind_Ok in H as (wacts & s9 & [-> (rcp & wf & -> & Hwop & Hwp)%welcome_frames_ok]%lift_Ok & H).
  injection H as <- <-.
  destruct (add_members_at _ _ _ _ _ _ _ _ _ _ _ mg_settled0 Hadd)
    as (σ' & news & pm & w & Hat & Hl & Ha & Hto & Hgr & Hnews & Hpm & Hc & Hw & Hws).
  apply Forall2_cons_inv_l in Hnews as (m & news' & Hm & ->%Forall2_nil_inv_l & ->).
  destruct (message_sent _ _ Hpb) as [Hpb' _]. destruct (message_sent _ _ Hwb) as [_ Hwb'].
  destruct (group_frame_fields Opcode.Commit id r (MlsGroup.group_header Opcode.Commit g) pb cf)
    as (Hop & Hro & Hse & Hpa); [done|done|by rewrite <- mg_room0, <- mg_member0|done|].
  exists σ', m, target, ib, cf, rcp, wf. eexists. split_and!; try done.
  - cbn. rewrite mg_room0. reflexivity.
  - split; try done. rewrite Hpa. eauto.
  - split; [done|]. rewrite Hwp. eauto.
Qed.

Lemma group_merge_ok id r σ σ' leaf g e s' acts :
  waiting_group id r σ σ' leaf g -> epoch_members σ ⊆ epoch_members σ' ->
  MlsGroup.merge_pending_commit (e, g) = (s', Ok acts) ->
  member_group id r σ' leaf (snd s') /\ MlsGroup.signer (snd s') = MlsGroup.signer g /\
  exists info, MlsGroup.export_group_info (snd s') = Ok info /\
    acts = [MlsAction.PublishGroupInfo r (MlsGroup.epoch (snd s')) info].
Proof using agreement.
  intros [] Hsub. unfold MlsGroup.merge_pending_commit. intros H.
  apply bind_Ok in H as (σ0 & s1 & [= <- <-] & H). cbn [snd] in H. destruct wg_pending0 as [p Hp].
  rewrite Hp in H. apply bind_Ok in H as ([] & s2 & (e2 & st2 & inner & Hm & ->)%call_Ok & H).
  apply bind_Ok in H as ([] & s3 & [= <-] & H).
  apply bind_Ok in H as (σ1 & s4 & [= <- <-] & H). cbn [snd] in H.
  apply bind_Ok in H as (info & s5 & [-> Hi]%lift_Ok & H). injection H as <- <-.
  pose proof (merge_pending_at _ _ _ _ _ wg_to0 wg_active0 ltac:(by rewrite wg_at0) Hm) as Hs.
  rewrite wg_leaf0 in Hs. cbn [snd] in *. split_and!; [by split|done|].
  exists info. split; [done|]. cbn. by rewrite wg_room0.
Qed.

Lemma credential_ok cred : length cred = 8%nat ->
  extract_member_id_from_credential cred = Ok (from_le_bytes cred).
Proof.
  intros H. unfold extract_member_id_from_credential, len. rewrite H. cbn. by rewrite take_ge by lia.
Qed.

(** A member accepts the commit of another, once someone is in its epoch. *)
Lemma group_process_ok id r σ σ' leaf g op sender f g0 leaf0 info0 e :
  member_group id r σ leaf g -> commit_frame op sender r σ σ' f ->
  Forall (fun m => length (m_credential m) = 8%nat) (epoch_members σ') ->
  settled σ' leaf0 (MlsGroup.inner_group g0) -> MlsGroup.export_group_info g0 = Ok info0 ->
  exists s' info text,
    MlsGroup.process_message f (e, g)
    = (s', Ok [MlsAction.Log text; MlsAction.PublishGroupInfo r (MlsGroup.epoch (snd s')) info]) /\
    member_group id r σ' leaf (snd s') /\ MlsGroup.signer (snd s') = MlsGroup.signer g /\
    MlsGroup.export_group_info (snd s') = Ok info.
Proof using agreement.
  intros [] [_ _ _ (msg & pm & Hmsg & Hpm & Hadd)] Hcreds H0 Hi0.
  destruct (process_adding pm σ σ' leaf e (MlsGroup.provider g) _ Hadd mg_settled0)
    as (cred & staged & [[e1 st1] g1] & [[e2 st2] g2] & Hp & Hc & Hm & Hs).
  apply list_elem_of_fmap in Hc as (m & -> & Hm').
  rewrite Forall_forall in Hcreds. specialize (Hcreds m Hm'). apply credential_ok in Hcreds.
  set (g' := MlsGroup.mk r id g2 (MlsGroup.signer g) st2 None).
  destruct (export_info_shared g0 g' σ' leaf0 leaf info0 H0 Hs Hi0) as [info Hi].
  exists (e2, g'), info. eexists. split_and!; [|by split|done|done].
  unfold MlsGroup.process_message, mbind, M_bind, lift, wrap_err, get. rewrite Hmsg, Hpm.
  unfold MlsGroup.call. rewrite Hp. cbn [map_err fst snd MlsGroup.provider MlsGroup.inner_group].
  rewrite Hcreds, Hm. cbn [map_err fst snd MlsGroup.provider MlsGroup.inner_group MlsGroup.room_id
    MlsGroup.member_id MlsGroup.signer MlsGroup.pending_commit].
  rewrite mg_room0, mg_member0, mg_pending0. fold g'. destruct Hs as (_ & _ & Ha & _).
  change (group_is_active g2 = true) in Ha. rewrite Ha, Hi. reflexivity.
Qed.

Lemma group_welcome_ok id r bs pj kp σ m f e e' g acts :
  kept id bs pj kp -> welcome_frame σ kp m f -> member_of kp m ->
  MlsGroup.join_from_welcome r id (Frame.payload f) pj e = (e', Ok (g, acts)) ->
  member_group id r σ (m_index m) g /\ own_member id (m_index m) g = m /\
  exists text, acts = [MlsAction.Log text].
Proof using agreement.
  intros (_ & Hc & Hk & Hh & Hl & Hs) [_ (msg & w & Hmsg & Hw & Hws)] [Hmc Hmk].
  intros (st' & H)%with_provider_Ok.
  apply bind_Ok in H as (msg' & s1 & [-> Hm'%wrap_err_Ok]%lift_Ok & H).
  rewrite Hmsg in Hm'. injection Hm' as <-.
  apply bind_Ok in H as (w' & s2 & [-> Hw'%ok_or_Ok]%lift_Ok & H).
  rewrite Hw in Hw'. injection Hw' as <-.
  apply bind_Ok in H as (sw & s3 & Hsw%provider_call_Ok & H).
  apply bind_Ok in H as (inner & s4 & Hg%provider_call_Ok & H).
  apply bind_Ok in H as (σ0 & s5 & [= <- <-] & H). injection H as _ <- <-.
  destruct (welcome_joins _ _ _ _ kp _ _ _ _ _ _ Hws ltac:(left) Hh Hsw Hg) as (m' & Hm' & Hset).
  apply list_elem_of_singleton in Hm' as ->.
  split_and!; [by split| |eauto]. unfold own_member. cbn [MlsGroup.signer]. rewrite <- Hk, <- Hc, <- Hmk, <- Hmc.
  by destruct m.
Qed.

Lemma group_external_ok id r σ info e e' g acts :
  info_ok σ info -> r < 2 ^ 128 -> id < 2 ^ 64 ->
  MlsGroup.join_from_external r id info e = (e', Ok (g, acts)) ->
  exists σ' leaf f info' text,
    member_group id r σ' leaf g /\ grown (epoch_members σ) [own_member id leaf g] (epoch_members σ') /\
    commit_frame Opcode.ExternalCommit id r σ σ' f /\ MlsGroup.export_group_info g = Ok info' /\
    acts = [MlsAction.SendCommit f; MlsAction.PublishGroupInfo r (MlsGroup.epoch g) info';
            MlsAction.Log text].
Proof using agreement.
  intros (msg & vgi & Hmsg & Hv & Hd) Hr Hid (st' & H)%with_provider_Ok.
  apply bind_Ok in H as (sg & s1 & Hsg%provider_call_Ok & H).
  apply bind_Ok in H as (msg' & s2 & [-> Hm'%wrap_err_Ok]%lift_Ok & H).
  rewrite Hmsg in Hm'. injection Hm' as <-.
  apply bind_Ok in H as (vgi' & s3 & [-> Hv'%ok_or_Ok]%lift_Ok & H).
  rewrite Hv in Hv'. injection Hv' as <-.
  apply bind_Ok in H as (eg & s4 & Heg%provider_call_Ok%(external_group_at _ _ _ _ _ _ _ Hd) & H).
  apply bind_Ok in H as (el & s5 & Hel%provider_call_Ok%(external_loaded_at _ _ _ _ _ _ _ Heg) & H).
  apply bind_Ok in H as (eb & s6 & Heb%provider_call_Ok%(external_built_at _ _ _ _ _ _ _ _ Hel) & H).
  apply bind_Ok in H as ([inner commit] & s7 &
    (σ' & leaf & pm & Hset & Hgr & Hpm & Hadd)%provider_call_Ok%(external_joins _ _ _ _ _ _ _ _ Heb) & H).
  apply bind_Ok in H as (pb & s8 & [-> Hpb%wrap_err_Ok]%lift_Ok & H).
  apply bind_Ok in H as (f & s9 & [-> Hf%frame_new_Ok]%lift_Ok & H).
  apply bind_Ok in H as (σ0 & s10 & [= <- <-] & H).
  apply bind_Ok in H as (info' & s11 & [-> Hi]%lift_Ok & H). injection H as _ <- <-.
  destruct (signer_new_signs _ _ _ Hsg) as [Hl Hs]. destruct (message_sent _ _ Hpb) as [Hpb' _].
  destruct (group_frame_fields Opcode.ExternalCommit id r _ pb f Hr Hid eq_refl Hf)
    as (Hop & Hro & Hse & Hpa).
  exists σ', leaf, f, info'. eexists. split_and!; [by split|done| |done|reflexivity].
  split; try done. rewrite Hpa. eauto.
Qed.

(** ** Clients *)

(** The room of the client [id]: its group in an epoch; the client as a member;
    sender keys as they are derived at the start of the epoch. *)
Definition placed (id r : N) (σ : Epoch) (room : RoomState) : Prop :=
  member_group id r σ (my_leaf_index room) (mls_group room).
Definition badge (id : N) (room : RoomState) : Member :=
  own_member id (my_leaf_index room) (mls_group room).
Definition fresh (room : RoomState) : Prop :=
  initialize_sender_keys (mls_group room) = Ok (sender_keys room).

(** The client is as before but for one room. *)
Definition moved (r : N) (room : RoomState) (c c' : Client.t) : Prop :=
  sender_id c' = sender_id c /\ pending_joins c' = pending_joins c /\
  rooms c' = <[r := room]> (rooms c).

Lemma exports id r σ leaf g label context n : member_group id r σ leaf g -> n <= 255 * 32 ->
  exists secret, MlsGroup.export_secret g label context n = Ok secret.
Proof using agreement.
  intros [] Hn. destruct mg_settled0 as (_ & _ & Ha & _).
  destruct (group_exports _ label context n Ha Hn) as [secret E]. exists secret.
  unfold MlsGroup.export_secret. by rewrite E.
Qed.

Lemma initializes id r σ leaf g : member_group id r σ leaf g ->
  exists secret, group_export_secret (MlsGroup.inner_group g) CLIENT_SENDER_KEY_LABEL
      SENDER_KEY_CONTEXT SENDER_KEY_SECRET_SIZE = inr secret /\
    initialize_sender_keys g = Ok (SenderKeyStore.initialize_epoch secret (MlsGroup.epoch g)
                                     (MlsGroup.member_leaf_indices g)).
Proof using agreement.
  intros H. destruct (exports _ _ _ _ _ CLIENT_SENDER_KEY_LABEL SENDER_KEY_CONTEXT
    SENDER_KEY_SECRET_SIZE H) as [secret E]; [done|].
  exists secret. unfold initialize_sender_keys. rewrite E. split; [|done].
  by apply wrap_err_Ok in E.
Qed.

Lemma keys_agree id1 id2 r1 r2 σ l1 l2 g1 g2 :
  member_group id1 r1 σ l1 g1 -> member_group id2 r2 σ l2 g2 ->
  initialize_sender_keys g1 = initialize_sender_keys g2.
Proof using agreement.
  intros [_ _ (H1 & _ & Ha1 & _) _ _ _] [_ _ (H2 & _ & Ha2 & _) _ _ _].
  assert (Hat : group_at (MlsGroup.inner_group g1) = group_at (MlsGroup.inner_group g2)) by congruence.
  unfold initialize_sender_keys, MlsGroup.export_secret, MlsGroup.epoch, MlsGroup.member_leaf_indices.
  rewrite (group_at_secret _ _ _ _ _ Hat Ha1 Ha2), !group_at_members, Hat.
  by rewrite (proj1 (group_at_epoch _ _ Hat)).
Qed.

(** A GroupInfo that is published can be read from the frame. *)
Lemma publish_ok r e info : r < 2 ^ 128 -> e < 2 ^ 64 -> len info < 2 ^ 22 ->
  exists f, convert_mls_action r (MlsAction.PublishGroupInfo r e info) = Ok (CASend f) /\
    TestCluster.group_info_of (CASend f) = Some (e, info).
Proof using sizes.
  intros Hr He Hi. destruct (group_info_encodes (mkGroupInfoPayload r e info) Hr He) as [bs Hbs].
  pose proof (group_info_size _ _ Hbs) as Hs. cbn in Hs.
  assert (Hle : len bs <= FrameHeader.MAX_PAYLOAD_SIZE) by (unfold FrameHeader.MAX_PAYLOAD_SIZE; lia).
  assert (Henc : Payload.encode (Payload.GroupInfo (mkGroupInfoPayload r e info)) [] = Ok bs)
    by (unfold Payload.encode; by rewrite Hbs).
  assert (Hf : exists f, Payload.into_frame (Payload.GroupInfo (mkGroupInfoPayload r e info))
    (FrameHeader.new Opcode.GroupInfo) = Ok f /\ Frame.payload f = bs).
  { unfold Payload.into_frame. rewrite Henc. cbn [mbind res_bind]. unfold Frame.new.
    rewrite (proj2 (N.ltb_ge _ _)); [by eexists|]. unfold FrameHeader.MAX_PAYLOAD_SIZE, u32_MAX in *. lia. }
  destruct Hf as (f & Hf & Hp). exists f. cbn [convert_mls_action]. rewrite Hf. split; [done|].
  unfold TestCluster.group_info_of. pose proof (Payload.opcode_enum_into_frame _ _ _ Hf) as Hop.
  rewrite bool_decide_eq_true_2 by done. unfold Payload.from_frame. rewrite Hop, Hp.
  cbn [ok_or mbind res_bind]. by rewrite (Payload.decode_encode _ _ Henc Hle).
Qed.

Lemma info_describes_epoch id r σ leaf g info : member_group id r σ leaf g ->
  MlsGroup.export_group_info g = Ok info -> info_ok σ info /\ (epoch_fits σ -> len info < 2 ^ 22).
Proof using agreement.
  intros [_ _ (<- & _) _ _ _] Hi. split; [by apply export_info_ok|]. intros Hn.
  apply export_info_Ok in Hi as (out & Hout & Hbs). by eapply Hn.
Qed.

Lemma try_make_Ok {A} (m : M Env MlsError.t A) c c' a :
  try_mls (group_make m) c = (c', Ok a) -> exists e, m (env c) = (e, Ok a) /\ c' = with_env e c.
Proof.
  unfold try_mls, group_make. destruct (m (env c)) as [e x]. intros [= <- H%map_err_Ok]. subst. eauto.
Qed.

Lemma convert_cons_Ok r a l cas : convert_mls_actions r (a :: l) = Ok cas ->
  exists ca cas', convert_mls_action r a = Ok ca /\ convert_mls_actions r l = Ok cas' /\ cas = ca :: cas'.
Proof.
  cbn [convert_mls_actions].
  intros (ca & Hca & (cas' & Hc & H)%res_bind_Ok)%res_bind_Ok. injection H as <-. eauto.
Qed.

(** The frames that other actions of a group send are no GroupInfos. *)
Lemma convert_log_Ok r text l cas : convert_mls_actions r (MlsAction.Log text :: l) = Ok cas ->
  exists cas', convert_mls_actions r l = Ok cas' /\ cas = CALog text :: cas'.
Proof. intros (ca & cas' & [= <-] & ? & ->)%convert_cons_Ok. eauto. Qed.

Lemma get_room_Ok r c c' room : get_room r c = (c', Ok room) -> c' = c /\ rooms c !! r = Some room.
Proof. unfold get_room. intros [= <- H%ok_or_Ok]. done. Qed.

Lemma client_create_ok r c c' acts :
  handle (CECreateRoom r) c = (c', Ok acts) -> r < 2 ^ 128 ->
  exists room σ info,
    rooms c !! r = None /\ moved r room c c' /\ placed (sender_id c) r σ room /\ fresh room /\
    epoch_members σ = [badge (sender_id c) room] /\ info_ok σ info /\
    (epoch_fits σ -> omap TestCluster.group_info_of acts = [(0, info)]).
Proof using agreement sizes.
  cbn [handle]. unfold handle_create_room. intros H Hr.
  apply bind_Ok in H as (c0 & s1 & [= <- <-] & H).
  destruct (is_member c r) eqn:Hm; [done|]. apply ClientInvariant.is_member_false in Hm.
  apply bind_Ok in H as ([g macts] & s2 & (e & Hg & ->)%try_make_Ok & H).
  apply group_new_ok in Hg as (σ & leaf & info & text & Hg & Hms & Hi & ->).
  apply bind_Ok in H as (ks & s3 & [-> Hks]%lift_Ok & H).
  apply bind_Ok in H as (st & s4 & [-> _]%lift_Ok & H).
  apply bind_Ok in H as ([] & s5 & [= <-] & H).
  apply bind_Ok in H as (cas & s6 & [-> Hc]%lift_Ok & H). injection H as <- <-.
  destruct (info_describes_epoch _ _ _ _ _ _ Hg Hi) as [Hok Hsize].
  assert (Hl : MlsGroup.own_leaf_index g = leaf) by apply Hg. rewrite Hl.
  exists (mkRoom g ks leaf), σ, info. split_and!; try done. intros Hn.
  destruct (publish_ok r 0 info Hr ltac:(done) (Hsize Hn)) as (f & Hf & Hinfo).
  apply convert_cons_Ok in Hc as (ca & cas' & Hca & Hc & ->). rewrite Hf in Hca. injection Hca as <-.
  apply convert_log_Ok in Hc as (cas & [= <-] & ->). cbn. cbn in Hinfo. by rewrite Hinfo.
Qed.

(** What follows the application of a commit. *)
Lemma commit_tail r f c c1 acts0 room id σ leaf :
  apply_commit r f c = (c1, Ok (Some acts0)) -> rooms c1 !! r = Some room ->
  member_group id r σ leaf (mls_group room) ->
  exists ks snapshot, initialize_sender_keys (mls_group room) = Ok ks /\
    handle_commit r f c
    = (with_rooms (<[r := mkRoom (mls_group room) ks leaf]> (rooms c1)) c1,
       Ok (acts0 ++ [CAPersistRoom snapshot])).
Proof using agreement.
  intros Ha Hroom Hg. destruct (initializes _ _ _ _ _ Hg) as (secret & _ & Hks).
  destruct (exports _ _ _ _ _ "group_state" [] 64 Hg) as [st Hst]; [done|].
  eexists _, _. split; [done|]. unfold handle_commit, mbind at 1, M_bind at 1. rewrite Ha.
  unfold mbind, M_bind, get_room, lift, insert_room, modify. rewrite Hroom. cbn [ok_or].
  rewrite Hks. unfold MlsGroup.export_state. rewrite Hst. cbn [map_err].
  assert (Hl : MlsGroup.own_leaf_index (mls_group room) = leaf) by apply Hg. rewrite Hl. reflexivity.
Qed.

Lemma group_call_Ok {A} r (m : M (Env * MlsGroup.t) MlsError.t A) c c' a room :
  rooms c !! r = Some room -> try_mls (group_call r m) c = (c', Ok a) ->
  exists s', m (env c, mls_group room) = (s', Ok a) /\
    c' = with_rooms (<[r := set_group (snd s') room]> (rooms c)) (with_env (fst s') c).
Proof.
  intros Hr. unfold try_mls, group_call. rewrite Hr.
  destruct (m _) as [[e g] x]. intros [= <- H%map_err_Ok]. subst. by exists (e, g).
Qed.

(** The client has moved its room to an epoch and published its GroupInfo, which
    can be read from the frame when it is not too large. *)
Definition advanced (r : N) (σ : Epoch) (room : RoomState) (c c' : Client.t) (acts : list ClientAction)
    : Prop :=
  exists room' e info,
    moved r room' c c' /\ placed (sender_id c) r σ room' /\ fresh room' /\
    badge (sender_id c) room' = badge (sender_id c) room /\
    MlsGroup.export_group_info (mls_group room') = Ok info /\ info_ok σ info /\ e < 2 ^ 64 /\
    (epoch_fits σ -> omap TestCluster.group_info_of acts = [(e, info)]).

Lemma moved_insert r room room' c e ks leaf :
  moved r (mkRoom room ks leaf) c
    (with_rooms (<[r := mkRoom room ks leaf]>
       (rooms (with_rooms (<[r := room']> (rooms c)) (with_env e c))))
       (with_rooms (<[r := room']> (rooms c)) (with_env e c))).
Proof. split_and!; [done..|]. cbn. by rewrite insert_insert_eq. Qed.

(** The client applies a commit whose group answers with the new GroupInfo. *)
Lemma advance_ok r σ room f c e g acts0 text info :
  apply_commit r f c
  = (with_rooms (<[r := set_group g room]> (rooms c)) (with_env e c), Ok (Some acts0)) ->
  convert_mls_actions r (text ++ [MlsAction.PublishGroupInfo r (MlsGroup.epoch g) info]) = Ok acts0 ->
  Forall (fun a => exists s, a = MlsAction.Log s) text -> r < 2 ^ 128 ->
  member_group (sender_id c) r σ (my_leaf_index room) g ->
  MlsGroup.signer g = MlsGroup.signer (mls_group room) ->
  MlsGroup.export_group_info g = Ok info ->
  exists c' acts, handle_commit r f c = (c', Ok acts) /\ advanced r σ room c c' acts.
Proof using agreement sizes laws.
  intros Ha Hc Htext Hr Hg Hsg Hi.
  destruct (info_describes_epoch _ _ _ _ _ _ Hg Hi) as [Hok Hsize].
  destruct (commit_tail r f c _ acts0 (set_group g room) _ _ _ Ha (lookup_insert_eq _ _ _) Hg)
    as (ks & snap & Hks & E).
  rewrite E. eexists _, _. split; [reflexivity|].
  assert (He : MlsGroup.epoch g < 2 ^ 64) by apply group_epoch_u64.
  exists (mkRoom g ks (my_leaf_index room)), (MlsGroup.epoch g), info.
  split_and!; try done; [apply moved_insert|unfold badge, own_member; by rewrite <- Hsg|].
  intros Hn. rewrite omap_app. cbn [omap list_omap TestCluster.group_info_of]. rewrite app_nil_r.
  destruct (publish_ok r _ info Hr He (Hsize Hn)) as (fi & Hfi & Hinfo).
  clear E Ha. revert acts0 Hc. induction Htext as [|a text [t0 ->] _ IH]; intros acts0.
  - cbn [app]. intros (ca & cas & Hca & [= <-] & ->)%convert_cons_Ok. rewrite Hfi in Hca.
    injection Hca as <-. cbn [omap list_omap]. by rewrite Hinfo.
  - cbn [app]. intros (cas & Hcas & ->)%convert_log_Ok. by apply IH in Hcas.
Qed.

Lemma own_commit_ok r σ σ' room f c c' acts :
  rooms c !! r = Some room -> r < 2 ^ 128 ->
  waiting_group (sender_id c) r σ σ' (my_leaf_index room) (mls_group room) ->
  commit_frame Opcode.Commit (sender_id c) r σ σ' f -> epoch_members σ ⊆ epoch_members σ' ->
  handle (CEFrameReceived f) c = (c', Ok acts) -> advanced r σ' room c c' acts.
Proof using agreement sizes laws.
  intros Hroom Hr Hw [Hop Hro Hse _] Hsub. rewrite Membership.handle_commit_frame by (by left).
  rewrite Hro. intros H. pose proof H as (o & c1 & Ha & _)%bind_Ok. pose proof Ha as H1.
  unfold apply_commit in H1.
  apply bind_Ok in H1 as (c0 & s1 & [= <- <-] & H1).
  apply bind_Ok in H1 as (room' & s2 & [-> Hroom']%get_room_Ok & H1).
  rewrite Hroom in Hroom'. injection Hroom' as <-. rewrite Hse, N.eqb_refl in H1. cbn [andb] in H1.
  unfold MlsGroup.has_pending_commit in H1. rewrite bool_decide_eq_true_2 in H1 by apply Hw.
  apply bind_Ok in H1 as (macts & s3 & (s' & Hm & ->)%(group_call_Ok _ _ _ _ _ _ Hroom) & H1).
  apply bind_Ok in H1 as (acts0 & s4 & [-> Hc]%lift_Ok & H1). injection H1 as <- <-.
  destruct (group_merge_ok _ _ _ _ _ _ _ _ _ Hw Hsub Hm) as (Hg & Hsg & info & Hi & ->).
  destruct (advance_ok r σ' room f c (fst s') (snd s') acts0 [] info) as (c2 & acts2 & E & Hadv);
    [done..|].
  rewrite H in E. by injection E as <- <-.
Qed.

Lemma other_commit_ok r σ σ' room op sender f c g0 leaf0 info0 :
  rooms c !! r = Some room -> r < 2 ^ 128 -> placed (sender_id c) r σ room ->
  (op = Opcode.Commit \/ op = Opcode.ExternalCommit) ->
  commit_frame op sender r σ σ' f -> sender <> sender_id c ->
  Forall (fun m => length (m_credential m) = 8%nat) (epoch_members σ') ->
  epoch_fits σ' -> settled σ' leaf0 (MlsGroup.inner_group g0) -> MlsGroup.export_group_info g0 = Ok info0 ->
  exists c' acts, handle (CEFrameReceived f) c = (c', Ok acts) /\ advanced r σ' room c c' acts.
Proof using agreement sizes laws.
  intros Hroom Hr Hp Hop Hf Hne Hcreds Hn H0 Hi0. pose proof Hf as [Hop' Hro Hse _].
  rewrite Membership.handle_commit_frame
    by (destruct Hop as [-> | ->]; [by left|by right]).
  rewrite Hro.
  destruct (group_process_ok _ _ _ _ _ _ _ _ _ _ _ _ (env c) Hp Hf Hcreds H0 Hi0)
    as ([e g] & info & text & Hpm & Hg & Hsg & Hi). cbn [fst snd] in *.
  assert (Hconv : exists acts0, convert_mls_actions r
    ([MlsAction.Log text] ++ [MlsAction.PublishGroupInfo r (MlsGroup.epoch g) info]) = Ok acts0).
  { destruct (info_describes_epoch _ _ _ _ _ _ Hg Hi) as [_ Hsize].
    destruct (publish_ok r (MlsGroup.epoch g) info Hr) as (fi & Hfi & _); [apply group_epoch_u64|auto|].
    eexists. cbn [app convert_mls_actions]. rewrite Hfi. reflexivity. }
  destruct Hconv as [acts0 Hc].
  apply (advance_ok r σ' room f c e g acts0 [MlsAction.Log text] info); try done; [|by eauto].
  unfold apply_commit, mbind, M_bind, get, get_room, lift. rewrite Hroom, Hse. cbn [ok_or].
  rewrite (proj2 (N.eqb_neq _ _) Hne). cbn [andb].
  unfold try_mls, group_call. rewrite Hroom, Hpm. cbn [map_err]. cbn [app] in Hc. by rewrite Hc.
Qed.

Lemma key_package_ok c c' bs h :
  generate_key_package c = (c', Ok (bs, h)) -> pending_joins c = ∅ ->
  exists pj kp, kept (sender_id c) bs pj kp /\ sender_id c' = sender_id c /\ rooms c' = rooms c /\
    pending_joins c' = {[ h := pj ]}.
Proof using agreement.
  unfold generate_key_package. intros H He.
  apply bind_Ok in H as (c0 & s1 & [= <- <-] & H).
  apply bind_Ok in H as ([[bs' h'] pj] & s2 & (e & Hk%group_key_package_ok & ->)%try_make_Ok & H).
  apply bind_Ok in H as ([] & s3 & [= <-] & H). injection H as <- <- <-.
  destruct Hk as [kp Hk]. exists pj, kp. split_and!; [done..|]. cbn. by rewrite He.
Qed.

Lemma frames_of_app ops l1 l2 :
  TestCluster.frames_of ops (l1 ++ l2) = TestCluster.frames_of ops l1 ++ TestCluster.frames_of ops l2.
Proof. apply omap_app. Qed.

Lemma frames_of_send ops f rest op : FrameHeader.opcode_enum (Frame.header f) = Some op ->
  TestCluster.frames_of ops (CASend f :: rest)
  = (if bool_decide (op ∈ ops) then [f] else []) ++ TestCluster.frames_of ops rest.
Proof. intros Hop. unfold TestCluster.frames_of. cbn. rewrite Hop. by case_bool_decide. Qed.

(** The frame of a GroupInfo is of no other opcode. *)
Lemma frames_of_publish r' r e info ca ops rest : Opcode.GroupInfo ∉ ops ->
  convert_mls_action r' (MlsAction.PublishGroupInfo r e info) = Ok ca ->
  TestCluster.frames_of ops (ca :: rest) = TestCluster.frames_of ops rest.
Proof.
  intros Hops. cbn [convert_mls_action]. destruct (Payload.into_frame _ _) as [f| |] eqn:Hf;
    [|by intros [= <-]|done]. intros [= <-]. apply Payload.opcode_enum_into_frame in Hf.
  rewrite (frames_of_send _ _ _ _ Hf). by rewrite bool_decide_eq_false_2.
Qed.

Lemma add_ok r σ room kp bs c c' acts :
  rooms c !! r = Some room -> placed (sender_id c) r σ room -> key_package_serialize kp = inr bs ->
  r < 2 ^ 128 -> sender_id c < 2 ^ 64 ->
  handle (CEAddMembers r [bs]) c = (c', Ok acts) ->
  exists g σ' m cf wf,
    moved r (set_group g room) c c' /\ waiting_group (sender_id c) r σ σ' (my_leaf_index room) g /\
    MlsGroup.signer g = MlsGroup.signer (mls_group room) /\
    grown (epoch_members σ) [m] (epoch_members σ') /\ member_of kp m /\
    commit_frame Opcode.Commit (sender_id c) r σ σ' cf /\ welcome_frame σ' kp m wf /\
    TestCluster.frames_of [Opcode.Welcome] acts = [wf] /\
    TestCluster.frames_of [Opcode.Commit] acts = [cf].
Proof using agreement sizes laws.
  intros Hroom Hp Hkp Hr Hid. cbn [handle]. unfold handle_add_members. intros H.
  apply bind_Ok in H as (room' & s1 & [-> _]%get_room_Ok & H).
  apply bind_Ok in H as (macts & s2 & (s' & Hm & ->)%(group_call_Ok _ _ _ _ _ _ Hroom) & H).
  apply lift_Ok in H as [-> Hc].
  destruct (group_add_ok _ _ _ _ _ _ _ _ _ _ Hp Hkp Hr Hid Hm)
    as (σ' & m & target & info & cf & rcp & wf & text & Hw & Hsg & Hgr & Hmo & -> & Hcf & Hwf).
  apply convert_cons_Ok in Hc as (ca & cas & Hca & Hc & ->).
  apply convert_cons_Ok in Hc as (ca2 & cas2 & [= <-] & Hc & ->).
  apply convert_cons_Ok in Hc as (ca3 & cas3 & [= <-] & Hc & ->).
  apply convert_log_Ok in Hc as (cas4 & [= <-] & ->).
  exists (snd s'), σ', m, cf, wf. pose proof (cf_opcode _ _ _ _ _ _ Hcf) as Ho. pose proof Hwf as [Hwo _].
  split_and!; try done; erewrite frames_of_publish by (done || set_solver);
    by rewrite (frames_of_send _ _ _ _ Ho), (frames_of_send _ _ _ _ Hwo).
Qed.

Lemma add_room r bs c c' acts :
  handle (CEAddMembers r [bs]) c = (c', Ok acts) -> exists room, rooms c !! r = Some room.
Proof.
  cbn [handle]. unfold handle_add_members.
  intros (room' & s1 & [-> Hr]%get_room_Ok & _)%bind_Ok. eauto.
Qed.

Lemma join_ok r σ m h pj kp bs wf c c' acts :
  handle (CEJoinRoom r (Frame.payload wf)) c = (c', Ok acts) ->
  pending_joins c = {[ h := pj ]} -> kept (sender_id c) bs pj kp ->
  welcome_frame σ kp m wf -> member_of kp m ->
  exists room, rooms c !! r = None /\ sender_id c' = sender_id c /\ pending_joins c' = ∅ /\
    rooms c' = <[r := room]> (rooms c) /\ placed (sender_id c) r σ room /\ fresh room /\
    badge (sender_id c) room = m.
Proof using agreement.
  cbn [handle]. unfold handle_join_room. intros H Hpj Hk Hw Hm.
  apply bind_Ok in H as (c0 & s1 & [= <- <-] & H).
  destruct (is_member c r) eqn:Hmem; [done|]. apply ClientInvariant.is_member_false in Hmem.
  apply bind_Ok in H as ([g macts] & s2 & Hj & H). unfold try_join_from_welcome in Hj.
  apply bind_Ok in Hj as (c0 & s3 & [= <- <-] & Hj). rewrite Hpj, map_to_list_singleton in Hj.
  cbn [fmap list_fmap fst try_pending] in Hj.
  apply bind_Ok in Hj as (c0 & s4 & [= <- <-] & Hj). rewrite Hpj, lookup_singleton_eq in Hj.
  apply bind_Ok in Hj as ([] & s5 & [= <-] & Hj).
  apply bind_Ok in Hj as (joined & s6 & Hjw & Hj). cbn [sender_id env with_joins] in Hjw.
  destruct (MlsGroup.join_from_welcome r (sender_id c) (Frame.payload wf) pj (env c)) as [e x] eqn:Hx.
  injection Hjw as <- Hjw. destruct x as [x|err|]; [|by injection Hjw as <-|done].
  injection Hjw as <-. injection Hj as <- ->.
  destruct (group_welcome_ok _ _ _ _ _ _ _ _ _ _ _ _ Hk Hw Hm Hx) as (Hg & Hb & text & ->).
  apply bind_Ok in H as (ks & s7 & [-> Hks]%lift_Ok & H).
  apply bind_Ok in H as ([] & s8 & [= <-] & H).
  apply bind_Ok in H as (cas & s9 & [-> _]%lift_Ok & H). injection H as <- _.
  assert (Hl : MlsGroup.own_leaf_index g = m_index m) by apply Hg. rewrite Hl.
  exists (mkRoom g ks (m_index m)). split_and!; try done. cbn. by rewrite Hpj, delete_singleton_eq.
Qed.

Lemma external_start_ok r c c' acts :
  handle (CEExternalJoin r) c = (c', Ok acts) ->
  rooms c !! r = None /\ sender_id c' = sender_id c /\ pending_joins c' = pending_joins c /\
  rooms c' = rooms c.
Proof.
  cbn [handle]. unfold handle_external_join. intros H.
  apply bind_Ok in H as (c0 & s1 & [= <- <-] & H).
  destruct (is_member c r) eqn:Hm; [done|]. apply ClientInvariant.is_member_false in Hm.
  apply bind_Ok in H as ([] & s2 & [= <-] & H).
  apply bind_Ok in H as (f & s3 & [-> _]%lift_Ok & H). by injection H as <- _.
Qed.

Lemma group_info_frame_ok p f c :
  Payload.into_frame (Payload.GroupInfo p) (FrameHeader.new Opcode.GroupInfo) = Ok f ->
  handle (CEFrameReceived f) c = handle_group_info_response f c /\
  from_reader (Frame.payload f) = inr p.
Proof.
  intros Hf. split.
  - cbn [handle]. unfold handle_frame. cbn [handle_frame_fuel].
    by rewrite (Payload.opcode_enum_into_frame _ _ _ Hf).
  - apply Payload.into_frame_Ok in Hf as (bs & He & _ & ->). unfold Payload.encode in He.
    destruct (into_writer p) as [|bs'] eqn:Hw; [done|]. injection He as <-.
    by apply from_reader_into_writer.
Qed.

Lemma group_info_ok r e info σ f c c' acts :
  Payload.into_frame (Payload.GroupInfo (mkGroupInfoPayload r e info))
    (FrameHeader.new Opcode.GroupInfo) = Ok f ->
  info_ok σ info -> r < 2 ^ 128 -> sender_id c < 2 ^ 64 ->
  handle (CEFrameReceived f) c = (c', Ok acts) ->
  exists room σ' cf info',
    moved r room c c' /\ placed (sender_id c) r σ' room /\ fresh room /\
    grown (epoch_members σ) [badge (sender_id c) room] (epoch_members σ') /\
    commit_frame Opcode.ExternalCommit (sender_id c) r σ σ' cf /\
    MlsGroup.export_group_info (mls_group room) = Ok info' /\
    TestCluster.frames_of [Opcode.Commit; Opcode.ExternalCommit] acts = [cf].
Proof using agreement sizes laws.
  intros Hf Hi Hr Hid. destruct (group_info_frame_ok _ _ c Hf) as [-> Hread].
  unfold handle_group_info_response. rewrite Hread. cbn [gip_room_id gip_group_info_bytes]. intros H.
  apply bind_Ok in H as (c0 & s1 & [= <- <-] & H). destruct (negb _); [done|].
  apply bind_Ok in H as ([] & s2 & [= <-] & H).
  apply bind_Ok in H as ([g macts] & s3 & (e3 & Hg & ->)%try_make_Ok & H).
  destruct (group_external_ok _ _ _ _ _ _ _ _ Hi Hr Hid Hg)
    as (σ' & leaf & cf & info' & text & Hmg & Hgr & Hcf & Hi' & ->).
  apply bind_Ok in H as (ks & s4 & [-> Hks]%lift_Ok & H).
  apply bind_Ok in H as (st & s5 & [-> _]%lift_Ok & H).
  apply bind_Ok in H as ([] & s6 & [= <-] & H).
  apply bind_Ok in H as (cas & s7 & [-> Hc]%lift_Ok & H). injection H as <- <-.
  apply convert_cons_Ok in Hc as (ca & cas2 & [= <-] & Hc & ->).
  apply convert_cons_Ok in Hc as (ca2 & cas3 & Hca & Hc & ->).
  apply convert_log_Ok in Hc as (cas4 & [= <-] & ->).
  assert (Hl : MlsGroup.own_leaf_index g = leaf) by apply Hmg. rewrite Hl.
  exists (mkRoom g ks leaf), σ', cf, info'. split_and!; try done.
  cbn [app]. rewrite (frames_of_send _ _ _ _ (cf_opcode _ _ _ _ _ _ Hcf)).
  erewrite frames_of_publish by (done || set_solver). done.
Qed.

Lemma own_external_ok r σ σ' σ0 room f c :
  rooms c !! r = Some room -> placed (sender_id c) r σ0 room ->
  commit_frame Opcode.ExternalCommit (sender_id c) r σ σ' f ->
  exists text, handle (CEFrameReceived f) c = (c, Ok [CALog text]).
Proof using agreement.
  intros Hroom [_ _ (_ & _ & _ & Hto) Hp _ _] [Hop Hro Hse _].
  rewrite Membership.handle_commit_frame by (by right). rewrite Hro.
  unfold handle_commit, apply_commit, mbind, M_bind, get, get_room. rewrite Hroom, Hse, N.eqb_refl.
  cbn [ok_or andb]. unfold MlsGroup.has_pending_commit, MlsGroup.has_mls_pending_commit.
  rewrite Hp, pending_known, Hto. cbn. eauto.
Qed.

End members.
End ClusterInvariant.
