(* ===== verification/Convergence.v ===== *)
(** * Convergence of the cluster

    The invariant of a cluster of clients: in every room, all clients that have
    it are in one epoch of its group, the members of that epoch are these
    clients, and their stores of sender keys are the same; and that the
    operations of the cluster keep it. *)

From S2P Require Import Prelude Env Opcodes Header Framing Payloads Validator SenderKeys Mls.
From S2P Require Import Samples Client ClientInv EndToEnd Agreement Membership Cluster ClusterInv.

Local Open Scope N_scope.

Module Convergence.
Import Client EndToEnd Agreement ClusterInvariant TestCluster.

Section convergence.
Context {Env : Type} `{!Environment Env} {openmls : OpenMls Env} {laws : OpenMlsLaws Env}
  {crypto : Crypto} {ed25519 : Ed25519} {ciborium : Ciborium} {sizes : CborSizes}
  {meaning : MlsEpochs Env} {agreement : MlsAgreement Env}.

(** ** The invariant *)

(** The clients' rooms for one id, and the members they are. *)
Definition view (r : N) (cs : list Client.t) : list (N * option RoomState) :=
  map (fun c => (Client.sender_id c, rooms c !! r)) cs.
Definition badges (v : list (N * option RoomState)) : list (option Member) :=
  map (fun '(id, o) => badge id <$> o) v.
Definition roster (v : list (N * option RoomState)) : list Member := omap id (badges v).

(** All have the keys of one secret, with a sequence for every member. *)
Definition keyed_for (σ : Epoch) (ks : SenderKeyStore.t) : Prop :=
  (exists secret e, SenderKeyProperties.synced secret e ks /\
     forall g : Group, group_at g = σ -> group_epoch g = e) /\
  forall m, m ∈ epoch_members σ -> is_Some (SenderKeyStore.ratchets ks !! m_index m).

Record agreeing (r : N) (v : list (N * option RoomState)) (stored : option (N * bytes))
    (σ : Epoch) (ks : SenderKeyStore.t) : Prop := mk_agreeing {
  ag_placed id room : (id, Some room) ∈ v -> placed id r σ room /\ sender_keys room = ks;
  ag_roster : epoch_members σ ≡ₚ roster v;
  ag_leaves : NoDup (map m_index (epoch_members σ));
  ag_keys : keyed_for σ ks;
  ag_first : exists id room, v !! 0%nat = Some (id, Some room);
  ag_info : exists e info, stored = Some (e, info) /\ info_ok σ info }.

Definition client_ids (n : nat) : list N := map (fun i => N.of_nat i + 1) (List.seq 0 n).

Record cluster_inv (n : nat) (cl : TestCluster.t) : Prop := mk_cluster_inv {
  ci_ids : map Client.sender_id (clients cl) = client_ids n;
  ci_joins c : c ∈ clients cl -> pending_joins c = ∅;
  ci_rooms r :
    ((forall c, c ∈ clients cl -> rooms c !! r = None) /\ group_info_storage cl !! r = None) \/
    exists σ ks, agreeing r (view r (clients cl)) (group_info_storage cl !! r) σ ks }.

(** ** Changes of a room *)

(** From one state of a client to a later one, only the room [r] has changed. *)
Definition shift (r : N) (R : N -> option RoomState -> option RoomState -> Prop) (c c' : Client.t)
    : Prop :=
  Client.sender_id c' = Client.sender_id c /\ pending_joins c' = pending_joins c /\
  (forall r', r' <> r -> rooms c' !! r' = rooms c !! r') /\
  R (Client.sender_id c) (rooms c !! r) (rooms c' !! r).

Definition same (id : N) (o o' : option RoomState) : Prop := o' = o.
(** A member goes to an epoch; a client becomes a member; the keys advance. *)
Definition advances_to (r : N) (σ : Epoch) (id : N) (o o' : option RoomState) : Prop :=
  match o with
  | None => o' = None
  | Some room => exists room', o' = Some room' /\ placed id r σ room' /\ fresh room' /\
      badge id room' = badge id room
  end.
Definition enters (r : N) (σ : Epoch) (m : Member) (id : N) (o o' : option RoomState) : Prop :=
  o = None /\ exists room, o' = Some room /\ placed id r σ room /\ fresh room /\ badge id room = m.
Definition rekeyed (ks : SenderKeyStore.t) (id : N) (o o' : option RoomState) : Prop :=
  o' = (fun room => mkRoom (mls_group room) ks (my_leaf_index room)) <$> o.

(** The same for all clients of a cluster. *)
Definition passed (r : N) (R : nat -> N -> option RoomState -> option RoomState -> Prop)
    (cs cs' : list Client.t) : Prop :=
  length cs' = length cs /\
  forall i c c', cs !! i = Some c -> cs' !! i = Some c' -> shift r (R i) c c'.

Lemma shift_refl r (R : N -> option RoomState -> option RoomState -> Prop) c :
  R (Client.sender_id c) (rooms c !! r) (rooms c !! r) -> shift r R c c.
Proof. intros H. by unfold shift. Qed.

Lemma shift_same_r r R c1 c2 c3 : shift r R c1 c2 -> shift r same c2 c3 -> shift r R c1 c3.
Proof.
  intros (H1 & H2 & H3 & H4) (H1' & H2' & H3' & H4'). unfold same in H4'.
  unfold shift. split_and!; [congruence..| |by rewrite H4'].
  intros r' Hr. by rewrite H3', H3.
Qed.

Lemma passed_refl r cs : passed r (fun _ => same) cs cs.
Proof. split; [done|]. intros i c c' H1 H2. simplify_eq. by apply shift_refl. Qed.

(** A loop over indices that changes one client at a time. *)
Definition at_indices (R : N -> option RoomState -> option RoomState -> Prop) (skip : nat -> bool)
    (idxs : list nat) (i : nat) : N -> option RoomState -> option RoomState -> Prop :=
  if bool_decide (i ∈ idxs) && negb (skip i) then R else same.

Lemma passed_nil r R skip cs : passed r (at_indices R skip []) cs cs.
Proof.
  split; [done|]. intros i c c' H1 H2. simplify_eq. unfold at_indices.
  rewrite bool_decide_eq_false_2 by apply not_elem_of_nil. by apply shift_refl.
Qed.

Lemma passed_cons r R (skip : nat -> bool) i idxs c c1 cs cs' :
  i ∉ idxs -> cs !! i = Some c -> shift r (if skip i then same else R) c c1 ->
  passed r (at_indices R skip idxs) (<[i := c1]> cs) cs' ->
  passed r (at_indices R skip (i :: idxs)) cs cs'.
Proof.
  intros Hi Hc Hs [Hl Hp]. rewrite length_insert in Hl. split; [done|].
  assert (Hlt : (i < length cs)%nat) by (by eapply lookup_lt_Some).
  intros k ck ck' Hk Hk'. unfold at_indices. destruct (decide (k = i)) as [->|Hne].
  - rewrite bool_decide_eq_true_2 by left. simplify_eq.
    specialize (Hp i c1 ck' (list_lookup_insert_eq _ _ _ Hlt) Hk'). unfold at_indices in Hp.
    rewrite bool_decide_eq_false_2 in Hp by done.
    destruct (skip i); by eapply shift_same_r.
  - specialize (Hp k ck ck'). rewrite list_lookup_insert_ne in Hp by done.
    specialize (Hp Hk Hk'). unfold at_indices in Hp.
    rewrite (bool_decide_ext (k ∈ i :: idxs) (k ∈ idxs)) by (rewrite elem_of_cons; tauto). done.
Qed.

(** ** From changes to agreement *)

Lemma view_lookup r cs i c : cs !! i = Some c -> view r cs !! i = Some (Client.sender_id c, rooms c !! r).
Proof. intros H. unfold view. by rewrite list_lookup_fmap, H. Qed.

Lemma view_elem r cs id o : (id, o) ∈ view r cs ->
  exists i c, cs !! i = Some c /\ id = Client.sender_id c /\ o = rooms c !! r.
Proof.
  intros (c & [= -> ->] & (i & Hi)%list_elem_of_lookup)%list_elem_of_fmap. eauto.
Qed.

Lemma passed_lookup r R cs cs' i c' : passed r R cs cs' -> cs' !! i = Some c' ->
  exists c, cs !! i = Some c /\ shift r (R i) c c'.
Proof.
  intros [Hl Hp] Hc. pose proof (lookup_lt_Some _ _ _ Hc) as Hlt. rewrite Hl in Hlt.
  destruct (lookup_lt_is_Some_2 _ _ Hlt) as [c Hc0]. eauto.
Qed.

Lemma map_pointwise {A B} (f : A -> B) l : forall l',
  length l' = length l -> (forall i x y, l !! i = Some x -> l' !! i = Some y -> f y = f x) ->
  map f l' = map f l.
Proof.
  induction l as [|x l IH]; intros [|y l'] Hl H; [done..|]. cbn. f_equal; [by apply (H 0%nat)|].
  apply IH; [by injection Hl|]. intros i. apply (H (S i)).
Qed.

Lemma passed_ids r R cs cs' : passed r R cs cs' -> map Client.sender_id cs' = map Client.sender_id cs.
Proof. intros [Hl Hp]. apply map_pointwise; [done|]. intros i c c' Hc Hc'. by destruct (Hp i c c' Hc Hc'). Qed.

Lemma passed_joins r R cs cs' :
  passed r R cs cs' -> (forall c, c ∈ cs -> pending_joins c = ∅) ->
  forall c', c' ∈ cs' -> pending_joins c' = ∅.
Proof.
  intros Hp Hj c' (i & Hi)%list_elem_of_lookup. destruct (passed_lookup _ _ _ _ _ _ Hp Hi) as (c & Hc & Hs).
  destruct Hs as (_ & -> & _). by eapply Hj, list_elem_of_lookup_2.
Qed.

(** A room that is not the one that changed. *)
Lemma passed_other r R cs cs' r' : passed r R cs cs' -> r' <> r -> view r' cs' = view r' cs.
Proof.
  intros [Hl Hp] Hr. apply map_pointwise; [done|]. intros i c c' Hc Hc'.
  destruct (Hp i c c' Hc Hc') as (-> & _ & H & _). by rewrite H.
Qed.

Lemma omap_insert_new {A} (l : list (option A)) i a :
  l !! i = Some None -> omap id (<[i := Some a]> l) ≡ₚ omap id l ++ [a].
Proof.
  revert i. induction l as [|o l IH]; intros [|i]; [done..| |].
  - intros [= ->]. cbn. by rewrite Permutation_cons_append.
  - cbn. intros H. destruct o as [b|]; cbn; [|by apply IH]. by rewrite IH.
Qed.

Lemma badges_length r cs : length (badges (view r cs)) = length cs.
Proof. unfold badges, view. by rewrite !length_map. Qed.

Lemma badges_lookup r cs i : badges (view r cs) !! i
  = (fun c => badge (Client.sender_id c) <$> rooms c !! r) <$> cs !! i.
Proof. unfold badges, view. rewrite map_map. apply list_lookup_fmap. Qed.

Lemma badges_enter r σ m j cs cs' :
  passed r (fun i => if decide (i = j) then enters r σ m else advances_to r σ) cs cs' ->
  (j < length cs)%nat ->
  badges (view r cs') = <[j := Some m]> (badges (view r cs)) /\
  badges (view r cs) !! j = Some None.
Proof.
  intros Hp Hj. pose proof Hp as [Hl Hs]. split.
  - apply list_eq_same_length with (n := length cs);
      [by rewrite length_insert, badges_length|by rewrite badges_length|].
    intros i x y Hi. rewrite badges_lookup. intros (c' & Hc' & ->)%fmap_Some_1 Hy.
    destruct (passed_lookup _ _ _ _ _ _ Hp Hc') as (c & Hc & Hsh & _ & _ & HR). rewrite Hsh.
    destruct (decide (i = j)) as [->|Hne].
    + rewrite list_lookup_insert_eq in Hy by (by rewrite badges_length). injection Hy as <-.
      destruct HR as (_ & room & -> & _ & _ & Hb). cbn. by rewrite Hb.
    + rewrite list_lookup_insert_ne, badges_lookup, Hc in Hy by done. injection Hy as <-.
      destruct (rooms c !! r) as [room|]; cbn in HR; [|by rewrite HR].
      destruct HR as (room' & -> & _ & _ & Hb). cbn. by rewrite Hb.
  - destruct (lookup_lt_is_Some_2 _ _ Hj) as [c Hc].
    assert (Hj' : (j < length cs')%nat) by (by rewrite Hl). destruct (lookup_lt_is_Some_2 _ _ Hj') as [c' Hc'].
    destruct (Hs j c c' Hc Hc') as (_ & _ & _ & HR). rewrite decide_True in HR by done.
    destruct HR as [Hn _]. rewrite badges_lookup, Hc. cbn. by rewrite Hn.
Qed.

Lemma fresh_keyed id r σ room : placed id r σ room -> fresh room -> keyed_for σ (sender_keys room).
Proof using agreement.
  intros Hp Hf. destruct (initializes _ _ _ _ _ Hp) as (secret & _ & Hks).
  unfold fresh in Hf. rewrite Hf in Hks. injection Hks as ->.
  pose proof Hp as [_ _ (Hat & _) _ _ _]. split.
  - exists secret, (MlsGroup.epoch (mls_group room)).
    split; [apply SenderKeyProperties.init_synced|]. intros g Hg.
    by apply group_at_epoch; rewrite Hg, Hat.
  - intros m Hm. rewrite SenderKeyProperties.ratchets_init, decide_True; [done|].
    unfold MlsGroup.member_leaf_indices. rewrite group_at_members, Hat. by apply list_elem_of_fmap_2.
Qed.

Lemma fresh_agree id id' r σ room room' :
  placed id r σ room -> fresh room -> placed id' r σ room' -> fresh room' ->
  sender_keys room = sender_keys room'.
Proof using agreement.
  intros Hp Hf Hp' Hf'. unfold fresh in *. rewrite (keys_agree _ _ _ _ _ _ _ _ _ Hp Hp') in Hf.
  congruence.
Qed.

(** After a client has joined, all have fresh rooms of the new epoch. *)
Lemma joined_fresh r σ m j cs cs' id room :
  passed r (fun i => if decide (i = j) then enters r σ m else advances_to r σ) cs cs' ->
  (id, Some room) ∈ view r cs' -> placed id r σ room /\ fresh room.
Proof.
  intros Hp (i & c' & Hc' & -> & Hroom)%view_elem.
  destruct (passed_lookup _ _ _ _ _ _ Hp Hc') as (c & Hc & Hid & _ & _ & HR).
  rewrite Hid. rewrite <- Hroom in HR. destruct (decide (i = j)).
  - destruct HR as (_ & room' & [= <-] & ? & ? & _). done.
  - unfold advances_to in HR. destruct (rooms c !! r); [|done].
    destruct HR as (room' & [= <-] & ? & ? & _). done.
Qed.

Lemma settle_agrees r j σ m cs cs' stored :
  passed r (fun i => if decide (i = j) then enters r σ m else advances_to r σ) cs cs' ->
  (j < length cs)%nat -> epoch_members σ ≡ₚ roster (view r cs) ++ [m] ->
  NoDup (map m_index (epoch_members σ)) ->
  (exists id room, view r cs' !! 0%nat = Some (id, Some room)) ->
  (exists e info, stored = Some (e, info) /\ info_ok σ info) ->
  exists ks, agreeing r (view r cs') stored σ ks.
Proof using agreement.
  intros Hp Hj Hperm Hnd (id0 & room0 & H0) Hinfo.
  destruct (badges_enter r σ m j cs cs' Hp Hj) as [Hb Hn].
  destruct (joined_fresh _ _ _ _ _ _ _ _ Hp (list_elem_of_lookup_2 _ _ _ H0)) as [Hp0 Hf0].
  exists (sender_keys room0). split; [|..|by eauto|done].
  - intros id room Hin. destruct (joined_fresh _ _ _ _ _ _ _ _ Hp Hin) as [Hpl Hf].
    split; [done|]. by eapply fresh_agree.
  - unfold roster at 1. by rewrite Hb, omap_insert_new.
  - done.
  - by eapply fresh_keyed.
Qed.

Lemma join_agrees r j σ σ' ks m cs cs' stored stored' :
  agreeing r (view r cs) stored σ ks -> (j < length cs)%nat ->
  passed r (fun i => if decide (i = j) then enters r σ' m else advances_to r σ') cs cs' ->
  grown (epoch_members σ) [m] (epoch_members σ') ->
  (exists e info, stored' = Some (e, info) /\ info_ok σ' info) ->
  exists ks', agreeing r (view r cs') stored' σ' ks'.
Proof using agreement.
  intros [] Hj Hp [Hperm Hnd] Hinfo. apply (settle_agrees r j σ' m cs cs'); try done.
  - by rewrite Hperm, ag_roster0.
  - by apply Hnd.
  - destruct ag_first0 as (id0 & room0 & H0). unfold view in H0. rewrite list_lookup_fmap in H0.
    destruct (cs !! 0%nat) as [c|] eqn:Hc; [|done]. injection H0 as <- Hr0.
    assert (Hlt : (0 < length cs')%nat) by (rewrite (proj1 Hp); by eapply lookup_lt_Some).
    destruct (lookup_lt_is_Some_2 _ _ Hlt) as [c' Hc'].
    destruct (proj2 Hp _ _ _ Hc Hc') as (Hid & _ & _ & HR). rewrite Hr0 in HR.
    assert (Hj0 : 0%nat <> j) by (intros <-; rewrite decide_True in HR by done; by destruct HR).
    rewrite decide_False in HR by done. destruct HR as (room' & Hroom' & _).
    exists (Client.sender_id c'), room'. rewrite (view_lookup r cs' 0 c' Hc'). by rewrite Hroom'.
Qed.

Lemma roster_elem r cs m : m ∈ roster (view r cs) ->
  exists i c room, cs !! i = Some c /\ rooms c !! r = Some room /\ m = badge (Client.sender_id c) room.
Proof.
  unfold roster. rewrite list_elem_of_omap. intros (o & Ho & Hm). cbn in Hm. subst o.
  apply list_elem_of_lookup in Ho as (i & Hi). rewrite badges_lookup in Hi.
  apply fmap_Some in Hi as (c & Hc & Hi). symmetry in Hi. apply fmap_Some in Hi as (room & Hr & ->). eauto 6.
Qed.

Lemma roster_credentials r cs σ : epoch_members σ ≡ₚ roster (view r cs) ->
  Forall (fun m => length (m_credential m) = 8%nat) (epoch_members σ).
Proof.
  intros Hp. rewrite Forall_forall. intros m. rewrite Hp. intros (i & c & room & _ & _ & ->)%roster_elem.
  apply length_to_le_bytes.
Qed.

(** ** The operations *)

Lemma try_client_Ok {A} i context (m : M Client.t ClientError.t A) cl cl' a :
  try_client i context m cl = (cl', Ok a) ->
  exists c c', clients cl !! i = Some c /\ m (with_env (TestCluster.env cl) c) = (c', Ok a) /\
    cl' = TestCluster.mk (<[i := c']> (clients cl)) (Client.env c') (group_info_storage cl).
Proof.
  unfold try_client. intros (x & s1 & H & [-> Hx%map_err_Ok]%lift_Ok)%bind_Ok. subst x.
  unfold on_client in H. destruct (clients cl !! i) as [c|]; [|done].
  destruct (m _) as [c' [a'| |]] eqn:Hm; [|done..]. injection H as <- <-. eauto.
Qed.

Lemma try_client_run {A} i context (m : M Client.t ClientError.t A) cl c c' a :
  clients cl !! i = Some c -> m (with_env (TestCluster.env cl) c) = (c', Ok a) ->
  try_client i context m cl
  = (TestCluster.mk (<[i := c']> (clients cl)) (Client.env c') (group_info_storage cl), Ok a).
Proof. intros Hc Hm. unfold try_client, mbind, M_bind, on_client. by rewrite Hc, Hm. Qed.

(** The invariant after the room [r] has changed. *)
Lemma changed_inv n r R cl cl' :
  cluster_inv n cl -> passed r R (clients cl) (clients cl') ->
  (forall r', r' <> r -> group_info_storage cl' !! r' = group_info_storage cl !! r') ->
  (exists σ ks, agreeing r (view r (clients cl')) (group_info_storage cl' !! r) σ ks) ->
  cluster_inv n cl'.
Proof.
  intros [] Hp Hst Hr. split.
  - by rewrite (passed_ids _ _ _ _ Hp).
  - by eapply passed_joins.
  - intros r'. destruct (decide (r' = r)) as [->|Hne]; [by right|].
    rewrite Hst by done. destruct (ci_rooms0 r') as [[Hnone Hs]|(σ & ks & Ha)].
    + left. split; [|done]. intros c' (i & Hi)%list_elem_of_lookup.
      destruct (passed_lookup _ _ _ _ _ _ Hp Hi) as (c & Hc & _ & _ & Ho & _).
      rewrite Ho by done. by eapply Hnone, list_elem_of_lookup_2.
    + right. exists σ, ks. by rewrite (passed_other _ _ _ _ _ Hp).
Qed.

Lemma moved_shift r room c c' (R : N -> option RoomState -> option RoomState -> Prop) :
  moved r room c c' -> R (Client.sender_id c) (rooms c !! r) (Some room) -> shift r R c c'.
Proof.
  intros (H1 & H2 & H3) HR. unfold shift. rewrite H3, lookup_insert_eq. split_and!; [done|done| |done].
  intros r' Hr. by rewrite lookup_insert_ne.
Qed.

(** The GroupInfos of the epochs that the rooms are in are smaller than 4 MiB. *)
Definition fitting (cl : TestCluster.t) : Prop :=
  forall i c r room, clients cl !! i = Some c -> rooms c !! r = Some room ->
    epoch_fits (group_at (MlsGroup.inner_group (mls_group room))).

Lemma fitting_placed cl i c r room id σ : fitting cl -> clients cl !! i = Some c ->
  rooms c !! r = Some room -> placed id r σ room -> epoch_fits σ.
Proof. intros Hf Hc Hr [_ _ (<- & _) _ _ _]. by eapply Hf. Qed.

Lemma store_clients r actions cl cl' : store_group_infos r actions cl = (cl', Ok tt) ->
  clients cl' = clients cl /\ TestCluster.env cl' = TestCluster.env cl.
Proof.
  unfold store_group_infos, modify. intros [= <-]. generalize (omap group_info_of actions).
  intros l. revert cl. induction l as [|[e info] l IH]; intros cl; cbn; [done|].
  by destruct (IH (store_group_info r e info cl)).
Qed.

Lemma store_one r actions e info cl : omap group_info_of actions = [(e, info)] ->
  store_group_infos r actions cl = (store_group_info r e info cl, Ok tt).
Proof. intros H. unfold store_group_infos, modify. by rewrite H. Qed.

Lemma create_room_inv n r cl cl' :
  cluster_inv n cl -> r < 2 ^ 128 -> create_room r cl = (cl', Ok tt) -> fitting cl' ->
  cluster_inv n cl'.
Proof using agreement sizes.
  intros HI Hr. unfold create_room.
  intros (acts & cl1 & (c & c' & Hc & Hh & ->)%try_client_Ok & H)%bind_Ok Hfit.
  destruct (client_create_ok _ _ _ _ Hh Hr) as (room & σ & info & Hnone & Hmoved & Hp & Hf & Hms & Hi & Hacts).
  assert (Hσ : epoch_fits σ).
  { apply store_clients in H as [Hcs _]. eapply (fitting_placed cl' 0 c' r room); [done| | |exact Hp].
    - rewrite Hcs. cbn. apply list_lookup_insert_eq. by eapply lookup_lt_Some.
    - destruct Hmoved as (_ & _ & ->). by rewrite lookup_insert_eq. }
  specialize (Hacts Hσ).
  rewrite (store_one _ _ _ _ _ Hacts) in H. injection H as <-.
  change (rooms (with_env (TestCluster.env cl) c)) with (rooms c) in Hnone.
  change (Client.sender_id (with_env (TestCluster.env cl) c)) with (Client.sender_id c) in *.
  assert (Hall : forall c, c ∈ clients cl -> rooms c !! r = None).
  { destruct (ci_rooms _ _ HI r) as [[H _]|(σ0 & ks & [])]; [done|].
    destruct ag_first0 as (id & room0 & H0). rewrite (view_lookup r _ _ _ Hc), Hnone in H0. done. }
  set (cs := clients cl) in *. set (cs' := <[0%nat := c']> cs).
  assert (Hlt : (0 < length cs)%nat) by (by eapply lookup_lt_Some).
  assert (Hpass : passed r (fun i => if decide (i = 0%nat)
    then enters r σ (badge (Client.sender_id c) room) else advances_to r σ) cs cs').
  { unfold cs'. split; [by rewrite length_insert|]. intros i ci ci' Hci Hci'.
    destruct (decide (i = 0%nat)) as [->|Hne].
    - rewrite list_lookup_insert_eq in Hci' by done. simplify_eq.
      apply (moved_shift r room); [exact Hmoved|]. split; [done|]. eauto.
    - rewrite list_lookup_insert_ne in Hci' by done. simplify_eq. apply shift_refl.
      by rewrite (Hall ci (list_elem_of_lookup_2 _ _ _ Hci)). }
  eapply changed_inv; [exact HI|exact Hpass|..].
  { intros r' Hr'. cbn. by rewrite lookup_insert_ne. }
  cbn [group_info_storage store_group_info clients]. rewrite lookup_insert_eq.
  exists σ. apply (settle_agrees r 0 σ (badge (Client.sender_id c) room) cs cs'); try done.
  - rewrite Hms. assert (Hro : roster (view r cs) = []); [|by rewrite Hro].
    destruct (roster (view r cs)) as [|m ms] eqn:E; [done|].
    destruct (roster_elem r cs m) as (i & ci & ro & Hci & Hro & _); [rewrite E; left|].
    by rewrite (Hall ci (list_elem_of_lookup_2 _ _ _ Hci)) in Hro.
  - rewrite Hms. apply NoDup_singleton.
  - exists (Client.sender_id c'), room. rewrite (view_lookup r cs' 0 c').
    + destruct Hmoved as (_ & _ & ->). by rewrite lookup_insert_eq.
    + unfold cs'. by rewrite list_lookup_insert_eq.
  - eauto.
Qed.

(** A commit that the members of an epoch accept: someone is in the next one. *)
Definition acceptable (r : N) (σ σ' : Epoch) (sender : N) (f : Frame.t) : Prop :=
  r < 2 ^ 128 /\
  (exists op, (op = Opcode.Commit \/ op = Opcode.ExternalCommit) /\ commit_frame op sender r σ σ' f) /\
  Forall (fun m => length (m_credential m) = 8%nat) (epoch_members σ') /\
  epoch_fits σ' /\
  exists leaf g info, settled σ' leaf (MlsGroup.inner_group g) /\ MlsGroup.export_group_info g = Ok info.

Lemma one_commit r σ σ' sender f i c room cl :
  acceptable r σ σ' sender f -> clients cl !! i = Some c -> rooms c !! r = Some room ->
  placed (Client.sender_id c) r σ room -> sender <> Client.sender_id c ->
  exists c' acts e info,
    on_client i (handle (CEFrameReceived f)) cl
    = (TestCluster.mk (<[i := c']> (clients cl)) (Client.env c') (group_info_storage cl), Ok (Ok acts)) /\
    shift r (advances_to r σ') c c' /\ omap group_info_of acts = [(e, info)] /\ info_ok σ' info.
Proof using agreement laws sizes.
  intros (Hr & (op & Hop & Hf) & Hcreds & Hn & leaf & g & info0 & Hs & Hi0) Hc Hroom Hp Hne.
  destruct (other_commit_ok r σ σ' room op sender f (with_env (TestCluster.env cl) c) g leaf info0)
    as (c' & acts & E & room' & e & info & Hm & Hp' & Hf' & Hb & _ & Hi & _ & Hacts); [done..|].
  exists c', acts, e, info. split_and!; [|eapply moved_shift; [exact Hm|]|by auto|done].
  - unfold on_client. by rewrite Hc, E.
  - cbn [rooms with_env Client.sender_id]. rewrite Hroom. exists room'. done.
Qed.

(** The clients of [idxs], but for those that are skipped, are in the old epoch. *)
Definition unmoved (r : N) (σ : Epoch) (sender : N) (skip : nat -> bool) (idxs : list nat)
    (cs : list Client.t) : Prop :=
  NoDup idxs /\
  forall i, i ∈ idxs -> exists c, cs !! i = Some c /\
    (skip i = false -> forall room, rooms c !! r = Some room ->
       placed (Client.sender_id c) r σ room /\ sender <> Client.sender_id c).

Lemma unmoved_cons r σ sender skip i idxs cs c' :
  unmoved r σ sender skip (i :: idxs) cs -> unmoved r σ sender skip idxs (<[i := c']> cs).
Proof.
  intros [[Hi Hnd]%NoDup_cons H]. split; [done|]. intros k Hk.
  rewrite list_lookup_insert_ne by (by intros ->). apply H. by right.
Qed.

Lemma forward_ok r σ σ' sender j f idxs : acceptable r σ σ' sender f ->
  let skip i := (i =? 0)%nat || (i =? j)%nat in
  forall cl, unmoved r σ sender skip idxs (clients cl) ->
  exists cl', forward_commit r j f idxs cl = (cl', Ok tt) /\
    group_info_storage cl' = group_info_storage cl /\
    passed r (at_indices (advances_to r σ') skip idxs) (clients cl) (clients cl').
Proof using agreement laws sizes.
  intros Hf skip. induction idxs as [|i idxs IH]; intros cl Hu.
  { exists cl. split_and!; [done..|apply passed_nil]. }
  pose proof Hu as [[Hi _]%NoDup_cons H]. destruct (H i ltac:(left)) as (c & Hc & Hpl).
  assert (Hid : <[i := c]> (clients cl) = clients cl) by (by apply list_insert_id).
  cbn [forward_commit]. unfold mbind at 1, M_bind at 1. fold (skip i).
  destruct (skip i) eqn:Hsk.
  { destruct (IH cl) as (cl' & E & Hst & Hp); [rewrite <- Hid; by eapply unmoved_cons|].
    exists cl'. split_and!; [done..|]. eapply passed_cons; [done..| |by rewrite Hid].
    rewrite Hsk. by apply shift_refl. }
  unfold mbind at 1, M_bind at 1, get at 1. rewrite Hc. unfold is_member.
  destruct (rooms c !! r) as [room|] eqn:Hroom.
  - rewrite bool_decide_eq_true_2 by done. destruct (Hpl eq_refl room eq_refl) as [Hp Hne].
    destruct (one_commit r σ σ' sender f i c room cl Hf Hc Hroom Hp Hne)
      as (c' & acts & e & info & E & Hsh & _).
    unfold mbind at 1, M_bind at 1. rewrite E.
    set (cl1 := TestCluster.mk (<[i := c']> (clients cl)) (Client.env c') (group_info_storage cl)).
    destruct (IH cl1) as (cl' & E' & Hst & Hps); [by eapply unmoved_cons|].
    exists cl'. split_and!; [done..|]. eapply passed_cons; [exact Hi|exact Hc| |exact Hps]. by rewrite Hsk.
  - rewrite bool_decide_eq_false_2 by (intros [? [=]]).
    destruct (IH cl) as (cl' & E & Hst & Hp); [rewrite <- Hid; by eapply unmoved_cons|].
    exists cl'. split_and!; [done..|]. eapply passed_cons; [done..| |by rewrite Hid].
    rewrite Hsk. apply shift_refl. by rewrite Hroom.
Qed.

Lemma grown_sub old news now : grown old news now -> old ⊆ now.
Proof. intros [-> _] m Hm. rewrite elem_of_app. by left. Qed.

(** The creator adds the owner of a KeyPackage and applies its commit. *)
Lemma add_and_commit r σ room kp bs c c1 acts1 cf e2 c2 acts2 :
  rooms c !! r = Some room -> placed (Client.sender_id c) r σ room ->
  key_package_serialize kp = inr bs -> r < 2 ^ 128 -> Client.sender_id c < 2 ^ 64 ->
  handle (CEAddMembers r [bs]) c = (c1, Ok acts1) ->
  last (frames_of [Opcode.Commit] acts1) = Some cf ->
  handle (CEFrameReceived cf) (with_env e2 c1) = (c2, Ok acts2) ->
  exists σ' m wf, last (frames_of [Opcode.Welcome] acts1) = Some wf /\
    grown (epoch_members σ) [m] (epoch_members σ') /\ member_of kp m /\
    commit_frame Opcode.Commit (Client.sender_id c) r σ σ' cf /\ welcome_frame σ' kp m wf /\
    advanced r σ' room c c2 acts2.
Proof using agreement laws sizes.
  intros Hroom Hp Hkp Hr Hid Hadd Hcf Hcommit.
  destruct (add_ok r σ room kp bs c c1 acts1 Hroom Hp Hkp Hr Hid Hadd)
    as (g & σ' & m & cf' & wf & (Hs & Hj & Hrs) & Hw & Hsg & Hgr & Hm & Hcfr & Hwf & Hws & Hcs).
  rewrite Hcs in Hcf. injection Hcf as <-.
  exists σ', m, wf. rewrite Hws. split_and!; [done..|].
  assert (Hadv : advanced r σ' (set_group g room) (with_env e2 c1) c2 acts2).
  { apply (own_commit_ok r σ σ' _ cf'); try done; cbn [rooms with_env Client.sender_id].
    - by rewrite Hrs, lookup_insert_eq.
    - by rewrite Hs.
    - by rewrite Hs.
    - by eapply grown_sub. }
  destruct Hadv as (room' & e & info & (Hs' & Hj' & Hrs') & Hp' & Hf' & Hb & Hi & Hio & He & Hacts).
  cbn [Client.sender_id with_env rooms pending_joins] in *. rewrite Hs in *.
  exists room', e, info. split_and!; try done.
  - unfold moved. split_and!; [congruence..|]. by rewrite Hrs', Hrs, insert_insert_eq.
  - rewrite Hb. unfold badge, own_member. cbn. by rewrite Hsg.
Qed.

Lemma id_at n cl i c : cluster_inv n cl -> clients cl !! i = Some c ->
  Client.sender_id c = N.of_nat i + 1 /\ (i < n)%nat.
Proof.
  intros HI Hc. pose proof (f_equal (.!! i) (ci_ids _ _ HI)) as H. unfold client_ids in H.
  rewrite !list_lookup_fmap, Hc in H. cbn in H. symmetry in H.
  apply fmap_Some in H as (k & Hk & ->). apply lookup_seq in Hk as [-> Hk]. cbn. done.
Qed.

Lemma cluster_length n cl : cluster_inv n cl -> length (clients cl) = n.
Proof.
  intros HI. rewrite <- (length_map Client.sender_id), (ci_ids _ _ HI). unfold client_ids.
  by rewrite length_map, length_seq.
Qed.

(** A room that a client has is one on which all agree. *)
Lemma room_agreed n r cl i c room :
  cluster_inv n cl -> clients cl !! i = Some c -> rooms c !! r = Some room ->
  exists σ ks, agreeing r (view r (clients cl)) (group_info_storage cl !! r) σ ks /\
    placed (Client.sender_id c) r σ room.
Proof.
  intros HI Hc Hroom. destruct (ci_rooms _ _ HI r) as [[Hnone _]|(σ & ks & Ha)].
  { by rewrite (Hnone c (list_elem_of_lookup_2 _ _ _ Hc)) in Hroom. }
  exists σ, ks. split; [done|].
  assert (Hin : (Client.sender_id c, Some room) ∈ view r (clients cl)).
  { rewrite <- Hroom. eapply list_elem_of_lookup_2. by apply view_lookup. }
  by apply (ag_placed _ _ _ _ _ Ha _ _ Hin).
Qed.

(** The clients that are neither the creator nor the joiner wait in the old
    epoch for the commit. *)
Lemma others_unmoved n r σ ks stored sender skip cl cs :
  cluster_inv n cl -> agreeing r (view r (clients cl)) stored σ ks ->
  length cs = length (clients cl) ->
  (forall i, skip i = false -> cs !! i = clients cl !! i /\ sender <> N.of_nat i + 1) ->
  unmoved r σ sender skip (List.seq 0 (length cs)) cs.
Proof.
  intros HI Ha Hl Hcs. split; [apply NoDup_seq|]. intros i Hi.
  apply elem_of_seq in Hi as [_ Hi]. destruct (lookup_lt_is_Some_2 cs i Hi) as [c Hc].
  exists c. split; [done|]. intros Hsk room Hroom. destruct (Hcs i Hsk) as [E Hne].
  rewrite E in Hc. destruct (id_at n cl i c HI Hc) as [Hid _].
  split; [|by rewrite Hid].
  assert (Hin : (Client.sender_id c, Some room) ∈ view r (clients cl)).
  { rewrite <- Hroom. eapply list_elem_of_lookup_2. by apply view_lookup. }
  by apply (ag_placed _ _ _ _ _ Ha _ _ Hin).
Qed.

(** The creator and the joiner have moved, and then all others. *)
Lemma passed_join r σ m j cs cs4 cs5 c0 c0' cj cj' :
  j <> 0%nat -> cs !! 0%nat = Some c0 -> cs !! j = Some cj ->
  shift r (advances_to r σ) c0 c0' -> shift r (enters r σ m) cj cj' ->
  cs4 = <[j := cj']> (<[0%nat := c0']> cs) ->
  passed r (at_indices (advances_to r σ) (fun i => (i =? 0)%nat || (i =? j)%nat)
              (List.seq 0 (length cs4))) cs4 cs5 ->
  passed r (fun i => if decide (i = j) then enters r σ m else advances_to r σ) cs cs5.
Proof.
  intros Hj0 H0 Hj Hs0 Hsj -> [Hl Hp]. rewrite !length_insert in Hl. split; [done|].
  intros i c c' Hc Hc'.
  assert (Hlt : (i < length cs)%nat) by (by eapply lookup_lt_Some).
  assert (Hcs : exists c1, <[j := cj']> (<[0%nat := c0']> cs) !! i = Some c1 /\
    shift r (if decide (i = j) then enters r σ m else if decide (i = 0%nat) then advances_to r σ else same) c c1).
  { destruct (decide (i = j)) as [->|Hij].
    - exists cj'. rewrite list_lookup_insert_eq by (by rewrite length_insert). by simplify_eq.
    - rewrite list_lookup_insert_ne by done. destruct (decide (i = 0%nat)) as [->|Hi0].
      + exists c0'. rewrite list_lookup_insert_eq by done. by simplify_eq.
      + exists c. rewrite list_lookup_insert_ne by done. split; [done|]. by apply shift_refl. }
  destruct Hcs as (c1 & Hc1 & Hs1). specialize (Hp i c1 c' Hc1 Hc'). unfold at_indices in Hp.
  rewrite bool_decide_eq_true_2 in Hp
    by (rewrite !length_insert; apply elem_of_seq; lia). cbn [andb] in Hp.
  destruct (decide (i = j)) as [->|Hij].
  { rewrite Nat.eqb_refl, orb_true_r in Hp. by eapply shift_same_r. }
  rewrite (proj2 (Nat.eqb_neq i j)), orb_false_r in Hp by done.
  destruct (decide (i = 0%nat)) as [->|Hi0]; [by eapply shift_same_r|].
  rewrite (proj2 (Nat.eqb_neq i 0)) in Hp by done. cbn [negb] in Hp.
  destruct Hs1 as (H1 & H2 & H3 & H4), Hp as (H1' & H2' & H3' & H4'). unfold same in H4.
  unfold shift. rewrite <- H4, <- H1. split_and!; [congruence..| |done].
  intros r' Hr'. by rewrite H3', H3.
Qed.

Lemma member_credential id bs pj kp m :
  kept id bs pj kp -> member_of kp m -> length (m_credential m) = 8%nat.
Proof. intros (_ & Hc & _) [-> _]. rewrite Hc. apply length_to_le_bytes. Qed.

Lemma grown_credentials r cs σ σ' m : epoch_members σ ≡ₚ roster (view r cs) ->
  grown (epoch_members σ) [m] (epoch_members σ') -> length (m_credential m) = 8%nat ->
  Forall (fun m => length (m_credential m) = 8%nat) (epoch_members σ').
Proof.
  intros Hro [Hperm _] Hm. rewrite Hperm, Forall_app. split; [by eapply roster_credentials|].
  by constructor.
Qed.

Lemma join_not_member r w c c' acts : handle (CEJoinRoom r w) c = (c', Ok acts) -> rooms c !! r = None.
Proof.
  cbn [handle]. unfold handle_join_room. intros (c0 & s1 & [= <- <-] & H)%bind_Ok.
  destruct (is_member c r) eqn:Hm; [done|]. by apply ClientInvariant.is_member_false.
Qed.

(** The creator as [join_via_welcome] finds it after the joiner has made its
    KeyPackage. *)
Lemma creator_found n cl j cj cj1 c0 :
  cluster_inv n cl -> clients cl !! j = Some cj -> rooms cj1 = rooms cj ->
  Client.sender_id cj1 = Client.sender_id cj -> <[j := cj1]> (clients cl) !! 0%nat = Some c0 ->
  exists c, clients cl !! 0%nat = Some c /\ Client.sender_id c0 = 1 /\ Client.sender_id c = 1 /\
    rooms c0 = rooms c /\ (j <> 0%nat -> c0 = c).
Proof.
  intros HI Hcj Hr Hs Hc0. assert (Hlt : (j < length (clients cl))%nat) by (by eapply lookup_lt_Some).
  destruct (decide (j = 0%nat)) as [->|Hj].
  - exists cj. rewrite list_lookup_insert_eq in Hc0 by done. injection Hc0 as <-.
    destruct (id_at n cl 0 cj HI Hcj) as [Hid _]. rewrite Hs, Hid. done.
  - exists c0. rewrite list_lookup_insert_ne in Hc0 by done.
    destruct (id_at n cl 0 c0 HI Hc0) as [Hid _]. by rewrite Hid.
Qed.

(** The joiner's part. *)
Lemma welcome_entered r σ m h pj kp bs wf cj cj1 cj3 e acts :
  pending_joins cj = ∅ -> kept (Client.sender_id cj) bs pj kp ->
  Client.sender_id cj1 = Client.sender_id cj -> rooms cj1 = rooms cj ->
  pending_joins cj1 = {[ h := pj ]} -> welcome_frame σ kp m wf -> member_of kp m ->
  handle (CEJoinRoom r (Frame.payload wf)) (with_env e cj1) = (cj3, Ok acts) ->
  shift r (enters r σ m) cj cj3.
Proof using agreement.
  intros Hj0 Hkept Hsj Hrj Hpj Hwf Hm Hjoin.
  destruct (join_ok r σ m h pj kp bs wf _ _ _ Hjoin Hpj)
    as (roomj & Hnj & Hsj3 & Hpj3 & Hrj3 & Hplj & Hfj & Hbj); [by cbn; rewrite Hsj|done..|].
  cbn [rooms with_env Client.sender_id] in *. rewrite Hrj, Hsj in *. unfold shift.
  rewrite Hrj3, lookup_insert_eq, Hpj3, Hj0. split_and!; try done.
  - intros r' Hr'. by rewrite lookup_insert_ne.
  - split; [done|]. exists roomj. done.
Qed.

(** The creator's part of [join_via_welcome]. *)
Lemma creator_adds n r j cl cj cj1 c0 c01 c02 e1 e2 bs kp acts1 acts2 wf cf :
  cluster_inv n cl -> r < 2 ^ 128 ->
  clients cl !! j = Some cj -> rooms cj1 = rooms cj -> Client.sender_id cj1 = Client.sender_id cj ->
  <[j := cj1]> (clients cl) !! 0%nat = Some c0 -> key_package_serialize kp = inr bs ->
  length (key_package_credential kp) = 8%nat ->
  handle (CEAddMembers r [bs]) (with_env e1 c0) = (c01, Ok acts1) ->
  last (frames_of [Opcode.Welcome] acts1) = Some wf -> last (frames_of [Opcode.Commit] acts1) = Some cf ->
  handle (CEFrameReceived cf) (with_env e2 c01) = (c02, Ok acts2) ->
  exists c σ ks σ' m e info,
    clients cl !! 0%nat = Some c /\ (j <> 0%nat -> c0 = c) /\
    agreeing r (view r (clients cl)) (group_info_storage cl !! r) σ ks /\
    grown (epoch_members σ) [m] (epoch_members σ') /\ member_of kp m /\ welcome_frame σ' kp m wf /\
    shift r (advances_to r σ') c0 c02 /\
    (exists room, rooms c02 !! r = Some room /\ placed 1 r σ' room) /\ info_ok σ' info /\
    (epoch_fits σ' -> omap group_info_of acts2 = [(e, info)] /\ acceptable r σ σ' 1 cf).
Proof using agreement laws sizes.
  intros HI Hr Hcj Hrj Hsj Hc0 Hkp Hcred Hadd Hwf Hcf Hcommit.
  destruct (creator_found n cl j cj cj1 c0 HI Hcj Hrj Hsj Hc0) as (c & Hc & Hs0 & Hsc & Hrc & Hcc).
  destruct (add_room _ _ _ _ _ Hadd) as [room Hroom]. cbn [rooms with_env] in Hroom. rewrite Hrc in Hroom.
  destruct (room_agreed n r cl 0 c room HI Hc Hroom) as (σ & ks & Ha & Hp). rewrite Hsc in Hp.
  destruct (add_and_commit r σ room kp bs (with_env e1 c0) c01 acts1 cf e2 c02 acts2)
    as (σ' & m & wf' & Hwf' & Hgr & Hm & Hcfr & Hwfr & Hadv);
    [by cbn; rewrite Hrc|by cbn; rewrite Hs0|done|done|by cbn; rewrite Hs0|done..|].
  rewrite Hwf in Hwf'. injection Hwf' as <-.
  destruct Hadv as (room' & e & info & Hmv & Hp' & Hf' & Hb & Hi & Hio & He & Hacts).
  cbn [Client.sender_id with_env] in Hcfr, Hp', Hb. rewrite Hs0 in Hcfr, Hp', Hb.
  exists c, σ, ks, σ', m, e, info. split_and!; try done.
  - apply (moved_shift r room'); [exact Hmv|]. rewrite Hrc, Hroom, Hs0. by exists room'.
  - exists room'. split; [|done]. destruct Hmv as (_ & _ & ->). by rewrite lookup_insert_eq.
  - intros Hfit. split; [by auto|]. split_and!; try done; [by eauto| |].
    + eapply grown_credentials; [apply Ha|done|]. by destruct Hm as [-> _].
    + exists (my_leaf_index room'), (mls_group room'), info. split; [apply Hp'|done].
Qed.

(** The loop leaves the creator alone. *)
Lemma forward_keeps r j f idxs : forall cl cl',
  forward_commit r j f idxs cl = (cl', Ok tt) -> clients cl' !! 0%nat = clients cl !! 0%nat.
Proof.
  induction idxs as [|i idxs IH]; intros cl cl'; cbn [forward_commit]; [by intros [= <-]|].
  intros ([] & cl1 & H1 & H%IH)%bind_Ok. rewrite H. clear H IH.
  destruct (Nat.eqb_spec i 0) as [->|Hi]; cbn [orb] in H1; [by injection H1 as <-|].
  destruct (i =? j)%nat; [by injection H1 as <-|].
  apply bind_Ok in H1 as (cl0 & s & [= <- <-] & H1).
  destruct (clients cl !! i) as [c|] eqn:Hc; [|by injection H1 as <-].
  destruct (is_member c r); [|by injection H1 as <-].
  apply bind_Ok in H1 as (x & s & H1 & [= <-]). unfold on_client in H1. rewrite Hc in H1.
  destruct (handle _ _) as [c' y]. injection H1 as <- _. cbn. by rewrite list_lookup_insert_ne.
Qed.

(** Up to the loop over the other members. *)
Lemma welcome_started n r j cl cl' :
  cluster_inv n cl -> r < 2 ^ 128 ->
  join_via_welcome r j cl = (cl', Ok tt) -> fitting cl' ->
  exists σ ks σ' m cf c0 cj c0' cj' cl4 e info,
    j <> 0%nat /\ clients cl !! 0%nat = Some c0 /\ clients cl !! j = Some cj /\
    agreeing r (view r (clients cl)) (group_info_storage cl !! r) σ ks /\
    grown (epoch_members σ) [m] (epoch_members σ') /\
    shift r (advances_to r σ') c0 c0' /\ shift r (enters r σ' m) cj cj' /\
    clients cl4 = <[j := cj']> (<[0%nat := c0']> (clients cl)) /\
    group_info_storage cl4 = <[r := (e, info)]> (group_info_storage cl) /\ info_ok σ' info /\
    acceptable r σ σ' 1 cf /\ forward_commit r j cf (indices cl4) cl4 = (cl', Ok tt).
Proof using agreement laws sizes.
  intros HI Hr. unfold join_via_welcome.
  intros ([bs h] & cl1 & (cj & cj1 & Hcj & Hkp & ->)%try_client_Ok & H)%bind_Ok Hfit.
  apply bind_Ok in H as (acts1 & cl2 & (c0 & c01 & Hc0 & Hadd & ->)%try_client_Ok & H).
  apply bind_Ok in H as (wf & cl3 & [-> Hwf%ok_or_Ok]%lift_Ok & H).
  apply bind_Ok in H as (cf & cl4 & [-> Hcf%ok_or_Ok]%lift_Ok & H).
  apply bind_Ok in H as (acts2 & cl5 & (c0' & c02 & Hc0' & Hcommit & ->)%try_client_Ok & H).
  cbn [clients group_info_storage TestCluster.env fst] in *.
  assert (Hj0 : pending_joins cj = ∅) by (by eapply ci_joins, list_elem_of_lookup_2).
  destruct (key_package_ok _ _ _ _ Hkp Hj0) as (pj & kp & Hkept & Hsj & Hrj & Hpj).
  assert (Hlt : (j < length (clients cl))%nat) by (by eapply lookup_lt_Some).
  assert (Hlt0 : (0 < length (clients cl))%nat) by lia.
  rewrite list_lookup_insert_eq in Hc0' by (by rewrite length_insert). injection Hc0' as <-.
  destruct (creator_adds n r j cl cj cj1 c0 c01 c02 (Client.env cj1) (Client.env c01) bs kp
              acts1 acts2 wf cf HI Hr Hcj Hrj Hsj Hc0)
    as (c & σ & ks & σ' & m & e & info & Hc & Hcc & Ha & Hgr & Hm & Hwfr & Hs0
        & (room & Hroom & Hpl) & Hio & Hsmall);
    [apply Hkept|destruct Hkept as (_ & -> & _); apply length_to_le_bytes|done..|].
  apply bind_Ok in H as ([] & cl6 & Hst & H). pose proof Hst as [Hcs6 He6]%store_clients.
  apply bind_Ok in H as (jacts & cl7 & (cj2 & cj3 & Hcj2 & Hjoin & ->)%try_client_Ok & H).
  apply bind_Ok in H as (cl8 & cl9 & [= <- <-] & H).
  cbn [clients TestCluster.env] in Hcs6, He6. rewrite Hcs6 in Hcj2, H. rewrite list_insert_insert_eq in Hcj2, H.
  assert (Hjne : j <> 0%nat).
  { intros ->. rewrite list_lookup_insert_eq in Hcj2 by (by rewrite length_insert).
    injection Hcj2 as <-. apply join_not_member in Hjoin. cbn [rooms with_env] in Hjoin. congruence. }
  rewrite list_lookup_insert_ne, list_lookup_insert_eq in Hcj2 by done. injection Hcj2 as <-.
  destruct Hsmall as [Hacts Hacc].
  { eapply (fitting_placed cl' 0 c02 r room); [done| |done|exact Hpl].
    rewrite (forward_keeps _ _ _ _ _ _ H). cbn [clients].
    by rewrite list_lookup_insert_ne, list_lookup_insert_eq by (by rewrite ?length_insert). }
  rewrite (store_one _ _ _ _ _ Hacts) in Hst. injection Hst as <-.
  cbn [clients group_info_storage TestCluster.env store_group_info] in *.
  rewrite (Hcc Hjne) in *.
  set (cl4 := TestCluster.mk _ _ _) in H.
  exists σ, ks, σ', m, cf, c, cj, c02, cj3, cl4, e, info. split_and!; try done.
  - by eapply welcome_entered.
  - unfold cl4. cbn [clients]. rewrite list_insert_insert_ne, list_insert_insert_eq by done.
    by apply list_insert_insert_ne.
Qed.

Lemma join_via_welcome_inv n r j cl cl' :
  cluster_inv n cl -> r < 2 ^ 128 ->
  join_via_welcome r j cl = (cl', Ok tt) -> fitting cl' -> cluster_inv n cl'.
Proof using agreement laws sizes.
  intros HI Hr H Hfit.
  destruct (welcome_started n r j cl cl' HI Hr H Hfit) as (σ & ks & σ' & m & cf & c0 & cj & c0' & cj' &
    cl4 & e & info & Hj & Hc0 & Hcj & Ha & Hgr & Hs0 & Hsj & Hcs & Hst & Hi & Hacc & Hfw).
  assert (Hl4 : length (clients cl4) = length (clients cl)) by (by rewrite Hcs, !length_insert).
  destruct (forward_ok r σ σ' 1 j cf (indices cl4) Hacc cl4) as (cl5 & E & Hst5 & Hp).
  { unfold indices. eapply others_unmoved; [exact HI|exact Ha|done|].
    intros i [Hi0%Nat.eqb_neq Hij%Nat.eqb_neq]%orb_false_iff. split; [|lia].
    by rewrite Hcs, !list_lookup_insert_ne by done. }
  rewrite Hfw in E. injection E as <-.
  pose proof (passed_join r σ' m j _ _ _ _ _ _ _ Hj Hc0 Hcj Hs0 Hsj Hcs Hp) as Hpass.
  eapply changed_inv; [exact HI|exact Hpass|..]; rewrite Hst5, Hst.
  - intros r' Hr'. by rewrite lookup_insert_ne.
  - rewrite lookup_insert_eq. exists σ'. eapply join_agrees; try done; [|by eauto].
    by eapply lookup_lt_Some.
Qed.

(** ** The loop of [join_via_external] *)

Definition found (σ : Epoch) (o : option (N * bytes)) : Prop :=
  exists e info, o = Some (e, info) /\ info_ok σ info.

(** The loop has passed the clients of [idxs], and the GroupInfo is found if
    there was another member. *)
Definition external_done (r : N) (σ : Epoch) (j : nat) (idxs : list nat) (acc acc' : option (N * bytes))
    (cl cl' : TestCluster.t) : Prop :=
  group_info_storage cl' = group_info_storage cl /\
  passed r (at_indices (advances_to r σ) (fun i => (i =? j)%nat) idxs) (clients cl) (clients cl') /\
  (found σ acc -> found σ acc') /\
  (forall i c, i ∈ idxs -> i <> j -> clients cl !! i = Some c -> is_Some (rooms c !! r) -> found σ acc').

Lemma external_done_cons r σ j i idxs acc acc1 acc' c c1 cl cl1 cl' :
  i ∉ idxs -> clients cl !! i = Some c -> clients cl1 = <[i := c1]> (clients cl) ->
  group_info_storage cl1 = group_info_storage cl ->
  shift r (if (i =? j)%nat then same else advances_to r σ) c c1 ->
  (found σ acc -> found σ acc1) -> (i <> j -> is_Some (rooms c !! r) -> found σ acc1) ->
  external_done r σ j idxs acc1 acc' cl1 cl' -> external_done r σ j (i :: idxs) acc acc' cl cl'.
Proof.
  intros Hi Hc Hcs Hst Hs Hacc Hnow (Hst' & Hp & Hk & Hfd). rewrite Hcs in Hp, Hfd.
  split_and!; [congruence|by eapply passed_cons|by auto|].
  intros k ck [->|Hin]%elem_of_cons Hkj Hck Hroom; [simplify_eq; auto|].
  apply (Hfd k ck Hin Hkj); [|done]. by rewrite list_lookup_insert_ne by (by intros ->).
Qed.

Definition joiner_in (r : N) (σ : Epoch) (sender : N) (j : nat) (cs : list Client.t) : Prop :=
  forall c, cs !! j = Some c -> Client.sender_id c = sender /\
    exists room, rooms c !! r = Some room /\ placed sender r σ room.

Lemma joiner_in_insert r σ sender j i c c1 cs R :
  joiner_in r σ sender j cs -> cs !! i = Some c -> shift r (if (i =? j)%nat then same else R) c c1 ->
  joiner_in r σ sender j (<[i := c1]> cs).
Proof.
  intros Hj Hc Hs cj. assert (Hlt : (i < length cs)%nat) by (by eapply lookup_lt_Some).
  destruct (decide (j = i)) as [->|Hne]; [|rewrite list_lookup_insert_ne by done; apply Hj].
  rewrite list_lookup_insert_eq by done. intros [= <-]. destruct (Hj c Hc) as (Hid & room & Hroom & Hpr).
  rewrite Nat.eqb_refl in Hs. destruct Hs as (Hs1 & _ & _ & Hs2). red in Hs2. rewrite Hs2, Hs1. eauto.
Qed.

Lemma apply_external_ok r σ σ' sender j f idxs :
  acceptable r σ σ' sender f -> commit_frame Opcode.ExternalCommit sender r σ σ' f ->
  forall cl acc, unmoved r σ sender (fun i => (i =? j)%nat) idxs (clients cl) ->
  joiner_in r σ' sender j (clients cl) ->
  exists cl' acc', apply_external r j f idxs acc cl = (cl', Ok acc') /\
    external_done r σ' j idxs acc acc' cl cl'.
Proof using agreement laws sizes.
  intros Hf Hcf. induction idxs as [|i idxs IH]; intros cl acc Hu Hjoin.
  { exists cl, acc. split; [done|]. split_and!; [done|apply passed_nil|done|].
    by intros i c ?%elem_of_nil. }
  pose proof Hu as [[Hi _]%NoDup_cons H]. destruct (H i ltac:(left)) as (c & Hc & Hpl).
  cbn [apply_external]. unfold mbind at 1, M_bind at 1, get at 1. rewrite Hc. unfold is_member.
  destruct (Nat.eqb_spec i j) as [->|Hij].
  - rewrite orb_true_r. destruct (Hjoin c Hc) as (Hid & room & Hroom & Hpr).
    destruct (own_external_ok r σ σ' σ' room f (with_env (TestCluster.env cl) c)) as [text E];
      [done|by cbn; rewrite Hid|by cbn; rewrite Hid|].
    unfold mbind at 1, M_bind at 1, on_client. rewrite Hc, E. cbn [omap list_omap group_info_of last].
    match goal with |- context [apply_external r j f idxs acc ?cl1] =>
      destruct (IH cl1 acc) as (cl' & acc' & E' & Hd) end; [by eapply unmoved_cons| |].
    { eapply (joiner_in_insert _ _ _ _ _ _ _ _ same); [exact Hjoin|exact Hc|]. by rewrite Nat.eqb_refl. }
    exists cl', acc'. split; [done|].
    eapply (external_done_cons _ _ _ _ _ _ _ _ _ _ _ _ _ Hi Hc);
        last exact Hd; try done. by rewrite Nat.eqb_refl.
  - rewrite orb_false_r. destruct (rooms c !! r) as [room|] eqn:Hroom.
    + rewrite bool_decide_eq_true_2 by done. destruct (Hpl eq_refl room eq_refl) as [Hp Hne].
      destruct (one_commit r σ σ' sender f i c room cl Hf Hc Hroom Hp Hne)
        as (c' & acts & e & info & E & Hsh & Hacts & Hio).
      unfold mbind at 1, M_bind at 1. rewrite E, Hacts. cbn [last].
      match goal with |- context [apply_external r j f idxs ?acc1 ?cl1] =>
        destruct (IH cl1 acc1) as (cl' & acc' & E' & Hd) end; [by eapply unmoved_cons| |].
      { eapply joiner_in_insert; [exact Hjoin|exact Hc|]. by rewrite (proj2 (Nat.eqb_neq i j)). }
      exists cl', acc'. split; [done|]. assert (Hfd : found σ' (Some (e, info))) by (by exists e, info).
      eapply (external_done_cons _ _ _ _ _ _ _ _ _ _ _ _ _ Hi Hc);
        last exact Hd; try done. by rewrite (proj2 (Nat.eqb_neq i j)).
    + rewrite bool_decide_eq_false_2 by (intros [? [=]]).
      assert (Hins : <[i := c]> (clients cl) = clients cl) by (by apply list_insert_id).
      destruct (IH cl acc) as (cl' & acc' & E' & Hd); [rewrite <- Hins; by eapply unmoved_cons|done|].
      exists cl', acc'. split; [done|].
      eapply (external_done_cons _ _ _ _ _ _ _ _ _ c _ _ _ Hi Hc);
        last exact Hd; try done.
      { rewrite (proj2 (Nat.eqb_neq i j)) by done. apply shift_refl. by rewrite Hroom. }
      rewrite Hroom. by intros _ [? [=]].
Qed.

(** The loop leaves the joiner alone. *)
Lemma external_keeps r σ σ' sender j f idxs :
  commit_frame Opcode.ExternalCommit sender r σ σ' f ->
  forall cl acc cl' o, joiner_in r σ' sender j (clients cl) -> is_Some (clients cl !! j) ->
  apply_external r j f idxs acc cl = (cl', Ok o) ->
  joiner_in r σ' sender j (clients cl') /\ is_Some (clients cl' !! j).
Proof using agreement.
  intros Hcf. induction idxs as [|i idxs IH]; intros cl acc cl' o Hjoin Hj; cbn [apply_external].
  { intros [= <- _]. done. }
  intros (cl0 & s & [= <- <-] & H)%bind_Ok. destruct (_ || _); [|by eapply IH].
  apply bind_Ok in H as (x & cl1 & H1 & H). revert H. apply IH; clear IH; unfold on_client in H1;
    (destruct (clients cl !! i) as [c|] eqn:Hc; [|discriminate H1]);
    (destruct (decide (i = j)) as [->|Hij];
     [destruct (Hjoin c Hc) as (Hid & room & Hroom & Hpr);
      destruct (own_external_ok r σ σ' σ' room f (with_env (TestCluster.env cl) c)) as [text E];
      [done|by cbn; rewrite Hid|by cbn; rewrite Hid|]; rewrite E in H1; injection H1 as <- _; cbn [clients]
     |destruct (handle _ _) as [c' y]; injection H1 as <- _; cbn [clients]]).
  - eapply (joiner_in_insert _ _ _ _ _ _ _ _ same); [exact Hjoin|exact Hc|]. by rewrite Nat.eqb_refl.
  - intros cj. rewrite list_lookup_insert_ne by done. apply Hjoin.
  - rewrite list_lookup_insert_eq by (by eapply lookup_lt_Some). done.
  - by rewrite list_lookup_insert_ne.
Qed.

(** The joiner has entered, and then all others have moved. *)
Lemma passed_enter r σ m j cs cs' cj cj' :
  cs !! j = Some cj -> shift r (enters r σ m) cj cj' ->
  passed r (at_indices (advances_to r σ) (fun i => (i =? j)%nat) (List.seq 0 (length cs)))
    (<[j := cj']> cs) cs' ->
  passed r (fun i => if decide (i = j) then enters r σ m else advances_to r σ) cs cs'.
Proof.
  intros Hj Hsj [Hl Hp]. rewrite length_insert in Hl. split; [done|]. intros i c c' Hc Hc'.
  assert (Hlt : (i < length cs)%nat) by (by eapply lookup_lt_Some).
  assert (Hin : i ∈ List.seq 0 (length cs)) by (apply elem_of_seq; lia).
  destruct (decide (i = j)) as [->|Hne].
  - simplify_eq. specialize (Hp j cj' c' (list_lookup_insert_eq _ _ _ Hlt) Hc'). unfold at_indices in Hp.
    rewrite Nat.eqb_refl, andb_false_r in Hp. by eapply shift_same_r.
  - specialize (Hp i c c'). rewrite list_lookup_insert_ne in Hp by done. specialize (Hp Hc Hc').
    unfold at_indices in Hp. by rewrite bool_decide_eq_true_2, (proj2 (Nat.eqb_neq i j)) in Hp by done.
Qed.

(** Up to the loop over the members. *)
Lemma external_started n r j cl cl' :
  cluster_inv n cl -> N.of_nat n < 2 ^ 64 -> r < 2 ^ 128 ->
  join_via_external r j cl = (cl', Ok tt) -> fitting cl' ->
  exists σ ks σ' m cf cj cj' e0 cl1 o,
    clients cl !! j = Some cj /\
    agreeing r (view r (clients cl)) (group_info_storage cl !! r) σ ks /\
    grown (epoch_members σ) [m] (epoch_members σ') /\ shift r (enters r σ' m) cj cj' /\
    acceptable r σ σ' (Client.sender_id cj) cf /\
    commit_frame Opcode.ExternalCommit (Client.sender_id cj) r σ σ' cf /\
    let cl0 := TestCluster.mk (<[j := cj']> (clients cl)) e0 (group_info_storage cl) in
    apply_external r j cf (indices cl0) None cl0 = (cl1, Ok o) /\
    (found σ' o -> clients cl' = clients cl1 /\ exists e info, info_ok σ' info /\
       group_info_storage cl' = <[r := (e, info)]> (group_info_storage cl1)).
Proof using agreement laws sizes.
  intros HI Hn Hr. unfold join_via_external.
  intros (cl0 & s0 & [= <- <-] & H)%bind_Ok Hfit.
  apply bind_Ok in H as ([e info] & s1 & [-> Hload%ok_or_Ok]%lift_Ok & H).
  apply bind_Ok in H as (acts0 & s2 & (cj & cj1 & Hcj & Hstart & ->)%try_client_Ok & H).
  apply bind_Ok in H as (gf & s3 & [-> Hgf%map_err_Ok]%lift_Ok & H).
  apply bind_Ok in H as (acts1 & s4 & (cj1' & cj2 & Hcj1 & Hjoin & ->)%try_client_Ok & H).
  apply bind_Ok in H as (cf & s5 & [-> Hcf%ok_or_Ok]%lift_Ok & H).
  apply bind_Ok in H as (cl5 & s6 & [= <- <-] & H).
  apply bind_Ok in H as (o & cl1 & Happ & H).
  cbn [clients group_info_storage TestCluster.env fst snd] in *.
  assert (Hlt : (j < length (clients cl))%nat) by (by eapply lookup_lt_Some).
  rewrite list_lookup_insert_eq in Hcj1 by done. injection Hcj1 as <-.
  rewrite list_insert_insert_eq in Happ.
  destruct (external_start_ok _ _ _ _ Hstart) as (Hnone & Hs1 & Hp1 & Hr1).
  cbn [rooms Client.sender_id pending_joins with_env] in Hnone, Hs1, Hp1, Hr1.
  destruct (ci_rooms _ _ HI r) as [[_ Hno]|(σ & ks & Ha)]; [unfold load_group_info in Hload; congruence|].
  destruct (ag_info _ _ _ _ _ Ha) as (e' & info' & Hst & Hio). unfold load_group_info in Hload.
  rewrite Hload in Hst. injection Hst as <- <-.
  destruct (id_at n cl j cj HI Hcj) as [Hid Hjn].
  destruct (group_info_ok r e info σ gf (with_env (Client.env cj1) cj1) cj2 acts1 Hgf Hio Hr)
    as (room & σ' & cf' & info' & (Hs2 & Hp2 & Hr2) & Hp & Hf & Hgr & Hcfr & Hi & Hfr); [|done|].
  { cbn. rewrite Hs1, Hid. lia. }
  cbn [rooms Client.sender_id pending_joins with_env] in Hs2, Hp2, Hr2, Hp, Hgr, Hcfr.
  rewrite Hs1 in Hs2, Hp, Hgr, Hcfr. rewrite Hfr in Hcf. injection Hcf as <-.
  exists σ, ks, σ', (badge (Client.sender_id cj) room), cf', cj, cj2, (Client.env cj2), cl1, o.
  split_and!; try done.
  - unfold shift. rewrite Hr2, Hr1, lookup_insert_eq. split_and!; [done|congruence| |].
    + intros r' Hr'. by rewrite lookup_insert_ne.
    + split; [done|]. by exists room.
  - split_and!; try done; [by eauto| | |].
    + eapply grown_credentials; [apply Ha|done|]. apply length_to_le_bytes.
    + assert (Hkeep : joiner_in r σ' (Client.sender_id cj) j (clients cl1) /\ is_Some (clients cl1 !! j)).
      { eapply (external_keeps r σ σ'); [exact Hcfr| | |exact Happ]; cbn [clients].
        - intros cx. rewrite list_lookup_insert_eq by done. intros [= <-]. split; [done|].
          exists room. by rewrite Hr2, lookup_insert_eq.
        - by rewrite list_lookup_insert_eq by done. }
      destruct Hkeep as [Hkeep [cjn Hcjn]].
      destruct (Hkeep cjn Hcjn) as (_ & room' & Hroom' & Hpl').
      eapply (fitting_placed cl' j cjn r room'); [done| |done|exact Hpl'].
      destruct o as [[eo io]|]; by injection H as <-.
    + exists (my_leaf_index room), (mls_group room), info'. split; [apply Hp|done].
  - intros (e1 & i1 & -> & Hi1). injection H as <-. split; [done|]. by exists e1, i1.
Qed.

Lemma join_via_external_inv n r j cl cl' :
  cluster_inv n cl -> N.of_nat n < 2 ^ 64 -> r < 2 ^ 128 ->
  join_via_external r j cl = (cl', Ok tt) -> fitting cl' -> cluster_inv n cl'.
Proof using agreement laws sizes.
  intros HI Hn Hr H Hfit.
  destruct (external_started n r j cl cl' HI Hn Hr H Hfit)
    as (σ & ks & σ' & m & cf & cj & cj' & e0 & cl1 & o & Hcj & Ha & Hgr & Hs & Hacc & Hcf & Happ & Hres).
  assert (Hlt : (j < length (clients cl))%nat) by (by eapply lookup_lt_Some).
  set (cl0 := TestCluster.mk _ e0 _) in Happ.
  assert (Hl0 : length (clients cl0) = length (clients cl)) by apply length_insert.
  destruct (id_at n cl j cj HI Hcj) as [Hid _].
  destruct (apply_external_ok r σ σ' (Client.sender_id cj) j cf (indices cl0) Hacc Hcf cl0 None)
    as (cl2 & o2 & E & Hst & Hp & _ & Hfound).
  { unfold indices. eapply others_unmoved; [exact HI|exact Ha|done|].
    intros i Hij%Nat.eqb_neq. split; [|lia]. cbn. by rewrite list_lookup_insert_ne. }
  { intros c. cbn. rewrite list_lookup_insert_eq by done. intros [= <-].
    destruct Hs as (Hs & _ & _ & _ & room & Hroom & Hpl & _). split; [done|]. eauto. }
  rewrite Happ in E. injection E as <- <-.
  destruct (ag_first _ _ _ _ _ Ha) as (id0 & room0 & H0).
  unfold view in H0. rewrite list_lookup_fmap in H0.
  destruct (clients cl !! 0%nat) as [c0|] eqn:Hc0; [|done]. injection H0 as <- Hr0.
  assert (Hj0 : 0%nat <> j).
  { intros <-. simplify_eq. destruct Hs as (_ & _ & _ & Hnone & _). congruence. }
  destruct Hres as (Hcs & e & info & Hi & Hst').
  { apply (Hfound 0%nat c0); [unfold indices; rewrite Hl0; apply elem_of_seq; lia|done| |by rewrite Hr0].
    cbn. by rewrite list_lookup_insert_ne. }
  unfold indices in Hp. rewrite Hl0 in Hp.
  pose proof (passed_enter r σ' m j _ _ _ _ Hcj Hs Hp) as Hpass. rewrite <- Hcs in Hpass.
  eapply changed_inv; [exact HI|exact Hpass|..]; rewrite Hst', Hst; cbn [group_info_storage cl0].
  - intros r' Hr'. by rewrite lookup_insert_ne.
  - rewrite lookup_insert_eq. exists σ'. eapply join_agrees; try done. by eauto.
Qed.

(** ** Messages *)

Definition mid (m : Member) : N := from_le_bytes (take 8 (m_credential m)).

Lemma members_and_keys_spec id k ms : forall members keys,
  (forall m, m ∈ ms -> length (m_credential m) = 8%nat) ->
  (forall m, m ∈ ms -> mid m = id -> length (m_signature_key m) = 32%nat /\ m_signature_key m = k) ->
  let '(members', keys') := MlsGroup.members_and_keys ms members keys in
  (forall i, i ∈ members' <-> i ∈ members \/ exists m, m ∈ ms /\ mid m = i) /\
  (keys !! id = Some k \/ (exists m, m ∈ ms /\ mid m = id) -> keys' !! id = Some k).
Proof.
  induction ms as [|m ms IH]; intros members keys Hc Hk; cbn [MlsGroup.members_and_keys].
  { split; [intros i|]; split || intros [|(m & Hm%elem_of_nil & _)]; auto; try done.
    intros [|(m & Hm%elem_of_nil & _)]; done. }
  assert (Hm : (8 <=? len (m_credential m)) = true).
  { unfold len. rewrite Hc by left. done. }
  rewrite Hm. fold (mid m).
  set (keys1 := if 32 <=? len (m_signature_key m)
                then <[mid m := take 32 (m_signature_key m)]> keys else keys).
  specialize (IH (members ++ [mid m]) keys1).
  destruct (MlsGroup.members_and_keys ms (members ++ [mid m]) keys1) as [members' keys'].
  destruct IH as [Hms Hks]; [intros m' Hm'; apply Hc; by right|intros m' Hm'; apply Hk; by right|].
  split.
  - intros i. rewrite Hms, elem_of_app, list_elem_of_singleton. split.
    + intros [[H| ->]|(m' & Hm' & H)]; [by left|right; exists m; split; [left|done]|].
      right. exists m'. split; [by right|done].
    + intros [H|(m' & [->|Hm']%elem_of_cons & <-)]; [by left; left|by left; right|right; eauto].
  - intros H. apply Hks. destruct (decide (mid m = id)) as [E|E].
    + left. destruct (Hk m ltac:(left) E) as [Hl <-]. unfold keys1, len. rewrite Hl. cbn [N.leb N.of_nat].
      rewrite E. rewrite take_ge by lia. apply lookup_insert_eq.
    + destruct H as [H|(m' & [->|Hm']%elem_of_cons & Hid)]; [left|done|right; eauto].
      unfold keys1. case_match; [|done]. by rewrite lookup_insert_ne.
Qed.

Lemma members_and_keys_ids ms : forall members keys,
  (forall m, m ∈ ms -> length (m_credential m) = 8%nat) ->
  fst (MlsGroup.members_and_keys ms members keys) = members ++ map mid ms.
Proof.
  induction ms as [|m ms IH]; intros members keys Hc; cbn [MlsGroup.members_and_keys map]; [by rewrite app_nil_r|].
  assert (Hm : (8 <=? len (m_credential m)) = true) by (unfold len; by rewrite Hc by left).
  rewrite Hm. fold (mid m). rewrite IH by (intros m' Hm'; apply Hc; by right). by rewrite <- app_assoc.
Qed.

(** What a member exports of its group. *)
Lemma export_placed id r σ room : placed id r σ room ->
  MlsGroup.export_group_state (mls_group room)
  = Ok (let '(members, keys) := MlsGroup.members_and_keys (epoch_members σ) [] ∅ in
        MlsGroupState.with_keys (MlsGroup.room_id (mls_group room)) (MlsGroup.epoch (mls_group room))
          (group_tree_hash (MlsGroup.inner_group (mls_group room))) members keys).
Proof using agreement.
  intros [_ _ (Hat & _) _ _ _]. unfold MlsGroup.export_group_state.
  rewrite group_at_members, Hat, tree_hash_length. by destruct (MlsGroup.members_and_keys _ _ _).
Qed.

Lemma find_at_leaf_spec leaf ms m :
  NoDup (map m_index ms) -> (forall m, m ∈ ms -> length (m_credential m) = 8%nat) ->
  m ∈ ms -> m_index m = leaf -> MlsGroup.find_at_leaf leaf ms = Some (mid m).
Proof.
  intros Hnd Hc Hm Hl. induction ms as [|m' ms IH]; [by apply elem_of_nil in Hm|].
  cbn [MlsGroup.find_at_leaf map] in *. apply NoDup_cons in Hnd as [Hni Hnd].
  destruct (N.eqb_spec (m_index m') leaf) as [E|E].
  - assert (m = m') as ->.
    { apply elem_of_cons in Hm as [->|Hm]; [done|]. destruct Hni. rewrite E, <- Hl.
      by apply list_elem_of_fmap_2. }
    rewrite credential_ok by (apply Hc; left). unfold mid. rewrite take_ge; [done|]. rewrite Hc by left. lia.
  - apply elem_of_cons in Hm as [->|Hm]; [done|]. apply IH; [done| |done]. intros m0 H0. apply Hc. by right.
Qed.

Lemma mid_badge id room : id < 2 ^ 64 -> mid (badge id room) = id.
Proof.
  intros H. unfold mid, badge, own_member. cbn [m_credential].
  rewrite take_ge by (rewrite length_to_le_bytes; lia). by apply from_to_le_bytes.
Qed.

(** The members of an epoch are the clients; a member's id names it. *)
Lemma member_is_client n r cl σ m :
  cluster_inv n cl -> N.of_nat n < 2 ^ 64 -> epoch_members σ ≡ₚ roster (view r (clients cl)) ->
  m ∈ epoch_members σ ->
  exists i c room, clients cl !! i = Some c /\ rooms c !! r = Some room /\
    m = badge (Client.sender_id c) room /\ mid m = N.of_nat i + 1.
Proof.
  intros HI Hn Hro Hm. rewrite Hro in Hm. destruct (roster_elem _ _ _ Hm) as (i & c & room & Hc & Hr & ->).
  destruct (id_at n cl i c HI Hc) as [Hid Hi]. exists i, c, room. split_and!; try done.
  rewrite mid_badge; [done|]. rewrite Hid. lia.
Qed.

Lemma client_is_member r cl σ i c room :
  epoch_members σ ≡ₚ roster (view r (clients cl)) -> clients cl !! i = Some c ->
  rooms c !! r = Some room -> badge (Client.sender_id c) room ∈ epoch_members σ.
Proof.
  intros Hro Hc Hr. rewrite Hro. unfold roster. rewrite list_elem_of_omap.
  exists (Some (badge (Client.sender_id c) room)). split; [|done]. apply list_elem_of_lookup.
  exists i. rewrite badges_lookup, Hc. cbn. by rewrite Hr.
Qed.

Lemma sender_known n r cl stored σ ks i c room id rk :
  cluster_inv n cl -> N.of_nat n < 2 ^ 64 ->
  agreeing r (view r (clients cl)) stored σ ks ->
  clients cl !! i = Some c -> rooms c !! r = Some room -> placed (Client.sender_id c) r σ room ->
  placed id r σ rk ->
  let g := mls_group rk in let state := MlsGroup.export_validation_state g in
  Client.sender_id c ∈ MlsGroupState.members state /\
  MlsGroupState.member_keys state !! Client.sender_id c
  = Some (signer_public (MlsGroup.signer (mls_group room))) /\
  MlsGroup.member_id_by_leaf_index g (my_leaf_index room) = Some (Client.sender_id c).
Proof using agreement.
  intros HI Hn Ha Hc Hroom Hpl Hplk g state. pose proof Hplk as [_ _ (Hat & _) _ _ _].
  pose proof (ag_roster _ _ _ _ _ Ha) as Hro. destruct (id_at n cl i c HI Hc) as [Hid _].
  pose proof (client_is_member r cl σ i c room Hro Hc Hroom) as Hm.
  assert (Hcreds : forall m, m ∈ epoch_members σ -> length (m_credential m) = 8%nat).
  { apply Forall_forall. by eapply roster_credentials. }
  assert (Hmid : mid (badge (Client.sender_id c) room) = Client.sender_id c).
  { apply mid_badge. rewrite Hid. destruct (id_at n cl i c HI Hc). lia. }
  assert (Hkeys : forall m, m ∈ epoch_members σ -> mid m = Client.sender_id c ->
    length (m_signature_key m) = 32%nat /\
    m_signature_key m = signer_public (MlsGroup.signer (mls_group room))).
  { intros m Hm' E. destruct (member_is_client n r cl σ m HI Hn Hro Hm') as (i' & c' & room' & Hc' & Hr' & -> & Hi').
    rewrite E, Hid in Hi'. assert (i' = i) as -> by lia. simplify_eq. split; [apply Hpl|done]. }
  unfold state, MlsGroup.export_validation_state, g. rewrite (export_placed _ _ _ _ Hplk).
  pose proof (members_and_keys_spec (Client.sender_id c) _ (epoch_members σ) [] ∅ Hcreds Hkeys) as H.
  destruct (MlsGroup.members_and_keys _ _ _) as [members keys]. destruct H as [Hms Hks].
  split_and!; cbn.
  - apply Hms. right. eauto.
  - apply Hks. right. eauto.
  - unfold g, MlsGroup.member_id_by_leaf_index. rewrite group_at_members, Hat, <- Hmid.
    apply find_at_leaf_spec; [apply Ha|done..].
Qed.

(** A message frame as it is sent. *)
Lemma sent_frame_fields sid r g payload key :
  signs_for (MlsGroup.signer g) key -> len payload <= FrameHeader.MAX_PAYLOAD_SIZE ->
  sid < 2 ^ 64 -> r < 2 ^ 128 ->
  let h := Frame.header (message_frame sid r g payload) in
  FrameHeader.opcode_enum h = Some Opcode.AppMessage /\ FrameHeader.room_id h = r /\
  FrameHeader.sender_id h = sid /\ FrameHeader.epoch h = MlsGroup.epoch g /\
  exists vk sig, vk_from_bytes key = Some vk /\
    signature_try_from (FrameHeader.signature h) = Some sig /\
    verify vk (FrameHeader.signing_data h) sig = true.
Proof using laws.
  intros Hs Hlen Hsid Hr h.
  destruct (message_frame_signed sid r g payload key Hs) as (sb & Hsb & Hh & vk & sig & Hk & Hsig & Hv).
  { unfold FrameHeader.MAX_PAYLOAD_SIZE, u32_MAX in *. lia. }
  unfold h. rewrite Hh. split_and!.
  - apply (FrameHeader.opcode_enum_new Opcode.AppMessage).
  - exact (from_to_be_bytes 16 r Hr).
  - exact (from_to_be_bytes 8 sid Hsid).
  - exact (from_to_be_bytes 8 _ (group_epoch_u64 _)).
  - exists vk, sig. split_and!; [done..|].
    rewrite FrameHeader.signing_data_set_signature; [exact Hv|exact Hsb|apply message_header_wf].
Qed.

Lemma sent_frame_head sid r g payload key :
  signs_for (MlsGroup.signer g) key -> len payload <= FrameHeader.MAX_PAYLOAD_SIZE ->
  sid < 2 ^ 64 -> r < 2 ^ 128 ->
  let f := message_frame sid r g payload in
  head (frames_of [Opcode.AppMessage] [CASend f]) = Some f.
Proof using laws.
  intros Hs Hlen Hsid Hr f.
  destruct (sent_frame_fields sid r g payload key Hs Hlen Hsid Hr) as (Hop & _).
  by rewrite (frames_of_send _ _ _ _ Hop).
Qed.

(** What a member sends, another member reads; both have then the same keys. *)
Lemma receive_ok n r cl stored σ ks secret i c room k ck rk e rnd p ks1 msg payload :
  cluster_inv n cl -> N.of_nat n < 2 ^ 64 -> r < 2 ^ 128 ->
  agreeing r (view r (clients cl)) stored σ ks ->
  SenderKeyProperties.synced secret (MlsGroup.epoch (mls_group room)) ks ->
  clients cl !! i = Some c -> rooms c !! r = Some room -> placed (Client.sender_id c) r σ room ->
  k <> i -> clients cl !! k = Some ck -> rooms ck !! r = Some rk ->
  SenderKeyStore.encrypt (my_leaf_index room) p rnd ks = (ks1, Ok msg) ->
  Encryption.sender_index msg = my_leaf_index room ->
  into_writer (crypto_to_proto_encrypted msg) = inr payload ->
  len payload <= FrameHeader.MAX_PAYLOAD_SIZE ->
  let f := message_frame (Client.sender_id c) r (mls_group room) payload in
  exists ck' index time,
    handle (CEFrameReceived f) (with_env e ck)
    = (ck', Ok [CADeliverMessage r (Client.sender_id c) p index time]) /\
    shift r (rekeyed ks1) ck ck'.
Proof using agreement laws.
  intros HI Hn Hr Ha Hsync Hc Hroom Hpl Hk Hck Hrk Henc Hidx Hpay Hsize f.
  destruct (id_at n cl i c HI Hc) as [Hid Hi]. destruct (id_at n cl k ck HI Hck) as [Hidk _].
  assert (Hid64 : Client.sender_id c < 2 ^ 64) by (rewrite Hid; lia).
  assert (Hin : (Client.sender_id ck, Some rk) ∈ view r (clients cl)).
  { rewrite <- Hrk. eapply list_elem_of_lookup_2. by apply view_lookup. }
  destruct (ag_placed _ _ _ _ _ Ha _ _ Hin) as [Hplk Hks].
  destruct (sender_known n r cl stored σ ks i c room _ rk HI Hn Ha Hc Hroom Hpl Hplk) as (Hmem & Hkey & Hleaf).
  destruct (sent_frame_fields (Client.sender_id c) r (mls_group room) payload _ (mg_signs _ _ _ _ _ Hpl) Hsize)
    as (Hop & Hro & Hse & Hep & vk & sig & Hvk & Hsig & Hver); [done..|]. fold f in Hop, Hro, Hse, Hep, Hsig, Hver.
  assert (Hepoch : MlsGroup.epoch (mls_group room) = MlsGroup.epoch (mls_group rk)).
  { apply group_at_epoch. destruct Hpl as [_ _ (-> & _) _ _ _]. by destruct Hplk as [_ _ (-> & _) _ _ _]. }
  assert (Hread : readable (with_env e ck) f rk (crypto_to_proto_encrypted msg)).
  { unfold readable. rewrite Hro, Hse, Hep. cbn [rooms Client.sender_id with_env em_sender_index
      crypto_to_proto_encrypted]. rewrite Hidx. split_and!; try done.
    - rewrite Hid, Hidk. lia.
    - eauto 10.
    - by apply from_reader_into_writer. }
  rewrite handle_app_frame by done. rewrite (app_message_answer _ _ _ _ Hread), proto_crypto_encrypted, Hks, Hro.
  destruct (SenderKeyProperties.decrypt_copy _ _ _ _ _ _ _ _ Hsync Henc) as [-> _].
  eexists _, _, _. split; [cbn; unfold delivery; by rewrite Hro, Hse|].
  unfold shift. cbn. rewrite lookup_insert_eq. split_and!; [done..| |by unfold rekeyed; rewrite Hrk].
  intros r' Hr'. by rewrite lookup_insert_ne.
Qed.

(** Every client of [idxs] but the sender reads the message. *)
Definition readers (r : N) (i : nat) (sid : N) (p : bytes) (f : Frame.t) (ks : SenderKeyStore.t)
    (idxs : list nat) (cs : list Client.t) : Prop :=
  NoDup idxs /\
  forall k, k ∈ idxs -> exists c, cs !! k = Some c /\
    (k <> i -> is_Some (rooms c !! r) -> forall e, exists c' index time,
       handle (CEFrameReceived f) (with_env e c) = (c', Ok [CADeliverMessage r sid p index time]) /\
       shift r (rekeyed ks) c c').

Lemma readers_cons r i sid p f ks k idxs cs c' :
  readers r i sid p f ks (k :: idxs) cs -> readers r i sid p f ks idxs (<[k := c']> cs).
Proof.
  intros [[Hk Hnd]%NoDup_cons H]. split; [done|]. intros k' Hk'.
  rewrite list_lookup_insert_ne by (by intros ->). apply H. by right.
Qed.

Lemma deliveries_verified r i sid p f ks idxs : forall cl,
  readers r i sid p f ks idxs (clients cl) ->
  exists cl', verify_delivery r i sid p f idxs cl = (cl', Ok tt) /\
    group_info_storage cl' = group_info_storage cl /\
    passed r (at_indices (rekeyed ks) (fun k => (k =? i)%nat) idxs) (clients cl) (clients cl').
Proof.
  induction idxs as [|k idxs IH]; intros cl Hu.
  { exists cl. split_and!; [done..|apply passed_nil]. }
  pose proof Hu as [[Hk _]%NoDup_cons H]. destruct (H k ltac:(left)) as (c & Hc & Hread).
  assert (Hins : <[k := c]> (clients cl) = clients cl) by (by apply list_insert_id).
  cbn [verify_delivery]. unfold mbind at 1, M_bind at 1, get at 1. rewrite Hc. unfold is_member.
  unfold mbind at 1, M_bind at 1.
  destruct (Nat.eqb_spec k i) as [->|Hki].
  { cbn [orb]. destruct (IH cl) as (cl' & E & Hst & Hp); [rewrite <- Hins; by eapply readers_cons|].
    exists cl'. split_and!; [done..|]. eapply passed_cons; [exact Hk|exact Hc| |rewrite Hins; exact Hp].
    rewrite Nat.eqb_refl. by apply shift_refl. }
  cbn [orb]. destruct (rooms c !! r) as [room|] eqn:Hroom.
  - rewrite bool_decide_eq_true_2 by done. cbn [negb].
    destruct (Hread Hki ltac:(by eexists) (TestCluster.env cl)) as (c' & index & time & E & Hs).
    unfold mbind at 1, M_bind at 1. rewrite (try_client_run k _ _ _ _ _ _ Hc E).
    cbn [existsb delivers]. rewrite N.eqb_refl, bool_decide_eq_true_2 by done. cbn [andb orb].
    unfold mret, M_ret.
    match goal with |- context [verify_delivery r i sid p f idxs ?cl1] =>
      destruct (IH cl1) as (cl' & E' & Hst & Hp) end; [by eapply readers_cons|].
    exists cl'. split_and!; [done..|]. eapply passed_cons; [exact Hk|exact Hc| |exact Hp].
    by rewrite (proj2 (Nat.eqb_neq k i)).
  - rewrite bool_decide_eq_false_2 by (intros [? [=]]). cbn [negb].
    destruct (IH cl) as (cl' & E & Hst & Hp); [rewrite <- Hins; by eapply readers_cons|].
    exists cl'. split_and!; [done..|]. eapply passed_cons; [exact Hk|exact Hc| |rewrite Hins; exact Hp].
    rewrite (proj2 (Nat.eqb_neq k i)) by done. apply shift_refl. by rewrite Hroom.
Qed.

Lemma rekey_agrees r v' stored σ ks ks1 cs cs' :
  agreeing r (view r cs) stored σ ks -> keyed_for σ ks1 -> passed r (fun _ => rekeyed ks1) cs cs' ->
  v' = view r cs' -> agreeing r v' stored σ ks1.
Proof.
  intros [] Hks Hp ->.
  assert (Hb : badges (view r cs') = badges (view r cs)).
  { unfold badges, view. rewrite !map_map. apply map_pointwise; [apply Hp|]. intros i c c' Hc Hc'.
    destruct (proj2 Hp i c c' Hc Hc') as (-> & _ & _ & ->). by destruct (rooms c !! r). }
  split; try done.
  - intros id room (i & c' & Hc' & -> & Hroom)%view_elem.
    destruct (passed_lookup _ _ _ _ _ _ Hp Hc') as (c & Hc & -> & _ & _ & HR).
    rewrite <- Hroom in HR. unfold rekeyed in HR. symmetry in HR. apply fmap_Some in HR as (room0 & Hr0 & ->).
    split; [|done]. apply (ag_placed0 _ room0). rewrite <- Hr0.
    eapply list_elem_of_lookup_2. by apply view_lookup.
  - unfold roster. by rewrite Hb.
  - destruct ag_first0 as (id0 & room0 & H0). unfold view in H0. rewrite list_lookup_fmap in H0.
    destruct (cs !! 0%nat) as [c|] eqn:Hc; [|done]. injection H0 as <- Hr0.
    assert (Hlt : (0 < length cs')%nat) by (rewrite (proj1 Hp); by eapply lookup_lt_Some).
    destruct (lookup_lt_is_Some_2 _ _ Hlt) as [c' Hc'].
    destruct (proj2 Hp _ _ _ Hc Hc') as (_ & _ & _ & HR). red in HR. rewrite Hr0 in HR.
    eexists _, _. rewrite (view_lookup r cs' 0 c' Hc'), HR. reflexivity.
Qed.

(** A member has a sequence of keys of its own. *)
Lemma own_generation r cl stored σ ks i c room :
  agreeing r (view r (clients cl)) stored σ ks ->
  clients cl !! i = Some c -> rooms c !! r = Some room ->
  placed (Client.sender_id c) r σ room /\ sender_keys room = ks /\ my_leaf_index room < 2 ^ 32 /\
  exists secret g, SenderKeyProperties.synced secret (MlsGroup.epoch (mls_group room)) ks /\
    SenderKeyStore.sender_generation ks (my_leaf_index room) = Some g.
Proof using laws.
  intros Ha Hc Hroom.
  assert (Hin : (Client.sender_id c, Some room) ∈ view r (clients cl)).
  { rewrite <- Hroom. eapply list_elem_of_lookup_2. by apply view_lookup. }
  destruct (ag_placed _ _ _ _ _ Ha _ _ Hin) as [Hp Hks]. split_and!; [done..| |].
  - destruct Hp as [_ _ (_ & <- & _) _ _ _]. apply group_own_leaf_index_u32.
  - destruct (ag_keys _ _ _ _ _ Ha) as [(secret & e & Hs & He) Hdom].
    destruct (Hdom _ (client_is_member r cl σ i c room (ag_roster _ _ _ _ _ Ha) Hc Hroom)) as [rt Hrt].
    cbn in Hrt. exists secret, (SymmetricRatchet.generation rt). split.
    + destruct Hp as [_ _ (Hat & _) _ _ _]. unfold MlsGroup.epoch. by rewrite (He _ Hat).
    + unfold SenderKeyStore.sender_generation. by rewrite Hrt.
Qed.

Lemma send_needs r p c c' acts :
  handle (CESendMessage r p) c = (c', Ok acts) ->
  exists room rnd ks msg, rooms c !! r = Some room /\
    SenderKeyStore.encrypt (my_leaf_index room) p rnd (sender_keys room) = (ks, Ok msg).
Proof.
  cbn [handle]. unfold handle_send_message. intros (room & s1 & Hroom & H)%bind_Ok.
  unfold get_room in Hroom. destruct (rooms c !! r) as [room'|] eqn:Hr; [|done].
  injection Hroom as <- <-. apply bind_Ok in H as (rnd & s2 & Hrnd & H).
  apply bind_Ok in H as (msg & s3 & Hkeys & _).
  destruct (random_bytes _ _) as [bs e]. injection Hrnd as <- <-.
  unfold keys_call in Hkeys. cbn [rooms with_env] in Hkeys. rewrite Hr in Hkeys.
  destruct (SenderKeyStore.encrypt _ _ _ _) as [ks [m| |]] eqn:E; [|done..]. eauto 6.
Qed.

(** The sender and then all others have the next keys. *)
Lemma passed_sent r ks i c c' cs cs' :
  cs !! i = Some c -> shift r (rekeyed ks) c c' ->
  passed r (at_indices (rekeyed ks) (fun k => (k =? i)%nat) (List.seq 0 (length cs))) (<[i := c']> cs) cs' ->
  passed r (fun _ => rekeyed ks) cs cs'.
Proof.
  intros Hc Hs [Hl Hp]. rewrite length_insert in Hl. split; [done|]. intros k ck ck' Hck Hck'.
  assert (Hlt : (i < length cs)%nat) by (by eapply lookup_lt_Some).
  destruct (decide (k = i)) as [->|Hne].
  - simplify_eq. specialize (Hp i c' ck' (list_lookup_insert_eq _ _ _ Hlt) Hck'). unfold at_indices in Hp.
    rewrite Nat.eqb_refl, andb_false_r in Hp. by eapply shift_same_r.
  - specialize (Hp k ck ck'). rewrite list_lookup_insert_ne in Hp by done.
    specialize (Hp Hck Hck'). unfold at_indices in Hp.
    rewrite bool_decide_eq_true_2, (proj2 (Nat.eqb_neq k i)) in Hp; [done|done|].
    apply elem_of_seq. apply lookup_lt_Some in Hck. lia.
Qed.

(** The keys after a message are again keys for all members. *)
Lemma sent_keyed σ ks secret room id r i p rnd ks1 msg :
  keyed_for σ ks -> placed id r σ room ->
  SenderKeyProperties.synced secret (MlsGroup.epoch (mls_group room)) ks ->
  SenderKeyStore.encrypt i p rnd ks = (ks1, Ok msg) -> keyed_for σ ks1.
Proof using agreement.
  intros [_ Hdom] [_ _ (Hat & _) _ _ _] Hs Henc.
  destruct (SenderKeyProperties.decrypt_copy _ _ _ _ _ _ _ _ Hs Henc) as (_ & Hs1 & Hd). split.
  - exists secret, (MlsGroup.epoch (mls_group room)). split; [done|]. intros g Hg.
    apply group_at_epoch. by rewrite Hg, Hat.
  - intros m Hm. apply elem_of_dom. rewrite Hd. by apply elem_of_dom, Hdom.
Qed.

(** A member that has keys left sends, every other member reads. *)
Lemma cluster_send_ok n r i p cl c room g :
  cluster_inv n cl -> N.of_nat n < 2 ^ 64 -> r < 2 ^ 128 -> len p < 2 ^ 22 ->
  clients cl !! i = Some c -> rooms c !! r = Some room ->
  SenderKeyStore.sender_generation (sender_keys room) (my_leaf_index room) = Some g -> g < u32_MAX ->
  exists cl', send_and_verify r i p cl = (cl', Ok tt) /\ cluster_inv n cl'.
Proof using agreement laws sizes.
  intros HI Hn Hr Hlen Hc Hroom Hg Hmax.
  destruct (room_agreed n r cl i c room HI Hc Hroom) as (σ & ks & Ha & _).
  destruct (own_generation r cl _ σ ks i c room Ha Hc Hroom) as (Hp & <- & Hleaf & secret & _ & Hs & _).
  destruct (EndToEnd.message_sent (with_env (TestCluster.env cl) c) r room secret g p)
    as (e & rnd & ks1 & msg & payload & Hsend & Henc & Hidx & Hpay & Hsize); [done..|].
  unfold send_and_verify, mbind at 1, M_bind at 1, get at 1. rewrite Hc.
  unfold mbind at 1, M_bind at 1. rewrite (try_client_run i _ _ _ _ _ _ Hc Hsend).
  cbn [Client.sender_id with_env rooms].
  set (f := message_frame (Client.sender_id c) r (mls_group room) payload).
  set (ci := with_rooms _ _). set (cl1 := TestCluster.mk _ _ _).
  assert (Hhead : head (frames_of [Opcode.AppMessage] [CASend f]) = Some f).
  { destruct (id_at n cl i c HI Hc). apply sent_frame_head with (key := signer_public (MlsGroup.signer (mls_group room)));
      [apply Hp|done|lia|done]. }
  unfold mbind at 1, M_bind at 1. rewrite Hhead. cbn [ok_or lift].
  unfold mbind at 1, M_bind at 1, get at 1.
  destruct (deliveries_verified r i (Client.sender_id c) p f ks1 (indices cl1) cl1) as (cl' & E & Hst & Hpass).
  { split; [apply NoDup_seq|]. intros k [_ Hk]%elem_of_seq. cbn [cl1 clients] in *.
    destruct (lookup_lt_is_Some_2 _ _ Hk) as [ck Hck]. exists ck. split; [exact Hck|].
    intros Hki [rk Hrk] e'. rewrite list_lookup_insert_ne in Hck by done. by eapply receive_ok. }
  exists cl'. split; [exact E|].
  assert (Hall : passed r (fun _ => rekeyed ks1) (clients cl) (clients cl')).
  { unfold indices in Hpass. cbn [cl1 clients] in Hpass. rewrite length_insert in Hpass.
    eapply passed_sent; [exact Hc| |exact Hpass].
    apply (moved_shift r (mkRoom (mls_group room) ks1 (my_leaf_index room))); [done|].
    unfold rekeyed. by rewrite Hroom. }
  eapply changed_inv; [exact HI|exact Hall|by rewrite Hst|].
  rewrite Hst. exists σ, ks1. eapply rekey_agrees; [exact Ha| |exact Hall|done].
  eapply sent_keyed; [apply Ha|exact Hp|exact Hs|exact Henc].
Qed.

Lemma send_inv n r i p cl cl' :
  cluster_inv n cl -> N.of_nat n < 2 ^ 64 -> r < 2 ^ 128 -> len p < 2 ^ 22 ->
  send_and_verify r i p cl = (cl', Ok tt) -> cluster_inv n cl'.
Proof using agreement laws sizes.
  intros HI Hn Hr Hlen H. pose proof H as H0. unfold send_and_verify in H0.
  apply bind_Ok in H0 as (cl0 & s & [= <- <-] & H0). destruct (clients cl !! i) as [c|] eqn:Hc; [|done].
  apply bind_Ok in H0 as (acts & s1 & (c0 & c' & Hc0 & Hh & _)%try_client_Ok & _). simplify_eq.
  destruct (send_needs _ _ _ _ _ Hh) as (room & rnd & ks1 & msg & Hroom & Henc).
  destruct (room_agreed n r cl i c room HI Hc Hroom) as (σ & ks & Ha & _).
  destruct (own_generation r cl _ σ ks i c room Ha Hc Hroom) as (Hp & <- & Hleaf & secret & g & Hs & Hg).
  rewrite (SenderKeyProperties.encrypt_cases _ _ _ _ _ _ Hs), Hg in Henc.
  destruct (SenderKeyProperties.synced_at _ _ _ _ _ Hs Hg) as [Hle _].
  destruct (N.eqb_spec g u32_MAX); [done|].
  destruct (cluster_send_ok n r i p cl c room g) as (cl2 & E & HI2); [done..|lia|]. congruence.
Qed.

(** ** Runs of the cluster *)

Inductive op :=
  OCreate (r : N)
| OWelcome (r : N) (joiner : nat)
| OExternal (r : N) (joiner : nat)
| OSend (r : N) (sender : nat) (message : bytes).

Definition exec (o : op) : M TestCluster.t string unit :=
  match o with
  | OCreate r => create_room r
  | OWelcome r j => join_via_welcome r j
  | OExternal r j => join_via_external r j
  | OSend r i p => send_and_verify r i p
  end.

Definition op_ok (o : op) : Prop :=
  match o with
  | OCreate r | OWelcome r _ | OExternal r _ => r < 2 ^ 128
  | OSend r _ p => r < 2 ^ 128 /\ len p < 2 ^ 22
  end.

(** A scenario of a test: every step is expected to succeed. *)
Fixpoint runs (ops : list op) : M TestCluster.t string unit :=
  match ops with
  | [] => mret tt
  | o :: rest => exec o;; runs rest
  end.

(** After every step of it the GroupInfos are smaller than 4 MiB. *)
Fixpoint runs_fit (ops : list op) (cl : TestCluster.t) : Prop :=
  match ops with
  | [] => True
  | o :: rest => let cl' := fst (exec o cl) in fitting cl' /\ runs_fit rest cl'
  end.

Lemma exec_inv n o cl cl' :
  N.of_nat n < 2 ^ 64 -> op_ok o -> cluster_inv n cl -> exec o cl = (cl', Ok tt) -> fitting cl' ->
  cluster_inv n cl'.
Proof using agreement laws sizes.
  intros Hn Ho HI. destruct o; cbn in Ho |- *.
  - by apply create_room_inv.
  - by apply join_via_welcome_inv.
  - by apply join_via_external_inv.
  - destruct Ho. intros Hs _. by eapply send_inv.
Qed.

Lemma runs_inv n ops : forall cl cl',
  N.of_nat n < 2 ^ 64 -> Forall op_ok ops -> runs_fit ops cl -> cluster_inv n cl ->
  runs ops cl = (cl', Ok tt) -> cluster_inv n cl'.
Proof using agreement laws sizes.
  induction ops as [|o ops IH]; intros cl cl' Hn Hops Hfit HI H; [by injection H as <-|].
  apply Forall_cons in Hops as [Ho Hops].
  apply bind_Ok in H as ([] & cl1 & Ho1 & H). cbn in Hfit. rewrite Ho1 in Hfit. destruct Hfit as [Hf Hfit].
  eapply IH; [done..| |exact H]. by eapply exec_inv.
Qed.

Lemma cluster_new_inv e n : cluster_inv n (TestCluster.new e n).
Proof.
  split; cbn.
  - unfold client_ids. by rewrite map_map.
  - by intros c (i & -> & _)%list_elem_of_fmap.
  - intros r. left. split; [|done]. by intros c (i & -> & _)%list_elem_of_fmap.
Qed.

(** The ids of the clients that have a room. *)
Definition in_room (r : N) (cl : TestCluster.t) : list N :=
  map Client.sender_id (filter (fun c => is_member c r = true) (clients cl)).

Lemma roster_ids r cs : (forall c, c ∈ cs -> Client.sender_id c < 2 ^ 64) ->
  map mid (roster (view r cs)) = map Client.sender_id (filter (fun c => is_member c r = true) cs).
Proof.
  induction cs as [|c cs IH]; intros Hid; [done|]. rewrite filter_cons.
  specialize (IH (fun c' H => Hid c' ltac:(by right))). unfold roster in *.
  assert (Hm : is_member c r = true <-> is_Some (rooms c !! r)) by apply bool_decide_eq_true.
  cbn [view map badges omap list_omap id]. destruct (rooms c !! r) as [room|]; cbn [fmap option_fmap option_map].
  - rewrite decide_True by (by apply Hm). cbn [map]. by rewrite mid_badge, <- IH by (apply Hid; left).
  - rewrite decide_False; [done|]. by intros [? [=]]%Hm.
Qed.

(** All members of a room see one epoch, one tree and the same members. *)
Definition agree_on (r : N) (cl : TestCluster.t) : Prop :=
  exists e th ids, ids ≡ₚ in_room r cl /\
    forall c, c ∈ clients cl -> is_member c r = true ->
      Client.epoch c r = Some e /\ Client.tree_hash c r = Some th /\ Client.member_ids c r = Some ids.

Lemma inv_agree n r cl : cluster_inv n cl -> N.of_nat n < 2 ^ 64 -> agree_on r cl.
Proof using agreement.
  intros HI Hn. destruct (ci_rooms _ _ HI r) as [[Hnone _]|(σ & ks & Ha)].
  { exists 0, [], []. assert (Hn0 : forall c, c ∈ clients cl -> is_member c r <> true).
    { intros c Hc. unfold is_member. rewrite (Hnone c Hc), bool_decide_eq_false_2; [done|]. by intros [? [=]]. }
    split; [|intros c Hc H; by destruct (Hn0 c Hc)]. unfold in_room.
    destruct (filter (fun c => is_member c r = true) (clients cl)) as [|c l] eqn:E; [done|].
    assert (Hc : c ∈ filter (fun c => is_member c r = true) (clients cl)) by (rewrite E; left).
    apply list_elem_of_filter in Hc as [Hm Hc]. by destruct (Hn0 c Hc). }
  destruct (ag_first _ _ _ _ _ Ha) as (id0 & room0 & H0).
  assert (Hp : forall c room, c ∈ clients cl -> rooms c !! r = Some room -> placed (Client.sender_id c) r σ room).
  { intros c room (i & Hc)%list_elem_of_lookup Hroom.
    apply (ag_placed _ _ _ _ _ Ha). rewrite <- Hroom. eapply list_elem_of_lookup_2. by apply view_lookup. }
  apply list_elem_of_lookup_2 in H0. pose proof H0 as [Hp0 _]%(ag_placed _ _ _ _ _ Ha).
  exists (MlsGroup.epoch (mls_group room0)), (group_tree_hash (MlsGroup.inner_group (mls_group room0))),
    (map mid (epoch_members σ)). split.
  - rewrite (ag_roster _ _ _ _ _ Ha). rewrite roster_ids; [done|].
    intros c (i & Hc)%list_elem_of_lookup. destruct (id_at n cl i c HI Hc) as [-> ?]. lia.
  - intros c Hc Hm. apply bool_decide_eq_true_1 in Hm as [room Hroom].
    specialize (Hp c room Hc Hroom). unfold Client.epoch, Client.tree_hash, Client.member_ids.
    rewrite Hroom. cbn [fmap option_fmap option_map mbind option_bind]. rewrite (export_placed _ _ _ _ Hp).
    assert (Hcreds : forall m, m ∈ epoch_members σ -> length (m_credential m) = 8%nat).
    { apply Forall_forall. eapply roster_credentials, (ag_roster _ _ _ _ _ Ha). }
    pose proof (members_and_keys_ids (epoch_members σ) [] ∅ Hcreds) as Hids.
    destruct (MlsGroup.members_and_keys _ _ _) as [members keys]. cbn in Hids |- *. subst members.
    destruct Hp as [_ _ (Hat & _) _ _ _], Hp0 as [_ _ (Hat0 & _) _ _ _].
    destruct (group_at_epoch (MlsGroup.inner_group (mls_group room)) (MlsGroup.inner_group (mls_group room0))) as [E1 E2];
      [congruence|].
    unfold MlsGroup.epoch. by rewrite E1, E2.
Qed.


End convergence.

(** ** A run *)

Import ClientSample.

(** Three clients: the first creates the room, the second joins by Welcome, the
    third by external commit; all send. *)
Definition three_join : list op :=
  [OCreate 7; OWelcome 7 1; OSend 7 1 SenderKeyProperties.sample_text; OExternal 7 2;
   OSend 7 2 SenderKeyProperties.sample_text; OSend 7 0 SenderKeyProperties.sample_text].
Definition three_joined : TestCluster.t := fst (runs three_join (TestCluster.new (mkTestEnv 0 1 65 0) 3)).

Lemma three_join_runs : runs three_join (TestCluster.new (mkTestEnv 0 1 65 0) 3) = (three_joined, Ok tt).
Proof.
  assert (H : snd (runs three_join (TestCluster.new (mkTestEnv 0 1 65 0) 3)) = Ok tt)
    by (vm_compute; reflexivity).
  unfold three_joined. destruct (runs three_join _). cbn [fst snd] in *. by rewrite H.
Qed.

(** The rooms have few members. *)
Definition few_members (c : Client.t) : bool :=
  forallb (fun '(_, room) =>
    (length (epoch_members (group_at (MlsGroup.inner_group (mls_group room)))) <=? 1000)%nat)
    (map_to_list (rooms c)).
Fixpoint runs_small (ops : list op) (cl : TestCluster.t) : bool :=
  match ops with
  | [] => true
  | o :: rest => let cl' := fst (exec o cl) in forallb few_members (clients cl') && runs_small rest cl'
  end.

Lemma runs_small_fit ops : forall cl, runs_small ops cl = true -> runs_fit ops cl.
Proof.
  induction ops as [|o ops IH]; intros cl; [done|]. cbn [runs_small runs_fit].
  intros [Hf Hr]%andb_true_iff. split; [|by apply IH]. intros i c r room Hc Hroom.
  rewrite forallb_forall in Hf. specialize (Hf c (proj1 (list_elem_of_In _ _) (list_elem_of_lookup_2 _ _ _ Hc))).
  unfold few_members in Hf. rewrite forallb_forall in Hf.
  specialize (Hf (r, room) (proj1 (list_elem_of_In _ _) (proj2 (elem_of_map_to_list _ _ _) Hroom))).
  apply plain_fits. by apply Nat.leb_le in Hf.
Qed.


End Convergence.
