(* ===== verification/App.v ===== *)
(** * The application

    The parts of [lockframe-app] between the user and the client: the state of
    the interface ([app.rs], [state.rs], [event.rs], [action.rs]), the bridge to
    the client ([bridge.rs]) and the loop that drives them over a driver of the
    platform ([runtime.rs], [driver.rs]).  The driver is a class; what a call of
    it does to the terminal and the network is its own state. *)

From S2P Require Import Prelude Env Opcodes Header Framing Payloads Validator SenderKeys Mls.
From S2P Require Import Samples Client ClientInv.

Local Open Scope N_scope.

(** The key a hash map gives first: any of its keys. *)
Class HashOrder := {
  first_key {A} (m : gmap N A) : option N;
  first_key_None {A} (m : gmap N A) : first_key m = None <-> m = ∅;
  first_key_Some {A} (m : gmap N A) k : first_key m = Some k -> is_Some (m !! k);
}.

Inductive ConnectionState :=
  | Disconnected
  | Connecting
  | Connected (session_id sender_id : N).

Record Message := mkMessage { msg_sender_id : N; msg_content : bytes }.

Inductive AppEvent :=
  | AETick
  | AEResize (cols rows : N)
  | AEConnecting
  | AEConnected (session_id sender_id : N)
  | AERoomJoined (room_id : N)
  | AERoomLeft (room_id : N)
  | AEMessageReceived (room_id sender_id : N) (content : bytes)
  | AEMemberAdded (room_id member_id : N)
  | AEMemberRemoved (room_id member_id : N)
  | AEError (message : string).

Inductive AppAction :=
  | AARender
  | AAQuit
  | AAConnect (server_addr : string)
  | AACreateRoom (room_id : N)
  | AAJoinRoom (room_id : N)
  | AALeaveRoom (room_id : N)
  | AASendMessage (room_id : N) (content : bytes)
  | AAPublishKeyPackage
  | AAAddMember (room_id user_id : N).

Module RoomView.

(** [RoomState] of [state.rs]. *)
Record t := mk {
  room_id : N;
  messages : list Message;
  members : gset N;
  unread : bool }.

Definition new (room_id : N) : t := mk room_id [] ∅ false.
Definition add_message (sender_id : N) (content : bytes) (r : t) : t :=
  mk (room_id r) (messages r ++ [mkMessage sender_id content]) (members r) (unread r).
Definition set_unread (b : bool) (r : t) : t := mk (room_id r) (messages r) (members r) b.
Definition set_members (ms : gset N) (r : t) : t := mk (room_id r) (messages r) ms (unread r).

End RoomView.

Module App.

Record t := mk {
  state : ConnectionState;
  server_addr : string;
  rooms : gmap N RoomView.t;
  active_room : option N;
  terminal_size : N * N;
  status_message : option string }.

Definition new (server_addr : string) : t := mk Disconnected server_addr ∅ None (80, 24) None.

Definition with_state (s : ConnectionState) (a : t) : t :=
  mk s (server_addr a) (rooms a) (active_room a) (terminal_size a) (status_message a).
Definition with_rooms (rs : gmap N RoomView.t) (a : t) : t :=
  mk (state a) (server_addr a) rs (active_room a) (terminal_size a) (status_message a).
Definition with_active (r : option N) (a : t) : t :=
  mk (state a) (server_addr a) (rooms a) r (terminal_size a) (status_message a).
Definition with_size (s : N * N) (a : t) : t :=
  mk (state a) (server_addr a) (rooms a) (active_room a) s (status_message a).

(** [set_status]. *)
Definition set_status (message : string) (a : t) : t :=
  mk (state a) (server_addr a) (rooms a) (active_room a) (terminal_size a) (Some message).

Section app.
Context `{HashOrder}.

Definition handle (event : AppEvent) (a : t) : t * list AppAction :=
  match event with
  | AETick => (a, [])
  | AEResize cols rows => (with_size (cols, rows) a, [AARender])
  | AEConnecting => (with_state Connecting a, [AARender])
  | AEConnected session_id sender_id => (with_state (Connected session_id sender_id) a, [AARender])
  | AERoomJoined room_id =>
      let is_new := negb (bool_decide (is_Some (rooms a !! room_id))) in
      let a1 := match rooms a !! room_id with
                | Some _ => a
                | None => with_rooms (<[room_id := RoomView.new room_id]> (rooms a)) a
                end in
      let a2 := match active_room a1 with
                | None => with_active (Some room_id) a1
                | Some _ => a1
                end in
      (if is_new then set_status ("Joined room " +:+ pretty room_id) a2 else a2, [AARender])
  | AERoomLeft room_id =>
      let a1 := with_rooms (delete room_id (rooms a)) a in
      (if bool_decide (active_room a1 = Some room_id)
       then with_active (first_key (rooms a1)) a1 else a1, [AARender])
  | AEMessageReceived room_id sender_id content =>
      (match rooms a !! room_id with
       | Some room =>
           let room1 := RoomView.add_message sender_id content room in
           with_rooms (<[room_id := if bool_decide (active_room a = Some room_id) then room1
                                    else RoomView.set_unread true room1]> (rooms a)) a
       | None => a
       end, [AARender])
  | AEMemberAdded room_id member_id =>
      let a1 := match rooms a !! room_id with
                | Some room =>
                    with_rooms (<[room_id := RoomView.set_members
                                    ({[ member_id ]} ∪ RoomView.members room) room]> (rooms a)) a
                | None => a
                end in
      (set_status ("Added member " +:+ pretty member_id +:+ " to room") a1, [AARender])
  | AEMemberRemoved room_id member_id =>
      (match rooms a !! room_id with
       | Some room =>
           with_rooms (<[room_id := RoomView.set_members
                           (RoomView.members room ∖ {[ member_id ]}) room]> (rooms a)) a
       | None => a
       end, [AARender])
  | AEError message => (set_status ("Error: " +:+ message) a, [AARender])
  end.

(** ** The calls of the interface *)

Definition connect (a : t) : t * list AppAction :=
  (with_state Connecting a, [AAConnect (server_addr a); AARender]).
Definition create_room (room_id : N) (a : t) : t * list AppAction :=
  (set_status ("Creating room " +:+ pretty room_id +:+ "...") a, [AACreateRoom room_id; AARender]).
Definition join_room (room_id : N) : list AppAction := [AAJoinRoom room_id; AARender].
Definition leave_room (room_id : N) : list AppAction := [AALeaveRoom room_id; AARender].
Definition publish_key_package : list AppAction := [AAPublishKeyPackage; AARender].
Definition add_member (room_id user_id : N) (a : t) : t * list AppAction :=
  (set_status ("Adding user " +:+ pretty user_id +:+ "...") a,
   [AAAddMember room_id user_id; AARender]).
Definition send_message (room_id : N) (content : bytes) : list AppAction :=
  [AASendMessage room_id content; AARender].
Definition quit : list AppAction := [AAQuit].

Definition set_active_room (room_id : N) (a : t) : t :=
  match rooms a !! room_id with
  | Some room =>
      with_rooms (<[room_id := RoomView.set_unread false room]> (rooms a))
        (with_active (Some room_id) a)
  | None => a
  end.

Definition active_room_state (a : t) : option RoomView.t := active_room a ≫= (rooms a !!.).

End app.
End App.

Module Bridge.

Section bridge.
Context {Env : Type} `{!Environment Env} {openmls : OpenMls Env} {crypto : Crypto}
  {ed25519 : Ed25519} {ciborium : Ciborium}.

Record t := mk { client : Client.t; outgoing : list Frame.t }.

(** The methods return no error. *)
Abbreviation bridge A := (M t Empty_set A).

Definition new (e : Env) (sender_id : N) : t := mk (Client.new e sender_id) [].
Definition sender_id (b : t) : N := Client.sender_id (client b).

Definition client_call (ev : ClientEvent) : bridge (res ClientError.t (list ClientAction)) :=
  fun b =>
  let '(c, r) := Client.handle ev (client b) in
  (mk c (outgoing b), match r with Panic => Panic | r => Ok r end).

Definition push_outgoing (f : Frame.t) : bridge unit :=
  modify (fun b => mk (client b) (outgoing b ++ [f])).

(** A frame that is sent when it can be made. *)
Definition push_frame (made : res ProtocolError.t Frame.t) (finish : Frame.t -> Frame.t)
    : bridge unit :=
  match made with
  | Ok frame => push_outgoing (finish frame)
  | Err _ => mret tt
  | Panic => lift Panic
  end.

Definition sync_request_frame (from_log_index limit : N) : res ProtocolError.t Frame.t :=
  Payload.into_frame (Payload.SyncRequest (mkSyncRequest from_log_index limit))
    (FrameHeader.new Opcode.SyncRequest).

Definition in_room (room_id : N) (f : Frame.t) : Frame.t :=
  Frame.mk (FrameHeader.set_room_id room_id (Frame.header f)) (Frame.payload f).

(** One action of the client; [again] handles the actions of a KeyPackage that
    is published in answer to it. *)
Definition process_client_action (again : list ClientAction -> bridge (list AppEvent))
    (action : ClientAction) : bridge (list AppEvent) :=
  match action with
  | CASend frame => push_outgoing frame;; mret []
  | CADeliverMessage room_id sender_id plaintext _ _ =>
      mret [AEMessageReceived room_id sender_id plaintext]
  | CARoomRemoved room_id _ => mret [AERoomLeft room_id]
  | CAPersistRoom snapshot => mret [AERoomJoined (snap_room_id snapshot)]
  | CARequestSync _ from_epoch _ => push_frame (sync_request_frame from_epoch 100) id;; mret []
  | CAMemberAdded room_id user_id => mret [AEMemberAdded room_id user_id]
  | CAKeyPackageNeeded _ =>
      r ← client_call CEPublishKeyPackage;
      match r with Ok actions => again actions | _ => mret [] end
  | CARoomJoined room_id _ =>
      push_frame (sync_request_frame 0 1000) (in_room room_id);; mret [AERoomJoined room_id]
  | CALog _ | CAKeyPackagePublished => mret []
  end.

Fixpoint process_actions_with (again : list ClientAction -> bridge (list AppEvent))
    (actions : list ClientAction) : bridge (list AppEvent) :=
  match actions with
  | [] => mret []
  | action :: rest =>
      events ← process_client_action again action;
      more ← process_actions_with again rest;
      mret (events ++ more)
  end.

(** The nesting of published KeyPackages is the fuel. *)
Fixpoint process_client_actions_fuel (fuel : nat) (actions : list ClientAction)
    : bridge (list AppEvent) :=
  match fuel with
  | O => lift Panic
  | S fuel' => process_actions_with (process_client_actions_fuel fuel') actions
  end.

(** Publishing a KeyPackage asks for no other. *)
Definition process_client_actions (actions : list ClientAction) : bridge (list AppEvent) :=
  process_client_actions_fuel 2 actions.

Definition handle_client_result (result : res ClientError.t (list ClientAction))
    : bridge (list AppEvent) :=
  match result with
  | Ok actions => process_client_actions actions
  | Err e => mret [AEError (ClientError.display e)]
  | Panic => lift Panic
  end.

(** [self.client.handle(event)] and its result. *)
Definition handle_event (ev : ClientEvent) : bridge (list AppEvent) :=
  result ← client_call ev;
  handle_client_result result.

Definition is_error (e : AppEvent) : bool := match e with AEError _ => true | _ => false end.

Definition process_app_action (action : AppAction) : bridge (list AppEvent) :=
  match action with
  | AACreateRoom room_id => handle_event (CECreateRoom room_id)
  | AASendMessage room_id content =>
      events ← handle_event (CESendMessage room_id content);
      b ← get;
      if existsb is_error events then mret events
      else mret (events ++ [AEMessageReceived room_id (sender_id b) content])
  | AALeaveRoom room_id => handle_event (CELeaveRoom room_id)
  | AAJoinRoom room_id => handle_event (CEExternalJoin room_id)
  | AAPublishKeyPackage => handle_event CEPublishKeyPackage
  | AAAddMember room_id user_id => handle_event (CEFetchAndAddMember room_id user_id)
  | AARender | AAQuit | AAConnect _ => mret []
  end.

Definition handle_frame (frame : Frame.t) : bridge (list AppEvent) :=
  handle_event (CEFrameReceived frame).

Definition handle_tick (now : Instant) : bridge (list AppEvent) := handle_event (CETick now).

Definition take_outgoing : bridge (list Frame.t) := fun b => (mk (client b) [], Ok (outgoing b)).

End bridge.
End Bridge.

(** ** The loop *)

(** [Driver]: the platform's input and output. *)
Class Driver (D DErr : Type) := {
  poll_event : M (D * App.t) DErr (list AppAction);
  send_frame : Frame.t -> M D DErr unit;
  recv_frame : D -> D * option Frame.t;
  driver_connect : string -> M D DErr unit;
  is_connected : D -> bool;
  driver_now : D -> Instant;
  render : App.t -> M D DErr unit;
  driver_stop : D -> D;
}.

Module AppRuntime.

Section runtime.
Context {Env : Type} `{!Environment Env} {openmls : OpenMls Env} {crypto : Crypto}
  {ed25519 : Ed25519} {ciborium : Ciborium} `{HashOrder}.
Context {D DErr : Type} `{!Driver D DErr}.

Record t := mk {
  driver : D;
  app : App.t;
  bridge : Bridge.t;
  server_addr : string }.

Abbreviation runtime A := (M t DErr A).

Definition new (d : D) (e : Env) (sender_id : N) (server_addr : string) : t :=
  mk d (App.new server_addr) (Bridge.new e sender_id) server_addr.

Definition driver_call {A} (m : M D DErr A) : runtime A := fun rt =>
  let '(d, r) := m (driver rt) in (mk d (app rt) (bridge rt) (server_addr rt), r).

Definition bridge_call {A} (m : M Bridge.t Empty_set A) : runtime A := fun rt =>
  let '(b, r) := m (bridge rt) in
  (mk (driver rt) (app rt) b (server_addr rt),
   match r with Ok a => Ok a | Err e => match e with end | Panic => Panic end).

Definition app_handle (event : AppEvent) : runtime (list AppAction) := fun rt =>
  let '(a, actions) := App.handle event (app rt) in
  (mk (driver rt) a (bridge rt) (server_addr rt), Ok actions).

Definition render_app : runtime unit := fun rt => driver_call (render (app rt)) rt.

(** A failure to render is logged. *)
Definition render_logged : runtime unit := fun rt =>
  let '(rt', r) := render_app rt in (rt', match r with Panic => Panic | _ => Ok tt end).

Fixpoint process_actions_sync (actions : list AppAction) : runtime unit :=
  match actions with
  | [] => mret tt
  | action :: rest =>
      match action with AARender => render_logged | _ => mret tt end;;
      process_actions_sync rest
  end.

(** [let actions = app.handle(event); process_actions_sync(actions)], for each. *)
Fixpoint handle_events_sync (events : list AppEvent) : runtime unit :=
  match events with
  | [] => mret tt
  | event :: rest =>
      actions ← app_handle event;
      process_actions_sync actions;;
      handle_events_sync rest
  end.

Definition send_hello : runtime unit :=
  rt ← get;
  match Payload.into_frame
          (Payload.Hello (mkHello 1 [] (Some (Bridge.sender_id (bridge rt))) None))
          (FrameHeader.new Opcode.Hello) with
  | Ok frame => driver_call (send_frame frame)
  | Err _ => mret tt
  | Panic => lift Panic
  end.

Definition connect : runtime unit :=
  rt ← get;
  driver_call (driver_connect (server_addr rt));;
  handle_events_sync [AEConnecting];;
  send_hello.

Fixpoint send_frames (frames : list Frame.t) : runtime unit :=
  match frames with
  | [] => mret tt
  | frame :: rest => driver_call (send_frame frame);; send_frames rest
  end.

Definition send_outgoing_frames : runtime unit :=
  frames ← bridge_call Bridge.take_outgoing;
  send_frames frames.

(** The events of the bridge, and the actions they give. *)
Fixpoint handle_events (events : list AppEvent) : runtime (list AppAction) :=
  match events with
  | [] => mret []
  | event :: rest =>
      actions ← app_handle event;
      more ← handle_events rest;
      mret (actions ++ more)
  end.

(** The [for] loop of [process_actions]: whether to quit, and the new actions. *)
Fixpoint do_actions (actions : list AppAction) : runtime (bool * list AppAction) :=
  match actions with
  | [] => mret (false, [])
  | action :: rest =>
      match action with
      | AAQuit => mret (true, [])
      | _ =>
          here ← match action with
                 | AARender => render_app;; mret []
                 | AAQuit => mret []
                 | AAConnect _ => connect;; mret []
                 | action =>
                     events ← bridge_call (Bridge.process_app_action action);
                     new_actions ← handle_events events;
                     send_outgoing_frames;;
                     mret new_actions
                 end;
          more ← do_actions rest;
          mret (fst more, here ++ snd more)
      end
  end.

Fixpoint process_actions_fuel (fuel : nat) (pending : list AppAction) : runtime bool :=
  match pending with
  | [] => mret false
  | _ =>
      match fuel with
      | O => lift Panic
      | S fuel' =>
          done ← do_actions pending;
          if fst done : bool then mret true else process_actions_fuel fuel' (snd done)
      end
  end.

(** The events of the first round give only [Render], which gives no action. *)
Definition process_actions (initial_actions : list AppAction) : runtime bool :=
  process_actions_fuel 2 initial_actions.

Fixpoint process_bridge_events (events : list AppEvent) : runtime bool :=
  match events with
  | [] => mret false
  | event :: rest =>
      actions ← app_handle event;
      quit ← process_actions actions;
      if quit : bool then mret true else process_bridge_events rest
  end.

Definition handle_hello_reply (frame : Frame.t) : runtime unit :=
  match Payload.from_frame frame with
  | Ok (Payload.HelloReply reply) =>
      events ← bridge_call (Bridge.process_app_action AAPublishKeyPackage);
      handle_events_sync events;;
      rt ← get;
      handle_events_sync [AEConnected (reply_session_id reply) (Bridge.sender_id (bridge rt))];;
      send_outgoing_frames
  | Panic => lift Panic
  | _ => mret tt
  end.

Definition poll : runtime (list AppAction) := fun rt =>
  let '((d, a), r) := poll_event (driver rt, app rt) in (mk d a (bridge rt) (server_addr rt), r).

Definition receive : runtime (option Frame.t) := fun rt =>
  let '(d, f) := recv_frame (driver rt) in (mk d (app rt) (bridge rt) (server_addr rt), Ok f).

(** The frame of a cycle, when there is one. *)
Definition process_received : runtime bool :=
  rt ← get;
  if is_connected (driver rt) then
    received ← receive;
    match received with
    | None => mret false
    | Some frame =>
        match FrameHeader.opcode_enum (Frame.header frame) with
        | Some Opcode.HelloReply => handle_hello_reply frame;; mret false
        | _ =>
            events ← bridge_call (Bridge.handle_frame frame);
            send_outgoing_frames;;
            process_bridge_events events
        end
    end
  else mret false.

Definition process_cycle : runtime bool :=
  actions ← poll;
  quit ← match actions with [] => mret false | _ => process_actions actions end;
  if quit : bool then mret true
  else
    quit ← process_received;
    if quit : bool then mret true
    else
      rt ← get;
      events ← bridge_call (Bridge.handle_tick (driver_now (driver rt)));
      process_bridge_events events.

(** The loop of [run], for at most [n] cycles: [None] when they are used up. *)
Fixpoint cycles (n : nat) : runtime (option unit) :=
  match n with
  | O => mret None
  | S n' =>
      should_quit ← process_cycle;
      if should_quit : bool then mret (Some tt) else cycles n'
  end.

Definition run (n : nat) : runtime (option unit) :=
  render_app;;
  connect;;
  quit ← cycles n;
  match quit with
  | None => mret None
  | Some _ =>
      modify (fun rt => mk (driver_stop (driver rt)) (app rt) (bridge rt) (server_addr rt));;
      mret (Some tt)
  end.

End runtime.
End AppRuntime.
