(* ===== verification/AppInv.v ===== *)
(** * The invariants of the application

    What holds of the interface's state over any events and calls; that the
    bridge and the loop lose no frame and never panic; and that every room the
    interface shows is a room of the client. *)

From S2P Require Import Prelude Env Opcodes Header Framing Payloads Validator SenderKeys Mls.
From S2P Require Import Samples Client ClientInv App.

Local Open Scope N_scope.

Module AppInvariant.

(** ** The state of the interface *)

Section interface.
Context `{HashOrder}.

(** An event, or a call of the frontend that changes the state. *)
Inductive app_op :=
  | OEvent (event : AppEvent)
  | OSetStatus (message : string)
  | OConnect
  | OCreateRoom (room_id : N)
  | OAddMember (room_id user_id : N)
  | OSetActive (room_id : N).

Definition app_step (a : App.t) (o : app_op) : App.t :=
  match o with
  | OEvent event => fst (App.handle event a)
  | OSetStatus message => App.set_status message a
  | OConnect => fst (App.connect a)
  | OCreateRoom r => fst (App.create_room r a)
  | OAddMember r u => fst (App.add_member r u a)
  | OSetActive r => App.set_active_room r a
  end.

(** The selected room is there, and there is one whenever there are rooms; a
    room is kept under its id. *)
Definition app_inv (a : App.t) : Prop :=
  match App.active_room a with
  | None => App.rooms a = ∅
  | Some r => is_Some (App.rooms a !! r)
  end /\ forall r room, App.rooms a !! r = Some room -> RoomView.room_id room = r.

(** Replacing a room that is there. *)
Lemma app_inv_update a r room room' :
  app_inv a -> App.rooms a !! r = Some room -> RoomView.room_id room' = RoomView.room_id room ->
  app_inv (App.with_rooms (<[r := room']> (App.rooms a)) a).
Proof.
  intros [Ha Hid] Hr Heq. split; cbn.
  - destruct (App.active_room a) as [r0|].
    + destruct (decide (r0 = r)) as [->|]; [by rewrite lookup_insert_eq|by rewrite lookup_insert_ne].
    + rewrite Ha, lookup_empty in Hr. done.
  - intros r0 room0. destruct (decide (r0 = r)) as [->|].
    + rewrite lookup_insert_eq. intros [= <-]. rewrite Heq. by apply Hid.
    + rewrite lookup_insert_ne by done. apply Hid.
Qed.

Lemma app_inv_joined a r : app_inv a -> app_inv (fst (App.handle (AERoomJoined r) a)).
Proof.
  intros [Ha Hid]. cbn [App.handle fst]. destruct (App.rooms a !! r) as [room|] eqn:Hr.
  - rewrite bool_decide_eq_true_2 by eauto. cbn [negb].
    destruct (App.active_room a) as [r0|] eqn:Hact; split; cbn; by rewrite ?Hact.
  - rewrite bool_decide_eq_false_2 by (by intros []). cbn [negb].
    assert (Hids : forall r0 room0, <[r:=RoomView.new r]> (App.rooms a) !! r0 = Some room0 ->
      RoomView.room_id room0 = r0).
    { intros r0 room0. destruct (decide (r0 = r)) as [->|].
      - rewrite lookup_insert_eq. by intros [= <-].
      - rewrite lookup_insert_ne by done. apply Hid. }
    cbn. destruct (App.active_room a) as [r0|] eqn:Hact; split; cbn; rewrite ?Hact; try done.
    + destruct (decide (r0 = r)) as [->|]; [by rewrite lookup_insert_eq|by rewrite lookup_insert_ne].
    + by rewrite lookup_insert_eq.
Qed.

Lemma app_inv_left a r : app_inv a -> app_inv (fst (App.handle (AERoomLeft r) a)).
Proof.
  intros [Ha Hid]. cbn [App.handle fst].
  assert (Hids : forall r0 room0, delete r (App.rooms a) !! r0 = Some room0 -> RoomView.room_id room0 = r0).
  { intros r0 room0 [_ Hr]%lookup_delete_Some. by apply Hid. }
  case_bool_decide as Hact; cbn in Hact |- *; split; cbn; try done.
  - destruct (first_key _) as [k|] eqn:Hk; [by apply first_key_Some in Hk|by apply first_key_None in Hk].
  - destruct (App.active_room a) as [r0|]; [|by rewrite Ha, delete_empty].
    rewrite lookup_delete_ne; [done|]. congruence.
Qed.

Lemma app_inv_step a o : app_inv a -> app_inv (app_step a o).
Proof.
  intros HI. destruct o as [ev|m| |r|r u|r]; try done.
  - destruct ev as [|cols rows| |sid uid|r|r|r s c|r u|r u|m]; try done.
    + by apply app_inv_joined.
    + by apply app_inv_left.
    + cbn. destruct (App.rooms a !! r) as [room|] eqn:Hr; [|done].
      eapply app_inv_update; [done..|]. by case_bool_decide.
    + cbn. destruct (App.rooms a !! r) as [room|] eqn:Hr; [|done].
      by apply (app_inv_update a r room).
    + cbn. destruct (App.rooms a !! r) as [room|] eqn:Hr; [|done].
      by apply (app_inv_update a r room).
  - cbn. unfold App.set_active_room. destruct (App.rooms a !! r) as [room|] eqn:Hr; [|done].
    apply (app_inv_update (App.with_active (Some r) a) r room); [|done..].
    destruct HI as [_ Hid]. split; [|done]. cbn. by exists room.
Qed.

Lemma app_inv_run addr ops : app_inv (run app_step (App.new addr) ops).
Proof.
  apply run_invariant; [apply app_inv_step|]. split; [done|]. intros r room. cbn. by rewrite lookup_empty.
Qed.

(** The messages of a room among some events. *)
Definition received (r : N) (o : app_op) : option Message :=
  match o with
  | OEvent (AEMessageReceived r' s c) => if r' =? r then Some (mkMessage s c) else None
  | _ => None
  end.

Lemma app_step_messages a o r room :
  App.rooms a !! r = Some room -> o <> OEvent (AERoomLeft r) ->
  exists room', App.rooms (app_step a o) !! r = Some room' /\
    RoomView.messages room' = RoomView.messages room ++ from_option (fun m => [m]) [] (received r o).
Proof.
  intros Hr Ho.
  assert (Hsame : exists room', App.rooms a !! r = Some room' /\
    RoomView.messages room' = RoomView.messages room ++ []).
  { exists room. by rewrite app_nil_r. }
  assert (Hup : forall r0 room0 room', App.rooms a !! r0 = Some room0 ->
    RoomView.messages room' = RoomView.messages room0 ->
    exists room1, <[r0 := room']> (App.rooms a) !! r = Some room1 /\
      RoomView.messages room1 = RoomView.messages room ++ []).
  { intros r0 room0 room' Hr0 Hm. destruct (decide (r = r0)) as [->|].
    - exists room'. rewrite lookup_insert_eq, app_nil_r. split; [done|]. congruence.
    - rewrite lookup_insert_ne by done. apply Hsame. }
  destruct o as [ev|m| |r0|r0 u|r0]; try done; cbn.
  - destruct ev as [|cols rows| |sid uid|r0|r0|r0 s c|r0 u|r0 u|m]; try done; cbn.
    + destruct (App.rooms a !! r0) as [room0|] eqn:Hr0.
      * rewrite bool_decide_eq_true_2 by eauto. cbn. by destruct (App.active_room a).
      * rewrite bool_decide_eq_false_2 by (by intros []). cbn.
        assert (r <> r0) by congruence.
        destruct (App.active_room a); cbn; rewrite lookup_insert_ne by done; apply Hsame.
    + assert (r <> r0) by congruence. case_bool_decide; cbn; rewrite lookup_delete_ne by done; apply Hsame.
    + destruct (N.eqb_spec r0 r) as [->|Hne]; cbn.
      * rewrite Hr. eexists. cbn. rewrite lookup_insert_eq. split; [done|]. by case_bool_decide.
      * destruct (App.rooms a !! r0) as [room0|]; [|done]. cbn. rewrite lookup_insert_ne by done.
        apply Hsame.
    + destruct (App.rooms a !! r0) as [room0|] eqn:Hr0; [|done]. by apply (Hup r0 room0).
    + destruct (App.rooms a !! r0) as [room0|] eqn:Hr0; [|done]. by apply (Hup r0 room0).
  - unfold App.set_active_room. destruct (App.rooms a !! r0) as [room0|] eqn:Hr0; [|done].
    by apply (Hup r0 room0).
Qed.

(** C34: the interface's state is sound over any events and calls: a room is
    selected exactly when there are rooms, and then it is one of them; and the
    messages a room shows are those it showed before and then, in order, those
    received for it, as long as the room is not left. *)
Theorem app_state_sound addr ops1 ops2 r room :
  let a := run app_step (App.new addr) ops1 in
  let a' := run app_step a ops2 in
  app_inv a' /\
  (App.rooms a !! r = Some room -> OEvent (AERoomLeft r) ∉ ops2 ->
   exists room', App.rooms a' !! r = Some room' /\
     RoomView.messages room' = RoomView.messages room ++ omap (received r) ops2).
Proof.
  intros a a'. split.
  - apply run_invariant; [apply app_inv_step|apply app_inv_run].
  - unfold a'. clear a'. generalize a. clear a. intros a. revert a room.
    induction ops2 as [|o ops IH]; intros a room Hr Hn.
    { exists room. by rewrite app_nil_r. }
    apply not_elem_of_cons in Hn as [Ho Hn].
    destruct (app_step_messages a o r room Hr) as (room1 & Hr1 & Hm1); [congruence|].
    destruct (IH _ room1 Hr1 Hn) as (room' & Hr' & Hm'). exists room'. split; [done|].
    rewrite Hm', Hm1, <- app_assoc. cbn. by destruct (received r o).
Qed.

(** Leaving the selected room selects another as it is: the room the user then
    looks at can stay marked as unread. *)
Lemma selected_room_unread :
  let ops := [OEvent (AERoomJoined 1); OEvent (AERoomJoined 2);
              OEvent (AEMessageReceived 2 9 []); OEvent (AERoomLeft 1)] in
  let a := run app_step (App.new "localhost:4433") ops in
  App.active_room a = Some 2 /\ RoomView.unread <$> App.active_room_state a = Some true.
Proof.
  set (left := {[ 2 := RoomView.mk 2 [mkMessage 9 []] ∅ true ]} : gmap N RoomView.t).
  assert (Hk : first_key left = Some 2).
  { destruct (first_key left) as [k|] eqn:Hk.
    - apply first_key_Some in Hk as [room Hk]. by apply lookup_singleton_Some in Hk as [<- _].
    - apply first_key_None in Hk. by apply map_non_empty_singleton in Hk. }
  intros ops a.
  assert (Ha : a = App.mk Disconnected "localhost:4433" left (first_key left) (80, 24)
                     (Some "Joined room 2"%string)) by (vm_compute; reflexivity).
  rewrite Ha, Hk. split; vm_compute; reflexivity.
Qed.

End interface.

(** ** The bridge *)

Section bridge.
Context {Env : Type} `{!Environment Env} {openmls : OpenMls Env} {laws : OpenMlsLaws Env}
  {crypto : Crypto} {ed25519 : Ed25519} {ciborium : Ciborium} {sizes : CborSizes}.
Import Client ClientInvariant Bridge.

(** The frames and events of one action, where it asks for no KeyPackage. *)
Definition frame_of (a : ClientAction) : list Frame.t :=
  match a with
  | CASend f => [f]
  | CARequestSync _ from_epoch _ =>
      match sync_request_frame from_epoch 100 with Ok f => [f] | _ => [] end
  | CARoomJoined r _ => match sync_request_frame 0 1000 with Ok f => [in_room r f] | _ => [] end
  | _ => []
  end.

Definition event_of (a : ClientAction) : list AppEvent :=
  match a with
  | CADeliverMessage r s p _ _ => [AEMessageReceived r s p]
  | CARoomRemoved r _ => [AERoomLeft r]
  | CAPersistRoom snapshot => [AERoomJoined (snap_room_id snapshot)]
  | CAMemberAdded r u => [AEMemberAdded r u]
  | CARoomJoined r _ => [AERoomJoined r]
  | _ => []
  end.

Definition asks_key_package (a : ClientAction) : Prop :=
  match a with CAKeyPackageNeeded _ => True | _ => False end.

Lemma sync_request_frame_answers i l : sync_request_frame i l <> Panic.
Proof using sizes. unfold sync_request_frame. frame_size sync_request_size. Qed.

(** An action that asks for no KeyPackage. *)
Lemma process_one again a b :
  ~ asks_key_package a ->
  process_client_action again a b
  = (Bridge.mk (client b) (outgoing b ++ frame_of a), Ok (event_of a)).
Proof using sizes.
  intros Ha. destruct b as [c out]. destruct a as [f|r s p i ts|r e e'|sn|r reason|m|r u| |reason|r e];
    cbn; rewrite ?app_nil_r; try done.
  - pose proof (sync_request_frame_answers e 100). unfold mbind, M_bind, push_frame.
    destruct (sync_request_frame e 100); cbn; rewrite ?app_nil_r; done.
  - pose proof (sync_request_frame_answers 0 1000). unfold mbind, M_bind, push_frame.
    destruct (sync_request_frame 0 1000); cbn; rewrite ?app_nil_r; done.
Qed.

Lemma process_plain again acts b :
  Forall (fun a => ~ asks_key_package a) acts ->
  process_actions_with again acts b
  = (Bridge.mk (client b) (outgoing b ++ concat (map frame_of acts)), Ok (concat (map event_of acts))).
Proof using sizes.
  intros Ha. revert b. induction Ha as [|a acts Ha Hacts IH]; intros b.
  { cbn. rewrite app_nil_r. by destruct b. }
  cbn [process_actions_with map concat]. unfold mbind at 1, M_bind at 1. rewrite process_one by done.
  unfold mbind, M_bind. rewrite IH. cbn. by rewrite app_assoc.
Qed.

(** Publishing a KeyPackage asks for no other. *)
Lemma publish_asks_none c acts :
  snd (handle CEPublishKeyPackage c) = Ok acts -> Forall (fun a => ~ asks_key_package a) acts.
Proof.
  cbn [handle]. unfold handle_publish_key_package, mbind, M_bind.
  destruct (generate_key_package c) as [c1 [[kp href]| |]]; [|done..]. unfold lift.
  destruct (make_frame _); [|done..]. intros [= <-]. by repeat constructor; intros [].
Qed.

(** The bridge answers the client completely and in order: with any fuel
    from two on, so that its recursion ends, it returns the events of the
    client's actions in their order and queues the frames of them behind those
    that are waiting. *)
Theorem bridge_processes_all fuel acts b :
  Forall (fun a => ~ asks_key_package a) acts -> (2 <= fuel)%nat ->
  process_client_actions_fuel fuel acts b = process_client_actions acts b /\
  process_client_actions acts b
  = (Bridge.mk (client b) (outgoing b ++ concat (map frame_of acts)),
     Ok (concat (map event_of acts))).
Proof using sizes.
  intros Ha Hf. unfold process_client_actions. destruct fuel as [|fuel]; [lia|].
  cbn [process_client_actions_fuel]. by rewrite !process_plain.
Qed.

(** ** The bridge does not panic, and tells only of rooms of the client *)

Definition bgrows (b b' : Bridge.t) : Prop := grows (client b) (client b').
#[local] Instance bgrows_preorder : PreOrder bgrows.
Proof.
  split; [by intros b r|]. intros b1 b2 b3 H1 H2 r Hr. by apply H2, H1.
Qed.

Abbreviation bwp m Q b := (wp (E := Empty_set) (fun b => client_inv (client b)) bgrows m Q b).

(** The rooms an event tells of joining are rooms of the client. *)
Definition event_known (c : Client.t) (e : AppEvent) : Prop :=
  match e with AERoomJoined r => is_Some (rooms c !! r) | _ => True end.

Lemma events_known_grows c c' evs :
  grows c c' -> Forall (event_known c) evs -> Forall (event_known c') evs.
Proof. intros Hg Hk. eapply Forall_impl; [exact Hk|]. intros [] He; cbn in *; auto. Qed.

Lemma wp_push_outgoing f (Q : unit -> Bridge.t -> Prop) b :
  (forall b', client b' = client b -> Q tt b') -> bwp (push_outgoing f) Q b.
Proof. intros HQ. apply wp_modify. intros HI. split_and!; [done|by intros r|]. by apply HQ. Qed.

Lemma wp_push_frame made finish (Q : unit -> Bridge.t -> Prop) b :
  made <> Panic -> (forall b', client b' = client b -> Q tt b') -> bwp (push_frame made finish) Q b.
Proof.
  intros Hm HQ. unfold push_frame. destruct made; [|wp_step; by apply HQ|done].
  by apply wp_push_outgoing.
Qed.

(** A call of the client. *)
Lemma wp_client_call ev (Q : res ClientError.t (list ClientAction) -> Bridge.t -> Prop) b :
  event_fits ev -> (forall r, ev <> CELeaveRoom r) ->
  (forall x b', snd (handle ev (client b)) = x ->
     (forall acts, x = Ok acts -> known (client b') acts) -> x <> Panic -> Q x b') ->
  bwp (client_call ev) Q b.
Proof using laws sizes.
  intros Hf Hl HQ HI. unfold client_call. pose proof (handle_ok ev (client b) Hf HI) as H.
  destruct (handle ev (client b)) as [c r] eqn:E. destruct H as (HI' & Hp & _ & Hk & Hg).
  split_and!; [done|by apply Hg|by destruct r|]. intros x Hx.
  assert (x = r) as -> by (by destruct r; simplify_eq). by apply HQ.
Qed.

Lemma wp_process_action again a b :
  (asks_key_package a -> forall acts b', known (client b') acts ->
     Forall (fun a => ~ asks_key_package a) acts ->
     bwp (again acts) (fun evs b' => Forall (event_known (client b')) evs) b') ->
  joins_known (client b) a ->
  bwp (process_client_action again a) (fun evs b' => Forall (event_known (client b')) evs) b.
Proof using laws sizes.
  intros Hagain Ha. destruct a as [f|r s p i ts|r e e'|sn|r reason|m|r u| |reason|r e]; cbn in *.
  1: wp_step; apply wp_push_outgoing; intros b' _; by wp_step; constructor.
  all: try (wp_step; by repeat constructor).
  - wp_step. apply wp_push_frame; [apply sync_request_frame_answers|]. intros b' _. by wp_step; constructor.
  - wp_step. apply wp_client_call; [done..|]. intros x b' Hx Hk Hp.
    destruct x as [acts|err|]; [|by wp_step; constructor|done].
    apply Hagain; [done|by apply Hk|]. by eapply publish_asks_none.
  - wp_step. apply wp_push_frame; [apply sync_request_frame_answers|]. intros b' Hb'. wp_step.
    constructor; [|constructor]. cbn. by rewrite Hb'.
Qed.

Lemma wp_process_actions_with again acts : forall b,
  (Exists asks_key_package acts -> forall acts' b', known (client b') acts' ->
     Forall (fun a => ~ asks_key_package a) acts' ->
     bwp (again acts') (fun evs b' => Forall (event_known (client b')) evs) b') ->
  known (client b) acts ->
  bwp (process_actions_with again acts) (fun evs b' => Forall (event_known (client b')) evs) b.
Proof using laws sizes.
  induction acts as [|a acts IH]; intros b Hagain Hk; cbn [process_actions_with].
  { by wp_step; constructor. }
  inversion Hk as [|? ? Ha Hacts]; subst. wp_step. eapply wp_mono; [apply wp_process_action; [|done]|].
  { intros Hask. apply Hagain. by constructor. }
  intros evs b1 _ Hg1 Hevs. wp_step. eapply wp_mono; [apply IH|].
  - intros Hex. apply Hagain. by constructor 2.
  - by apply (known_grows _ _ _ Hg1).
  - intros more b2 _ Hg2 Hmore. wp_step. apply Forall_app. split; [|done].
    by apply (events_known_grows _ _ _ Hg2).
Qed.

Lemma wp_process_client_actions acts b :
  known (client b) acts ->
  bwp (process_client_actions acts) (fun evs b' => Forall (event_known (client b')) evs) b.
Proof using laws sizes.
  intros Hk. unfold process_client_actions. cbn [process_client_actions_fuel].
  apply wp_process_actions_with; [|done]. intros _ acts' b' Hk' Hn.
  apply wp_process_actions_with; [|done]. intros Hex. apply Exists_exists in Hex as (a & Hin & Ha).
  rewrite Forall_forall in Hn. by destruct (Hn a Hin).
Qed.

(** An event of the client, but the leaving of a room. *)
Lemma wp_handle_event ev b :
  event_fits ev -> (forall r, ev <> CELeaveRoom r) ->
  bwp (handle_event ev) (fun evs b' => Forall (event_known (client b')) evs) b.
Proof using laws sizes.
  intros Hf Hl. unfold handle_event. wp_step. apply wp_client_call; [done..|].
  intros x b' _ Hk Hp. unfold handle_client_result.
  destruct x as [acts|e|]; [|by wp_step; repeat constructor|done].
  apply wp_process_client_actions. by apply Hk.
Qed.

End bridge.

(** ** The loop *)

(** A call that, from the states of [ready], answers and stays within them. *)
Definition behaves {D DErr A} (ready : D -> Prop) (m : M D DErr A) : Prop :=
  forall d, ready d -> ready (fst (m d)) /\ snd (m d) <> Panic.

Definition app_action_fits (a : AppAction) : Prop :=
  match a with AASendMessage _ content => len content < 2 ^ 32 | _ => True end.

(** What the loop relies on of a driver in the states [ready], which its calls
    do not leave: it answers, makes no room and takes none away, and asks to
    send no text of 4 GiB. *)
Class DriverLaws (D DErr : Type) `{!Driver D DErr} (ready : D -> Prop) := {
  poll_ok d a : ready d ->
    let '((d', a'), r) := poll_event (d, a) in
    ready d' /\ dom (App.rooms a') = dom (App.rooms a) /\ r <> Panic /\
    forall acts, r = Ok acts -> Forall app_action_fits acts;
  send_frame_ok f : behaves ready (send_frame f);
  recv_frame_ok d : ready d -> ready (fst (recv_frame d));
  connect_ok addr : behaves ready (driver_connect addr);
  render_ok a : behaves ready (render a);
  stop_ok d : ready d -> ready (driver_stop d);
}.

Section loop.
Context {Env : Type} `{!Environment Env} {openmls : OpenMls Env} {laws : OpenMlsLaws Env}
  {crypto : Crypto} {ed25519 : Ed25519} {ciborium : Ciborium} {sizes : CborSizes} `{HashOrder}.
Context {D DErr : Type} `{!Driver D DErr} {ready : D -> Prop} {driver_laws : DriverLaws D DErr ready}.
Import Client ClientInvariant AppRuntime.

Abbreviation loop_state := (AppRuntime.t (D := D)).

(** Every room of the interface is a room of the client. *)
Definition agree (a : App.t) (c : Client.t) : Prop :=
  forall r, is_Some (App.rooms a !! r) -> is_Some (rooms c !! r).

Definition rt_inv (rt : loop_state) : Prop :=
  ready (driver rt) /\ client_inv (Bridge.client (bridge rt)) /\
  agree (app rt) (Bridge.client (bridge rt)).

#[local] Existing Instance MlsProperties.anywhere_preorder.

Abbreviation rwp m Q rt := (wp (E := DErr) rt_inv MlsProperties.anywhere m Q rt).

Lemma wp_driver_call {A} (m : M D DErr A) (Q : A -> loop_state -> Prop) rt :
  behaves ready m -> (forall a rt', bridge rt' = bridge rt -> Q a rt') -> rwp (driver_call m) Q rt.
Proof.
  intros Hm HQ (Hd & HI). unfold driver_call. specialize (Hm (driver rt) Hd).
  destruct (m (driver rt)) as [d r], Hm. split_and!; [done..|]. intros a _. by apply HQ.
Qed.

Lemma wp_render (Q : unit -> loop_state -> Prop) rt :
  (forall rt', bridge rt' = bridge rt -> Q tt rt') -> rwp render_app Q rt.
Proof using driver_laws.
  intros HQ. apply wp_driver_call; [apply render_ok|]. intros [] rt'. apply HQ.
Qed.

Lemma wp_render_logged (Q : unit -> loop_state -> Prop) rt :
  (forall rt', bridge rt' = bridge rt -> Q tt rt') -> rwp render_logged Q rt.
Proof using driver_laws.
  intros HQ (Hd & HI). unfold render_logged, render_app, driver_call.
  pose proof (render_ok (app rt) (driver rt) Hd) as [Hr1 Hr2]. destruct (render _ _) as [d r].
  split_and!; [done|done|by destruct r|]. intros [] _. by apply HQ.
Qed.

(** Only the joining of a room adds one. *)
Lemma app_handle_rooms e a r :
  is_Some (App.rooms (fst (App.handle e a)) !! r) -> is_Some (App.rooms a !! r) \/ e = AERoomJoined r.
Proof.
  assert (Hup : forall r0 room0 room', App.rooms a !! r0 = Some room0 ->
    is_Some (<[r0 := room']> (App.rooms a) !! r) -> is_Some (App.rooms a !! r)).
  { intros r0 room0 room' Hr0. destruct (decide (r = r0)) as [->|]; [by rewrite Hr0|].
    by rewrite lookup_insert_ne. }
  destruct e as [|cols rows| |sid uid|r0|r0|r0 s c|r0 u|r0 u|m]; cbn; try (by left).
  - destruct (App.rooms a !! r0) as [room0|] eqn:Hr0.
    + rewrite bool_decide_eq_true_2 by eauto. cbn. destruct (App.active_room a); by left.
    + rewrite bool_decide_eq_false_2 by (by intros []). cbn.
      destruct (decide (r = r0)) as [->|]; [by right|].
      destruct (App.active_room a); cbn; rewrite lookup_insert_ne by done; by left.
  - case_bool_decide; cbn; intros [room Hr]%lookup_delete_is_Some; by left.
  - destruct (App.rooms a !! r0) as [room0|] eqn:Hr0; [|by left]. cbn. left. by eapply Hup.
  - destruct (App.rooms a !! r0) as [room0|] eqn:Hr0; [|by left]. cbn. left. by eapply Hup.
  - destruct (App.rooms a !! r0) as [room0|] eqn:Hr0; [|by left]. cbn. left. by eapply Hup.
Qed.

(** The interface only asks to be drawn. *)
Lemma app_handle_renders e a : Forall (eq AARender) (snd (App.handle e a)).
Proof. destruct e; cbn; by repeat constructor. Qed.

Lemma wp_app_handle e (Q : list AppAction -> loop_state -> Prop) rt :
  event_known (Bridge.client (bridge rt)) e ->
  (forall acts rt', Forall (eq AARender) acts -> bridge rt' = bridge rt -> Q acts rt') ->
  rwp (app_handle e) Q rt.
Proof.
  intros He HQ (Hd & HI & Ha). unfold app_handle. pose proof (app_handle_rooms e (app rt)) as Hr.
  pose proof (app_handle_renders e (app rt)) as Hacts.
  destruct (App.handle e (app rt)) as [a acts]. cbn in Hr, Hacts. split; [split_and!; [done..|]|].
  - intros r [Hold| ->]%Hr; [by apply Ha|done].
  - split_and!; [done..|]. intros ? [= <-]. by apply HQ.
Qed.

Lemma wp_actions_sync acts (Q : unit -> loop_state -> Prop) : forall rt,
  (forall rt', bridge rt' = bridge rt -> Q tt rt') -> rwp (process_actions_sync acts) Q rt.
Proof using driver_laws.
  induction acts as [|a acts IH]; intros rt HQ; cbn [process_actions_sync]; [wp_step; by apply HQ|].
  assert (Hstep : forall rt', bridge rt' = bridge rt -> rwp (process_actions_sync acts) Q rt').
  { intros rt' Hb. apply IH. intros rt'' Hb'. apply HQ. congruence. }
  wp_step. destruct a; [by apply wp_render_logged|..]; wp_step; by apply Hstep.
Qed.

Lemma wp_events_sync evs (Q : unit -> loop_state -> Prop) : forall rt,
  Forall (event_known (Bridge.client (bridge rt))) evs ->
  (forall rt', bridge rt' = bridge rt -> Q tt rt') -> rwp (handle_events_sync evs) Q rt.
Proof using driver_laws.
  induction evs as [|e evs IH]; intros rt He HQ; cbn [handle_events_sync]; [wp_step; by apply HQ|].
  inversion He as [|? ? He1 He2]; subst. wp_step. apply wp_app_handle; [done|].
  intros acts rt1 _ Hb1. wp_step. apply wp_actions_sync. intros rt2 Hb2. apply IH.
  - by rewrite Hb2, Hb1.
  - intros rt3 Hb3. apply HQ. congruence.
Qed.

Lemma wp_handle_events evs : forall rt,
  Forall (event_known (Bridge.client (bridge rt))) evs ->
  rwp (handle_events evs) (fun acts rt' => Forall (eq AARender) acts /\ bridge rt' = bridge rt) rt.
Proof.
  induction evs as [|e evs IH]; intros rt He; cbn [handle_events]; [by wp_step|].
  inversion He as [|? ? He1 He2]; subst. wp_step. apply wp_app_handle; [done|].
  intros acts rt1 Hacts Hb1. wp_step. eapply wp_mono; [apply IH; by rewrite Hb1|].
  intros more rt2 _ _ [Hmore Hb2]. wp_step. split; [by apply Forall_app|congruence].
Qed.

Lemma wp_send_hello (Q : unit -> loop_state -> Prop) rt :
  (forall rt', Q tt rt') -> rwp send_hello Q rt.
Proof using driver_laws sizes.
  intros HQ. unfold send_hello. wp_step.
  match goal with |- context [Payload.into_frame ?p ?h] =>
    assert (Hp : Payload.into_frame p h <> Panic); [|destruct (Payload.into_frame p h)] end.
  - apply Payload.into_frame_answers; unfold Payload.encode; cbv beta iota zeta;
      match goal with |- context [into_writer ?h] => destruct (into_writer h) as [|bs] eqn:Hw end; try done.
    intros ? [= <-]. apply hello_size in Hw; [|done..]. cbn. unfold u32_MAX. lia.
  - apply wp_driver_call; [apply send_frame_ok|]. intros [] rt' _. apply HQ.
  - wp_step. apply HQ.
  - done.
Qed.

Lemma wp_connect (Q : unit -> loop_state -> Prop) rt :
  (forall rt', Q tt rt') -> rwp connect Q rt.
Proof using driver_laws sizes.
  intros HQ. unfold connect. wp_step. wp_step. apply wp_driver_call; [apply connect_ok|].
  intros [] rt1 _. wp_step. apply wp_events_sync; [by repeat constructor|]. intros rt2 _.
  by apply wp_send_hello.
Qed.

Lemma wp_send_frames fs (Q : unit -> loop_state -> Prop) : forall rt,
  (forall rt', bridge rt' = bridge rt -> Q tt rt') -> rwp (send_frames fs) Q rt.
Proof using driver_laws.
  induction fs as [|f fs IH]; intros rt HQ; cbn [send_frames]; [wp_step; by apply HQ|].
  wp_step. apply wp_driver_call; [apply send_frame_ok|]. intros [] rt1 Hb. apply IH.
  intros rt2 Hb2. apply HQ. congruence.
Qed.

(** A method of the bridge that keeps the client's rooms. *)
Lemma wp_bridge_call {A} (m : M Bridge.t Empty_set A) (P : A -> Bridge.t -> Prop) rt :
  wp (fun b => client_inv (Bridge.client b)) bgrows m P (bridge rt) ->
  rwp (bridge_call m) (fun a rt' => P a (bridge rt')) rt.
Proof.
  intros Hm (Hd & HI & Ha). specialize (Hm HI). unfold bridge_call. destruct (m (bridge rt)) as [b r].
  destruct Hm as (HI' & Hg & Hp & HP). split; [split_and!; [done..|]|].
  - intros r0 Hr0. by apply Hg, Ha.
  - split_and!; [done|by destruct r as [|[]|]|]. intros a Hx. apply HP.
    by destruct r as [|[]|]; simplify_eq/=.
Qed.

Lemma wp_send_outgoing (Q : unit -> loop_state -> Prop) rt :
  (forall rt', Bridge.client (bridge rt') = Bridge.client (bridge rt) -> Q tt rt') ->
  rwp send_outgoing_frames Q rt.
Proof using driver_laws.
  intros HQ. unfold send_outgoing_frames. wp_step. eapply wp_mono.
  { apply (wp_bridge_call _ (fun _ b => Bridge.client b = Bridge.client (bridge rt))).
    intros HI. cbn. split_and!; [done|by intros r|done|done]. }
  intros fs rt1 _ _ Hb. apply wp_send_frames. intros rt2 Hb2. apply HQ. congruence.
Qed.

(** ** Actions *)

(** A protocol action but the leaving of a room. *)
Lemma wp_app_action action b :
  app_action_fits action -> (forall r, action <> AALeaveRoom r) ->
  wp (fun b => client_inv (Bridge.client b)) bgrows (Bridge.process_app_action action)
    (fun evs b' => Forall (event_known (Bridge.client b')) evs) b.
Proof using laws sizes.
  intros Hf Hl. pose proof (bgrows_preorder (Env := Env)).
  destruct action as [| |addr|r|r|r|r content| |r u]; cbn [Bridge.process_app_action];
    try (by wp_step; constructor); try (by apply wp_handle_event); [by destruct (Hl r)|].
  wp_step. eapply wp_mono; [by apply wp_handle_event|]. intros evs b1 _ _ Hevs. wp_step.
  destruct (existsb _ evs); wp_step; [done|]. apply Forall_app. split; [done|by repeat constructor].
Qed.

(** Leaving a room takes it from the client and then from the interface. *)
Lemma wp_leave r rt :
  rwp (bridge_call (Bridge.process_app_action (AALeaveRoom r)) ≫= handle_events)
    (fun acts _ => Forall (eq AARender) acts) rt.
Proof.
  intros (Hd & HI & Ha). pose proof (leave_ok r (Bridge.client (bridge rt)) HI) as H0. cbn [handle] in H0.
  unfold mbind at 1, M_bind at 1, bridge_call at 1. cbn [Bridge.process_app_action].
  unfold Bridge.handle_event, mbind at 1, M_bind at 1, Bridge.client_call. cbn [handle].
  unfold handle_leave_room, mbind, M_bind, get in *. destruct (negb _) eqn:Hm.
  { cbn. split; [split_and!; [done..|]|by split_and!; [..|intros ? [= <-]; repeat constructor]].
    intros r0 Hr0. by apply Ha. }
  destruct H0 as (HI' & _). cbn. split; [split_and!; [done..|]|by split_and!; [..|intros ? [= <-]; repeat constructor]].
  intros r0 Hr0. cbn. destruct (decide (r0 = r)) as [->|Hne].
  - exfalso. revert Hr0. case_bool_decide; cbn; rewrite lookup_delete_eq; by intros [].
  - rewrite lookup_delete_ne by done. apply Ha. revert Hr0.
    case_bool_decide; cbn; by rewrite lookup_delete_ne.
Qed.

Lemma wp_protocol_action action rt :
  app_action_fits action ->
  rwp (bridge_call (Bridge.process_app_action action) ≫= handle_events)
    (fun acts _ => Forall (eq AARender) acts) rt.
Proof using laws sizes.
  intros Hf.
  assert ((exists r, action = AALeaveRoom r) \/ forall r, action <> AALeaveRoom r) as [[r ->]|Hl]
    by (destruct action; try (by right); left; eauto).
  { apply wp_leave. }
  wp_step. eapply wp_mono; [apply (wp_bridge_call _ (fun evs b' =>
    Forall (event_known (Bridge.client b')) evs)), wp_app_action; done|].
  intros evs rt1 _ _ Hevs. eapply wp_mono; [by apply wp_handle_events|]. by intros acts rt2 _ _ [? _].
Qed.

Lemma rwp_assoc {A B C'} (m : M loop_state DErr A) (f : A -> M loop_state DErr B)
    (h : B -> M loop_state DErr C') Q rt :
  rwp ((m ≫= f) ≫= h) Q rt -> rwp (m ≫= fun a => f a ≫= h) Q rt.
Proof.
  unfold wp, mbind, M_bind. intros Hw HI. specialize (Hw HI). by destruct (m rt) as [rt' [a|e|]].
Qed.

(** An action of the [for] loop other than [Quit]. *)
Lemma wp_do_actions acts : forall rt,
  Forall app_action_fits acts -> rwp (do_actions acts) (fun p _ => Forall (eq AARender) (snd p)) rt.
Proof using laws sizes driver_laws.
  induction acts as [|a acts IH]; intros rt Hf; cbn [do_actions]; [by wp_step; constructor|].
  inversion Hf as [|? ? Ha Hacts]; subst.
  assert (Hrest : forall here rt', Forall (eq AARender) here ->
    rwp (more ← do_actions acts; mret (fst more, here ++ snd more))
      (fun p _ => Forall (eq AARender) (snd p)) rt').
  { intros here rt' Hhere. wp_step. eapply wp_mono; [by apply IH|]. intros more rt2 _ _ Hmore.
    wp_step. by apply Forall_app. }
  assert (Hproto : forall action rt', app_action_fits action ->
    rwp (events ← bridge_call (Bridge.process_app_action action);
         new_actions ← handle_events events; send_outgoing_frames;; mret new_actions)
      (fun here rt'' => rwp (more ← do_actions acts; mret (fst more, here ++ snd more))
        (fun p _ => Forall (eq AARender) (snd p)) rt'') rt').
  { intros action rt' Hfit. apply rwp_assoc. wp_step. eapply wp_mono; [by apply wp_protocol_action|].
    intros new rt1 _ _ Hnew. wp_step. apply wp_send_outgoing. intros rt2 _. wp_step. by apply Hrest. }
  destruct a as [| |addr|r|r|r|r content| |r u]; [..|by wp_step; apply Hproto].
  all: try (by wp_step; apply Hproto).
  - wp_step. wp_step. apply wp_render. intros rt1 _. wp_step. apply Hrest. constructor.
  - wp_step. constructor.
  - wp_step. wp_step. apply wp_connect. intros rt1. wp_step. apply Hrest. constructor.
Qed.

Lemma wp_do_renders acts : forall rt,
  Forall (eq AARender) acts ->
  rwp (do_actions acts) (fun p rt' => p = (false, []) /\ bridge rt' = bridge rt) rt.
Proof using driver_laws.
  induction acts as [|a acts IH]; intros rt Hf; cbn [do_actions]; [by wp_step|].
  inversion Hf as [|? ? <- Hacts]; subst. wp_step. wp_step. apply wp_render. intros rt1 Hb. wp_step.
  wp_step. eapply wp_mono; [by apply IH|]. intros more rt2 _ _ [-> Hb2]. wp_step. split; [done|congruence].
Qed.

Lemma wp_process_renders fuel acts rt :
  Forall (eq AARender) acts ->
  rwp (process_actions_fuel (S fuel) acts) (fun quit rt' => quit = false /\ bridge rt' = bridge rt) rt.
Proof using driver_laws.
  intros Hf. cbn [process_actions_fuel]. destruct acts as [|a acts]; [by wp_step|].
  wp_step. eapply wp_mono; [by apply wp_do_renders|]. intros p rt1 _ _ [-> Hb]. cbn [fst snd].
  destruct fuel; cbn; by wp_step.
Qed.

Lemma wp_process_actions acts rt :
  Forall app_action_fits acts -> rwp (process_actions acts) (fun _ _ => True) rt.
Proof using laws sizes driver_laws.
  intros Hf. unfold process_actions. cbn [process_actions_fuel]. destruct acts as [|a acts]; [by wp_step|].
  wp_step. eapply wp_mono; [by apply wp_do_actions|]. intros [quit new] rt1 _ _ Hnew.
  cbn [fst snd]. destruct quit; [by wp_step|].
  eapply wp_mono; [by apply (wp_process_renders 0)|]. done.
Qed.

(** ** Cycles *)

Lemma wp_bridge_events evs : forall rt,
  Forall (event_known (Bridge.client (bridge rt))) evs ->
  rwp (process_bridge_events evs) (fun quit rt' => quit = false /\ bridge rt' = bridge rt) rt.
Proof using driver_laws.
  induction evs as [|e evs IH]; intros rt He; cbn [process_bridge_events]; [by wp_step|].
  inversion He as [|? ? He1 He2]; subst. wp_step. apply wp_app_handle; [done|].
  intros acts rt1 Hacts Hb1. wp_step. eapply wp_mono; [by apply (wp_process_renders 1)|].
  intros quit rt2 _ _ [-> Hb2]. eapply wp_mono; [apply IH; by rewrite Hb2, Hb1|].
  intros q rt3 _ _ [-> Hb3]. split; [done|congruence].
Qed.

Lemma from_frame_answers frame : Payload.from_frame frame <> Panic.
Proof.
  unfold Payload.from_frame. destruct (FrameHeader.opcode_enum _); [|done].
  apply Payload.payload_decode_no_panic.
Qed.

Lemma wp_hello_reply frame rt : rwp (handle_hello_reply frame) (fun _ _ => True) rt.
Proof using laws sizes driver_laws.
  unfold handle_hello_reply. pose proof (from_frame_answers frame).
  destruct (Payload.from_frame frame) as [[]| |]; try (by wp_step).
  wp_step. eapply wp_mono; [apply (wp_bridge_call _ (fun evs b' =>
    Forall (event_known (Bridge.client b')) evs)), wp_app_action; done|].
  intros evs rt1 _ _ Hevs. wp_step. apply wp_events_sync; [done|]. intros rt2 _. wp_step.
  wp_step. apply wp_events_sync; [by repeat constructor|]. intros rt3 _. by apply wp_send_outgoing.
Qed.

Lemma wp_received_frame frame rt :
  rwp (events ← bridge_call (Bridge.handle_frame frame);
       send_outgoing_frames;; process_bridge_events events) (fun _ _ => True) rt.
Proof using laws sizes driver_laws.
  wp_step. eapply wp_mono; [apply (wp_bridge_call _ (fun evs b' =>
    Forall (event_known (Bridge.client b')) evs)), wp_handle_event; done|].
  intros evs rt1 _ _ Hevs. wp_step. apply wp_send_outgoing. intros rt2 Hb.
  eapply wp_mono; [by apply wp_bridge_events; rewrite Hb|]. done.
Qed.

Lemma wp_process_received rt : rwp process_received (fun _ _ => True) rt.
Proof using laws sizes driver_laws.
  unfold process_received. wp_step. destruct (is_connected _); [|by wp_step]. wp_step.
  intros (Hd & HI). unfold receive. pose proof (recv_frame_ok _ Hd) as Hd'.
  destruct (recv_frame (driver rt)) as [d f]. split_and!; [done..|].
  intros ? [= <-]. destruct f as [frame|]; [|by wp_step].
  destruct (FrameHeader.opcode_enum _) as [op|]; [|apply wp_received_frame].
  destruct op; try apply wp_received_frame. wp_step. eapply wp_mono; [apply wp_hello_reply|].
  intros [] rt1 _ _ _. by wp_step.
Qed.

Lemma wp_poll rt : rwp poll (fun acts _ => Forall app_action_fits acts) rt.
Proof using driver_laws.
  intros (Hd & HI & Ha). unfold poll. pose proof (poll_ok _ (app rt) Hd) as Hp.
  destruct (poll_event (driver rt, app rt)) as [[d a] r]. destruct Hp as (Hd' & Hr & Hp & Hf).
  split; [split_and!; [done..|]|by split_and!]. intros r0 [room Hr0]. apply Ha, elem_of_dom.
  rewrite <- Hr. by eapply elem_of_dom_2.
Qed.

Lemma wp_process_cycle rt : rwp process_cycle (fun _ _ => True) rt.
Proof using laws sizes driver_laws.
  unfold process_cycle. wp_step. eapply wp_mono; [apply wp_poll|]. intros acts rt1 _ _ Hacts.
  wp_step. apply (wp_mono _ _ _ (fun _ _ => True)).
  { destruct acts; [by wp_step|]. by apply wp_process_actions. }
  intros quit rt2 _ _ _. destruct quit; [by wp_step|]. wp_step.
  eapply wp_mono; [apply wp_process_received|]. intros quit rt3 _ _ _. destruct quit; [by wp_step|].
  wp_step. wp_step. eapply wp_mono; [apply (wp_bridge_call _ (fun evs b' =>
    Forall (event_known (Bridge.client b')) evs)), wp_handle_event; done|].
  intros evs rt4 _ _ Hevs. eapply wp_mono; [by apply wp_bridge_events|]. done.
Qed.

Lemma wp_cycles n : forall rt, rwp (cycles n) (fun _ _ => True) rt.
Proof using laws sizes driver_laws.
  induction n as [|n IH]; intros rt; cbn [cycles]; [by wp_step|].
  wp_step. eapply wp_mono; [apply wp_process_cycle|]. intros quit rt1 _ _ _.
  destruct quit; [by wp_step|apply IH].
Qed.

(** The application holds together: started with any driver that keeps
    to its laws, any environment and any server, after any number of
    cycles, whatever frames came in and whatever the user did, the application
    has not panicked, the client's invariant holds, and every room the
    interface shows is a room of the client. *)
Lemma application_sound (d : D) (e : Env) sid addr n :
  ready d ->
  let '(rt, answer) := run n (AppRuntime.new d e sid addr) in
  answer <> Panic /\ client_inv (Bridge.client (bridge rt)) /\
  agree (app rt) (Bridge.client (bridge rt)).
Proof using laws sizes driver_laws.
  intros Hd. assert (Hw : rwp (run n) (fun _ _ => True) (AppRuntime.new d e sid addr)).
  { unfold run. wp_step. apply wp_render. intros rt1 _. wp_step. apply wp_connect. intros rt2.
    wp_step. eapply wp_mono; [apply wp_cycles|]. intros [[]|] rt3 _ _ _; [|by wp_step].
    wp_step. apply wp_modify. intros (Hd' & HI).
    split; [split; [by apply stop_ok|exact HI]|split; [done|by wp_step]]. }
  assert (HI : rt_inv (AppRuntime.new d e sid addr)).
  { split; [done|]. split; [intros r room|intros r]; cbn; rewrite lookup_empty; [done|by intros []]. }
  specialize (Hw HI). destruct (run n _) as [rt answer]. by destruct Hw as ((? & ? & ?) & _ & ? & _).
Qed.

(** ** What a cycle sends *)

Definition same_bridge (rt rt' : loop_state) : Prop := bridge rt' = bridge rt.
#[local] Instance same_bridge_preorder : PreOrder same_bridge.
Proof. split; [by intros rt|]. intros r1 r2 r3 H1 H2. unfold same_bridge in *. congruence. Qed.

Lemma driver_call_bridge {A} (m : M D DErr A) : steps same_bridge (driver_call m).
Proof. intros rt. unfold driver_call. by destruct (m (driver rt)). Qed.

Lemma renders_bridge acts :
  Forall (eq AARender) acts -> steps same_bridge (do_actions acts) /\ yields (eq (false, [])) (do_actions acts).
Proof.
  induction 1 as [|a acts <- Hacts [IH1 IH2]]; cbn [do_actions].
  { split; [apply steps_ret, _|by apply yields_ret]. }
  split.
  - apply steps_bind; [apply _| |].
    + apply steps_bind; [apply _|intros rt; apply driver_call_bridge|]. intros []. apply steps_ret, _.
    + intros here. apply steps_bind; [apply _|done|]. intros p. apply steps_ret, _.
  - eapply (yields_bind (fun here => here = [])).
    + eapply yields_bind; [apply yields_any|]. intros [] _. by apply yields_ret.
    + intros here ->. eapply yields_bind; [exact IH2|]. intros p <-. by apply yields_ret.
Qed.

Lemma process_renders_bridge acts :
  Forall (eq AARender) acts -> steps same_bridge (process_actions acts).
Proof.
  intros Hf. unfold process_actions. cbn [process_actions_fuel]. destruct acts as [|a acts].
  { apply steps_ret, _. }
  destruct (renders_bridge _ Hf) as [H1 H2].
  eapply (steps_bind_yields _ (eq (false, []))); [done..|]. intros p <-. cbn. apply steps_ret, _.
Qed.

Lemma bridge_events_bridge evs : steps same_bridge (process_bridge_events evs).
Proof.
  induction evs as [|e evs IH]; cbn [process_bridge_events]; [apply steps_ret, _|].
  apply (steps_bind_yields _ (Forall (eq AARender))).
  - intros rt. unfold app_handle. by destruct (App.handle e (app rt)).
  - intros rt acts. unfold app_handle. pose proof (app_handle_renders e (app rt)) as Hr.
    destruct (App.handle e (app rt)). by intros [= <-].
  - intros acts Hacts. apply steps_bind; [apply _|by apply process_renders_bridge|].
    intros []; [apply steps_ret, _|done].
Qed.

(** What a tick wants to send waits: in a cycle without input and without
    a frame from the server, the client's frames of the tick (the sync request
    after a commit has timed out) are queued and none of the queue is sent. *)
Theorem tick_frames_wait (rt : loop_state) d a :
  poll_event (driver rt, app rt) = ((d, a), Ok []) ->
  is_connected d = false \/ snd (recv_frame d) = None ->
  let d1 := if is_connected d then fst (recv_frame d) else d in
  bridge (fst (process_cycle rt)) = fst (Bridge.handle_tick (driver_now d1) (bridge rt)).
Proof.
  intros Hpoll Hidle d1. unfold process_cycle, mbind at 1, M_bind at 1, poll. rewrite Hpoll.
  unfold mbind at 1, M_bind at 1, mret at 1, M_ret at 1. cbv beta iota.
  assert (Hrecv : process_received (AppRuntime.mk d a (bridge rt) (server_addr rt))
    = (AppRuntime.mk d1 a (bridge rt) (server_addr rt), Ok false)).
  { unfold process_received, d1, mbind at 1, M_bind at 1, get at 1. cbn [driver].
    destruct (is_connected d); [|done]. destruct Hidle as [|Hnone]; [done|].
    unfold mbind, M_bind, receive. cbn [driver]. destruct (recv_frame d) as [d' f]. cbn in Hnone.
    by subst f. }
  unfold mbind at 1, M_bind at 1. rewrite Hrecv. unfold mbind at 1, M_bind at 1, get at 1.
  unfold mbind at 1, M_bind at 1, bridge_call at 1. cbn [driver bridge].
  destruct (Bridge.handle_tick _ (bridge rt)) as [b [evs|[]|]]; [|done].
  apply (bridge_events_bridge evs (AppRuntime.mk d1 a b (server_addr rt))).
Qed.

End loop.

(** ** A driver that plays inputs and records what is sent *)

Definition list_order : HashOrder.
Proof.
refine {| first_key A m := head (map_to_list m).*1 |}.
- intros A m. destruct (map_to_list m) as [|[k x] l] eqn:E.
  + by apply map_to_list_empty_iff in E.
  + split; [done|]. intros ->. by rewrite map_to_list_empty in E.
- intros A m k. destruct (map_to_list m) as [|[k' x] l] eqn:E; [done|]. intros [= ->]. exists x.
  apply elem_of_map_to_list. rewrite E. left.
Defined.

Record Script := mkScript {
  sc_inputs : list (list AppAction);
  sc_frames : list Frame.t;
  sc_sent : list Frame.t;
  sc_clock : N }.

(** The actions whose texts are short; the others are dropped. *)
Definition short_actions (acts : list AppAction) : list AppAction :=
  omap (fun a => match a with
                 | AASendMessage _ content => if len content <? 2 ^ 32 then Some a else None
                 | a => Some a end) acts.

Definition script_driver : Driver Script Empty_set := {|
  poll_event := fun '(s, a) =>
    match sc_inputs s with
    | [] => ((s, a), Ok [])
    | acts :: rest =>
        ((mkScript rest (sc_frames s) (sc_sent s) (sc_clock s), a), Ok (short_actions acts))
    end;
  send_frame := fun f s => (mkScript (sc_inputs s) (sc_frames s) (sc_sent s ++ [f]) (sc_clock s), Ok tt);
  recv_frame := fun s =>
    match sc_frames s with
    | [] => (s, None)
    | f :: rest => (mkScript (sc_inputs s) rest (sc_sent s) (sc_clock s), Some f)
    end;
  driver_connect := fun _ s => (s, Ok tt);
  is_connected := fun _ => true;
  driver_now := sc_clock;
  render := fun _ s => (s, Ok tt);
  driver_stop := fun s => s;
|}.

Definition script_laws : DriverLaws Script Empty_set (Driver0 := script_driver) (fun _ => True).
Proof.
split; unfold behaves; try done.
intros [[|acts' rest] fs out t0] a _; cbn; split_and!; try done; intros acts [= <-]; [constructor|].
apply Forall_forall. intros x (y & _ & Hy)%list_elem_of_omap.
destruct y as [| | | | | |r' c| |]; simplify_eq; try done.
destruct (N.ltb_spec (len c) (2 ^ 32)); by simplify_eq.
Defined.

Section samples.
Import ClientInvariant ClientSample AppRuntime.
#[local] Existing Instances list_order script_driver script_laws.

(** Bob's application: it connects, publishes a KeyPackage, gets the Welcome and
    Alice's message, and leaves. *)
Definition hello_reply_frame : Frame.t :=
  match Payload.into_frame (Payload.HelloReply (mkHelloReply 7 [] None))
          (FrameHeader.new Opcode.HelloReply) with
  | Ok f => f
  | _ => Frame.sample
  end.

Definition bob_script : Script :=
  mkScript [] [hello_reply_frame; welcome_frame; greeting_frame] [] 0.

Definition bob_app : AppRuntime.t (Env := TestEnv) (D := Script) :=
  fst (run (DErr := Empty_set) 4 (AppRuntime.new bob_script (mkTestEnv 0 1 66 0) 2 "localhost:4433")).

Lemma application_sound_witness :
  client_inv (Bridge.client (bridge bob_app)) /\ agree (app bob_app) (Bridge.client (bridge bob_app)) /\
  RoomView.messages <$> App.rooms (app bob_app) !! 7
  = Some [mkMessage 1 SenderKeyProperties.sample_text].
Proof.
  pose proof (application_sound (DErr := Empty_set) bob_script (mkTestEnv 0 1 66 0) 2
                "localhost:4433" 4 I) as Hs.
  assert (Hm : RoomView.messages <$> App.rooms (app bob_app) !! 7
    = Some [mkMessage 1 SenderKeyProperties.sample_text]) by (vm_compute; reflexivity).
  unfold bob_app in *. destruct (run 4 _) as [rt answer]. cbn [fst] in *.
  destruct Hs as (_ & Hi & Ha). split; [exact Hi|]. split; [exact Ha|exact Hm].
Defined.

Lemma bridge_processes_all_witness :
  Bridge.process_client_actions_fuel 9 [CASend greeting_frame; CARoomRemoved 7 "Left room"]
    (Bridge.mk alice [])
  = (Bridge.mk alice [greeting_frame], Ok [AERoomLeft 7]).
Proof.
  destruct (bridge_processes_all 9 [CASend greeting_frame; CARoomRemoved 7 "Left room"]
              (Bridge.mk alice [])) as [H1 H2].
  - apply Forall_cons. split; [intros []|]. apply Forall_cons. split; [intros []|]. apply Forall_nil.
    exact I.
  - apply Nat.leb_le. reflexivity.
  - rewrite H1. exact H2.
Defined.

(** Alice has added Bob; half a minute later the commit has not come back. *)
Definition waiting_app : AppRuntime.t (Env := TestEnv) (D := Script) :=
  AppRuntime.mk (mkScript [] [] [] (from_secs 31)) (App.new "localhost:4433")
    (Bridge.mk (client_step alice_created adding) []) "localhost:4433".

Lemma tick_frames_wait_witness :
  length (Bridge.outgoing (bridge (fst (process_cycle (DErr := Empty_set) waiting_app)))) = 1%nat /\
  sc_sent (driver (fst (process_cycle (DErr := Empty_set) waiting_app))) = [].
Proof.
  split; [|vm_compute; reflexivity].
  rewrite (tick_frames_wait (DErr := Empty_set) waiting_app (mkScript [] [] [] (from_secs 31))
             (App.new "localhost:4433")).
  - vm_compute. reflexivity.
  - reflexivity.
  - right. reflexivity.
Defined.

End samples.
End AppInvariant.
