(* ===== verification/Tui.v ===== *)
(** * The terminal interface

    The parts of [lockframe-tui] that decide: the command parser
    ([commands.rs]) and the line editor with its keys ([input.rs]).  A [String]
    is the list of its characters; its byte indices are those of its UTF-8
    encoding, so that an index within a character panics as in Rust. *)

From stdpp Require Import sorting.
From S2P Require Import Prelude Env Opcodes Header Framing Payloads Validator SenderKeys Mls.
From S2P Require Import Samples Client ClientInv App AppInv.

Local Open Scope N_scope.

(** ** Characters and strings *)

Abbreviation char := N (only parsing).
Abbreviation text := (list N) (only parsing).

Definition len_utf8 (c : char) : N :=
  if c <? 0x80 then 1 else if c <? 0x800 then 2 else if c <? 0x10000 then 3 else 4.

Definition encode_utf8 (c : char) : bytes :=
  if c <? 0x80 then [byte_of c]
  else if c <? 0x800 then [byte_of (0xC0 + c / 64); byte_of (0x80 + c mod 64)]
  else if c <? 0x10000 then
    [byte_of (0xE0 + c / 4096); byte_of (0x80 + c / 64 mod 64); byte_of (0x80 + c mod 64)]
  else
    [byte_of (0xF0 + c / 262144); byte_of (0x80 + c / 4096 mod 64);
     byte_of (0x80 + c / 64 mod 64); byte_of (0x80 + c mod 64)].

(** [s.len()] and [s.into_bytes()]. *)
Definition byte_len (s : text) : N := foldr (fun c n => len_utf8 c + n) 0 s.
Definition into_bytes (s : text) : bytes := concat (map encode_utf8 s).

(** The text of an ASCII literal, and a text as a string of bytes. *)
Definition lit (s : string) : text := map N_of_ascii (String.list_ascii_of_string s).
Definition to_string (s : text) : string := String.string_of_list_byte (into_bytes s).

(** The text before and after a byte index; [None] within a character or past
    the end. *)
Fixpoint split_at_byte (idx : N) (s : text) : option (text * text) :=
  if idx =? 0 then Some ([], s)
  else
    match s with
    | [] => None
    | c :: s' =>
        if idx <? len_utf8 c then None
        else '(before, after) ← split_at_byte (idx - len_utf8 c) s'; Some (c :: before, after)
    end.

(** [String::insert] and [String::remove]. *)
Definition string_insert {E} (idx : N) (c : char) (s : text) : res E text :=
  match split_at_byte idx s with
  | Some (before, after) => Ok (before ++ c :: after)
  | None => Panic
  end.

Definition string_remove {E} (idx : N) (s : text) : res E text :=
  match split_at_byte idx s with
  | Some (before, _ :: after) => Ok (before ++ after)
  | _ => Panic
  end.

(** [char::is_whitespace]: the property White_Space. *)
Definition is_whitespace (c : char) : bool :=
  ((9 <=? c) && (c <=? 13)) || (c =? 32) || (c =? 0x85) || (c =? 0xA0) || (c =? 0x1680) ||
  ((0x2000 <=? c) && (c <=? 0x200A)) || (c =? 0x2028) || (c =? 0x2029) || (c =? 0x202F) ||
  (c =? 0x205F) || (c =? 0x3000).

Fixpoint trim_start (s : text) : text :=
  match s with c :: s' => if is_whitespace c then trim_start s' else s | [] => [] end.
Definition trim (s : text) : text := rev (trim_start (rev (trim_start s))).

(** The words of [split_whitespace]; [word] is the one being read, reversed. *)
Fixpoint split_words (word : text) (s : text) : list text :=
  match s with
  | [] => match word with [] => [] | _ => [rev word] end
  | c :: s' =>
      if is_whitespace c
      then match word with [] => split_words [] s' | _ => rev word :: split_words [] s' end
      else split_words (c :: word) s'
  end.
Definition split_whitespace (s : text) : list text := split_words [] s.

(** [str::parse] of an unsigned type with maximum [max]: an optional plus sign,
    digits, no overflow. *)
Fixpoint parse_digits (max acc : N) (s : text) : option N :=
  match s with
  | [] => Some acc
  | c :: s' =>
      if (48 <=? c) && (c <=? 57) then
        let acc' := acc * 10 + (c - 48) in
        if max <? acc' then None else parse_digits max acc' s'
      else None
  end.

Definition parse_unsigned (max : N) (s : text) : option N :=
  match s with
  | [] => None
  | c :: s' =>
      if c =? 43 then match s' with [] => None | _ => parse_digits max 0 s' end
      else parse_digits max 0 s
  end.

(** ** Commands *)

Module Commands.

Inductive t : Type :=
  | Connect
  | CreateRoom (room_id : N)
  | JoinRoom (room_id : N)
  | LeaveActiveRoom
  | PublishKeyPackage
  | AddMember (user_id : N)
  | Quit
  | Message (content : text)
  | Unknown (input : text)
  | InvalidArgs (command error : string).

(** A command with a number as its argument. *)
Definition with_number (command usage invalid : string) (max : N) (make : N -> t)
    (arg : option text) : t :=
  match arg with
  | Some id_str =>
      match parse_unsigned max id_str with
      | Some n => make n
      | None => InvalidArgs command invalid
      end
  | None => InvalidArgs command usage
  end.

(** The [match] on the first of the words after the slash. *)
Definition dispatch (input : text) (parts : list text) : t :=
  let command := default [] (parts !! 0%nat) in
  let arg := parts !! 1%nat in
  if bool_decide (command = lit "connect") then Connect
  else if bool_decide (command = lit "create") then
    with_number "create" "Usage: /create <room_id>" "Invalid room ID" u128_MAX CreateRoom arg
  else if bool_decide (command = lit "join") then
    with_number "join" "Usage: /join <room_id>" "Invalid room ID" u128_MAX JoinRoom arg
  else if bool_decide (command = lit "leave") then LeaveActiveRoom
  else if bool_decide (command = lit "publish") then PublishKeyPackage
  else if bool_decide (command = lit "add") then
    with_number "add" "Usage: /add <user_id>" "Invalid user ID" u64_MAX AddMember arg
  else if bool_decide (command = lit "quit") || bool_decide (command = lit "q") then Quit
  else Unknown input.

Definition parse (input : text) : t :=
  let input := trim input in
  match input with
  | [] => Message []
  | c :: cmd_str =>
      if c =? 47 then dispatch input (split_whitespace cmd_str) else Message input
  end.

End Commands.

(** ** The input line *)

Inductive KeyInput :=
  | KChar (c : char)
  | KEnter | KBackspace | KDelete | KTab | KEsc | KLeft | KRight | KUp | KDown | KHome | KEnd.

Module InputState.

(** The cursor is a byte index. *)
Record t := mk { buffer : text; cursor : N }.
Definition new : t := mk [] 0.

Section input.
Context `{HashOrder}.

(** The methods change the input line and the interface, and return no error. *)
Abbreviation input A := (M (t * App.t) Empty_set A).

Definition set_cursor (n : N) : input unit := modify (fun '(i, a) => (mk (buffer i) n, a)).
Definition set_buffer (b : text) : input unit := modify (fun '(i, a) => (mk b (cursor i), a)).

(** A call of the interface that changes it, and its actions. *)
Definition call (f : App.t -> App.t * list AppAction) : input (list AppAction) := fun '(i, a) =>
  let '(a', actions) := f a in ((i, a'), Ok actions).
Definition status (message : string) : input (list AppAction) :=
  call (fun a => (App.set_status message a, [AARender])).

(** A command about the active room. *)
Definition with_active_room (f : N -> input (list AppAction)) (otherwise : string)
    : input (list AppAction) :=
  s ← get;
  match App.active_room (snd s) with
  | Some room_id => f room_id
  | None => status otherwise
  end.

Definition do_command (c : Commands.t) : input (list AppAction) :=
  match c with
  | Commands.Connect => status "Already connected"
  | Commands.CreateRoom room_id => call (App.create_room room_id)
  | Commands.JoinRoom room_id => mret (App.join_room room_id)
  | Commands.LeaveActiveRoom =>
      with_active_room (fun room_id => mret (App.leave_room room_id)) "No active room"
  | Commands.PublishKeyPackage => mret App.publish_key_package
  | Commands.AddMember user_id =>
      with_active_room (fun room_id => call (App.add_member room_id user_id)) "No active room"
  | Commands.Quit => mret App.quit
  | Commands.Message content =>
      with_active_room (fun room_id => mret (App.send_message room_id (into_bytes content)))
        "No active room to send message"
  | Commands.Unknown input => status ("Unknown command: " +:+ to_string input)
  | Commands.InvalidArgs command error => status ("/" +:+ command +:+ ": " +:+ error)
  end.

Definition handle_enter : input (list AppAction) :=
  s ← get;
  let text := buffer (fst s) in
  set_buffer [];; set_cursor 0;;
  match text with
  | [] => mret []
  | _ => do_command (Commands.parse text)
  end.

(** [room_ids.iter().position(|&r| r == id)] *)
Definition position (id : N) (room_ids : list N) : option nat := fst <$> list_find (eq id) room_ids.

Definition sorted_ids (a : App.t) : list N := merge_sort N.le (map_to_list (App.rooms a)).*1.

Definition next_room (a : App.t) : option N :=
  let room_ids := sorted_ids a in
  let current_idx := App.active_room a ≫= fun id => position id room_ids in
  let next_idx :=
    match current_idx with
    | None => 0%nat
    | Some idx => if (length room_ids <=? S idx)%nat then 0%nat else S idx
    end in
  room_ids !! next_idx.

Definition handle_tab : input (list AppAction) :=
  s ← get;
  let app := snd s in
  if bool_decide (App.rooms app = ∅) then mret []
  else
    match next_room app with
    | Some next_room => call (fun a => (App.set_active_room next_room a, [AARender]))
    | None => mret [AARender]
    end.

(** The cursor is a [usize] below the length of the buffer, so that the
    saturating addition does not saturate. *)
Definition handle_key (key : KeyInput) : input (list AppAction) :=
  s ← get;
  let i := fst s in
  match key with
  | KChar c =>
      b ← lift (string_insert (cursor i) c (buffer i));
      set_buffer b;; set_cursor (cursor i + 1);;
      mret [AARender]
  | KBackspace =>
      (if 0 <? cursor i then
         set_cursor (cursor i - 1);;
         b ← lift (string_remove (cursor i - 1) (buffer i));
         set_buffer b
       else mret tt);;
      mret [AARender]
  | KDelete =>
      (if cursor i <? byte_len (buffer i) then
         b ← lift (string_remove (cursor i) (buffer i));
         set_buffer b
       else mret tt);;
      mret [AARender]
  | KLeft => set_cursor (cursor i - 1);; mret [AARender]
  | KRight =>
      (if cursor i <? byte_len (buffer i) then set_cursor (cursor i + 1) else mret tt);;
      mret [AARender]
  | KHome => set_cursor 0;; mret [AARender]
  | KEnd => set_cursor (byte_len (buffer i));; mret [AARender]
  | KEnter => handle_enter
  | KTab => handle_tab
  | KEsc => mret [AAQuit]
  | KUp | KDown => mret []
  end.

End input.
End InputState.
