(* ===== verification/Ui.v ===== *)
(** * Drawing

    [lockframe-tui/src/ui]: what the interface draws of the application's state
    and the line being edited, and [Message::content_str] of the application.
    The functions of the source fill a frame of ratatui; here they give the list
    of its calls, each widget with its area.  How an area is split is ratatui's
    and a class.  A [string] is the UTF-8 of a Rust string. *)

From stdpp Require Import sorting.
From S2P Require Import Prelude Env Opcodes Header Framing Payloads App AppInv Tui.

Local Open Scope N_scope.

(** ** Text of bytes *)

Definition REPLACEMENT : char := 0xFFFD.

Definition in_range (lo hi : N) (b : Byte.byte) : bool := (lo <=? Byte.to_N b) && (Byte.to_N b <=? hi).

(** A continuation byte: the byte and [0xC0] is [0x80]. *)
Definition is_cont (b : Byte.byte) : bool := in_range 0x80 0xBF b.

(** The second byte of a character of three and of four bytes. *)
Definition second_of_three (b0 b1 : Byte.byte) : bool :=
  let n := Byte.to_N b0 in
  if n =? 0xE0 then in_range 0xA0 0xBF b1
  else if n =? 0xED then in_range 0x80 0x9F b1
  else is_cont b1.
Definition second_of_four (b0 b1 : Byte.byte) : bool :=
  let n := Byte.to_N b0 in
  if n =? 0xF0 then in_range 0x90 0xBF b1
  else if n =? 0xF4 then in_range 0x80 0x8F b1
  else is_cont b1.

(** The six low bits of a byte. *)
Definition low6 (b : Byte.byte) : N := Byte.to_N b mod 64.

(** [String::from_utf8_lossy]: a longest prefix of a character that does not
    become one is one replacement character. *)
Fixpoint from_utf8_lossy (bs : bytes) : text :=
  match bs with
  | [] => []
  | b0 :: r0 =>
      let n := Byte.to_N b0 in
      if n <? 0x80 then n :: from_utf8_lossy r0
      else if in_range 0xC2 0xDF b0 then
        match r0 with
        | b1 :: r1 =>
            if is_cont b1 then n mod 32 * 64 + low6 b1 :: from_utf8_lossy r1
            else REPLACEMENT :: from_utf8_lossy r0
        | [] => [REPLACEMENT]
        end
      else if in_range 0xE0 0xEF b0 then
        match r0 with
        | b1 :: r1 =>
            if second_of_three b0 b1 then
              match r1 with
              | b2 :: r2 =>
                  if is_cont b2
                  then n mod 16 * 4096 + low6 b1 * 64 + low6 b2 :: from_utf8_lossy r2
                  else REPLACEMENT :: from_utf8_lossy r1
              | [] => [REPLACEMENT]
              end
            else REPLACEMENT :: from_utf8_lossy r0
        | [] => [REPLACEMENT]
        end
      else if in_range 0xF0 0xF4 b0 then
        match r0 with
        | b1 :: r1 =>
            if second_of_four b0 b1 then
              match r1 with
              | b2 :: r2 =>
                  if is_cont b2 then
                    match r2 with
                    | b3 :: r3 =>
                        if is_cont b3
                        then n mod 8 * 262144 + low6 b1 * 4096 + low6 b2 * 64 + low6 b3
                               :: from_utf8_lossy r3
                        else REPLACEMENT :: from_utf8_lossy r2
                    | [] => [REPLACEMENT]
                    end
                  else REPLACEMENT :: from_utf8_lossy r1
              | [] => [REPLACEMENT]
              end
            else REPLACEMENT :: from_utf8_lossy r0
        | [] => [REPLACEMENT]
        end
      else REPLACEMENT :: from_utf8_lossy r0
  end.

(** [Message::content_str]. *)
Definition content_str (m : Message) : text := from_utf8_lossy (msg_content m).

(** ** Widgets *)

Record Rect := mkRect { x : N; y : N; width : N; height : N }.

Inductive Color := Red | Green | Yellow | Cyan | DarkGray | White.

Record Style := mkStyle { fg : option Color; bg : option Color; bold : bool }.

Definition plain : Style := mkStyle None None false.
Definition fg_style (c : Color) : Style := mkStyle (Some c) None false.
Definition bold_style (c : Color) : Style := mkStyle (Some c) None true.

Record Span := mkSpan { content : string; style : Style }.
Definition raw (s : string) : Span := mkSpan s plain.

Abbreviation Line := (list Span) (only parsing).

(** A bordered block, with its title. *)
Record Block := mkBlock { title : option string }.

Inductive Widget :=
  | WList (items : list Line) (block : Block)
  | WParagraph (line : Line) (style : Style) (block : option Block).

Inductive DrawCall :=
  | RenderWidget (w : Widget) (area : Rect)
  | SetCursorPosition (cx cy : N).

Inductive Direction := Vertical | Horizontal.
Inductive Constraint := Min (n : N) | Length (n : N).

(** ratatui's [Layout::split]: one area for each constraint, within the area. *)
Class Layout := {
  layout_split : Direction -> list Constraint -> Rect -> list Rect;
  layout_split_length d cs r : length (layout_split d cs r) = length cs;
  layout_split_within d cs r r' : r' ∈ layout_split d cs r ->
    x r <= x r' /\ x r' + width r' <= x r + width r /\
    y r <= y r' /\ y r' + height r' <= y r + height r;
}.

(** A number as [u16]. *)
Definition as_u16 (n : N) : N := n mod 2 ^ 16.
Definition saturating_add_u16 (a b : N) : N := N.min (a + b) (2 ^ 16 - 1).

(** ** The rooms *)

Module Rooms.

Inductive RoomDisplayState := Active | Unread | Normal.

Definition ROOM_ID_HEX_WIDTH : nat := 4.

Definition display_state (a : App.t) (room_id : N) : RoomDisplayState :=
  if bool_decide (App.active_room a = Some room_id) then Active
  else match App.rooms a !! room_id with
       | Some r => if RoomView.unread r then Unread else Normal
       | None => Normal
       end.

(** The last four digits, filled up with zeros. *)
Definition room_name (room_id : N) : string :=
  let full_hex := fmt_hex 0 room_id in
  let tail := String.substring (String.length full_hex - ROOM_ID_HEX_WIDTH)
                ROOM_ID_HEX_WIDTH full_hex in
  "#" +:+ string_replicate (ROOM_ID_HEX_WIDTH - String.length tail) "0"%char +:+ tail.

Definition item (a : App.t) (room_id : N) : Line :=
  let '(prefix, suffix, name_style) :=
    match display_state a room_id with
    | Active => (">", EmptyString, bold_style Yellow)
    | Unread => (" ", "*", fg_style Cyan)
    | Normal => (" ", EmptyString, plain)
    end in
  [raw prefix; mkSpan (room_name room_id) name_style; mkSpan suffix (fg_style Red)].

Definition render (a : App.t) (area : Rect) : list DrawCall :=
  let room_ids := merge_sort N.le (map_to_list (App.rooms a)).*1 in
  [RenderWidget (WList (map (item a) room_ids) (mkBlock (Some " Rooms "%string))) area].

End Rooms.

(** ** The messages of the active room *)

Module Chat.

Definition BORDER_SIZE : N := 2.

Definition chat_title (a : App.t) : string :=
  match App.active_room a with
  | Some room_id => " #" +:+ fmt_hex 4 (as_u16 room_id) +:+ " "
  | None => " No Room "
  end.

Definition message_item (m : Message) : Line :=
  [mkSpan ("<" +:+ fmt_hex 4 (as_u16 (msg_sender_id m)) +:+ ">") (bold_style Green);
   raw " "; raw (to_string (content_str m))].

Definition render (a : App.t) (area : Rect) : list DrawCall :=
  let items :=
    match App.active_room_state a with
    | Some room => map message_item (RoomView.messages room)
    | None => [[mkSpan "Join a room to start chatting" (fg_style DarkGray)]]
    end in
  let visible_height := saturating_sub (height area) BORDER_SIZE in
  let skip := saturating_sub (N.of_nat (length items)) visible_height in
  let visible_items := drop (N.to_nat skip) items in
  [RenderWidget (WList visible_items (mkBlock (Some (chat_title a)))) area].

End Chat.

(** ** The line being edited *)

Module InputLine.

Definition PROMPT_WIDTH : N := 3.
Definition INPUT_LINE_OFFSET_Y : N := 1.
Definition RIGHT_PADDING : N := 1.

Definition render (i : InputState.t) (area : Rect) : list DrawCall :=
  let input_text := "> " +:+ to_string (InputState.buffer i) in
  let available_width := saturating_sub (width area) (PROMPT_WIDTH + RIGHT_PADDING) in
  let cursor_offset := N.min (as_u16 (InputState.cursor i)) available_width in
  let cursor_x := saturating_add_u16 (saturating_add_u16 (x area) PROMPT_WIDTH) cursor_offset in
  let cursor_y := saturating_add_u16 (y area) INPUT_LINE_OFFSET_Y in
  let max_x := saturating_sub (saturating_add_u16 (x area) (width area)) RIGHT_PADDING in
  [RenderWidget (WParagraph [raw input_text] (fg_style White) (Some (mkBlock None))) area;
   SetCursorPosition (N.min cursor_x max_x) cursor_y].

End InputLine.

(** ** The status bar *)

Module Status.

Definition connection_status (s : ConnectionState) : Span :=
  match s with
  | Disconnected => mkSpan "Disconnected" (fg_style Red)
  | Connecting => mkSpan "Connecting..." (fg_style Yellow)
  | Connected _ sender_id =>
      mkSpan ("Connected | Your ID: " +:+ pretty sender_id) (bold_style Green)
  end.

Definition room_info (a : App.t) : string :=
  match App.active_room_state a with
  | None => EmptyString
  | Some room =>
      " | Room: #" +:+ fmt_hex 4 (as_u16 (RoomView.room_id room))
        +:+ " | Members: " +:+ pretty (size (RoomView.members room))
        +:+ " | Messages: " +:+ pretty (length (RoomView.messages room))
  end.

Definition status_msg (a : App.t) : string :=
  match App.status_message a with Some msg => " | " +:+ msg | None => EmptyString end.

Definition render (a : App.t) (area : Rect) : list DrawCall :=
  [RenderWidget
     (WParagraph [raw " "; connection_status (App.state a);
                  mkSpan (room_info a) (fg_style DarkGray); mkSpan (status_msg a) (fg_style Red)]
        (mkStyle (Some White) (Some DarkGray) false) None) area].

End Status.

(** ** The screen *)

Module Ui.
Section render.
Context `{Layout}.

Definition MAIN_AREA_MIN_HEIGHT : N := 3.
Definition INPUT_HEIGHT : N := 3.
Definition STATUS_HEIGHT : N := 1.
Definition ROOM_SIDEBAR_WIDTH : N := 12.
Definition CHAT_AREA_MIN_WIDTH : N := 20.

Definition render (a : App.t) (input_state : InputState.t) (frame_area : Rect) : list DrawCall :=
  match layout_split Vertical
          [Min MAIN_AREA_MIN_HEIGHT; Length INPUT_HEIGHT; Length STATUS_HEIGHT] frame_area with
  | [main_area; input_area; status_area] =>
      match layout_split Horizontal [Length ROOM_SIDEBAR_WIDTH; Min CHAT_AREA_MIN_WIDTH]
              main_area with
      | [rooms_area; chat_area] =>
          Rooms.render a rooms_area ++ Chat.render a chat_area ++
          InputLine.render input_state input_area ++ Status.render a status_area
      | _ => []
      end
  | _ => []
  end.

End render.
End Ui.

(** ** Properties *)

Module UiProperties.

(** A Unicode scalar value. *)
Definition is_scalar (c : char) : Prop := c < 0xD800 \/ 0xDFFF < c < 0x110000.

(** The bits below the leading bits of a byte. *)
Lemma low_bits lead m n : lead mod m = 0 -> lead <= n < lead + m -> n mod m = n - lead.
Proof.
  intros Hl Hn. apply N.Div0.mod_divides in Hl as [k ->].
  symmetry. apply (N.mod_unique _ _ k); lia.
Qed.

Lemma in_range_spec lo hi b : BoolSpec (lo <= Byte.to_N b <= hi) (~ lo <= Byte.to_N b <= hi) (in_range lo hi b).
Proof.
  unfold in_range. destruct (N.leb_spec lo (Byte.to_N b)), (N.leb_spec (Byte.to_N b) hi);
    constructor; lia.
Qed.

Lemma in_range_true lo hi b : lo <= Byte.to_N b <= hi -> in_range lo hi b = true.
Proof. by destruct (in_range_spec lo hi b). Qed.
Lemma in_range_false lo hi b : ~ lo <= Byte.to_N b <= hi -> in_range lo hi b = false.
Proof. by destruct (in_range_spec lo hi b). Qed.

Lemma byte_val n : n < 256 -> Byte.to_N (byte_of n) = n.
Proof. intros Hn. rewrite to_N_byte_of. by apply N.mod_small. Qed.

Lemma second_of_three_spec b0 b1 : 0xE0 <= Byte.to_N b0 <= 0xEF ->
  second_of_three b0 b1 = true <->
  0x80 <= Byte.to_N b1 <= 0xBF /\
  (Byte.to_N b0 = 0xE0 -> 0xA0 <= Byte.to_N b1) /\ (Byte.to_N b0 = 0xED -> Byte.to_N b1 <= 0x9F).
Proof.
  intros Hb. unfold second_of_three, is_cont.
  destruct (N.eqb_spec (Byte.to_N b0) 0xE0); [|destruct (N.eqb_spec (Byte.to_N b0) 0xED)];
    match goal with |- context [in_range ?l ?h b1] => destruct (in_range_spec l h b1) end;
    split; intros; try done; lia.
Qed.

Lemma second_of_four_spec b0 b1 : 0xF0 <= Byte.to_N b0 <= 0xF4 ->
  second_of_four b0 b1 = true <->
  0x80 <= Byte.to_N b1 <= 0xBF /\
  (Byte.to_N b0 = 0xF0 -> 0x90 <= Byte.to_N b1) /\ (Byte.to_N b0 = 0xF4 -> Byte.to_N b1 <= 0x8F).
Proof.
  intros Hb. unfold second_of_four, is_cont.
  destruct (N.eqb_spec (Byte.to_N b0) 0xF0); [|destruct (N.eqb_spec (Byte.to_N b0) 0xF4)];
    match goal with |- context [in_range ?l ?h b1] => destruct (in_range_spec l h b1) end;
    split; intros; try done; lia.
Qed.

(** A character at the head of the bytes is read as such. *)
Lemma lossy_encode c r : is_scalar c -> from_utf8_lossy (encode_utf8 c ++ r) = c :: from_utf8_lossy r.
Proof.
  intros Hc. unfold is_scalar in Hc. unfold encode_utf8.
  pose proof (N.div_mod' c 64) as D1. pose proof (N.mod_lt c 64 ltac:(done)) as M1.
  set (q1 := c / 64) in *. set (d3 := c mod 64) in *.
  pose proof (N.div_mod' q1 64) as D2. pose proof (N.mod_lt q1 64 ltac:(done)) as M2.
  assert (c / 4096 = q1 / 64) as -> by (unfold q1; by rewrite N.Div0.div_div).
  set (q2 := q1 / 64) in *. set (d2 := q1 mod 64) in *.
  pose proof (N.div_mod' q2 64) as D3. pose proof (N.mod_lt q2 64 ltac:(done)) as M3.
  assert (c / 262144 = q2 / 64) as -> by (unfold q2, q1; by rewrite !N.Div0.div_div).
  set (q3 := q2 / 64) in *. set (d1 := q2 mod 64) in *. clearbody d1 d2 d3 q1 q2 q3.
  assert (Hcont : forall d, d < 64 -> is_cont (byte_of (0x80 + d)) = true /\ low6 (byte_of (0x80 + d)) = d).
  { intros d Hd. unfold is_cont, low6. split; [apply in_range_true; rewrite byte_val by lia; lia|].
    rewrite byte_val by lia. rewrite (low_bits 0x80 64) by (done || lia). lia. }
  destruct (N.ltb_spec c 0x80); [|destruct (N.ltb_spec c 0x800); [|destruct (N.ltb_spec c 0x10000)]];
    cbn [app from_utf8_lossy].
  - rewrite byte_val by lia. by rewrite (proj2 (N.ltb_lt _ _)) by done.
  - destruct (Hcont d3 M1) as [-> ->]. rewrite (byte_val (0xC0 + q1)) by lia.
    rewrite (low_bits 0xC0 32 (0xC0 + q1)) by (done || lia).
    rewrite (proj2 (N.ltb_ge (0xC0 + q1) 0x80)) by lia.
    rewrite (in_range_true 0xC2 0xDF (byte_of (0xC0 + q1))) by (rewrite byte_val by lia; lia).
    f_equal. lia.
  - assert (second_of_three (byte_of (0xE0 + q2)) (byte_of (0x80 + d2)) = true) as ->.
    { apply second_of_three_spec; rewrite !byte_val by lia; lia. }
    destruct (Hcont d3 M1) as [-> ->]. destruct (Hcont d2 M2) as [_ ->].
    rewrite (byte_val (0xE0 + q2)) by lia. rewrite (low_bits 0xE0 16 (0xE0 + q2)) by (done || lia).
    rewrite (proj2 (N.ltb_ge (0xE0 + q2) 0x80)) by lia.
    rewrite (in_range_false 0xC2 0xDF (byte_of (0xE0 + q2))) by (rewrite byte_val by lia; lia).
    rewrite (in_range_true 0xE0 0xEF (byte_of (0xE0 + q2))) by (rewrite byte_val by lia; lia).
    f_equal. lia.
  - assert (second_of_four (byte_of (0xF0 + q3)) (byte_of (0x80 + d1)) = true) as ->.
    { apply second_of_four_spec; rewrite !byte_val by lia; lia. }
    destruct (Hcont d3 M1) as [-> ->]. destruct (Hcont d2 M2) as [-> ->].
    destruct (Hcont d1 M3) as [_ ->].
    rewrite (byte_val (0xF0 + q3)) by lia. rewrite (low_bits 0xF0 8 (0xF0 + q3)) by (done || lia).
    rewrite (proj2 (N.ltb_ge (0xF0 + q3) 0x80)) by lia.
    rewrite (in_range_false 0xC2 0xDF (byte_of (0xF0 + q3))) by (rewrite byte_val by lia; lia).
    rewrite (in_range_false 0xE0 0xEF (byte_of (0xF0 + q3))) by (rewrite byte_val by lia; lia).
    rewrite (in_range_true 0xF0 0xF4 (byte_of (0xF0 + q3))) by (rewrite byte_val by lia; lia).
    f_equal. lia.
Qed.

(** A text that is encoded is read again. *)
Lemma content_into_bytes (s : text) sender :
  Forall is_scalar s -> content_str (mkMessage sender (into_bytes s)) = s.
Proof.
  unfold content_str, into_bytes. cbn [msg_content].
  induction 1 as [|c s Hc _ IH]; [done|]. cbn [map concat]. by rewrite lossy_encode, IH.
Qed.

(** ** Names of rooms *)

Lemma string_app_assoc (a b c : string) : (a +:+ b) +:+ c = a +:+ b +:+ c.
Proof.
  induction a as [|x a IH]; [done|].
  change (String x ((a +:+ b) +:+ c) = String x (a +:+ b +:+ c)). by rewrite IH.
Qed.

Lemma hex_digits_app fuel : forall n acc, exists pre, hex_digits fuel n acc = pre +:+ acc.
Proof.
  induction fuel as [|fuel IH]; intros n acc; [by exists EmptyString|]. cbn.
  destruct (n <? 16)%N; [by exists (String (hex_digit (n mod 16)) EmptyString)|].
  destruct (IH (n / 16) (String (hex_digit (n mod 16)) acc)) as [pre ->].
  exists (pre +:+ String (hex_digit (n mod 16)) EmptyString).
  by rewrite string_app_assoc.
Qed.

Lemma length_string_app a b : String.length (a +:+ b) = (String.length a + String.length b)%nat.
Proof. induction a as [|x a IH]; [done|]. change (S (String.length (a +:+ b)) = S (String.length a) + String.length b)%nat. lia. Qed.

(** The end of a string of known length. *)
Lemma substring_end pre s :
  String.substring (String.length (pre +:+ s) - String.length s) (String.length s) (pre +:+ s) = s.
Proof.
  rewrite length_string_app, Nat.add_sub. induction pre as [|c pre IH]; [|exact IH].
  change (String.substring 0 (String.length s) s = s).
  induction s as [|c s IH]; [done|]. cbn. by rewrite IH.
Qed.

(** The four hexadecimal digits of a number of 16 bits. *)
Definition four_digits (n : N) : string :=
  String (hex_digit (n / 4096 mod 16)) (String (hex_digit (n / 256 mod 16))
    (String (hex_digit (n / 16 mod 16)) (String (hex_digit (n mod 16)) EmptyString))).

Lemma div_256 n : n / 16 / 16 = n / 256.
Proof. apply N.Div0.div_div. Qed.
Lemma div_4096 n : n / 256 / 16 = n / 4096.
Proof. apply N.Div0.div_div. Qed.

Lemma hex_step fuel n acc :
  16 <= n -> hex_digits (S fuel) n acc = hex_digits fuel (n / 16) (String (hex_digit (n mod 16)) acc).
Proof. intros Hn. cbn [hex_digits]. by rewrite (proj2 (N.ltb_ge n 16)). Qed.

Lemma hex_last fuel n acc :
  n < 16 -> hex_digits (S fuel) n acc = String (hex_digit (n mod 16)) acc.
Proof. intros Hn. cbn [hex_digits]. by rewrite (proj2 (N.ltb_lt n 16)). Qed.

Lemma fmt_hex_short n : n < 2 ^ 16 -> exists k, (k < 4)%nat /\
  four_digits n = string_replicate k "0"%char +:+ hex_digits 32 n EmptyString /\
  String.length (hex_digits 32 n EmptyString) = (4 - k)%nat.
Proof.
  intros Hn. unfold four_digits.
  assert (Hs : forall a b, a < b -> a / b = 0) by (intros; by apply N.div_small).
  destruct (N.ltb_spec n 16) as [H1|H1]; [|destruct (N.ltb_spec n 256) as [H2|H2];
    [|destruct (N.ltb_spec n 4096) as [H3|H3]]].
  - exists 3%nat. rewrite (hex_last 31), !Hs by lia. split_and!; [lia|done..].
  - exists 2%nat. assert (n / 16 < 16) by (apply N.Div0.div_lt_upper_bound; lia).
    rewrite (hex_step 31), (hex_last 30), (Hs n 4096), (Hs n 256) by lia.
    split_and!; [lia|done..].
  - exists 1%nat. assert (16 <= n / 16) by (apply N.div_le_lower_bound; lia).
    assert (n / 256 < 16) by (apply N.Div0.div_lt_upper_bound; lia).
    rewrite (hex_step 31), (hex_step 30), div_256, (hex_last 29), (Hs n 4096) by lia.
    split_and!; [lia|done..].
  - exists 0%nat. assert (16 <= n / 16 /\ 16 <= n / 256) as []
      by (split; apply N.div_le_lower_bound; lia).
    assert (n / 4096 < 16) by (apply N.Div0.div_lt_upper_bound; lia).
    rewrite (hex_step 31), (hex_step 30), div_256, (hex_step 29), div_4096, (hex_last 28) by lia.
    split_and!; [lia|done..].
Qed.

Lemma fmt_hex_four n : n < 2 ^ 16 -> fmt_hex 4 n = four_digits n.
Proof.
  intros (k & Hk & -> & Hl)%fmt_hex_short. unfold fmt_hex. rewrite Hl. do 2 f_equal. lia.
Qed.

Lemma low_digit m j r :
  m <> 0 -> 65536 = 16 * j * m -> (r mod 65536) / m mod 16 = r / m mod 16.
Proof.
  intros Hm Hj. rewrite (N.div_mod' r 65536) at 2. rewrite Hj at 2.
  replace (16 * j * m * (r / 65536) + r mod 65536) with (j * (r / 65536) * 16 * m + r mod 65536) by lia.
  rewrite N.div_add_l by done. by rewrite N.add_comm, N.Div0.mod_add.
Qed.

(** The rooms and the title of the chat name a room alike: by the digits of its
    low 16 bits. *)
Lemma room_name_short r : Rooms.room_name r = "#" +:+ fmt_hex 4 (as_u16 r).
Proof.
  assert (Hu : as_u16 r < 2 ^ 16) by (apply N.mod_lt; done).
  unfold Rooms.room_name. rewrite fmt_hex_four by done.
  change (fmt_hex 0 r) with (hex_digits 32 r EmptyString).
  destruct (N.ltb_spec r (2 ^ 16)) as [Hr|Hr].
  - unfold as_u16. rewrite N.mod_small by done.
    destruct (fmt_hex_short r Hr) as (k & Hk & -> & Hl). rewrite Hl.
    set (d := hex_digits 32 r EmptyString) in *.
    assert (Hsub : String.substring (4 - k - 4) 4 d = d).
    { replace (4 - k - 4)%nat with 0%nat by lia. clearbody d. clear -Hl Hk.
      do 5 (destruct d as [|? d]; cbn in *; [done|]). lia. }
    change Rooms.ROOM_ID_HEX_WIDTH with 4%nat. rewrite Hsub, Hl.
    do 2 f_equal. by replace (4 - (4 - k))%nat with k by lia.
  - assert (E : exists pre, hex_digits 32 r EmptyString = pre +:+ four_digits (as_u16 r)).
    { assert (16 <= r / 16 /\ 16 <= r / 256 /\ 16 <= r / 4096) as (? & ? & ?)
        by (split_and!; apply N.div_le_lower_bound; lia).
      destruct (hex_digits_app 28 (r / 65536) (four_digits (as_u16 r))) as [pre Hpre].
      exists pre. rewrite <- Hpre, (hex_step 31), (hex_step 30), div_256, (hex_step 29), div_4096,
        (hex_step 28), (N.Div0.div_div r 4096 16) by lia.
      unfold four_digits, as_u16. change (2 ^ 16) with 65536.
      rewrite (low_digit 4096 1), (low_digit 256 16), (low_digit 16 256) by done.
      pose proof (low_digit 1 4096 r ltac:(done) eq_refl) as Hd. rewrite !N.div_1_r in Hd.
      by rewrite Hd. }
    destruct E as [pre ->].
    pose proof (substring_end pre (four_digits (as_u16 r))) as Hs.
    change (String.length (four_digits (as_u16 r))) with 4%nat in Hs.
    change Rooms.ROOM_ID_HEX_WIDTH with 4%nat. by rewrite Hs.
Qed.

(** ** The screen *)

Lemma room_ids_sorted (a : App.t) :
  let ids := merge_sort N.le (map_to_list (App.rooms a)).*1 in
  StronglySorted N.lt ids /\ forall r, r ∈ ids <-> is_Some (App.rooms a !! r).
Proof.
  intros ids. assert (Hp : ids ≡ₚ (map_to_list (App.rooms a)).*1) by apply merge_sort_Permutation.
  assert (Hnd : NoDup ids) by (rewrite Hp; apply NoDup_fst_map_to_list).
  assert (Hs : StronglySorted N.le ids) by (apply (StronglySorted_merge_sort N.le); apply _).
  split.
  - clear Hp. induction Hs as [|r ids' Hs IH Hr]; [constructor|].
    apply NoDup_cons in Hnd as [Hnin Hnd]. constructor; [by apply IH|].
    apply Forall_forall. intros r' Hr'. rewrite Forall_forall in Hr.
    specialize (Hr r' Hr'). assert (r <> r') by (by intros ->). lia.
  - intros r. rewrite Hp, list_elem_of_fmap. split.
    + intros ([r' room] & -> & Hin%elem_of_map_to_list). by eexists.
    + intros [room Hr]. exists (r, room). split; [done|]. by apply elem_of_map_to_list.
Qed.

Lemma drop_suffix {A B} (f : A -> B) (l : list A) h :
  exists older shown, l = older ++ shown /\
    drop (N.to_nat (saturating_sub (N.of_nat (length (map f l))) h)) (map f l) = map f shown /\
    N.of_nat (length shown) = N.min (N.of_nat (length l)) h.
Proof.
  set (k := N.to_nat _). exists (take k l), (drop k l). split_and!.
  - by rewrite take_drop.
  - apply (eq_sym (fmap_drop f k l)).
  - unfold k, saturating_sub. rewrite length_drop, length_map. lia.
Qed.

Lemma cursor_within i area :
  x area + width area < 2 ^ 16 -> y area + height area < 2 ^ 16 ->
  exists cx cy, InputLine.render i area =
    [RenderWidget (WParagraph [raw ("> " +:+ to_string (InputState.buffer i))] (fg_style White)
                     (Some (mkBlock None))) area; SetCursorPosition cx cy] /\
  (0 < width area -> x area <= cx < x area + width area) /\
  (1 < height area -> y area < cy < y area + height area) /\
  (InputState.cursor i + 4 < width area -> cx = x area + 3 + InputState.cursor i).
Proof.
  intros Hx Hy. unfold InputLine.render. eexists _, _. split; [reflexivity|].
  unfold saturating_add_u16, saturating_sub, as_u16, InputLine.PROMPT_WIDTH, InputLine.RIGHT_PADDING,
    InputLine.INPUT_LINE_OFFSET_Y.
  assert (Hm : InputState.cursor i + 4 < width area ->
    InputState.cursor i mod 2 ^ 16 = InputState.cursor i) by (intros; apply N.mod_small; lia).
  generalize dependent (InputState.cursor i mod 2 ^ 16). change (2 ^ 16) with 65536 in *.
  change (3 + 1) with 4. intros m Hm. split_and!; lia.
Qed.

(** A character of ASCII that takes one cell. *)
Definition printable (c : char) : Prop := 0x20 <= c < 0x7F.

Lemma byte_len_printable s : Forall printable s -> byte_len s = len s.
Proof.
  unfold len, printable. induction 1 as [|c s Hc Hs IH]; cbn [byte_len foldr length]; [done|].
  fold (byte_len s). unfold len_utf8. rewrite IH, (proj2 (N.ltb_lt _ _)) by lia. lia.
Qed.


(** ** Witnesses *)

(** A layout that gives the fixed parts their length, as far as there is space,
    and the others the rest. *)
Definition fixed_part (c : Constraint) : N := match c with Length n => n | Min _ => 0 end.

Fixpoint place (d : Direction) (rest : N) (cs : list Constraint) (r : Rect) : list Rect :=
  match cs with
  | [] => []
  | c :: cs' =>
      let wanted := match c with Length n => n | Min _ => rest end in
      match d with
      | Vertical =>
          let h := N.min wanted (height r) in
          mkRect (x r) (y r) (width r) h
            :: place d rest cs' (mkRect (x r) (y r + h) (width r) (height r - h))
      | Horizontal =>
          let w := N.min wanted (width r) in
          mkRect (x r) (y r) w (height r)
            :: place d rest cs' (mkRect (x r + w) (y r) (width r - w) (height r))
      end
  end.

Definition simple_split (d : Direction) (cs : list Constraint) (r : Rect) : list Rect :=
  let whole := match d with Vertical => height r | Horizontal => width r end in
  place d (whole - foldr (fun c n => fixed_part c + n) 0 cs) cs r.

Lemma place_within d rest cs : forall r r', r' ∈ place d rest cs r ->
  x r <= x r' /\ x r' + width r' <= x r + width r /\
  y r <= y r' /\ y r' + height r' <= y r + height r.
Proof.
  induction cs as [|c cs IH]; intros r r' Hr'; cbn in Hr'; [by apply not_elem_of_nil in Hr'|].
  destruct d; apply elem_of_cons in Hr' as [->|Hr']; cbn; try lia; apply IH in Hr'; cbn in Hr'; lia.
Qed.

Definition simple_layout : Layout.
Proof.
refine {| layout_split := simple_split |}; unfold simple_split.
- intros d cs r. generalize (match d with Vertical => height r | Horizontal => width r end
    - foldr (fun c n => fixed_part c + n) 0 cs). intros rest. revert r.
  induction cs as [|c cs IH]; intros r; [done|]. destruct d; cbn; by rewrite IH.
- intros d cs r r' Hr'. by eapply place_within.
Defined.

(** Two rooms, one with three messages, on a screen of two lines of chat. *)
Definition sample_app : App.t :=
  App.mk (Connected 1 7) "localhost"
    {[ 0x1abcd := RoomView.mk 0x1abcd
         [mkMessage 1 (into_bytes (lit "one")); mkMessage 2 (into_bytes (lit "two"));
          mkMessage 1 (into_bytes [0x48; 0xE9; 0x20AC; 0x1F600])] {[1; 2]} false;
       5 := RoomView.mk 5 [] {[1]} true ]} (Some 0x1abcd) (40, 8) None.

Definition sample_area : Rect := mkRect 0 0 40 8.

Example sample_screen :
  Ui.render (H := simple_layout) sample_app (InputState.mk (lit "hey") 3) sample_area =
  [RenderWidget (WList [[raw " "; mkSpan "#0005" (fg_style Cyan); mkSpan "*" (fg_style Red)];
                        [raw ">"; mkSpan "#abcd" (bold_style Yellow); mkSpan EmptyString (fg_style Red)]]
                   (mkBlock (Some " Rooms "%string))) (mkRect 0 0 12 4);
   RenderWidget (WList (map Chat.message_item
       [mkMessage 2 (into_bytes (lit "two")); mkMessage 1 (into_bytes [0x48; 0xE9; 0x20AC; 0x1F600])])
       (mkBlock (Some " #abcd "%string))) (mkRect 12 0 28 4);
   RenderWidget (WParagraph [raw "> hey"] (fg_style White) (Some (mkBlock None))) (mkRect 0 4 40 3);
   SetCursorPosition 6 5;
   RenderWidget (WParagraph [raw " "; mkSpan "Connected | Your ID: 7" (bold_style Green);
       mkSpan " | Room: #abcd | Members: 2 | Messages: 3" (fg_style DarkGray);
       mkSpan EmptyString (fg_style Red)] (mkStyle (Some White) (Some DarkGray) false) None)
     (mkRect 0 7 40 1)].
Proof. vm_compute. reflexivity. Qed.

Lemma sample_app_inv : AppInvariant.app_inv sample_app.
Proof.
  split; [by eexists|]. intros r room. unfold sample_app. cbn [App.rooms].
  intros [[<- <-]|[_ [<- <-]%lookup_singleton_Some]]%lookup_insert_Some; done.
Qed.


End UiProperties.
