(* ===== verification/Terminal.v ===== *)
(** * The terminal

    [lockframe-tui/src/terminal.rs]: the driver of the application at a terminal.
    crossterm, ratatui and the QUIC connection are the class [Terminal]; what is
    drawn is what the interface's drawing gives for the area of the terminal. *)

From S2P Require Import Prelude Env Opcodes Header Framing Payloads Validator SenderKeys Mls.
From S2P Require Import Samples Client ClientInv App AppInv Tui Ui.

Local Open Scope N_scope.

(** ** The terminal *)

(** The key codes of crossterm; the ones the interface ignores are one case. *)
Inductive KeyCode :=
  | CodeChar (c : char)
  | CodeEnter | CodeBackspace | CodeDelete | CodeTab | CodeEsc | CodeLeft | CodeRight | CodeUp
  | CodeDown | CodeHome | CodeEnd
  | CodeOther.

(** What the [select!] of [poll_event] gives: the next event of the stream, its
    error or its end, or that the 100 ms have passed. *)
Inductive TermEvent :=
  | TEKey (code : KeyCode) (press : bool)
  | TEResize (cols rows : N)
  | TEError (e : string)
  | TEOther
  | TETimeout.

(** crossterm, ratatui and the QUIC connection; [draw] is given what fills the
    frame of its area. *)
Class Terminal (T : Type) := {
  ConnectedClient : Type;
  next_event : T -> T * TermEvent;
  enable_raw_mode : T -> T * res string unit;
  disable_raw_mode : T -> T * res string unit;
  enter_alternate_screen : T -> T * res string unit;
  leave_alternate_screen : T -> T * res string unit;
  terminal_new : T -> T * res string unit;
  draw : (Rect -> list DrawCall) -> T -> T * res string unit;
  transport_connect : string -> T -> T * res string ConnectedClient;
  channel_send : ConnectedClient -> Frame.t -> T -> T * bool;
  channel_try_recv : ConnectedClient -> T -> T * option Frame.t;
  conn_stop : ConnectedClient -> T -> T;
  clock_now : T -> Instant;
}.

Module TerminalDriver.

Inductive error := Io (e : string) | Transport (e : string) | ChannelSend.

Section terminal.
Context {T : Type} `{!Terminal T} `{HashOrder} `{Layout}.

Record t := mk {
  terminal : T;
  connection : option ConnectedClient;
  server_addr : string;
  input_state : InputState.t }.

Definition new (term : T) (server_addr : string) : t := mk term None server_addr InputState.new.

(** [TerminalDriver::new]: the terminal is set up, or the first failure told. *)
Definition create (server_addr : string) : M T error t :=
  let call (m : T -> T * res string unit) : M T error unit := fun t =>
    let '(t', r) := m t in (t', map_err Io r) in
  call enable_raw_mode;;
  call enter_alternate_screen;;
  call terminal_new;;
  term ← get;
  mret (new term server_addr).

Definition on_terminal (term : T) (d : t) : t :=
  mk term (connection d) (server_addr d) (input_state d).

Definition convert_key (code : KeyCode) : option KeyInput :=
  match code with
  | CodeChar c => Some (KChar c)
  | CodeEnter => Some KEnter
  | CodeBackspace => Some KBackspace
  | CodeDelete => Some KDelete
  | CodeTab => Some KTab
  | CodeEsc => Some KEsc
  | CodeLeft => Some KLeft
  | CodeRight => Some KRight
  | CodeUp => Some KUp
  | CodeDown => Some KDown
  | CodeHome => Some KHome
  | CodeEnd => Some KEnd
  | CodeOther => None
  end.

Definition app_event (ev : AppEvent) (d : t) (a : App.t) : (t * App.t) * res error (list AppAction) :=
  let '(a', actions) := App.handle ev a in ((d, a'), Ok actions).

Definition poll : M (t * App.t) error (list AppAction) := fun '(d0, a) =>
  let '(term, ev) := next_event (terminal d0) in
  let d := on_terminal term d0 in
  match ev with
  | TEKey code true =>
      match convert_key code with
      | Some key_input =>
          let '((i, a'), r) := InputState.handle_key key_input (input_state d, a) in
          ((mk (terminal d) (connection d) (server_addr d) i, a'),
           match r with Ok actions => Ok actions | Err e => match e with end | Panic => Panic end)
      | None => ((d, a), Ok [])
      end
  | TEResize cols rows => app_event (AEResize cols rows) d a
  | TEError e => ((d, a), Err (Io e))
  | TEKey _ false | TEOther => ((d, a), Ok [])
  | TETimeout => app_event AETick d a
  end.

Definition send (frame : Frame.t) : M t error unit := fun d =>
  match connection d with
  | None => (d, Ok tt)
  | Some conn =>
      let '(term, sent) := channel_send conn frame (terminal d) in
      (on_terminal term d, if sent : bool then Ok tt else Err ChannelSend)
  end.

Definition recv (d : t) : t * option Frame.t :=
  match connection d with
  | None => (d, None)
  | Some conn => let '(term, f) := channel_try_recv conn (terminal d) in (on_terminal term d, f)
  end.

(** The address of the driver's own is used, not the one given. *)
Definition connect (_ : string) : M t error unit := fun d =>
  let '(term, r) := transport_connect (server_addr d) (terminal d) in
  match r with
  | Ok conn => (mk term (Some conn) (server_addr d) (input_state d), Ok tt)
  | Err e => (on_terminal term d, Err (Transport e))
  | Panic => (on_terminal term d, Panic)
  end.

Definition connected (d : t) : bool := bool_decide (is_Some (connection d)).

Definition draw_app (a : App.t) : M t error unit := fun d =>
  let '(term, r) := draw (Ui.render a (input_state d)) (terminal d) in
  (on_terminal term d,
   match r with Ok _ => Ok tt | Err e => Err (Io e) | Panic => Panic end).

Definition stop (d : t) : t :=
  match connection d with
  | None => d
  | Some conn => on_terminal (conn_stop conn (terminal d)) d
  end.

(** [drop]: what the calls answer is ignored. *)
Definition drop_driver (d : t) : T :=
  fst (leave_alternate_screen (fst (disable_raw_mode (terminal (stop d))))).

#[export] Instance terminal_driver : Driver t error := {|
  poll_event := poll;
  send_frame := send;
  recv_frame := recv;
  driver_connect := connect;
  is_connected := connected;
  driver_now d := clock_now (terminal d);
  render := draw_app;
  driver_stop := stop;
|}.

End terminal.
End TerminalDriver.
