(* ===== verification/TuiInv.v ===== *)
(** * Properties of the terminal interface

    Commands read back as they are written; the line editor is the editor one
    expects as long as the text is ASCII, and panics otherwise; the Tab key
    visits every room; and the application over the terminal holds together. *)

From stdpp Require Import sorting.
From S2P Require Import Prelude Env Opcodes Header Framing Payloads Validator SenderKeys Mls.
From S2P Require Import Samples Client ClientInv App AppInv Tui Ui Terminal.

Local Open Scope N_scope.

Module TuiProperties.

(** ** Numbers and words *)

Definition is_digit (c : char) : bool := (48 <=? c) && (c <=? 57).

Lemma digit_not_blank c : is_digit c = true -> is_whitespace c = false.
Proof.
  unfold is_digit, is_whitespace. intros [H1%N.leb_le H2%N.leb_le]%andb_true_iff.
  repeat match goal with |- context [?a <=? ?b] => destruct (N.leb_spec a b); [|try lia] end;
  repeat match goal with |- context [?a =? ?b] => destruct (N.eqb_spec a b); [lia|] end;
  try done; lia.
Qed.

Lemma pretty_char_digit n : n < 10 -> N_of_ascii (pretty_N_char n) = 48 + n.
Proof.
  intros Hn. assert (Hin : n ∈ [0; 1; 2; 3; 4; 5; 6; 7; 8; 9]).
  { rewrite !elem_of_cons. lia. }
  repeat (apply elem_of_cons in Hin as [->|Hin]; [reflexivity|]). by apply elem_of_nil in Hin.
Qed.

(** The last digit of a number, as a character. *)
Lemma last_digit n : is_digit (48 + n `mod` 10) = true /\ 48 + n `mod` 10 - 48 = n `mod` 10.
Proof.
  unfold is_digit. assert (Hm : n `mod` 10 < 10) by (by apply N.mod_lt).
  revert Hm. generalize (n `mod` 10) as m. intros m Hm. rewrite andb_true_iff, !N.leb_le. lia.
Qed.

Lemma lit_cons c s : lit (String c s) = N_of_ascii c :: lit s.
Proof. done. Qed.

(** The digits read so far, and those still to come. *)
Lemma parse_digits_go max n : forall s,
  n <= max -> parse_digits max 0 (lit (pretty_N_go n s)) = parse_digits max n (lit s).
Proof.
  induction (N.lt_wf_0 n) as [n _ IH]; intros s Hn. destruct (decide (n = 0)) as [->|Hne].
  { by rewrite pretty_N_go_0. }
  rewrite pretty_N_go_step by lia.
  assert (n / 10 < n) by (apply N.div_lt; lia).
  rewrite IH by lia. rewrite lit_cons, pretty_char_digit by (apply N.mod_lt; lia).
  destruct (last_digit n) as [Hd Hs]. cbn [parse_digits]. unfold is_digit in Hd. rewrite Hd, Hs.
  replace (n / 10 * 10 + n `mod` 10) with n by (rewrite (N.div_mod n 10) at 1 by done; lia).
  by rewrite (proj2 (N.ltb_ge max n)).
Qed.

Lemma pretty_go_digits n : forall s,
  Forall (fun c => is_digit c = true) (lit s) ->
  Forall (fun c => is_digit c = true) (lit (pretty_N_go n s)).
Proof.
  induction (N.lt_wf_0 n) as [n _ IH]; intros s Hs. destruct (decide (n = 0)) as [->|Hne].
  { by rewrite pretty_N_go_0. }
  rewrite pretty_N_go_step by lia.
  apply IH; [apply N.div_lt; lia|]. rewrite lit_cons, pretty_char_digit by (apply N.mod_lt; lia).
  constructor; [apply last_digit|done].
Qed.

Lemma pretty_digits (n : N) : Forall (fun c => is_digit c = true) (lit (pretty n)).
Proof.
  unfold pretty, pretty_N. destruct (decide (n = 0)) as [->|]; [by repeat constructor|].
  apply pretty_go_digits. constructor.
Qed.

Lemma pretty_nonempty (n : N) : lit (pretty n) <> [].
Proof.
  unfold pretty, pretty_N. destruct (decide (n = 0)) as [->|Hne]; [done|].
  intros Hnil. pose proof (parse_digits_go n n EmptyString (N.le_refl n)) as Hp. rewrite Hnil in Hp.
  cbn in Hp. congruence.
Qed.

Lemma parse_pretty max (n : N) : n <= max -> parse_unsigned max (lit (pretty n)) = Some n.
Proof.
  intros Hn. assert (Hp : parse_digits max 0 (lit (pretty n)) = Some n).
  { unfold pretty, pretty_N. destruct (decide (n = 0)) as [->|Hne].
    - by destruct max.
    - by rewrite parse_digits_go. }
  pose proof (pretty_digits n) as Hd. destruct (lit (pretty n)) as [|c s] eqn:Hs.
  { by apply pretty_nonempty in Hs. }
  inversion Hd as [|? ? Hc _]; subst. unfold parse_unsigned. by destruct (N.eqb_spec c 43) as [->|].
Qed.

(** A number that was read is in its range. *)
Lemma parse_digits_bound max s : forall acc n,
  acc <= max -> parse_digits max acc s = Some n -> n <= max.
Proof.
  induction s as [|c s IH]; intros acc n Ha; cbn; [by intros [= <-]|].
  destruct (_ && _); [|done]. destruct (N.ltb_spec max (acc * 10 + (c - 48))); [done|]. by apply IH.
Qed.

Lemma parse_unsigned_bound max s n : parse_unsigned max s = Some n -> n <= max.
Proof.
  assert (Hd : forall s', parse_digits max 0 s' = Some n -> n <= max)
    by (intros s'; apply parse_digits_bound; lia).
  unfold parse_unsigned. intros Hs. destruct s as [|c s]; [done|].
  destruct (c =? 43); [destruct s; [done|]|]; by eapply Hd.
Qed.

(** Text without blanks. *)
Definition solid (s : text) : Prop := Forall (fun c => is_whitespace c = false) s.

Lemma pretty_solid (n : N) : solid (lit (pretty n)).
Proof. eapply Forall_impl; [apply pretty_digits|]. apply digit_not_blank. Qed.

Lemma split_last s : forall word, solid s -> rev word ++ s <> [] -> split_words word s = [rev word ++ s].
Proof.
  induction s as [|c s IH]; intros word Hs Hne; cbn.
  { rewrite app_nil_r in *. by destruct word. }
  inversion Hs as [|? ? Hc Hs']; subst. rewrite Hc, IH; cbn; rewrite <- ?app_assoc; [done..|].
  by destruct (rev word).
Qed.

Lemma split_word s rest : forall word,
  solid s -> rev word ++ s <> [] ->
  split_words word (s ++ 32 :: rest) = (rev word ++ s) :: split_words [] rest.
Proof.
  induction s as [|c s IH]; intros word Hs Hne; cbn.
  { rewrite app_nil_r in *. by destruct word. }
  inversion Hs as [|? ? Hc Hs']; subst. rewrite Hc, IH; cbn; rewrite <- ?app_assoc; [done..|].
  by destruct (rev word).
Qed.

Lemma trim_solid c s d s' :
  c :: s = s' ++ [d] -> is_whitespace c = false -> is_whitespace d = false -> trim (c :: s) = c :: s.
Proof.
  intros Hs Hc Hd. unfold trim. cbn [trim_start]. rewrite Hc, Hs, rev_app_distr. cbn. rewrite Hd.
  cbn. by rewrite rev_involutive.
Qed.

(** ** Commands *)

(** How a command is written. *)
Definition print (c : Commands.t) : text :=
  match c with
  | Commands.Connect => lit "/connect"
  | Commands.CreateRoom r => lit "/create " ++ lit (pretty r)
  | Commands.JoinRoom r => lit "/join " ++ lit (pretty r)
  | Commands.LeaveActiveRoom => lit "/leave"
  | Commands.PublishKeyPackage => lit "/publish"
  | Commands.AddMember u => lit "/add " ++ lit (pretty u)
  | Commands.Quit => lit "/quit"
  | Commands.Message content => content
  | Commands.Unknown input => input
  | Commands.InvalidArgs command _ => lit "/" ++ lit command
  end.

(** The commands that can be written: ids of their width, and a message that is
    no command and has no blanks around it. *)
Definition writable (c : Commands.t) : Prop :=
  match c with
  | Commands.CreateRoom r | Commands.JoinRoom r => r <= u128_MAX
  | Commands.AddMember u => u <= u64_MAX
  | Commands.Message content => trim content = content /\ head content <> Some 47
  | Commands.Unknown _ | Commands.InvalidArgs _ _ => False
  | _ => True
  end.

(** A command and its number. *)
Lemma trim_numbered (name : text) (n : N) :
  trim (47 :: name ++ 32 :: lit (pretty n)) = 47 :: name ++ 32 :: lit (pretty n).
Proof.
  destruct (exists_last (pretty_nonempty n)) as (s & d & Hd).
  apply (trim_solid _ _ d (47 :: name ++ 32 :: s)).
  - rewrite Hd. cbn. by rewrite <- app_assoc.
  - done.
  - pose proof (pretty_solid n) as Hs. rewrite Hd in Hs. apply Forall_app in Hs as [_ Hs].
    by inversion Hs.
Qed.

Lemma split_numbered (name : text) (n : N) :
  solid name -> name <> [] ->
  split_whitespace (name ++ 32 :: lit (pretty n)) = [name; lit (pretty n)].
Proof.
  intros Hs Hn. unfold split_whitespace. rewrite split_word by done. cbn.
  by rewrite split_last; [|apply pretty_solid|apply pretty_nonempty].
Qed.

Lemma parse_numbered (name : text) (n : N) :
  solid name -> name <> [] ->
  Commands.parse (47 :: name ++ 32 :: lit (pretty n))
  = Commands.dispatch (47 :: name ++ 32 :: lit (pretty n)) [name; lit (pretty n)].
Proof. intros Hs Hn. unfold Commands.parse. rewrite trim_numbered. by rewrite split_numbered. Qed.

Lemma number_pretty command usage invalid max make (n : N) :
  n <= max -> Commands.with_number command usage invalid max make (Some (lit (pretty n))) = make n.
Proof. intros Hn. unfold Commands.with_number. by rewrite parse_pretty. Qed.

Lemma print_parses c : writable c -> Commands.parse (print c) = c.
Proof.
  intros Hw. destruct c as [|r|r| | |u| |content|input|command error]; try done; cbn [writable] in Hw.
  - etrans; [apply (parse_numbered (lit "create")); by repeat constructor|].
    exact (number_pretty "create" "Usage: /create <room_id>" "Invalid room ID" _ _ _ Hw).
  - etrans; [apply (parse_numbered (lit "join")); by repeat constructor|].
    exact (number_pretty "join" "Usage: /join <room_id>" "Invalid room ID" _ _ _ Hw).
  - etrans; [apply (parse_numbered (lit "add")); by repeat constructor|].
    exact (number_pretty "add" "Usage: /add <user_id>" "Invalid user ID" _ _ _ Hw).
  - destruct Hw as [Ht Hh]. unfold Commands.parse, print. rewrite Ht. destruct content as [|c s]; [done|].
    destruct (N.eqb_spec c 47) as [->|]; [|done]. by destruct Hh.
Qed.

(** ** What parsing gives *)

(** Text that does not begin with a blank. *)
Definition flush (s : text) : Prop := from_option is_whitespace false (head s) = false.

Lemma trim_start_id s : flush s -> trim_start s = s.
Proof. destruct s as [|c s]; cbn; [done|]. by intros ->. Qed.

Lemma trim_start_suffix s : exists p, s = p ++ trim_start s.
Proof.
  induction s as [|c s [p IH]]; cbn; [by exists []|]. destruct (is_whitespace c); [|by exists []].
  exists (c :: p). cbn. by f_equal.
Qed.

Lemma trim_start_flush s : flush (trim_start s).
Proof.
  induction s as [|c s IH]; cbn; [done|]. destruct (is_whitespace c) eqn:Hc; [done|]. by cbn.
Qed.

Lemma trim_flush s : flush (trim s) /\ flush (rev (trim s)).
Proof.
  unfold trim. rewrite rev_involutive. split; [|apply trim_start_flush].
  destruct (trim_start_suffix (rev (trim_start s))) as [p Hp].
  pose proof (trim_start_flush s) as Hf. revert Hp. generalize (trim_start (rev (trim_start s))) as u.
  intros u Hp. apply (f_equal (@rev N)) in Hp. rewrite rev_involutive, rev_app_distr in Hp.
  unfold flush in *. rewrite Hp in Hf. by destruct (rev u).
Qed.

Lemma trim_trim s : trim (trim s) = trim s.
Proof.
  destruct (trim_flush s) as [H1 H2]. unfold trim at 1.
  by rewrite (trim_start_id _ H1), (trim_start_id _ H2), rev_involutive.
Qed.

(** A command that was understood. *)
Definition understood (c : Commands.t) : bool :=
  match c with Commands.Unknown _ | Commands.InvalidArgs _ _ => false | _ => true end.

Lemma number_writable command usage invalid max make arg :
  (forall n, n <= max -> writable (make n)) ->
  understood (Commands.with_number command usage invalid max make arg) = true ->
  writable (Commands.with_number command usage invalid max make arg).
Proof.
  intros Hm. unfold Commands.with_number. destruct arg as [s|]; [|done].
  destruct (parse_unsigned max s) as [n|] eqn:Hs; [|done]. intros _. apply Hm.
  by eapply parse_unsigned_bound.
Qed.

Lemma parse_writable s : understood (Commands.parse s) = true -> writable (Commands.parse s).
Proof.
  unfold Commands.parse. destruct (trim s) as [|c t] eqn:Ht; [done|].
  destruct (N.eqb_spec c 47) as [->|Hc].
  - unfold Commands.dispatch. repeat (case_bool_decide; [try done; by apply number_writable|]).
    by destruct (_ || _).
  - intros _. cbn [writable]. rewrite <- Ht. split; [apply trim_trim|]. rewrite Ht. cbn. congruence.
Qed.

(** C33: commands read back as they are written: every command that can be
    written, whatever its ids within 128 and 64 bits, is what parsing its text
    gives, a message being any trimmed text that does not begin with a slash;
    and whatever was typed, a command that was understood is one of these, so
    that writing it out and parsing it again gives the same. *)
Theorem parse_print c s :
  (writable c -> Commands.parse (print c) = c) /\
  (understood (Commands.parse s) = true ->
   writable (Commands.parse s) /\ Commands.parse (print (Commands.parse s)) = Commands.parse s).
Proof.
  split; [apply print_parses|]. intros Hu. apply parse_writable in Hu.
  split; [done|by apply print_parses].
Qed.


(** ** Byte indices *)

Lemma len_utf8_pos c : 0 < len_utf8 c.
Proof. unfold len_utf8. repeat case_match; lia. Qed.

Lemma len_utf8_ascii c : c < 0x80 -> len_utf8 c = 1.
Proof. intros Hc. unfold len_utf8. by rewrite (proj2 (N.ltb_lt _ _) Hc). Qed.

Lemma len_utf8_wide c : 0x80 <= c -> 1 < len_utf8 c.
Proof.
  intros Hc. unfold len_utf8. rewrite (proj2 (N.ltb_ge _ _) Hc). repeat case_match; lia.
Qed.

Lemma byte_len_app s t : byte_len (s ++ t) = byte_len s + byte_len t.
Proof. induction s as [|c s IH]; cbn; [done|]. fold (byte_len (s ++ t)) (byte_len s). lia. Qed.

Lemma split_at_byte_end before : forall after,
  split_at_byte (byte_len before) (before ++ after) = Some (before, after).
Proof.
  induction before as [|c s IH]; intros after; cbn [app]; [by destruct after|].
  cbn [split_at_byte byte_len foldr]. fold (byte_len s). pose proof (len_utf8_pos c).
  rewrite (proj2 (N.eqb_neq _ _)), (proj2 (N.ltb_ge _ _)) by lia.
  replace (len_utf8 c + byte_len s - len_utf8 c) with (byte_len s) by lia. by rewrite IH.
Qed.

Lemma split_at_byte_Some idx s : forall before after,
  split_at_byte idx s = Some (before, after) -> s = before ++ after /\ byte_len before = idx.
Proof.
  revert idx. induction s as [|c s IH]; intros idx before after; cbn [split_at_byte].
  all: destruct (N.eqb_spec idx 0) as [->|Hi]; [by intros [= <- <-]|]; try done.
  destruct (N.ltb_spec idx (len_utf8 c)); [done|].
  destruct (split_at_byte _ s) as [[b a]|] eqn:Hs; [|done]. cbn. intros [= <- <-].
  apply IH in Hs as [-> Hb]. split; [done|]. cbn. fold (byte_len b). lia.
Qed.

(** No character begins within another. *)
Lemma split_at_byte_inside before c k after :
  0 < k < len_utf8 c -> split_at_byte (byte_len before + k) (before ++ c :: after) = None.
Proof.
  intros Hk. induction before as [|d s IH]; cbn [app split_at_byte byte_len foldr].
  - rewrite (proj2 (N.eqb_neq _ _)) by lia. by rewrite (proj2 (N.ltb_lt _ _)) by lia.
  - fold (byte_len s). pose proof (len_utf8_pos d).
    rewrite (proj2 (N.eqb_neq _ _)), (proj2 (N.ltb_ge _ _)) by lia.
    replace (len_utf8 d + byte_len s + k - len_utf8 d) with (byte_len s + k) by lia. by rewrite IH.
Qed.

Definition ascii (s : text) : Prop := Forall (fun c => c < 0x80) s.

Lemma byte_len_ascii s : ascii s -> byte_len s = len s.
Proof.
  unfold len. induction 1 as [|c s Hc Hs IH]; cbn [byte_len foldr length]; [done|].
  fold (byte_len s). rewrite len_utf8_ascii, IH by done. lia.
Qed.

(** ** The editor *)

Section editor.
Context `{HashOrder}.
Import InputState.

(** The line as one edits it: what is left of the cursor, backwards, and what
    is right of it. *)
Abbreviation zipper := (list N * list N)%type.
Definition line (z : zipper) : text := rev (fst z) ++ snd z.

Definition edit (key : KeyInput) (z : zipper) : zipper :=
  let '(l, r) := z in
  match key with
  | KChar c => (c :: l, r)
  | KBackspace => (tail l, r)
  | KDelete => (l, tail r)
  | KLeft => match l with c :: l' => (l', c :: r) | [] => z end
  | KRight => match r with c :: r' => (c :: l, r') | [] => z end
  | KHome => ([], line z)
  | KEnd => (rev (line z), [])
  | KEnter => ([], [])
  | KTab | KEsc | KUp | KDown => z
  end.

(** What a key does to the interface, given the line. *)
Definition submit (s : text) (a : App.t) : App.t * list AppAction :=
  match s with
  | [] => (a, [])
  | _ =>
      match do_command (Commands.parse s) (InputState.new, a) with
      | ((_, a'), Ok actions) => (a', actions)
      | ((_, a'), _) => (a', [])
      end
  end.

(** The interface after a Tab. *)
Definition tab_app (a : App.t) : App.t :=
  match next_room a with Some r => App.set_active_room r a | None => a end.

Definition react (key : KeyInput) (z : zipper) (a : App.t) : App.t * list AppAction :=
  match key with
  | KEnter => submit (line z) a
  | KTab => (tab_app a, if bool_decide (App.rooms a = ∅) then [] else [AARender])
  | KEsc => (a, [AAQuit])
  | KUp | KDown => (a, [])
  | _ => (a, [AARender])
  end.

Fixpoint edit_keys (keys : list KeyInput) (z : zipper) (a : App.t)
    : zipper * App.t * list AppAction :=
  match keys with
  | [] => (z, a, [])
  | key :: rest =>
      let '(a1, actions) := react key z a in
      let '(z2, a2, more) := edit_keys rest (edit key z) a1 in
      (z2, a2, actions ++ more)
  end.

Fixpoint press (keys : list KeyInput) : M (InputState.t * App.t) Empty_set (list AppAction) :=
  match keys with
  | [] => mret []
  | key :: rest => actions ← handle_key key; more ← press rest; mret (actions ++ more)
  end.

Definition represents (i : InputState.t) (z : zipper) : Prop :=
  i = InputState.mk (line z) (len (fst z)) /\ ascii (fst z) /\ ascii (snd z).

Definition ascii_key (key : KeyInput) : Prop := match key with KChar c => c < 0x80 | _ => True end.

Lemma edit_ascii key z :
  ascii_key key -> ascii (fst z) -> ascii (snd z) -> ascii (fst (edit key z)) /\ ascii (snd (edit key z)).
Proof.
  destruct z as [l r]. cbn. intros Hk Hl Hr. unfold ascii in *.
  destruct key; cbn in *; try done; try (by split; [constructor|]).
  - by destruct l; inversion Hl.
  - by destruct r; inversion Hr.
  - destruct Hl; [done|]. by split; [|constructor].
  - destruct Hr; [done|]. by split; [constructor|].
  - unfold line. cbn. split; [done|]. apply Forall_app. split; [by apply Forall_rev|done].
  - unfold line. cbn. rewrite rev_app_distr, rev_involutive. split; [|done]. apply Forall_app.
    split; [by apply Forall_rev|done].
Qed.

Lemma len_cons_add {A} (x : A) l : len (x :: l) = len l + 1.
Proof. rewrite len_cons. lia. Qed.

(** A cursor at the border of the two halves. *)
Lemma split_line l r : ascii l -> split_at_byte (len l) (rev l ++ r) = Some (rev l, r).
Proof.
  intros Hl. assert (Hb : byte_len (rev l) = len l).
  { rewrite byte_len_ascii by (by apply Forall_rev). unfold len. by rewrite length_rev. }
  rewrite <- Hb. apply split_at_byte_end.
Qed.

Lemma byte_len_line l r : ascii l -> ascii r -> byte_len (rev l ++ r) = len l + len r.
Proof.
  intros Hl Hr. rewrite byte_len_app, !byte_len_ascii by (by try apply Forall_rev). unfold len.
  by rewrite length_rev.
Qed.

(** A command does not touch the line, and always answers. *)
Lemma do_command_answers c a :
  exists a' actions, forall i', do_command c (i', a) = ((i', a'), Ok actions) /\
    dom (App.rooms a') = dom (App.rooms a).
Proof.
  destruct c; cbn; unfold with_active_room, status, call, mbind, M_bind, get; cbn;
    try (by eexists _, _); destruct (App.active_room a); by eexists _, _.
Qed.

Lemma enter_submits i a :
  handle_enter (i, a)
  = ((InputState.new, fst (submit (buffer i) a)), Ok (snd (submit (buffer i) a))).
Proof.
  unfold handle_enter, mbind, M_bind, get, set_buffer, set_cursor, modify. cbn [fst buffer cursor].
  destruct (buffer i) as [|c s]; [done|]. unfold submit.
  destruct (do_command_answers (Commands.parse (c :: s)) a) as (a' & acts & Hc).
  destruct (Hc InputState.new) as [-> _]. apply Hc.
Qed.

Lemma sorted_ids_perm a : sorted_ids a ≡ₚ (map_to_list (App.rooms a)).*1.
Proof. apply merge_sort_Permutation. Qed.

Lemma next_room_empty a : App.rooms a = ∅ -> next_room a = None.
Proof.
  intros He. unfold next_room. assert (Hs : sorted_ids a = []).
  { apply Permutation_nil. rewrite sorted_ids_perm, He. by rewrite map_to_list_empty. }
  by rewrite Hs, lookup_nil.
Qed.

Lemma tab_tabs i a :
  handle_tab (i, a)
  = ((i, tab_app a), Ok (if bool_decide (App.rooms a = ∅) then [] else [AARender])).
Proof.
  unfold handle_tab, mbind, M_bind, get, tab_app. cbn [snd]. case_bool_decide as He.
  - by rewrite next_room_empty.
  - by destruct (next_room a).
Qed.

(** One key: the editor answers, and does what the key means. *)
Lemma handle_key_edits key z i a :
  ascii_key key -> represents i z ->
  exists i', handle_key key (i, a) = ((i', fst (react key z a)), Ok (snd (react key z a))) /\
    represents i' (edit key z).
Proof.
  intros Hk (-> & Hl & Hr). destruct (edit_ascii key z Hk Hl Hr) as [Hl' Hr'].
  exists (InputState.mk (line (edit key z)) (len (fst (edit key z)))). split; [|by split].
  destruct z as [l r]. cbn [fst snd] in *.
  unfold handle_key, mbind, M_bind, get, line, set_cursor, set_buffer, modify, string_insert,
    string_remove, lift, react, line. cbn [fst snd buffer cursor].
  destruct key; cbn [edit fst snd].
  - rewrite split_line by done. cbn. rewrite <- app_assoc. cbn. by rewrite len_cons_add.
  - apply (enter_submits (InputState.mk _ _)).
  - destruct l as [|c l]; [done|]. inversion Hl; subst. cbn [tail rev]. rewrite len_cons_add, <- app_assoc.
    cbn [app]. rewrite (proj2 (N.ltb_lt 0 _)) by lia. replace (len l + 1 - 1) with (len l) by lia.
    by rewrite split_line.
  - rewrite byte_len_line by done. destruct r as [|c r].
    { rewrite (proj2 (N.ltb_ge _ _)) by (unfold len; cbn; lia). done. }
    rewrite len_cons_add, (proj2 (N.ltb_lt _ _)) by lia. by rewrite split_line.
  - apply tab_tabs.
  - done.
  - destruct l as [|c l]; [done|]. cbn. rewrite <- app_assoc, len_cons_add. cbn.
    by replace (len l + 1 - 1) with (len l) by lia.
  - rewrite byte_len_line by done. destruct r as [|c r].
    { rewrite (proj2 (N.ltb_ge _ _)) by (unfold len; cbn; lia). done. }
    rewrite len_cons_add, (proj2 (N.ltb_lt _ _)) by lia. cbn. by rewrite <- app_assoc, len_cons_add.
  - done.
  - done.
  - done.
  - rewrite byte_len_line by done. unfold line. cbn. rewrite rev_involutive, app_nil_r.
    unfold len. rewrite length_rev, length_app, length_rev. by rewrite Nat2N.inj_add.
Qed.

(** C32: on ASCII the editor is the editor one expects: whatever keys are
    pressed, it does not panic, the text and the cursor are those of a line with
    a gap at the cursor, Enter hands the whole line to the command parser and
    clears it, and the interface changes by Enter and Tab alone. *)
Theorem editor_refines keys a :
  Forall ascii_key keys ->
  let '(z, a', actions) := edit_keys keys ([], []) a in
  exists i, press keys (InputState.new, a) = ((i, a'), Ok actions) /\ represents i z.
Proof.
  assert (Hrun : forall z i a, Forall ascii_key keys -> represents i z ->
    let '(z', a', actions) := edit_keys keys z a in
    exists i', press keys (i, a) = ((i', a'), Ok actions) /\ represents i' z').
  { clear a. induction keys as [|key keys IH]; intros z i a Hk Hz; cbn [edit_keys press].
    { by exists i. }
    inversion Hk as [|? ? Hk1 Hk2]; subst.
    destruct (handle_key_edits key z i a Hk1 Hz) as (i1 & H1 & Hz1).
    destruct (react key z a) as [a1 acts] eqn:Hr. cbn [fst snd] in H1.
    specialize (IH (edit key z) i1 a1 Hk2 Hz1).
    destruct (edit_keys keys (edit key z) a1) as [[z2 a2] more]. destruct IH as (i2 & H2 & Hz2).
    exists i2. split; [|done]. unfold mbind, M_bind. by rewrite H1, H2. }
  intros Hk. apply Hrun; [done|]. by repeat constructor.
Qed.

(** beyond ASCII the editor panics: wherever the cursor is between two
    characters, after a character of more than one byte the next character
    typed, or the Delete key, indexes the text within that character. *)
Theorem wide_char_panics i a before after c key :
  split_at_byte (cursor i) (buffer i) = Some (before, after) ->
  0x80 <= c -> key = KDelete \/ (exists d, key = KChar d) ->
  exists s, handle_key (KChar c) (i, a) = (s, Ok [AARender]) /\ snd (handle_key key s) = Panic.
Proof.
  intros Hs Hc Hkey. pose proof (len_utf8_wide c Hc) as Hw.
  destruct (split_at_byte_Some _ _ _ _ Hs) as [_ Hcur].
  pose proof (split_at_byte_inside before c 1 after) as Hin. rewrite Hcur in Hin.
  eexists. split.
  { unfold handle_key, mbind, M_bind, get, string_insert. cbn. rewrite Hs. reflexivity. }
  unfold handle_key, mbind, M_bind, get, string_insert, string_remove.
  destruct Hkey as [-> | [d ->]]; cbn [fst snd cursor buffer]; rewrite Hin by lia; [|done].
  rewrite byte_len_app, Hcur. cbn [byte_len foldr]. by rewrite (proj2 (N.ltb_lt _ _)) by lia.
Qed.

(** A line of blanks sends an empty message to the active room. *)
Theorem blank_line_sends i a r :
  App.active_room a = Some r -> buffer i <> [] -> trim (buffer i) = [] ->
  handle_key KEnter (i, a) = ((InputState.new, a), Ok [AASendMessage r []; AARender]).
Proof.
  intros Hr Hne Ht. etrans; [apply enter_submits|]. unfold submit.
  destruct (buffer i) as [|c s]; [done|]. unfold Commands.parse. rewrite Ht. cbn.
  unfold with_active_room, mbind, M_bind, get. cbn. by rewrite Hr.
Qed.

(** ** Cycling through the rooms *)

Lemma sorted_ids_elem a r : r ∈ sorted_ids a <-> is_Some (App.rooms a !! r).
Proof.
  rewrite sorted_ids_perm, list_elem_of_fmap. split.
  - intros ([k x] & -> & Hx%elem_of_map_to_list). by exists x.
  - intros [x Hx]. exists (r, x). split; [done|]. by apply elem_of_map_to_list.
Qed.

Lemma sorted_ids_nodup a : NoDup (sorted_ids a).
Proof. rewrite sorted_ids_perm. apply NoDup_fst_map_to_list. Qed.

Lemma sorted_ids_dom a a' : dom (App.rooms a') = dom (App.rooms a) -> sorted_ids a' = sorted_ids a.
Proof.
  intros Hd. apply (Sorted_unique N.le); [apply Sorted_merge_sort, _..|].
  apply NoDup_Permutation; [apply sorted_ids_nodup..|]. intros r.
  by rewrite !sorted_ids_elem, <- !elem_of_dom, Hd.
Qed.

Lemma sorted_ids_length a : length (sorted_ids a) = size (App.rooms a).
Proof. rewrite sorted_ids_perm, length_fmap. apply length_map_to_list. Qed.

Lemma set_active_rooms a r r' :
  App.rooms (App.set_active_room r a) !! r' =
    (if bool_decide (r' = r) then RoomView.set_unread false else id) <$> App.rooms a !! r'.
Proof.
  unfold App.set_active_room. case_bool_decide as Hr.
  - subst. destruct (App.rooms a !! r) as [room|] eqn:E; cbn; [by rewrite lookup_insert_eq|by rewrite E].
  - rewrite option_fmap_id. destruct (App.rooms a !! r) as [room|]; [|done]. cbn.
    by rewrite lookup_insert_ne.
Qed.

Lemma tab_dom a : dom (App.rooms (tab_app a)) = dom (App.rooms a).
Proof.
  unfold tab_app. destruct (next_room a) as [r|]; [|done]. apply set_eq. intros r'.
  rewrite !elem_of_dom, set_active_rooms. by rewrite fmap_is_Some.
Qed.

Lemma tab_ids a k : sorted_ids (Nat.iter k tab_app a) = sorted_ids a.
Proof. induction k as [|k IH]; [done|]. cbn. by rewrite (sorted_ids_dom _ _ (tab_dom _)). Qed.

(** The room after the one at [j], around the end. *)
Lemma tab_selects a j :
  App.active_room a = sorted_ids a !! j -> (j < length (sorted_ids a))%nat ->
  exists r, sorted_ids a !! (S j mod length (sorted_ids a))%nat = Some r /\
    tab_app a = App.set_active_room r a /\ is_Some (App.rooms a !! r).
Proof.
  intros Ha Hj. destruct (lookup_lt_is_Some_2 _ _ Hj) as [r Hr]. rewrite Hr in Ha.
  assert (Hpos : position r (sorted_ids a) = Some j).
  { unfold position. assert (Hf : list_find (eq r) (sorted_ids a) = Some (j, r)); [|by rewrite Hf].
    apply list_find_Some. split_and!; [done|done|]. intros k y Hk Hlt <-.
    pose proof (NoDup_lookup _ _ _ _ (sorted_ids_nodup a) Hr Hk). lia. }
  assert (Hn : next_room a = sorted_ids a !! (S j mod length (sorted_ids a))%nat).
  { unfold next_room. rewrite Ha. cbn [mbind option_bind]. rewrite Hpos.
    destruct (Nat.leb_spec (length (sorted_ids a)) (S j)) as [Hle|Hlt].
    - replace (S j) with (length (sorted_ids a)) by lia. by rewrite Nat.Div0.mod_same.
    - by rewrite Nat.mod_small. }
  destruct (lookup_lt_is_Some_2 (sorted_ids a) (S j mod length (sorted_ids a))) as [r' Hr'].
  { apply Nat.mod_upper_bound. lia. }
  exists r'. unfold tab_app. rewrite Hn, Hr'. split_and!; [done..|].
  eapply sorted_ids_elem, list_elem_of_lookup_2, Hr'.
Qed.

Lemma tab_next a j :
  App.active_room a = sorted_ids a !! j -> (j < length (sorted_ids a))%nat ->
  App.active_room (tab_app a) = sorted_ids a !! (S j mod length (sorted_ids a))%nat.
Proof.
  intros Ha Hj. destruct (tab_selects a j Ha Hj) as (r & -> & -> & [room Hroom]).
  unfold App.set_active_room. by rewrite Hroom.
Qed.

Lemma tab_iter a j k :
  App.active_room a = sorted_ids a !! j -> (j < length (sorted_ids a))%nat ->
  App.active_room (Nat.iter k tab_app a) = sorted_ids a !! ((j + k) mod length (sorted_ids a))%nat.
Proof.
  intros Ha Hj. induction k as [|k IH].
  { cbn. by rewrite Nat.add_0_r, Nat.mod_small. }
  pose proof (tab_ids a k) as Hids. change (Nat.iter (S k) tab_app a) with (tab_app (Nat.iter k tab_app a)).
  rewrite (tab_next _ ((j + k) mod length (sorted_ids a))).
  - rewrite Hids. f_equal. replace (j + S k)%nat with (S (j + k)) by lia.
    rewrite <- !Nat.add_1_l. apply Nat.Div0.add_mod_idemp_r.
  - by rewrite Hids.
  - rewrite Hids. apply Nat.mod_upper_bound. lia.
Qed.

(** Pressing Tab [k] times. *)
Definition tabs (k : nat) (i : InputState.t) (a : App.t) : App.t :=
  snd (fst (press (replicate k KTab) (i, a))).

Lemma tabs_iter k i : forall a, tabs k i a = Nat.iter k tab_app a.
Proof.
  assert (Hp : forall a, exists acts, press (replicate k KTab) (i, a) = ((i, Nat.iter k tab_app a), Ok acts)).
  { induction k as [|k IH]; intros a; cbn [replicate press]; [by eexists|].
    destruct (IH (tab_app a)) as [acts Hacts]. eexists. unfold mbind, M_bind at 1.
    change (handle_key KTab (i, a)) with (handle_tab (i, a)). rewrite tab_tabs. unfold M_bind.
    rewrite Hacts, Nat.iter_succ_r. reflexivity. }
  intros a. unfold tabs. by destruct (Hp a) as [acts ->].
Qed.


(** A room that has been read stays read, and a selected one is. *)
Definition is_read (a : App.t) (r : N) : Prop :=
  from_option RoomView.unread false (App.rooms a !! r) = false.

Lemma tab_read a r : is_read a r -> is_read (tab_app a) r.
Proof.
  unfold is_read, tab_app. destruct (next_room a) as [r'|]; [|done]. rewrite set_active_rooms.
  destruct (App.rooms a !! r) as [room|]; [|done]. by case_bool_decide.
Qed.

Lemma tab_selected_read a j r :
  App.active_room a = sorted_ids a !! j -> (j < length (sorted_ids a))%nat ->
  App.active_room (tab_app a) = Some r -> is_read (tab_app a) r.
Proof.
  intros Ha Hj. destruct (tab_selects a j Ha Hj) as (r' & _ & -> & [room Hroom]).
  unfold is_read. rewrite set_active_rooms. unfold App.set_active_room. rewrite Hroom.
  intros [= <-]. by rewrite bool_decide_eq_true_2, Hroom.
Qed.

(** Tabs change nothing of the rooms but what is unread. *)
Lemma tab_views a k r :
  RoomView.set_unread false <$> App.rooms (Nat.iter k tab_app a) !! r
  = RoomView.set_unread false <$> App.rooms a !! r.
Proof.
  induction k as [|k IH]; [done|]. rewrite <- IH.
  change (Nat.iter (S k) tab_app a) with (tab_app (Nat.iter k tab_app a)).
  generalize (Nat.iter k tab_app a) as b. intros b. unfold tab_app.
  destruct (next_room b) as [r'|]; [|done]. rewrite set_active_rooms.
  destruct (App.rooms b !! r) as [room|]; [|done]. by case_bool_decide.
Qed.

Lemma read_stays a r k m : is_read (Nat.iter k tab_app a) r -> is_read (Nat.iter (m + k) tab_app a) r.
Proof. intros Hr. induction m as [|m IH]; [done|]. by apply tab_read in IH. Qed.

(** The presses that reach the room at [m] from the one at [j]. *)
Lemma steps_between n j m :
  (j < n)%nat -> (m < n)%nat -> exists k, (1 <= k <= n)%nat /\ ((j + k) mod n = m)%nat.
Proof.
  intros Hj Hm. destruct (Nat.lt_ge_cases j m).
  - exists (m - j)%nat. split; [lia|]. rewrite Nat.mod_small; lia.
  - exists (m + n - j)%nat. split; [lia|]. replace (j + (m + n - j))%nat with (m + 1 * n)%nat by lia.
    rewrite Nat.Div0.mod_add. by apply Nat.mod_small.
Qed.

(** Tab goes around the rooms: in a sound interface with [n] rooms, every
    room is selected by one of the next [n] presses, after which the first is
    selected again and nothing is unread; the rooms are otherwise untouched. *)
Theorem tab_visits_all i a :
  AppInvariant.app_inv a ->
  let n := size (App.rooms a) in
  App.active_room (tabs n i a) = App.active_room a /\
  (forall r, is_Some (App.rooms a !! r) ->
    exists k, (1 <= k <= n)%nat /\ App.active_room (tabs k i a) = Some r) /\
  (forall r, App.rooms (tabs n i a) !! r = RoomView.set_unread false <$> App.rooms a !! r).
Proof.
  intros [Hact _] n. destruct (App.active_room a) as [r0|] eqn:Ha.
  2: { assert (Hn : n = 0%nat) by (unfold n; rewrite Hact; apply map_size_empty).
       rewrite Hn. cbn. split_and!; [done|intros r [room Hr]|intros r].
       - by rewrite Hact, lookup_empty in Hr.
       - by rewrite Hact, lookup_empty. }
  assert (Hj : exists j, sorted_ids a !! j = Some r0)
    by (apply list_elem_of_lookup, sorted_ids_elem, Hact).
  destruct Hj as [j Hj]. pose proof (lookup_lt_Some _ _ _ Hj) as Hlt. rewrite <- Hj in Ha.
  assert (Hn : n = length (sorted_ids a)) by (symmetry; apply sorted_ids_length).
  assert (Hvisit : forall r, is_Some (App.rooms a !! r) ->
    exists k, (1 <= k <= n)%nat /\ App.active_room (Nat.iter k tab_app a) = Some r).
  { intros r [m Hm]%sorted_ids_elem%list_elem_of_lookup.
    destruct (steps_between n j m) as (k & Hk & Hmod); [rewrite Hn; eauto using lookup_lt_Some..|].
    exists k. split; [done|]. by rewrite (tab_iter a j k Ha Hlt), <- Hn, Hmod. }
  split_and!.
  - rewrite tabs_iter, (tab_iter a j n Ha Hlt), Hn. rewrite <- Hj. f_equal.
    replace (j + length (sorted_ids a))%nat with (j + 1 * length (sorted_ids a))%nat by lia.
    rewrite Nat.Div0.mod_add. by apply Nat.mod_small.
  - intros r Hr. destruct (Hvisit r Hr) as (k & Hk & Hsel). exists k. by rewrite tabs_iter.
  - intros r. rewrite tabs_iter, <- (tab_views a n r).
    destruct (App.rooms (Nat.iter n tab_app a) !! r) as [room|] eqn:Hroom; [|done]. cbn. f_equal.
    assert (Hread : is_read (Nat.iter n tab_app a) r).
    { destruct (Hvisit r) as (k & Hk & Hsel).
      { pose proof (tab_views a n r) as Hv. rewrite Hroom in Hv.
        destruct (App.rooms a !! r); [by eexists|done]. }
      destruct k as [|k]; [lia|]. replace n with ((n - S k) + S k)%nat by lia. apply read_stays.
      apply (tab_selected_read (Nat.iter k tab_app a) ((j + k) mod n)); [..|done].
      - rewrite tab_ids, Hn. by apply tab_iter.
      - rewrite tab_ids, Hn. apply Nat.mod_upper_bound. lia. }
    unfold is_read in Hread. rewrite Hroom in Hread. destruct room. cbn in *. by subst.
Qed.

(** ** What a key may ask for *)

Lemma trim_start_length s : (length (trim_start s) <= length s)%nat.
Proof. destruct (trim_start_suffix s) as [p Hp]. rewrite Hp at 2. rewrite length_app. lia. Qed.

Lemma trim_length s : (length (trim s) <= length s)%nat.
Proof.
  unfold trim. rewrite length_rev. etrans; [apply trim_start_length|]. rewrite length_rev.
  apply trim_start_length.
Qed.

Lemma trim_start_ascii s : ascii s -> ascii (trim_start s).
Proof. intros Hs. destruct (trim_start_suffix s) as [p Hp]. rewrite Hp in Hs. by apply Forall_app in Hs as []. Qed.

Lemma trim_ascii s : ascii s -> ascii (trim s).
Proof. intros Hs. by apply Forall_rev, trim_start_ascii, Forall_rev, trim_start_ascii. Qed.

Lemma into_bytes_ascii s : ascii s -> length (into_bytes s) = length s.
Proof.
  unfold into_bytes. induction 1 as [|c s Hc Hs IH]; [done|]. cbn. rewrite length_app, IH.
  unfold encode_utf8. by rewrite (proj2 (N.ltb_lt _ _) Hc).
Qed.

Lemma parse_message_fits s content :
  ascii s -> Commands.parse s = Commands.Message content -> (length (into_bytes content) <= length s)%nat.
Proof.
  intros Hs. unfold Commands.parse. pose proof (trim_length s). pose proof (trim_ascii s Hs) as Ht.
  destruct (trim s) as [|c t]; [intros [= <-]; cbn; lia|].
  destruct (c =? 47); [|intros [= <-]; by rewrite into_bytes_ascii].
  unfold Commands.dispatch, Commands.with_number. by repeat case_match.
Qed.

Lemma submit_fits s a :
  ascii s -> len s < 2 ^ 32 -> Forall AppInvariant.app_action_fits (snd (submit s a)).
Proof.
  intros Hs Hlen. unfold submit. destruct s as [|c s]; [by constructor|].
  pose proof (fun content => parse_message_fits (c :: s) content Hs) as Hf.
  destruct (Commands.parse (c :: s)) as [|r|r| | |u| |content|input|command error]; cbn;
    unfold with_active_room, status, call, mbind, M_bind, get; cbn;
    try (by repeat constructor); destruct (App.active_room a); try (by repeat constructor).
  specialize (Hf content eq_refl). constructor; [|by repeat constructor]. cbn. unfold len in *. lia.
Qed.

Lemma submit_dom s a : dom (App.rooms (fst (submit s a))) = dom (App.rooms a).
Proof.
  unfold submit. destruct s as [|c s]; [done|].
  destruct (do_command_answers (Commands.parse (c :: s)) a) as (a' & acts & Hc).
  by destruct (Hc InputState.new) as [-> ?].
Qed.

Lemma react_ok key z a :
  ascii (line z) -> len (line z) < 2 ^ 32 ->
  dom (App.rooms (fst (react key z a))) = dom (App.rooms a) /\
  Forall AppInvariant.app_action_fits (snd (react key z a)).
Proof.
  intros Hz Hlen. destruct key; cbn [react fst snd]; try (by split; [|repeat constructor]).
  - split; [apply submit_dom|by apply submit_fits].
  - split; [apply tab_dom|]. case_bool_decide; by repeat constructor.
Qed.

Lemma line_length z : len (line z) = len (fst z) + len (snd z).
Proof. unfold line, len. rewrite length_app, length_rev. lia. Qed.

(** A key adds at most its own character to the line. *)
Lemma edit_length key z :
  len (line (edit key z)) <= len (line z) + match key with KChar _ => 1 | _ => 0 end.
Proof.
  assert (Hrev : len (rev (line z)) = len (line z)) by (unfold len; by rewrite length_rev).
  rewrite (line_length (edit key z)).
  destruct key; destruct z as [l r]; cbn [edit fst snd] in *; rewrite ?Hrev, ?line_length;
    unfold len; cbn [fst snd length]; try lia.
  - destruct l; cbn; lia.
  - destruct r; cbn; lia.
  - destruct l; cbn; lia.
  - destruct r; cbn; lia.
Qed.

End editor.

(** ** The application over the terminal *)

(** A terminal at which only ASCII is typed, at most [typed t] characters of it
    from the state [t] on, and whose calls report their failures. *)
Class AsciiTerminal (T : Type) `{!Terminal T} := {
  typed : T -> N;
  next_event_typed t :
    match next_event t with
    | (t', TEKey (CodeChar c) true) => c < 0x80 /\ typed t' + 1 <= typed t
    | (t', _) => typed t' <= typed t
    end;
  draw_typed f t : typed (fst (draw f t)) <= typed t /\ snd (draw f t) <> Panic;
  enable_raw_mode_typed t : typed (fst (enable_raw_mode t)) <= typed t /\ snd (enable_raw_mode t) <> Panic;
  enter_alternate_screen_typed t :
    typed (fst (enter_alternate_screen t)) <= typed t /\ snd (enter_alternate_screen t) <> Panic;
  terminal_new_typed t : typed (fst (terminal_new t)) <= typed t /\ snd (terminal_new t) <> Panic;
  transport_connect_typed addr t :
    typed (fst (transport_connect addr t)) <= typed t /\ snd (transport_connect addr t) <> Panic;
  channel_send_typed c f t : typed (fst (channel_send c f t)) <= typed t;
  channel_try_recv_typed c t : typed (fst (channel_try_recv c t)) <= typed t;
  conn_stop_typed c t : typed (conn_stop c t) <= typed t;
}.

Section terminal.
Context {T : Type} `{!Terminal T} {term_laws : AsciiTerminal T} `{HashOrder} `{Layout}.
Import TerminalDriver.

(** The line is an ASCII line, and with what is still typed stays short. *)
Definition typable (d : TerminalDriver.t) : Prop :=
  exists z, represents (input_state d) z /\ len (line z) + typed (terminal d) < 2 ^ 32.

Lemma typable_mono d t c :
  typable d -> typed t <= typed (terminal d) ->
  typable (TerminalDriver.mk t c (server_addr d) (input_state d)).
Proof. intros (z & Hz & Hlen) Ht. exists z. split; [done|]. cbn. lia. Qed.

Lemma typable_press d t key a :
  typable d -> ascii_key key ->
  typed t + match key with KChar _ => 1 | _ => 0 end <= typed (terminal d) ->
  let '((i, a'), r) := InputState.handle_key key (input_state d, a) in
  typable (TerminalDriver.mk t (connection d) (server_addr d) i) /\
  dom (App.rooms a') = dom (App.rooms a) /\
  exists actions, r = Ok actions /\ Forall AppInvariant.app_action_fits actions.
Proof.
  intros (z & Hz & Hlen) Hk Ht. destruct (handle_key_edits key z (input_state d) a Hk Hz) as (i & -> & Hi).
  destruct (react_ok key z a) as [Hdom Hfit].
  { destruct Hz as (_ & Hl & Hr). apply Forall_app. split; [by apply Forall_rev|done]. }
  { lia. }
  split_and!; [|done|by eexists]. exists (edit key z). split; [done|].
  pose proof (edit_length key z). cbn [terminal]. lia.
Qed.

Lemma convert_char code key :
  convert_key code = Some key -> match key with KChar c => code = CodeChar c | _ => True end.
Proof. destruct code; cbn; by intros [= <-]. Qed.

Lemma typable_app_event ev d a :
  typable d ->
  dom (App.rooms (fst (App.handle ev a))) = dom (App.rooms a) ->
  let '((d', a'), r) := app_event ev d a in
  typable d' /\ dom (App.rooms a') = dom (App.rooms a) /\ r <> Panic /\
  forall acts, r = Ok acts -> Forall AppInvariant.app_action_fits acts.
Proof.
  intros Hd Hdom. unfold app_event. pose proof (AppInvariant.app_handle_renders ev a) as Hr.
  destruct (App.handle ev a) as [a' acts]. split_and!; [done..|]. intros ? [= <-].
  eapply Forall_impl; [exact Hr|]. by intros ? <-.
Qed.

Lemma terminal_poll_ok d a :
  typable d ->
  let '((d', a'), r) := poll (d, a) in
  typable d' /\ dom (App.rooms a') = dom (App.rooms a) /\ r <> Panic /\
  forall acts, r = Ok acts -> Forall AppInvariant.app_action_fits acts.
Proof using term_laws.
  intros Hd. unfold poll. pose proof (next_event_typed (terminal d)) as Ht.
  destruct (next_event (terminal d)) as [t ev].
  assert (Hsame : typed t <= typed (terminal d) -> forall r : res error (list AppAction),
    r = Ok [] \/ (exists e, r = Err e) ->
    typable (on_terminal t d) /\ dom (App.rooms a) = dom (App.rooms a) /\ r <> Panic /\
    forall acts, r = Ok acts -> Forall AppInvariant.app_action_fits acts).
  { intros Hle r Hr. split_and!; [by apply typable_mono|done|by destruct Hr as [->|[e ->]]|].
    destruct Hr as [->|[e ->]]; [|done]. intros ? [= <-]. constructor. }
  destruct ev as [code [|]|cols rows|e| |].
  - destruct (convert_key code) as [key|] eqn:Hc.
    + apply convert_char in Hc.
      pose proof (typable_press d t key a Hd) as Hp.
      cbn [input_state on_terminal terminal connection server_addr].
      destruct (InputState.handle_key key (input_state d, a)) as [[i a'] r].
      destruct Hp as (Hd' & Hdom & acts & -> & Hacts).
      * destruct key; cbn; try done. subst. apply Ht.
      * destruct key; subst; try lia; destruct code; lia.
      * split_and!; [done..|]. by intros ? [= <-].
    + apply Hsame; [|by left]. by destruct code.
  - apply Hsame; [|by left]. by destruct code.
  - apply typable_app_event; [by apply typable_mono|done..].
  - apply Hsame; [done|]. right. by eexists.
  - apply Hsame; [done|by left].
  - apply typable_app_event; [by apply typable_mono|done..].
Qed.

#[export] Instance terminal_laws : AppInvariant.DriverLaws TerminalDriver.t error typable.
Proof using term_laws.
split.
- apply terminal_poll_ok.
- intros f d Hd. cbn. unfold send. destruct (connection d) as [c|]; [|done].
  pose proof (channel_send_typed c f (terminal d)). destruct (channel_send c f _) as [t sent].
  split; [by apply typable_mono|by destruct sent].
- intros d Hd. cbn. unfold recv. destruct (connection d) as [c|]; [|done].
  pose proof (channel_try_recv_typed c (terminal d)). destruct (channel_try_recv c _) as [t f].
  by apply typable_mono.
- intros addr d Hd. cbn. unfold connect.
  destruct (transport_connect_typed (server_addr d) (terminal d)) as [Ht Hp].
  destruct (transport_connect _ _) as [t [c|e|]]; [..|done]; by split; [apply typable_mono|].
- intros a d Hd. cbn. unfold draw_app. destruct (draw_typed (Ui.render a (input_state d)) (terminal d)) as [Ht Hp].
  destruct (draw _ _) as [t r]. split; [by apply typable_mono|by destruct r].
- intros d Hd. cbn. unfold stop. destruct (connection d) as [c|]; [|done].
  apply typable_mono; [done|]. apply conn_stop_typed.
Qed.

Context {Env : Type} `{!Environment Env} {openmls : OpenMls Env} {laws : OpenMlsLaws Env}
  {crypto : Crypto} {ed25519 : Ed25519} {ciborium : Ciborium} {sizes : CborSizes}.


End terminal.

(** ** A terminal that plays events *)

Record Played := mkPlayed {
  pl_events : list TermEvent;
  pl_frames : list Frame.t;
  pl_sent : list Frame.t;
  pl_clock : N;
  pl_screen : list DrawCall }.

(** The ASCII events of a list: other characters are no event. *)
Definition ascii_event (ev : TermEvent) : TermEvent :=
  match ev with
  | TEKey (CodeChar c) true => if c <? 0x80 then ev else TEOther
  | ev => ev
  end.

Definition played_terminal : Terminal Played := {|
  ConnectedClient := unit;
  next_event t :=
    match pl_events t with
    | [] => (t, TETimeout)
    | ev :: rest => (mkPlayed rest (pl_frames t) (pl_sent t) (pl_clock t) (pl_screen t), ascii_event ev)
    end;
  enable_raw_mode t := (t, Ok tt);
  disable_raw_mode t := (t, Ok tt);
  enter_alternate_screen t := (t, Ok tt);
  leave_alternate_screen t := (t, Ok tt);
  terminal_new t := (t, Ok tt);
  draw f t := (mkPlayed (pl_events t) (pl_frames t) (pl_sent t) (pl_clock t) (f (mkRect 0 0 80 24)), Ok tt);
  transport_connect _ t := (t, Ok tt);
  channel_send _ f t := 
    (mkPlayed (pl_events t) (pl_frames t) (pl_sent t ++ [f]) (pl_clock t) (pl_screen t), true);
  channel_try_recv _ t :=
    match pl_frames t with
    | [] => (t, None)
    | f :: rest => (mkPlayed (pl_events t) rest (pl_sent t) (pl_clock t) (pl_screen t), Some f)
    end;
  conn_stop _ t := t;
  clock_now := pl_clock;
|}.

Definition played_ascii : AsciiTerminal Played (Terminal0 := played_terminal).
Proof.
refine {| typed t := len (pl_events t) |}; try done.
- intros [[|ev evs] fs out now scr]; cbn; [done|]. rewrite len_cons_add.
  destruct ev as [[c| | | | | | | | | | | |] [|]| | | |]; cbn; try lia.
  destruct (N.ltb_spec c 0x80); [|lia]. split; [done|lia].
- intros c [evs [|f fs] out now scr]; cbn; lia.
Defined.

Lemma at_pair {A B} (P : A -> B -> Prop) (p : A * B) :
  (let '(a, b) := p in P a b) -> P (fst p) (snd p).
Proof. by destruct p. Qed.

(** The keys of a line, and Enter. *)
Definition typed_line (s : string) : list TermEvent :=
  map (fun c => TEKey (CodeChar c) true) (lit s) ++ [TEKey CodeEnter true].

Section samples.
Import ClientSample AppInvariant TerminalDriver.
#[local] Existing Instances list_order played_terminal played_ascii UiProperties.simple_layout.

Definition typing : Played :=
  mkPlayed (typed_line "/create 7" ++ typed_line "hello") [hello_reply_frame] [] 0 [].

Definition typist : AppRuntime.t (Env := TestEnv) (D := TerminalDriver.t) :=
  fst (AppRuntime.run (DErr := TerminalDriver.error) 17 (AppRuntime.new (TerminalDriver.new typing "localhost:4433")
         (mkTestEnv 0 1 65 0) 1 "localhost:4433")).

Lemma typist_messages :
  RoomView.messages <$> App.rooms (AppRuntime.app typist) !! 7
  = Some [mkMessage 1 (into_bytes (lit "hello"))].
Proof. vm_compute. reflexivity. Qed.

(** What is on her screen at the end. *)
Definition screen : list DrawCall := pl_screen (terminal (AppRuntime.driver typist)).

Lemma typist_screen :
  screen !! 1%nat = Some (RenderWidget
    (WList [[mkSpan "<0001>" (bold_style Green); Ui.raw " "; Ui.raw "hello"]]
       (mkBlock (Some " #0007 "%string))) (mkRect 12 0 68 20)).
Proof. vm_compute. reflexivity. Qed.


(** [hxello], with the x taken out again after going back. *)
Definition sample_keys : list KeyInput :=
  [KChar 104; KChar 120; KChar 105; KLeft; KBackspace; KRight].

Lemma editor_refines_witness :
  exists i, press sample_keys (InputState.new, App.new "localhost:4433")
      = ((i, App.new "localhost:4433"), Ok (replicate 6 AARender)) /\
    represents i ([105; 104], []).
Proof.
  apply (editor_refines sample_keys (App.new "localhost:4433")).
  repeat (apply Forall_cons; split; [first [exact I|reflexivity]|]). by apply Forall_nil.
Defined.

(** An [é] and then an [x]. *)
Lemma wide_char_panics_witness :
  exists s, InputState.handle_key (KChar 233) (InputState.new, App.new "localhost:4433") = (s, Ok [AARender]) /\
    snd (InputState.handle_key (KChar 120) s) = Panic.
Proof.
  apply (wide_char_panics InputState.new (App.new "localhost:4433") [] [] 233 (KChar 120)).
  - reflexivity.
  - done.
  - right. by exists 120.
Defined.

(** An interface with three rooms, the second selected. *)
Definition three_rooms : App.t :=
  App.set_active_room 5 (run app_step (App.new "localhost:4433")
    [OEvent (AERoomJoined 9); OEvent (AERoomJoined 2); OEvent (AERoomJoined 5);
     OEvent (AEMessageReceived 2 1 []); OEvent (AEMessageReceived 9 1 [])]).

Lemma blank_line_sends_witness :
  InputState.handle_key KEnter (InputState.mk [32; 9] 2, three_rooms)
  = ((InputState.new, three_rooms), Ok [AASendMessage 5 []; AARender]).
Proof. apply blank_line_sends; [reflexivity|discriminate|reflexivity]. Defined.

Lemma tab_visits_all_witness :
  app_inv three_rooms /\ App.active_room (tabs 3 InputState.new three_rooms) = Some 5 /\
  (exists k, (1 <= k <= 3)%nat /\ App.active_room (tabs k InputState.new three_rooms) = Some 2) /\
  RoomView.unread <$> App.rooms (tabs 3 InputState.new three_rooms) !! 2 = Some false.
Proof.
  assert (Hi : app_inv three_rooms).
  { unfold three_rooms. apply (app_inv_step _ (OSetActive 5)). unfold run. cbn [foldl].
    do 5 apply app_inv_step. split; [reflexivity|]. intros r room. cbn. by rewrite lookup_empty. }
  destruct (tab_visits_all InputState.new three_rooms Hi) as (H1 & H2 & H3).
  split; [exact Hi|]. split; [exact H1|]. split.
  - apply (H2 2). by eexists.
  - etrans; [exact (f_equal (fmap RoomView.unread) (H3 2))|]. reflexivity.
Defined.

End samples.
End TuiProperties.
