(* ===== verification/Conversation.v ===== *)
(** * From the keyboard to the screen

    The whole system in one path: a line typed in one terminal, the command
    parser, the bridge and the client that send it, the server that orders it,
    and the client, the bridge and the screen of another member. *)

From S2P Require Import Prelude Env Opcodes Header Framing Payloads Validator Storage.
From S2P Require Import Sequencer RoomManager Driver DriverInv Delivery SenderKeys Mls Samples.
From S2P Require Import Client ClientInv EndToEnd App AppInv Tui Ui TuiInv.

Local Open Scope N_scope.

Module Conversation.
Import EndToEnd TuiProperties UiProperties.

(** ** Typing a message *)

Section typing.
Context `{HashOrder}.

(** The keys of a line. *)
Definition typed (s : text) : list KeyInput := map KChar s ++ [KEnter].

(** A line that is a message: it is neither blank nor a command. *)
Definition is_message (s : text) : Prop :=
  exists c s', trim s = c :: s' /\ c <> 47.

Lemma type_line s a : forall i l, ascii s -> represents i (l, []) ->
  press (typed s) (i, a)
  = ((InputState.new, fst (submit (rev l ++ s) a)),
     Ok (replicate (length s) AARender ++ snd (submit (rev l ++ s) a))).
Proof.
  induction s as [|c s IH]; intros i l Hs Hi.
  - destruct (handle_key_edits KEnter (l, []) i a I Hi) as (i' & H1 & (-> & _)).
    unfold typed. cbn [map app press]. unfold mbind, M_bind. rewrite H1. cbn. unfold line. cbn.
    by rewrite app_nil_r.
  - inversion Hs as [|? ? Hc Hs']; subst.
    destruct (handle_key_edits (KChar c) (l, []) i a Hc Hi) as (i1 & H1 & Hi1). cbn [edit react fst snd] in *.
    change (typed (c :: s)) with (KChar c :: typed s). cbn [press]. unfold mbind, M_bind. rewrite H1.
    rewrite (IH i1 (c :: l) Hs' Hi1). cbn [rev]. by rewrite <- app_assoc.
Qed.

Lemma submit_message s a r : is_message s -> App.active_room a = Some r ->
  submit s a = (a, [AASendMessage r (into_bytes (trim s)); AARender]).
Proof.
  intros (c & s' & Ht & Hc) Hr. unfold submit. destruct s as [|c0 s0]; [done|].
  unfold Commands.parse. rewrite Ht, (proj2 (N.eqb_neq _ _) Hc). cbn.
  unfold InputState.with_active_room, mbind, M_bind, get. cbn. by rewrite Hr.
Qed.

End typing.

(** ** Showing it *)

(** The line of a message in the chat. *)
Definition chat_line (sender : N) (s : text) : list Span :=
  [mkSpan ("<" +:+ fmt_hex 4 (as_u16 sender) +:+ ">") (bold_style Green); raw " "; raw (to_string s)].

(** The chat ends with the line. *)
Definition ends_with (a : App.t) (area : Rect) (l : list Span) : Prop :=
  exists older block, Chat.render a area = [RenderWidget (WList (older ++ [l]) block) area].

Lemma ascii_scalar s : ascii s -> Forall is_scalar s.
Proof. intros Hs. eapply Forall_impl; [exact Hs|]. cbn. intros c Hc. left. lia. Qed.

Lemma received_shown `{HashOrder} a r room sender s area :
  App.active_room a = Some r -> App.rooms a !! r = Some room -> ascii s -> 2 < height area ->
  ends_with (fst (App.handle (AEMessageReceived r sender (into_bytes s)) a)) area (chat_line sender s).
Proof.
  intros Hr Hroom Hs Hh. cbn [App.handle fst]. rewrite Hroom, bool_decide_eq_true_2 by done.
  unfold ends_with, Chat.render, App.active_room_state. cbn [App.active_room App.with_rooms App.rooms].
  rewrite Hr. cbn [mbind option_bind]. rewrite lookup_insert_eq. cbn [RoomView.messages RoomView.add_message].
  rewrite map_app. cbn [map]. rewrite length_app. cbn [length].
  eexists _, _. rewrite drop_app_le.
  - assert (Hl : Chat.message_item (mkMessage sender (into_bytes s)) = chat_line sender s)
      by (unfold Chat.message_item; rewrite content_into_bytes by (by apply ascii_scalar); done).
    rewrite Hl. reflexivity.
  - unfold saturating_sub, Chat.BORDER_SIZE. lia.
Qed.

(** ** The path *)

Section path.
Context {Env : Type} `{!Environment Env} {openmls : OpenMls Env} {laws : OpenMlsLaws Env}
  {crypto : Crypto} {ed25519 : Ed25519} {ciborium : Ciborium} {sizes : CborSizes} `{HashOrder}.
Context {SEnv St : Type} `{!Environment SEnv} `{!Storage St} `{!StorageSpec St} `{!StorageTotal St}.
Abbreviation server := (ServerDriver.t SEnv St).

Lemma bridge_sends A A' r p f out :
  Client.handle (CESendMessage r p) A = (A', Ok [CASend f]) ->
  Bridge.process_app_action (AASendMessage r p) (Bridge.mk A out)
  = (Bridge.mk A' (out ++ [f]), Ok [AEMessageReceived r (Client.sender_id A') p]).
Proof.
  intros Hh. unfold Bridge.process_app_action, Bridge.handle_event, Bridge.client_call, mbind, M_bind.
  cbn [Bridge.client]. rewrite Hh. reflexivity.
Qed.

Lemma bridge_delivers B r sid p i ts f out :
  snd (Client.handle (CEFrameReceived f) B) = Ok [CADeliverMessage r sid p i ts] ->
  exists B', Bridge.handle_frame f (Bridge.mk B out)
    = (Bridge.mk B' out, Ok [AEMessageReceived r sid p]).
Proof.
  intros Hh. unfold Bridge.handle_frame, Bridge.handle_event, Bridge.client_call, mbind, M_bind.
  cbn [Bridge.client]. destruct (Client.handle _ _) as [B' x]. cbn [snd] in Hh. subst x. by exists B'.
Qed.


End path.

(** ** Alice writes to Bob *)

Import ClientSample AppInvariant.

#[local] Existing Instance list_order.

(** A screen with the room of Alice and Bob selected. *)
Definition chat_app : App.t :=
  App.mk (Connected 1 1) "localhost" {[ 7 := RoomView.mk 7 [] {[1; 2]} false ]} (Some 7) (40, 8) None.


End Conversation.
