(* ===== verification/HarnessModel.v ===== *)
(** * The reference model of the tests

    [lockframe-harness/src/model]: the simplified clients, server and world that
    the test suite compares the system with.  What the tests take for granted of
    it is proved here: membership and epochs of clients and server agree, logs
    are dense, what a client shows was logged, and what is logged is delivered.
    Test code runs with debug assertions, so a failed one is a panic.  The 64-bit
    counters are unbounded here: an operation adds at most one to each. *)

From stdpp Require Import sorting.
From S2P Require Import Prelude.

Local Open Scope N_scope.

(** ** Operations *)

Record SmallMessage := mkSmallMessage { seed : N; size_class : N }.

(** [to_bytes] *)
Definition small_to_bytes (m : SmallMessage) : bytes :=
  let len := match size_class m mod 4 with 0 => 0%nat | 1 => 8%nat | 2 => 64%nat | _ => 256%nat end in
  map (fun i => byte_of ((seed m + N.of_nat i mod 256) mod 256)) (seq 0 len).

Inductive Operation :=
  | OpCreateRoom (client_id room_id : N)
  | OpSendMessage (client_id room_id : N) (content : SmallMessage)
  | OpLeaveRoom (client_id room_id : N)
  | OpAddMember (inviter_id invitee_id room_id : N)
  | OpExternalJoin (joiner_id room_id : N)
  | OpRemoveMember (remover_id target_id room_id : N)
  | OpAdvanceTime (millis : N)
  | OpDeliverPending
  | OpPartition (client_id : N)
  | OpHealPartition (client_id : N)
  | OpDisconnect (client_id : N).

Inductive OperationError :=
  | OERoomAlreadyExists
  | OERoomNotFound
  | OENotMember
  | OEInvalidClient
  | OEAlreadyMember
  | OECannotRemoveSelf
  | OENoGroupInfo
  | OEEpochMismatch (expected actual : N)
  | OEPartitioned
  | OEDisconnected.

Inductive OperationResult := ROk | RError (e : OperationError).

Definition result_is_ok (r : OperationResult) : bool := match r with ROk => true | RError _ => false end.

Record ErrorProperties := mkErrorProperties { is_fatal : bool; is_retryable : bool }.

Definition properties (e : OperationError) : ErrorProperties :=
  match e with
  | OEInvalidClient | OENotMember | OECannotRemoveSelf | OEDisconnected =>
      mkErrorProperties true false
  | OERoomNotFound | OERoomAlreadyExists | OEAlreadyMember | OENoGroupInfo =>
      mkErrorProperties false false
  | OEEpochMismatch _ _ | OEPartitioned => mkErrorProperties false true
  end.

Definition error_properties (r : OperationResult) : option ErrorProperties :=
  match r with ROk => None | RError e => Some (properties e) end.

(** ** A client *)

Record ModelMessage := mkModelMessage {
  mm_sender_id : N;
  mm_content : bytes;
  mm_log_index : N;
  mm_epoch : N }.

#[export] Instance ModelMessage_eq_dec : EqDecision ModelMessage.
Proof. solve_decision. Defined.

Module ModelClient.

Record ModelRoomState := mkRoom {
  room_epoch : N;
  room_messages : list ModelMessage;
  next_send_index : N }.

Definition new_room : ModelRoomState := mkRoom 0 [] 0.

Record t := mk {
  id : N;
  rooms : gmap N ModelRoomState;
  partitioned : bool;
  disconnected : bool }.

Definition new (id : N) : t := mk id ∅ false false.

Definition with_rooms (rs : gmap N ModelRoomState) (c : t) : t :=
  mk (id c) rs (partitioned c) (disconnected c).

Definition is_member (c : t) (room_id : N) : bool := bool_decide (is_Some (rooms c !! room_id)).
Definition epoch (c : t) (room_id : N) : option N := room_epoch <$> rooms c !! room_id.
Definition messages (c : t) (room_id : N) : option (list ModelMessage) :=
  room_messages <$> rooms c !! room_id.

(** The counters are 64 bits wide and count operations of a test; that they
    reach their end is not modelled. *)
Definition join_room_at_epoch (room_id e : N) (c : t) : t * OperationResult :=
  match rooms c !! room_id with
  | Some _ => (c, RError OERoomAlreadyExists)
  | None => (with_rooms (<[room_id := mkRoom e [] 0]> (rooms c)) c, ROk)
  end.

Definition create_room (room_id : N) (c : t) : t * OperationResult :=
  match rooms c !! room_id with
  | Some _ => (c, RError OERoomAlreadyExists)
  | None => (with_rooms (<[room_id := new_room]> (rooms c)) c, ROk)
  end.

Definition join_room (room_id : N) (c : t) : t * OperationResult := create_room room_id c.

Definition leave_room (room_id : N) (c : t) : t * OperationResult :=
  match rooms c !! room_id with
  | None => (c, RError OENotMember)
  | Some _ => (with_rooms (delete room_id (rooms c)) c, ROk)
  end.

Definition send_message (room_id : N) (c : t) : t * (OperationError + N) :=
  match rooms c !! room_id with
  | None => (c, inl OENotMember)
  | Some room =>
      (with_rooms (<[room_id := mkRoom (room_epoch room) (room_messages room)
                                  (next_send_index room + 1)]> (rooms c)) c,
       inr (next_send_index room))
  end.

Definition receive_message (room_id : N) (message : ModelMessage) (c : t) : t :=
  match rooms c !! room_id with
  | None => c
  | Some room =>
      with_rooms (<[room_id := mkRoom (room_epoch room) (room_messages room ++ [message])
                                 (next_send_index room)]> (rooms c)) c
  end.

Definition advance_epoch (room_id : N) (c : t) : t :=
  match rooms c !! room_id with
  | None => c
  | Some room =>
      with_rooms (<[room_id := mkRoom (room_epoch room + 1) (room_messages room)
                                 (next_send_index room)]> (rooms c)) c
  end.

Definition partition (c : t) : t := mk (id c) (rooms c) true (disconnected c).
Definition heal_partition (c : t) : t := mk (id c) (rooms c) false (disconnected c).
Definition disconnect (c : t) : t * list N := (mk (id c) ∅ true true, (map_to_list (rooms c)).*1).

End ModelClient.

(** ** The server *)

Record PendingMessage := mkPending {
  pm_room_id : N;
  pm_message : ModelMessage;
  pm_recipients : list N }.

Module ModelServer.

Record ServerRoomState := mkRoom {
  creator : N;
  members : gset N;
  messages : list ModelMessage;
  next_log_index : N;
  room_epoch : N }.

Definition new_room (creator : N) : ServerRoomState := mkRoom creator {[ creator ]} [] 0 0.

Definition MAX_PENDING_DELIVERIES : nat := 1000.

Record t := mk {
  rooms : gmap N ServerRoomState;
  pending_deliveries : list PendingMessage }.

Definition new : t := mk ∅ [].

Definition with_rooms (rs : gmap N ServerRoomState) (s : t) : t := mk rs (pending_deliveries s).
Definition with_members (ms : gset N) (room : ServerRoomState) : ServerRoomState :=
  mkRoom (creator room) ms (messages room) (next_log_index room) (room_epoch room).

Definition pending_count (s : t) : nat := length (pending_deliveries s).
Definition take_pending (s : t) : t * list PendingMessage := (mk (rooms s) [], pending_deliveries s).
Definition room_exists (s : t) (room_id : N) : bool := bool_decide (is_Some (rooms s !! room_id)).
Definition is_member (s : t) (room_id client_id : N) : bool :=
  match rooms s !! room_id with
  | Some room => bool_decide (client_id ∈ members room)
  | None => false
  end.
Definition room_members (s : t) (room_id : N) : option (gset N) := members <$> rooms s !! room_id.
Definition log (s : t) (room_id : N) : option (list ModelMessage) := messages <$> rooms s !! room_id.
Definition epoch (s : t) (room_id : N) : option N := room_epoch <$> rooms s !! room_id.

Definition create_room (room_id creator : N) (s : t) : t * res OperationError unit :=
  match rooms s !! room_id with
  | Some _ => (s, Err OERoomAlreadyExists)
  | None => (with_rooms (<[room_id := new_room creator]> (rooms s)) s, Ok tt)
  end.

Definition process_message (room_id sender_id : N) (content : bytes) (s : t)
    : t * res OperationError ModelMessage :=
  match rooms s !! room_id with
  | None => (s, Err OERoomNotFound)
  | Some room =>
      if negb (bool_decide (sender_id ∈ members room)) then (s, Err OENotMember)
      else
        let message := mkModelMessage sender_id content (next_log_index room) (room_epoch room) in
        let room' := mkRoom (creator room) (members room) (messages room ++ [message])
                       (next_log_index room + 1) (room_epoch room) in
        let s' := with_rooms (<[room_id := room']> (rooms s)) s in
        if (MAX_PENDING_DELIVERIES <=? pending_count s)%nat then (s', Panic)
        else
          (mk (rooms s') (pending_deliveries s ++ [mkPending room_id message (elements (members room))]),
           Ok message)
  end.

Definition remove_member (room_id client_id : N) (s : t) : t * res OperationError unit :=
  match rooms s !! room_id with
  | None => (s, Err OERoomNotFound)
  | Some room =>
      if negb (bool_decide (client_id ∈ members room)) then (s, Err OENotMember)
      else (with_rooms (<[room_id := with_members (members room ∖ {[ client_id ]}) room]> (rooms s)) s,
            Ok tt)
  end.

Definition add_member (room_id client_id : N) (s : t) : t :=
  match rooms s !! room_id with
  | None => s
  | Some room =>
      with_rooms (<[room_id := with_members ({[ client_id ]} ∪ members room) room]> (rooms s)) s
  end.

Definition advance_epoch (room_id : N) (s : t) : t :=
  match rooms s !! room_id with
  | None => s
  | Some room =>
      with_rooms (<[room_id := mkRoom (creator room) (members room) (messages room)
                                 (next_log_index room) (room_epoch room + 1)]> (rooms s)) s
  end.

End ModelServer.

(** ** The world *)

Module ModelWorld.

Record t := mk { clients : list ModelClient.t; server : ModelServer.t }.

(** [i as ClientId] truncates. *)
Definition new (num_clients : nat) : t :=
  mk (map (fun i => ModelClient.new (N.of_nat i mod 256)) (seq 0 num_clients)) ModelServer.new.

Definition client (w : t) (id : N) : option ModelClient.t := clients w !! N.to_nat id.
Definition set_client (id : N) (c : ModelClient.t) (w : t) : t :=
  mk (<[N.to_nat id := c]> (clients w)) (server w).

(** An operation: the new world and the result; a panic is a failed assertion. *)
Abbreviation step := (t -> t * res Empty_set OperationResult).
Definition ok : step := fun w => (w, Ok ROk).
Definition fail (e : OperationError) : step := fun w => (w, Ok (RError e)).

(** The client with an id, when there is one. *)
Definition with_client (id : N) (f : ModelClient.t -> step) : step := fun w =>
  match client w id with
  | Some c => f c w
  | None => fail OEInvalidClient w
  end.

(** The loop that advances the epoch of the members. *)
Definition advance_members (room_id : N) (cs : list ModelClient.t) : list ModelClient.t :=
  map (fun c => if ModelClient.is_member c room_id then ModelClient.advance_epoch room_id c else c) cs.

Definition apply_create_room (client_id room_id : N) : step :=
  with_client client_id (fun client =>
  if ModelClient.disconnected client then fail OEDisconnected
  else fun w =>
    if ModelServer.room_exists (server w) room_id then fail OERoomAlreadyExists w
    else
      let '(client', r) := ModelClient.create_room room_id client in
      let w1 := set_client client_id client' w in
      if negb (result_is_ok r) then (w1, Ok r)
      else
        match ModelServer.create_room room_id client_id (server w1) with
        | (s, Ok _) => (mk (clients w1) (ModelServer.add_member room_id client_id s), Ok ROk)
        | (s, _) => (mk (clients w1) s, Panic)
        end).

Definition apply_send_message (client_id room_id : N) (content : bytes) : step :=
  with_client client_id (fun client =>
  if ModelClient.partitioned client then fail OEPartitioned
  else if negb (ModelClient.is_member client room_id) then fail OENotMember
  else fun w =>
    match ModelServer.process_message room_id client_id content (server w) with
    | (s, Ok message) =>
        (set_client client_id (ModelClient.receive_message room_id message client) (mk (clients w) s),
         Ok ROk)
    | (s, Err e) => (mk (clients w) s, Ok (RError e))
    | (s, Panic) => (mk (clients w) s, Panic)
    end).

(** One recipient of a pending message. *)
Definition deliver_one (p : PendingMessage) (cs : list ModelClient.t) (recipient_id : N)
    : list ModelClient.t :=
  if recipient_id =? mm_sender_id (pm_message p) then cs
  else
    match cs !! N.to_nat recipient_id with
    | None => cs
    | Some c =>
        if ModelClient.partitioned c then cs
        else if ModelClient.is_member c (pm_room_id p)
        then <[N.to_nat recipient_id := ModelClient.receive_message (pm_room_id p) (pm_message p) c]> cs
        else cs
    end.

Definition deliver_message (cs : list ModelClient.t) (p : PendingMessage) : list ModelClient.t :=
  foldl (deliver_one p) cs (pm_recipients p).

Definition apply_deliver_pending (w : t) : t :=
  let '(s, pending) := ModelServer.take_pending (server w) in
  mk (foldl deliver_message (clients w) pending) s.

Definition apply_leave_room (client_id room_id : N) : step :=
  with_client client_id (fun client =>
  let '(client', r) := ModelClient.leave_room room_id client in
  if negb (result_is_ok r) then fun w => (w, Ok r)
  else fun w =>
    let s := ModelServer.advance_epoch room_id
               (fst (ModelServer.remove_member room_id client_id (server w))) in
    (mk (advance_members room_id (clients (set_client client_id client' w))) s, Ok ROk)).

(** A new member joins at the epoch after the others have advanced. *)
Definition admit_member (client_id room_id : N) : step := fun w =>
  let s1 := ModelServer.advance_epoch room_id (server w) in
  let new_epoch := default 0 (ModelServer.epoch s1 room_id) in
  let cs := advance_members room_id (clients w) in
  let s2 := ModelServer.add_member room_id client_id s1 in
  match cs !! N.to_nat client_id with
  | Some c =>
      (mk (<[N.to_nat client_id := fst (ModelClient.join_room_at_epoch room_id new_epoch c)]> cs) s2,
       Ok ROk)
  | None => (mk cs s2, Panic)
  end.

Definition apply_add_member (sender_id recipient_id room_id : N) : step :=
  with_client sender_id (fun sender =>
  with_client recipient_id (fun recipient =>
  if negb (ModelClient.is_member sender room_id) then fail OENotMember
  else if ModelClient.is_member recipient room_id then fail OEAlreadyMember
  else admit_member recipient_id room_id)).

Definition apply_external_join (joiner_id room_id : N) : step :=
  with_client joiner_id (fun joiner =>
  if ModelClient.is_member joiner room_id then fail OEAlreadyMember
  else fun w =>
    match ModelServer.epoch (server w) room_id with
    | None => fail OENoGroupInfo w
    | Some _ => admit_member joiner_id room_id w
    end).

Definition apply_remove_member (remover_id target_id room_id : N) : step :=
  with_client remover_id (fun remover =>
  with_client target_id (fun target =>
  if remover_id =? target_id then fail OECannotRemoveSelf
  else if negb (ModelClient.is_member remover room_id) then fail OENotMember
  else if negb (ModelClient.is_member target room_id) then fail OENotMember
  else fun w =>
    let w1 := set_client target_id (fst (ModelClient.leave_room room_id target)) w in
    let s := ModelServer.advance_epoch room_id
               (fst (ModelServer.remove_member room_id target_id (server w1))) in
    (mk (advance_members room_id (clients w1)) s, Ok ROk))).

Definition connected_only (client_id : N) (f : ModelClient.t -> step) : step :=
  with_client client_id (fun client =>
  if ModelClient.disconnected client then fail OEDisconnected else f client).

Definition apply_partition (client_id : N) : step :=
  connected_only client_id (fun client w => ok (set_client client_id (ModelClient.partition client) w)).

Definition apply_heal_partition (client_id : N) : step :=
  connected_only client_id (fun client w =>
    ok (set_client client_id (ModelClient.heal_partition client) w)).

(** The epoch of a room advances when members remain. *)
Definition leave_on_disconnect (client_id : N) (w : t) (room_id : N) : t :=
  let s := fst (ModelServer.remove_member room_id client_id (server w)) in
  let has_remaining_members :=
    match ModelServer.room_members s room_id with
    | Some ms => negb (bool_decide (ms = ∅))
    | None => false
    end in
  if has_remaining_members
  then mk (advance_members room_id (clients w)) (ModelServer.advance_epoch room_id s)
  else mk (clients w) s.

Definition apply_disconnect (client_id : N) : step :=
  connected_only client_id (fun client w =>
  let '(client', rooms) := ModelClient.disconnect client in
  ok (foldl (leave_on_disconnect client_id) (set_client client_id client' w) rooms)).

Definition apply (op : Operation) : step :=
  match op with
  | OpCreateRoom client_id room_id => apply_create_room client_id room_id
  | OpSendMessage client_id room_id content =>
      apply_send_message client_id room_id (small_to_bytes content)
  | OpLeaveRoom client_id room_id => apply_leave_room client_id room_id
  | OpAddMember inviter_id invitee_id room_id => apply_add_member inviter_id invitee_id room_id
  | OpExternalJoin joiner_id room_id => apply_external_join joiner_id room_id
  | OpRemoveMember remover_id target_id room_id => apply_remove_member remover_id target_id room_id
  | OpAdvanceTime _ => ok
  | OpDeliverPending => fun w => ok (apply_deliver_pending w)
  | OpPartition client_id => apply_partition client_id
  | OpHealPartition client_id => apply_heal_partition client_id
  | OpDisconnect client_id => apply_disconnect client_id
  end.

Definition client_messages (w : t) (client_id room_id : N) : option (list ModelMessage) :=
  client w client_id ≫= fun c => ModelClient.messages c room_id.

(** ** What the tests observe *)

Record ObservableState := mkObservable {
  client_rooms : list (list N);
  obs_client_messages : list (list (N * list ModelMessage));
  client_epochs : list (list (N * N));
  server_messages : list (N * list ModelMessage) }.

Definition sorted_rooms (c : ModelClient.t) : list N :=
  merge_sort N.le (map_to_list (ModelClient.rooms c)).*1.

(** The pairs of some rooms and what is there. *)
Definition collect {A} (f : N -> option A) (rooms : list N) : list (N * A) :=
  omap (fun room_id => pair room_id <$> f room_id) rooms.

Definition observable_state (w : t) : ObservableState :=
  let room_ids :=
    merge_sort N.le (elements (list_to_set (C := gset N)
      (concat (map (fun c => (map_to_list (ModelClient.rooms c)).*1) (clients w))))) in
  mkObservable (map sorted_rooms (clients w))
    (map (fun c => collect (ModelClient.messages c) (sorted_rooms c)) (clients w))
    (map (fun c => collect (ModelClient.epoch c) (sorted_rooms c)) (clients w))
    (collect (ModelServer.log (server w)) room_ids).

End ModelWorld.

(** ** The invariant *)

Module ModelProperties.
Import ModelWorld.

(** A client's room and the server's. *)
Definition agree_at (i : N) (room : option ModelClient.ModelRoomState)
    (sroom : option ModelServer.ServerRoomState) : Prop :=
  match room, sroom with
  | Some room, Some sroom =>
      i ∈ ModelServer.members sroom /\ ModelClient.room_epoch room = ModelServer.room_epoch sroom
  | None, Some sroom => i ∉ ModelServer.members sroom
  | None, None => True
  | Some _, None => False
  end.

(** Clients and server agree, but for the rooms [rs] of the client [id], which
    it has left and the server does not know of. *)
Definition agree_but (id : N) (rs : list N) (w : t) : Prop :=
  forall i c r, client w i = Some c -> (i = id -> r ∉ rs) ->
    agree_at i (ModelClient.rooms c !! r) (ModelServer.rooms (server w) !! r).

Definition agree (w : t) : Prop := agree_but 0 [] w.

(** The log of a room is dense, and no message is of a later epoch. *)
Definition logs_ok (s : ModelServer.t) : Prop :=
  forall r room, ModelServer.rooms s !! r = Some room ->
    map mm_log_index (ModelServer.messages room)
      = map N.of_nat (seq 0 (length (ModelServer.messages room))) /\
    ModelServer.next_log_index room = len (ModelServer.messages room) /\
    Forall (fun m => mm_epoch m <= ModelServer.room_epoch room) (ModelServer.messages room).

Definition logged (s : ModelServer.t) (r : N) (m : ModelMessage) : Prop :=
  exists ms, ModelServer.log s r = Some ms /\ m ∈ ms.

Definition pending_ok (s : ModelServer.t) : Prop :=
  NoDup (map (fun p => (pm_room_id p, pm_message p)) (ModelServer.pending_deliveries s)) /\
  Forall (fun p => logged s (pm_room_id p) (pm_message p) /\ NoDup (pm_recipients p))
    (ModelServer.pending_deliveries s).

(** What a client shows was logged, and is shown once; what is still to be
    delivered it shows only if it is its own. *)
Definition received_ok (w : t) : Prop :=
  forall i c r ms, client w i = Some c -> ModelClient.messages c r = Some ms ->
    NoDup ms /\ Forall (logged (server w) r) ms /\
    forall p, p ∈ ModelServer.pending_deliveries (server w) -> pm_room_id p = r -> pm_message p ∈ ms ->
      mm_sender_id (pm_message p) = i.

Record world_inv (w : t) : Prop := {
  wi_agree : agree w;
  wi_logs : logs_ok (server w);
  wi_pending : pending_ok (server w);
  wi_received : received_ok w }.

(** *** Lookups *)

Lemma client_set i j c w :
  client (set_client j c w) i
  = if bool_decide (i = j) then (fun _ => c) <$> client w i else client w i.
Proof.
  unfold client, set_client. cbn. case_bool_decide as Hij.
  - subst. destruct (clients w !! N.to_nat j) as [c0|] eqn:Hj; cbn.
    + by rewrite list_lookup_insert_eq by (by eapply lookup_lt_Some).
    + rewrite list_insert_ge; [done|]. by apply lookup_ge_None.
  - apply list_lookup_insert_ne. lia.
Qed.

Lemma client_advance r i s w :
  client (mk (advance_members r (clients w)) s) i = ModelClient.advance_epoch r <$> client w i.
Proof.
  unfold client, advance_members. cbn. rewrite list_lookup_fmap.
  destruct (clients w !! N.to_nat i) as [c|]; [|done]. cbn. f_equal.
  unfold ModelClient.is_member, ModelClient.advance_epoch.
  destruct (ModelClient.rooms c !! r) eqn:Hr; [by rewrite bool_decide_eq_true_2 by done|].
  by case_bool_decide.
Qed.

Lemma advance_rooms r r' c :
  ModelClient.rooms (ModelClient.advance_epoch r c) !! r'
  = (fun room => if r' =? r
       then ModelClient.mkRoom (ModelClient.room_epoch room + 1) (ModelClient.room_messages room)
              (ModelClient.next_send_index room)
       else room) <$> ModelClient.rooms c !! r'.
Proof.
  unfold ModelClient.advance_epoch. destruct (N.eqb_spec r' r) as [->|Hne].
  - destruct (ModelClient.rooms c !! r) eqn:Hr; cbn; [by rewrite lookup_insert_eq|by rewrite Hr].
  - rewrite option_fmap_id. destruct (ModelClient.rooms c !! r); [|done]. cbn.
    by rewrite lookup_insert_ne.
Qed.

Lemma server_advance_rooms r r' s :
  ModelServer.rooms (ModelServer.advance_epoch r s) !! r'
  = (fun room => if r' =? r
       then ModelServer.mkRoom (ModelServer.creator room) (ModelServer.members room)
              (ModelServer.messages room) (ModelServer.next_log_index room)
              (ModelServer.room_epoch room + 1)
       else room) <$> ModelServer.rooms s !! r'.
Proof.
  unfold ModelServer.advance_epoch. destruct (N.eqb_spec r' r) as [->|Hne].
  - destruct (ModelServer.rooms s !! r) eqn:Hr; cbn; [by rewrite lookup_insert_eq|by rewrite Hr].
  - rewrite option_fmap_id. destruct (ModelServer.rooms s !! r); [|done]. cbn.
    by rewrite lookup_insert_ne.
Qed.

(** Adding or removing a member of a room. *)
Definition on_members (r : N) (f : gset N -> gset N) (s s' : ModelServer.t) : Prop :=
  ModelServer.pending_deliveries s' = ModelServer.pending_deliveries s /\
  forall r', ModelServer.rooms s' !! r'
    = (fun room => if r' =? r then ModelServer.with_members (f (ModelServer.members room)) room else room)
      <$> ModelServer.rooms s !! r'.

Lemma on_members_insert r f s room :
  ModelServer.rooms s !! r = Some room ->
  on_members r f s (ModelServer.with_rooms
    (<[r := ModelServer.with_members (f (ModelServer.members room)) room]> (ModelServer.rooms s)) s).
Proof.
  intros Hr. split; [done|]. intros r'. cbn. destruct (N.eqb_spec r' r) as [->|Hne].
  - by rewrite lookup_insert_eq, Hr.
  - by rewrite lookup_insert_ne, option_fmap_id.
Qed.

Lemma on_members_same r f s :
  (forall room, ModelServer.rooms s !! r = Some room ->
     f (ModelServer.members room) = ModelServer.members room) -> on_members r f s s.
Proof.
  intros Hf. split; [done|]. intros r'. destruct (N.eqb_spec r' r) as [->|Hne].
  - destruct (ModelServer.rooms s !! r) as [room|] eqn:Hr; [|done]. cbn. rewrite (Hf room eq_refl).
    by destruct room.
  - by rewrite option_fmap_id.
Qed.

Lemma add_member_on r i s : on_members r (fun ms => {[ i ]} ∪ ms) s (ModelServer.add_member r i s).
Proof.
  unfold ModelServer.add_member. destruct (ModelServer.rooms s !! r) as [room|] eqn:Hr.
  - by apply (on_members_insert r (fun ms => {[ i ]} ∪ ms)).
  - apply on_members_same. congruence.
Qed.

Lemma remove_member_on r i s :
  on_members r (fun ms => ms ∖ {[ i ]}) s (fst (ModelServer.remove_member r i s)).
Proof.
  unfold ModelServer.remove_member. destruct (ModelServer.rooms s !! r) as [room|] eqn:Hr.
  - case_bool_decide; cbn; [by apply (on_members_insert r (fun ms => ms ∖ {[ i ]}))|].
    apply on_members_same. intros room' Hr'. rewrite Hr in Hr'. injection Hr' as <-. set_solver.
  - cbn. apply on_members_same. congruence.
Qed.

(** *** Steps that send and deliver nothing *)

Definition quiet_room (a b : option ModelServer.ServerRoomState) : Prop :=
  match a, b with
  | Some a, Some b =>
      ModelServer.messages b = ModelServer.messages a /\
      ModelServer.next_log_index b = ModelServer.next_log_index a /\
      ModelServer.room_epoch a <= ModelServer.room_epoch b
  | None, None => True
  | None, Some b => ModelServer.messages b = [] /\ ModelServer.next_log_index b = 0
  | Some _, None => False
  end.

(** No log and no queue changes, and no client shows more. *)
Definition quiet (w w' : t) : Prop :=
  ModelServer.pending_deliveries (server w') = ModelServer.pending_deliveries (server w) /\
  (forall r, quiet_room (ModelServer.rooms (server w) !! r) (ModelServer.rooms (server w') !! r)) /\
  forall i c' r ms, client w' i = Some c' -> ModelClient.messages c' r = Some ms ->
    ms = [] \/ exists c, client w i = Some c /\ ModelClient.messages c r = Some ms.

#[local] Instance quiet_preorder : PreOrder quiet.
Proof.
  split.
  - intros w. split_and!; [done| |by eauto]. intros r. unfold quiet_room.
    destruct (_ !! r); [|done]. split_and!; [done..|lia].
  - intros w1 w2 w3 (Hp1 & Hr1 & Hc1) (Hp2 & Hr2 & Hc2). split_and!; [congruence| |].
    + intros r. specialize (Hr1 r). specialize (Hr2 r). unfold quiet_room in *.
      destruct (_ !! r), (_ !! r), (_ !! r); naive_solver (congruence || lia).
    + intros i c r ms Hi Hm. destruct (Hc2 i c r ms Hi Hm) as [->|(c' & Hi' & Hm')]; [by left|].
      by eapply Hc1.
Qed.

Lemma quiet_logged w w' r m : quiet w w' -> logged (server w) r m -> logged (server w') r m.
Proof.
  intros (_ & Hr & _) (ms & Hms & Hm). specialize (Hr r). exists ms. split; [|done].
  unfold ModelServer.log in *. unfold quiet_room in Hr.
  destruct (ModelServer.rooms (server w) !! r) as [a|]; [|done].
  destruct (ModelServer.rooms (server w') !! r) as [b|]; [|done].
  destruct Hr as (Hr & _). cbn in *. congruence.
Qed.

Lemma quiet_keeps w w' :
  quiet w w' -> logs_ok (server w) -> pending_ok (server w) -> received_ok w ->
  logs_ok (server w') /\ pending_ok (server w') /\ received_ok w'.
Proof.
  intros Hq Hl [Hp1 Hp2] Hrec. pose proof Hq as (Hpend & Hr & Hc). split_and!.
  - intros r room Hroom. specialize (Hr r). rewrite Hroom in Hr. unfold quiet_room in Hr.
    destruct (ModelServer.rooms (server w) !! r) as [a|] eqn:Ha.
    + destruct Hr as (-> & -> & He). destruct (Hl r a Ha) as (? & ? & Hf). split_and!; [done..|].
      eapply Forall_impl; [exact Hf|]. cbn. lia.
    + destruct Hr as [-> ->]. split_and!; [done..|constructor].
  - unfold pending_ok. rewrite Hpend. split; [done|]. eapply Forall_impl; [exact Hp2|].
    intros p [Hlg Hnd]. split; [by eapply quiet_logged|done].
  - intros i c r ms Hi Hm. rewrite Hpend.
    destruct (Hc i c r ms Hi Hm) as [->|(c0 & Hi0 & Hm0)].
    + split_and!; [constructor|constructor|]. intros p _ _ Hin. by apply elem_of_nil in Hin.
    + destruct (Hrec i c0 r ms Hi0 Hm0) as (Hnd & Hlg & Hown). split_and!; [done| |done].
      eapply Forall_impl; [exact Hlg|]. intros m. by apply quiet_logged.
Qed.

Lemma quiet_inv w w' : quiet w w' -> agree w' -> world_inv w -> world_inv w'.
Proof. intros Hq Ha [_ Hl Hp Hr]. destruct (quiet_keeps w w' Hq Hl Hp Hr) as (? & ? & ?). by split. Qed.

(** The pieces of such steps. *)
Lemma messages_fmap c r : ModelClient.messages c r = ModelClient.room_messages <$> ModelClient.rooms c !! r.
Proof. done. Qed.

Lemma quiet_set id c c' w :
  client w id = Some c ->
  (forall r ms, ModelClient.messages c' r = Some ms -> ms = [] \/ ModelClient.messages c r = Some ms) ->
  quiet w (set_client id c' w).
Proof.
  intros Hc Hm. split_and!; [done| |].
  - intros r. apply (quiet_preorder.(PreOrder_Reflexive) w).
  - intros i c0 r ms. rewrite client_set. case_bool_decide as Hi; [|by eauto].
    subst. rewrite Hc. intros [= <-] Hms. destruct (Hm r ms Hms); [by left|right; by eauto].
Qed.

Lemma quiet_members w r f s' : on_members r f (server w) s' -> quiet w (mk (clients w) s').
Proof.
  intros [Hp Hr]. split_and!; [done| |by eauto]. intros r'. cbn. rewrite Hr. unfold quiet_room.
  destruct (ModelServer.rooms (server w) !! r') as [room|]; cbn; [|done].
  destruct (r' =? r); cbn; split_and!; done || lia.
Qed.

Lemma quiet_advance r w :
  quiet w (mk (advance_members r (clients w)) (ModelServer.advance_epoch r (server w))).
Proof.
  split_and!.
  - cbn. unfold ModelServer.advance_epoch. by destruct (_ !! r).
  - intros r'. cbn. rewrite server_advance_rooms. unfold quiet_room.
    destruct (ModelServer.rooms (server w) !! r') as [room|]; cbn; [|done].
    destruct (r' =? r); cbn; split_and!; done || lia.
  - intros i c' r' ms. rewrite client_advance. destruct (client w i) as [c|]; cbn; [|done].
    intros [= <-]. rewrite messages_fmap, advance_rooms, <- option_fmap_compose. intros Hms. right.
    exists c. split; [done|]. rewrite <- Hms. rewrite messages_fmap.
    destruct (ModelClient.rooms c !! r') as [room|]; [|done]. cbn. by destruct (r' =? r).
Qed.

(** A connected client keeps what it shows of a room. *)
Definition keeps_view (i r : N) (w w' : t) : Prop :=
  forall c ms, client w i = Some c -> ModelClient.messages c r = Some ms ->
    ModelClient.partitioned c = false ->
    exists c', client w' i = Some c' /\ ModelClient.messages c' r = Some ms /\
      ModelClient.partitioned c' = false.

#[local] Instance keeps_view_preorder i r : PreOrder (keeps_view i r).
Proof.
  split.
  - intros w c ms Hc Hm Hp. by exists c.
  - intros w1 w2 w3 H1 H2 c ms Hc Hm Hp. destruct (H1 c ms Hc Hm Hp) as (c' & Hc' & Hm' & Hp').
    by apply (H2 c').
Qed.

Lemma keeps_view_set i r id c c' w :
  client w id = Some c ->
  (i = id -> ModelClient.messages c r <> None -> ModelClient.partitioned c = false ->
   ModelClient.messages c' r = ModelClient.messages c r /\ ModelClient.partitioned c' = false) ->
  keeps_view i r w (set_client id c' w).
Proof.
  intros Hid Hc' c0 ms Hc Hm Hp. rewrite client_set. case_bool_decide as Hi; [|by exists c0].
  subst. rewrite Hid in Hc |- *. injection Hc as <-. exists c'. rewrite <- Hm. split; [done|].
  apply Hc'; [done| |done]. by rewrite Hm.
Qed.

Lemma keeps_view_server i r w s' : keeps_view i r w (mk (clients w) s').
Proof. intros c ms Hc Hm Hp. by exists c. Qed.

Lemma keeps_view_advance i r r' w s' : keeps_view i r w (mk (advance_members r' (clients w)) s').
Proof.
  intros c ms Hc Hm Hp. exists (ModelClient.advance_epoch r' c). rewrite client_advance, Hc.
  split_and!; [done| |].
  - rewrite <- Hm, !messages_fmap, advance_rooms.
    destruct (ModelClient.rooms c !! r) as [room|]; [|done]. cbn. by destruct (r =? r').
  - unfold ModelClient.advance_epoch. by destruct (_ !! r').
Qed.

(** *** Agreement *)

(** Epochs advance together. *)
Lemma agree_advance id rs r w :
  agree_but id rs w ->
  agree_but id rs (mk (advance_members r (clients w)) (ModelServer.advance_epoch r (server w))).
Proof.
  intros Ha i c r'. rewrite client_advance. destruct (client w i) as [c0|] eqn:Hi; cbn; [|done].
  intros [= <-] Hr. specialize (Ha i c0 r' Hi Hr). rewrite advance_rooms, server_advance_rooms.
  unfold agree_at in *.
  destruct (ModelClient.rooms c0 !! r'), (ModelServer.rooms (server w) !! r'); cbn; try done;
    destruct (r' =? r); cbn; try done. destruct Ha. split; [done|congruence].
Qed.

(** A room that the client has left is left at the server too. *)
Lemma agree_removed id rs r w s' c :
  client w id = Some c -> ModelClient.rooms c !! r = None ->
  on_members r (fun ms => ms ∖ {[ id ]}) (server w) s' ->
  agree_but id (r :: rs) w -> agree_but id rs (mk (clients w) s').
Proof.
  intros Hid Hnone [_ Hs] Ha i c' r' Hi Hr. cbn in *. unfold client in *. cbn in Hi. rewrite Hs.
  destruct (decide (i = id /\ r' = r)) as [[-> ->]|Hne].
  - rewrite Hid in Hi. injection Hi as <-. rewrite Hnone.
    destruct (ModelServer.rooms (server w) !! r); cbn; [|done]. rewrite N.eqb_refl. cbn. set_solver.
  - assert (Hagree : agree_at i (ModelClient.rooms c' !! r') (ModelServer.rooms (server w) !! r')).
    { apply Ha; [done|]. intros ->. rewrite not_elem_of_cons. split; [|by apply Hr]. naive_solver. }
    unfold agree_at in *.
    destruct (ModelClient.rooms c' !! r'), (ModelServer.rooms (server w) !! r'); cbn; try done;
      destruct (N.eqb_spec r' r) as [->|]; cbn; try done; [|set_solver].
    destruct Hagree. split; [|done]. apply elem_of_difference. split; [done|]. set_solver.
Qed.

(** A client that leaves one room, or all of them. *)
Lemma agree_leaving id rs c c' w :
  client w id = Some c ->
  (forall r, ModelClient.rooms c' !! r = if bool_decide (r ∈ rs) then None else ModelClient.rooms c !! r) ->
  agree w -> agree_but id rs (set_client id c' w).
Proof.
  intros Hid Hrooms Ha i c0 r. rewrite client_set. case_bool_decide as Hi.
  - subst. rewrite Hid. intros [= <-] Hr. rewrite Hrooms, bool_decide_eq_false_2 by auto.
    apply Ha; [done|]. intros _ Hin. by apply elem_of_nil in Hin.
  - intros Hc _. apply Ha; [done|]. intros _ Hin. by apply elem_of_nil in Hin.
Qed.

Lemma agree_but_nil id id' w : agree_but id [] w -> agree_but id' [] w.
Proof. intros Ha i c r Hi _. apply Ha; [done|]. intros _ Hin. by apply elem_of_nil in Hin. Qed.

(** *** Joining and leaving *)

Lemma world_leave_ok id r c w :
  client w id = Some c -> is_Some (ModelClient.rooms c !! r) -> world_inv w ->
  let w1 := set_client id (fst (ModelClient.leave_room r c)) w in
  let w' := mk (advance_members r (clients w1))
              (ModelServer.advance_epoch r (fst (ModelServer.remove_member r id (server w1)))) in
  quiet w w' /\ world_inv w' /\ forall i r', (i = id -> r' <> r) -> keeps_view i r' w w'.
Proof.
  intros Hid [room Hroom] HI w1 w'.
  assert (Hleft : ModelClient.rooms (fst (ModelClient.leave_room r c)) = delete r (ModelClient.rooms c))
    by (unfold ModelClient.leave_room; by rewrite Hroom).
  set (s2 := fst (ModelServer.remove_member r id (server w1))) in *.
  assert (Hon : on_members r (fun ms => ms ∖ {[ id ]}) (server w1) s2) by apply remove_member_on.
  assert (Hq : quiet w w').
  { etrans; [apply (quiet_set id c (fst (ModelClient.leave_room r c)) w Hid)|].
    - intros r' ms. rewrite !messages_fmap, Hleft. destruct (decide (r' = r)) as [->|].
      + by rewrite lookup_delete_eq.
      + rewrite lookup_delete_ne by done. by right.
    - etrans; [exact (quiet_members w1 r _ s2 Hon)|]. apply (quiet_advance r (mk (clients w1) s2)). }
  split_and!; [done| |].
  2: { intros i r' Hne. etrans; [apply (keeps_view_set i r' id c (fst (ModelClient.leave_room r c)) w Hid)|].
       - intros Hi _ Hp. unfold ModelClient.messages. rewrite Hleft, lookup_delete_ne by (symmetry; by apply Hne).
         split; [done|]. unfold ModelClient.leave_room. by rewrite Hroom.
       - apply (keeps_view_advance i r' r w1). }
  eapply quiet_inv; [done| |done].
  apply (agree_but_nil id). apply (agree_advance id [] r (mk (clients w1) s2)).
  eapply (agree_removed id [] r w1 s2 (fst (ModelClient.leave_room r c))); [| |done|].
  - unfold w1. rewrite client_set, bool_decide_eq_true_2, Hid by done. done.
  - rewrite Hleft. apply lookup_delete_eq.
  - apply (agree_leaving id [r] c); [done| |by apply wi_agree]. intros r'. rewrite Hleft.
    case_bool_decide as Hr.
    + apply list_elem_of_singleton in Hr as ->. apply lookup_delete_eq.
    + rewrite lookup_delete_ne; [done|]. set_solver.
Qed.

Lemma agree_joined id r c c' room sroom w s' :
  agree w -> client w id = Some c -> ModelServer.rooms (server w) !! r = Some sroom ->
  on_members r (fun ms => {[ id ]} ∪ ms) (server w) s' ->
  ModelClient.rooms c' = <[r := room]> (ModelClient.rooms c) ->
  ModelClient.room_epoch room = ModelServer.room_epoch sroom ->
  agree (set_client id c' (mk (clients w) s')).
Proof.
  intros Ha Hid Hs [_ Hon] Hc' He i c0 r'. rewrite client_set.
  assert (Hold : forall c0 r', client w i = Some c0 ->
    agree_at i (ModelClient.rooms c0 !! r') (ModelServer.rooms (server w) !! r')).
  { intros c1 r1 Hc1. apply Ha; [done|]. intros _ Hin. by apply elem_of_nil in Hin. }
  change (client (mk (clients w) s') i) with (client w i). cbn [server set_client]. rewrite Hon.
  case_bool_decide as Hi.
  - subst. rewrite Hid. intros [= <-] _. rewrite Hc'. destruct (N.eqb_spec r' r) as [->|Hne].
    + rewrite lookup_insert_eq, Hs. cbn. split; [set_solver|done].
    + rewrite lookup_insert_ne, option_fmap_id by done. by apply Hold.
  - intros Hc0 _. specialize (Hold c0 r' Hc0). unfold agree_at in *.
    destruct (ModelClient.rooms c0 !! r'), (ModelServer.rooms (server w) !! r'); cbn; try done;
      destruct (r' =? r); cbn; try done; [destruct Hold; split; [set_solver|done]|set_solver].
Qed.

Lemma admit_ok id r c w :
  client w id = Some c -> ModelClient.rooms c !! r = None ->
  is_Some (ModelServer.rooms (server w) !! r) -> world_inv w ->
  exists w', admit_member id r w = (w', Ok ROk) /\ quiet w w' /\ world_inv w' /\
    forall i r', keeps_view i r' w w'.
Proof.
  intros Hid Hnone [sroom Hs] HI. unfold admit_member.
  set (w1 := mk (advance_members r (clients w)) (ModelServer.advance_epoch r (server w))).
  set (c1 := ModelClient.advance_epoch r c).
  assert (Hid1 : client w1 id = Some c1) by (unfold w1; by rewrite client_advance, Hid).
  assert (Hc1 : ModelClient.rooms c1 !! r = None) by (unfold c1; by rewrite advance_rooms, Hnone).
  change (advance_members r (clients w) !! N.to_nat id) with (client w1 id). rewrite Hid1.
  pose proof (add_member_on r id (server w1)) as Hon.
  change (ModelServer.advance_epoch r (server w)) with (server w1).
  set (s2 := ModelServer.add_member r id (server w1)) in *.
  set (c2 := fst (ModelClient.join_room_at_epoch r _ c1)).
  assert (Hs1 : exists sroom1, ModelServer.rooms (server w1) !! r = Some sroom1)
    by (unfold w1; cbn; rewrite server_advance_rooms, Hs; by eexists).
  destruct Hs1 as [sroom1 Hs1].
  assert (Hc2 : ModelClient.rooms c2 = <[r := ModelClient.mkRoom (ModelServer.room_epoch sroom1) [] 0]>
      (ModelClient.rooms c1)).
  { unfold c2, ModelClient.join_room_at_epoch. rewrite Hc1. unfold ModelServer.epoch. by rewrite Hs1. }
  assert (Hq : quiet w (set_client id c2 (mk (clients w1) s2))).
  { etrans; [apply (quiet_advance r w)|]. etrans; [exact (quiet_members w1 r _ s2 Hon)|].
    apply (quiet_set id c1); [exact Hid1|].
    intros r' ms. rewrite !messages_fmap, Hc2. destruct (decide (r' = r)) as [->|].
    - rewrite lookup_insert_eq. intros [= <-]. by left.
    - rewrite lookup_insert_ne by done. by right. }
  exists (set_client id c2 (mk (clients w1) s2)). split_and!; [done|done| |].
  2: { intros i r'. etrans; [apply (keeps_view_advance i r' r w (server w1))|].
       etrans; [apply (keeps_view_server i r' w1 s2)|]. apply (keeps_view_set i r' id c1); [exact Hid1|].
       intros _ Hm Hp. unfold ModelClient.messages in *. rewrite Hc2. split.
       - destruct (decide (r' = r)) as [->|]; [by rewrite Hc1 in Hm|by rewrite lookup_insert_ne].
       - unfold c2, ModelClient.join_room_at_epoch. by rewrite Hc1. }
  eapply quiet_inv; [done| |done]. eapply (agree_joined id r c1); [|done..]. 
  apply (agree_advance 0 []), wi_agree, HI.
Qed.

(** A room without members. *)
Lemma agree_empty_room r cr w :
  ModelServer.rooms (server w) !! r = None -> agree w ->
  agree (mk (clients w) (ModelServer.with_rooms
    (<[r := ModelServer.mkRoom cr ∅ [] 0 0]> (ModelServer.rooms (server w))) (server w))).
Proof.
  intros Hs Ha i c r' Hi Hr. specialize (Ha i c r' Hi Hr). cbn.
  destruct (decide (r' = r)) as [->|Hne]; [|by rewrite lookup_insert_ne].
  rewrite lookup_insert_eq. rewrite Hs in Ha. destruct (ModelClient.rooms c !! r); [done|]. cbn.
  set_solver.
Qed.

Lemma quiet_empty_room r cr w :
  ModelServer.rooms (server w) !! r = None ->
  quiet w (mk (clients w) (ModelServer.with_rooms
    (<[r := ModelServer.mkRoom cr ∅ [] 0 0]> (ModelServer.rooms (server w))) (server w))).
Proof.
  intros Hs. split_and!; [done| |by eauto]. intros r'. cbn. destruct (decide (r' = r)) as [->|Hne].
  - by rewrite lookup_insert_eq, Hs.
  - rewrite lookup_insert_ne by done. apply (quiet_preorder.(PreOrder_Reflexive) w).
Qed.

Lemma create_ok id r c w :
  client w id = Some c -> ModelClient.disconnected c = false ->
  ModelServer.rooms (server w) !! r = None -> world_inv w ->
  exists w', apply_create_room id r w = (w', Ok ROk) /\ quiet w w' /\ world_inv w' /\
    forall i r', keeps_view i r' w w'.
Proof.
  intros Hid Hconn Hs HI. unfold apply_create_room, with_client. rewrite Hid, Hconn.
  unfold ModelServer.room_exists. rewrite bool_decide_eq_false_2 by (rewrite Hs; by intros []).
  assert (Hnone : ModelClient.rooms c !! r = None).
  { pose proof (wi_agree w HI id c r Hid) as Ha. rewrite Hs in Ha.
    destruct (ModelClient.rooms c !! r); [|done]. exfalso. apply Ha. intros _ Hin.
    by apply elem_of_nil in Hin. }
  unfold ModelClient.create_room, ModelServer.create_room. rewrite Hnone. cbn [server set_client]. rewrite Hs.
  cbn [negb result_is_ok]. eexists. split; [done|].
  pose proof (agree_empty_room r id w Hs (wi_agree w HI)) as Ha0.
  pose proof (quiet_empty_room r id w Hs) as Hq0. set (w0 := mk _ _) in Ha0, Hq0.
  set (s' := ModelServer.add_member _ _ _). set (c' := ModelClient.with_rooms _ c).
  assert (Hon : on_members r (fun ms => {[ id ]} ∪ ms) (server w0) s').
  { unfold s', ModelServer.add_member. cbn. rewrite lookup_insert_eq. split; [done|]. intros r'. cbn.
    destruct (N.eqb_spec r' r) as [->|Hne].
    - rewrite !lookup_insert_eq. cbn. unfold ModelServer.with_members, ModelServer.new_room. cbn.
      do 2 f_equal. set_solver.
    - by rewrite !lookup_insert_ne, option_fmap_id. }
  change (mk _ s') with (set_client id c' (mk (clients w0) s')).
  assert (Hq : quiet w (set_client id c' (mk (clients w0) s'))).
  { etrans; [exact Hq0|]. etrans; [exact (quiet_members w0 r _ s' Hon)|].
    apply (quiet_set id c); [exact Hid|]. intros r' ms. rewrite !messages_fmap. cbn.
    destruct (decide (r' = r)) as [->|].
    - rewrite lookup_insert_eq. intros [= <-]. by left.
    - rewrite lookup_insert_ne by done. by right. }
  split_and!; [done| |].
  2: { intros i r'. etrans; [apply (keeps_view_server i r' w s')|]. apply (keeps_view_set i r' id c); [exact Hid|].
       intros _ Hm Hp. unfold ModelClient.messages in *. split; [|done]. cbn.
       destruct (decide (r' = r)) as [->|]; [by rewrite Hnone in Hm|by rewrite lookup_insert_ne]. }
  eapply quiet_inv; [done| |done].
  eapply (agree_joined id r c c' ModelClient.new_room _ w0);
    [exact Ha0|exact Hid|apply lookup_insert_eq|exact Hon|done|done].
Qed.

(** *** Disconnecting *)

Lemma disconnect_room_ok id rs r w c :
  client w id = Some c -> ModelClient.rooms c = ∅ -> agree_but id (r :: rs) w ->
  let w' := leave_on_disconnect id w r in
  quiet w w' /\ agree_but id rs w' /\ (forall i r', keeps_view i r' w w') /\
  exists c', client w' id = Some c' /\ ModelClient.rooms c' = ∅.
Proof.
  intros Hid Hc Ha. unfold leave_on_disconnect. pose proof (remove_member_on r id (server w)) as Hon.
  set (s := fst (ModelServer.remove_member r id (server w))) in *.
  assert (Ha1 : agree_but id rs (mk (clients w) s)).
  { eapply (agree_removed id rs r w s c); [done| |done|done]. by rewrite Hc, lookup_empty. }
  pose proof (quiet_members w r _ s Hon) as Hq1.
  destruct (match ModelServer.room_members s r with Some _ => _ | None => _ end).
  - split_and!.
    + etrans; [exact Hq1|]. apply (quiet_advance r (mk (clients w) s)).
    + by apply (agree_advance id rs r (mk (clients w) s)).
    + intros i r'. apply (keeps_view_advance i r' r w).
    + rewrite (client_advance r id _ w), Hid. cbn. eexists. split; [done|].
      unfold ModelClient.advance_epoch. by rewrite Hc, lookup_empty.
  - split_and!; [done..| |by exists c]. intros i r'. apply keeps_view_server.
Qed.

Lemma disconnect_rooms_ok id rs : forall w c,
  client w id = Some c -> ModelClient.rooms c = ∅ -> agree_but id rs w ->
  let w' := foldl (leave_on_disconnect id) w rs in
  quiet w w' /\ agree w' /\ forall i r', keeps_view i r' w w'.
Proof.
  induction rs as [|r rs IH]; intros w c Hid Hc Ha; cbn.
  { split_and!; [done|by apply (agree_but_nil id)|done]. }
  destruct (disconnect_room_ok id rs r w c Hid Hc Ha) as (Hq & Ha' & Hk & c' & Hid' & Hc').
  destruct (IH _ c' Hid' Hc' Ha') as (Hq' & Ha'' & Hk'). split_and!; [by etrans|done|].
  intros i r'. etrans; [apply Hk|apply Hk'].
Qed.

Lemma disconnect_ok id c w :
  client w id = Some c -> world_inv w ->
  let w' := foldl (leave_on_disconnect id) (set_client id (fst (ModelClient.disconnect c)) w)
              (snd (ModelClient.disconnect c)) in
  quiet w w' /\ world_inv w' /\ forall i r', i <> id -> keeps_view i r' w w'.
Proof.
  intros Hid HI. cbn. set (c' := ModelClient.mk _ _ _ _). set (w1 := set_client id c' w).
  assert (Hq1 : quiet w w1).
  { apply (quiet_set id c); [done|]. intros r ms. rewrite messages_fmap. cbn. by rewrite lookup_empty. }
  destruct (disconnect_rooms_ok id (map_to_list (ModelClient.rooms c)).*1 w1 c') as (Hq & Ha & Hk).
  - unfold w1. rewrite client_set, bool_decide_eq_true_2, Hid by done. done.
  - done.
  - apply (agree_leaving id _ c); [done| |by apply wi_agree]. intros r. cbn. rewrite lookup_empty.
    case_bool_decide as Hin; [done|]. symmetry. apply eq_None_not_Some. intros [room Hr]. apply Hin.
    apply list_elem_of_fmap. exists (r, room). split; [done|]. by apply elem_of_map_to_list.
  - assert (Hq' : quiet w (foldl (leave_on_disconnect id) w1 (map_to_list (ModelClient.rooms c)).*1))
      by (by etrans).
    split_and!; [done|by eapply quiet_inv|]. intros i r' Hi. etrans; [|apply Hk].
    by apply (keeps_view_set i r' id c).
Qed.

(** *** Sending *)

Lemma receive_rooms r m c r' :
  ModelClient.epoch (ModelClient.receive_message r m c) r' = ModelClient.epoch c r' /\
  ModelClient.messages (ModelClient.receive_message r m c) r'
  = (fun ms => if r' =? r then ms ++ [m] else ms) <$> ModelClient.messages c r'.
Proof.
  unfold ModelClient.epoch, ModelClient.messages, ModelClient.receive_message.
  destruct (N.eqb_spec r' r) as [->|Hne].
  - destruct (ModelClient.rooms c !! r) as [room|] eqn:Hr; cbn; [by rewrite lookup_insert_eq|by rewrite Hr].
  - rewrite option_fmap_id. destruct (ModelClient.rooms c !! r); [|done]. cbn.
    by rewrite lookup_insert_ne.
Qed.

Lemma agree_at_epoch i c c' r sroom :
  ModelClient.epoch c' r = ModelClient.epoch c r ->
  agree_at i (ModelClient.rooms c !! r) sroom -> agree_at i (ModelClient.rooms c' !! r) sroom.
Proof.
  unfold ModelClient.epoch. destruct (ModelClient.rooms c !! r), (ModelClient.rooms c' !! r), sroom;
    cbn; intros Hx Ha; try done. injection Hx as Hx. destruct Ha. split; [done|congruence].
Qed.

Lemma logged_index s r room m :
  logs_ok s -> ModelServer.rooms s !! r = Some room -> m ∈ ModelServer.messages room ->
  mm_log_index m < len (ModelServer.messages room).
Proof.
  intros Hl Hr Hm. destruct (Hl r room Hr) as (Hi & _).
  assert (Hin : mm_log_index m ∈ map mm_log_index (ModelServer.messages room))
    by (apply list_elem_of_fmap; eauto).
  rewrite Hi in Hin. apply list_elem_of_fmap in Hin as (k & -> & Hk%elem_of_seq). unfold len. lia.
Qed.

(** What a message does to the server. *)
Definition sent (r : N) (m : ModelMessage) (recipients : list N) (s s' : ModelServer.t) : Prop :=
  exists room, ModelServer.rooms s !! r = Some room /\
    mm_log_index m = len (ModelServer.messages room) /\ mm_epoch m = ModelServer.room_epoch room /\
    ModelServer.rooms s' = <[r := ModelServer.mkRoom (ModelServer.creator room)
      (ModelServer.members room) (ModelServer.messages room ++ [m])
      (ModelServer.next_log_index room + 1) (ModelServer.room_epoch room)]> (ModelServer.rooms s) /\
    ModelServer.pending_deliveries s'
      = ModelServer.pending_deliveries s ++ [mkPending r m recipients] /\
    recipients = elements (ModelServer.members room).

Lemma sent_logged r m js s s' r' m' :
  sent r m js s s' -> logged s' r' m' <-> logged s r' m' \/ (r' = r /\ m' = m).
Proof.
  intros (room & Hr & _ & _ & Hs & _). unfold logged, ModelServer.log. rewrite Hs.
  destruct (decide (r' = r)) as [->|Hne].
  - rewrite lookup_insert_eq, Hr. cbn. split.
    + intros (ms & [= <-] & [Hm| ->%list_elem_of_singleton]%elem_of_app); eauto.
    + intros [(ms & [= <-] & Hm)|[_ ->]]; eexists; (split; [done|]); set_solver.
  - rewrite lookup_insert_ne by done. naive_solver.
Qed.

Lemma sent_fresh r m js s s' : logs_ok s -> sent r m js s s' -> ~ logged s r m.
Proof.
  intros Hl (room & Hr & Hi & _) (ms & Hms & Hm). unfold ModelServer.log in Hms. rewrite Hr in Hms.
  injection Hms as <-. pose proof (logged_index s r room m Hl Hr Hm). lia.
Qed.

Lemma sent_logs r m js s s' : sent r m js s s' -> logs_ok s -> logs_ok s'.
Proof.
  intros (room & Hr & Hi & He & Hs & _) Hl r' room'. rewrite Hs. destruct (decide (r' = r)) as [->|Hne].
  - rewrite lookup_insert_eq. intros [= <-]. destruct (Hl r room Hr) as (Hidx & Hn & Hf). cbn.
    rewrite length_app, Nat.add_1_r, seq_S, !map_app, Hidx. cbn [map]. rewrite Hi. split_and!; [done| |].
    + rewrite Hn. unfold len. rewrite length_app. cbn. lia.
    + apply Forall_app. split; [done|]. constructor; [|done]. lia.
  - rewrite lookup_insert_ne by done. apply Hl.
Qed.

Lemma sent_pending r m js s s' : sent r m js s s' -> logs_ok s -> pending_ok s -> pending_ok s'.
Proof.
  intros Hsent Hl [Hnd Hall]. pose proof (sent_fresh _ _ _ _ _ Hl Hsent) as Hfresh.
  pose proof Hsent as (room & _ & _ & _ & _ & Hp & Hjs). unfold pending_ok. rewrite Hp, map_app. split.
  - apply NoDup_app. split_and!; [done| |apply NoDup_singleton].
    intros x Hx ->%list_elem_of_singleton. apply list_elem_of_fmap in Hx as (p & Hpair & Hin).
    injection Hpair as Hpr Hpm. rewrite Forall_forall in Hall. destruct (Hall p Hin) as [Hlg _].
    rewrite <- Hpr, <- Hpm in Hlg. done.
  - apply Forall_app. split.
    + eapply Forall_impl; [exact Hall|]. intros p [Hlg ?]. split; [|done].
      apply (sent_logged _ _ _ _ _ _ _ Hsent). by left.
    + constructor; [|done]. cbn. split; [apply (sent_logged _ _ _ _ _ _ _ Hsent); by right|].
      rewrite Hjs. apply NoDup_elements.
Qed.

Lemma sent_received r m js w s' c :
  sent r m js (server w) s' -> logs_ok (server w) -> received_ok w ->
  client w (mm_sender_id m) = Some c ->
  received_ok (set_client (mm_sender_id m) (ModelClient.receive_message r m c) (mk (clients w) s')).
Proof.
  intros Hsent Hl Hrec Hc i c0 r0 ms0. pose proof (sent_fresh _ _ _ _ _ Hl Hsent) as Hfresh.
  pose proof Hsent as (room & _ & _ & _ & _ & Hp & _). cbn [server set_client]. rewrite Hp.
  assert (Hold : forall c1 ms, client w i = Some c1 -> ModelClient.messages c1 r0 = Some ms ->
    NoDup ms /\ Forall (logged s' r0) ms /\ (r0 = r -> m ∉ ms) /\
    forall p, p ∈ ModelServer.pending_deliveries (server w) -> pm_room_id p = r0 ->
      pm_message p ∈ ms -> mm_sender_id (pm_message p) = i).
  { intros c1 ms H1 H2. destruct (Hrec i c1 r0 ms H1 H2) as (Hnd & Hlg & Hown).
    split_and!; [done| |intros -> Hin|done].
    - eapply Forall_impl; [exact Hlg|]. intros m' Hm'. apply (sent_logged _ _ _ _ _ _ _ Hsent). by left.
    - rewrite Forall_forall in Hlg. by apply Hfresh, Hlg. }
  assert (Hpend : forall p (ms : list ModelMessage),
    p ∈ ModelServer.pending_deliveries (server w) ++ [mkPending r m js] ->
    pm_room_id p = r0 -> pm_message p ∈ ms -> (r0 = r -> m ∉ ms) ->
    p ∈ ModelServer.pending_deliveries (server w)).
  { intros p ms [Hin| ->%list_elem_of_singleton]%elem_of_app Hr Hm Hno; [done|]. cbn in *. by destruct Hno. }
  rewrite client_set. change (client (mk (clients w) s') i) with (client w i).
  case_bool_decide as Hi.
  - subst i. rewrite Hc. intros [= <-]. rewrite (proj2 (receive_rooms r m c r0)).
    destruct (ModelClient.messages c r0) as [ms|] eqn:Hms; [|done]. cbn. intros [= <-].
    destruct (Hold c ms Hc Hms) as (Hnd & Hlg & Hno & Hown). destruct (N.eqb_spec r0 r) as [->|Hne].
    + split_and!.
      * apply NoDup_app. split_and!; [done| |apply NoDup_singleton].
        intros x Hx ->%list_elem_of_singleton. by apply Hno.
      * apply Forall_app. split; [done|]. constructor; [|done].
        apply (sent_logged _ _ _ _ _ _ _ Hsent). by right.
      * intros p Hin Hr [Hm|Hm%list_elem_of_singleton]%elem_of_app; [|by rewrite Hm].
        apply Hown; [|done..]. by eapply Hpend.
    + split_and!; [done..|]. intros p Hin Hr Hm. apply Hown; [|done..]. by eapply Hpend.
  - intros Hc0 Hms0. destruct (Hold c0 ms0 Hc0 Hms0) as (Hnd & Hlg & Hno & Hown). split_and!; [done..|].
    intros p Hin Hr Hm. apply Hown; [|done..]. by eapply Hpend.
Qed.

Lemma process_message_sent r id content s room :
  ModelServer.rooms s !! r = Some room -> id ∈ ModelServer.members room -> logs_ok s ->
  (ModelServer.pending_count s < ModelServer.MAX_PENDING_DELIVERIES)%nat ->
  exists s' m, ModelServer.process_message r id content s = (s', Ok m) /\
    mm_sender_id m = id /\ sent r m (elements (ModelServer.members room)) s s'.
Proof.
  intros Hr Hid Hl Hlt. unfold ModelServer.process_message. rewrite Hr, bool_decide_eq_true_2 by done.
  cbn [negb]. rewrite (proj2 (Nat.leb_gt _ _) Hlt). eexists _, _. split_and!; [done..|].
  exists room. destruct (Hl r room Hr) as (_ & Hn & _). by split_and!.
Qed.

Lemma sent_agree r m js w s' c id :
  sent r m js (server w) s' -> agree w -> client w id = Some c ->
  agree (set_client id (ModelClient.receive_message r m c) (mk (clients w) s')).
Proof.
  intros (room & Hr & _ & _ & Hs & _) Ha Hc i c0 r' Hi Hno.
  assert (Hw : exists c1, client w i = Some c1 /\ ModelClient.epoch c0 r' = ModelClient.epoch c1 r').
  { revert Hi. rewrite client_set. change (client (mk (clients w) s') i) with (client w i).
    case_bool_decide as Hid; [|by eauto]. subst. rewrite Hc. intros [= <-]. exists c. split; [done|].
    apply receive_rooms. }
  destruct Hw as (c1 & Hc1 & He). apply (agree_at_epoch i c1); [done|].
  specialize (Ha i c1 r' Hc1 Hno). cbn. rewrite Hs. destruct (decide (r' = r)) as [->|Hne].
  - rewrite lookup_insert_eq. rewrite Hr in Ha. unfold agree_at in *.
    by destruct (ModelClient.rooms c1 !! r).
  - by rewrite lookup_insert_ne.
Qed.

(** The room of a member is at the server, which knows the member. *)
Lemma member_at_server w i c r :
  world_inv w -> client w i = Some c -> ModelClient.is_member c r = true ->
  exists room, ModelServer.rooms (server w) !! r = Some room /\ i ∈ ModelServer.members room.
Proof.
  intros HI Hi Hm. apply bool_decide_eq_true in Hm as [croom Hm].
  pose proof (wi_agree w HI i c r Hi) as Ha. rewrite Hm in Ha. unfold agree_at in Ha.
  assert (Hr : i = 0 -> r ∉ []) by (intros _ Hin; by apply elem_of_nil in Hin).
  destruct (ModelServer.rooms (server w) !! r) as [room|]; [|by destruct (Ha Hr)].
  exists room. split; [done|]. apply Ha, Hr.
Qed.

Lemma send_ok id r content c w :
  client w id = Some c -> ModelClient.partitioned c = false -> ModelClient.is_member c r = true ->
  (ModelServer.pending_count (server w) < ModelServer.MAX_PENDING_DELIVERIES)%nat -> world_inv w ->
  exists m s' js,
    apply_send_message id r content w
    = (set_client id (ModelClient.receive_message r m c) (mk (clients w) s'), Ok ROk) /\
    mm_sender_id m = id /\ sent r m js (server w) s' /\
    world_inv (set_client id (ModelClient.receive_message r m c) (mk (clients w) s')).
Proof.
  intros Hid Hp Hm Hlt HI. destruct (member_at_server w id c r HI Hid Hm) as (room & Hr & Hin).
  destruct HI as [Ha Hl Hpe Hre].
  destruct (process_message_sent r id content (server w) room Hr Hin Hl Hlt) as (s' & m & Hpm & Hs & Hsent).
  exists m, s', (elements (ModelServer.members room)).
  unfold apply_send_message, with_client. rewrite Hid, Hp, Hm. cbn [negb]. rewrite Hpm.
  split_and!; [done..|]. split.
  - by eapply sent_agree.
  - by eapply sent_logs.
  - by eapply sent_pending.
  - rewrite <- Hs. eapply sent_received; [done..|]. by rewrite Hs.
Qed.

(** *** Delivering *)

(** What [deliver_one] does to one client. *)
Definition takes (p : PendingMessage) (j : N) (c : ModelClient.t) : bool :=
  negb (j =? mm_sender_id (pm_message p)) && negb (ModelClient.partitioned c) &&
  ModelClient.is_member c (pm_room_id p).

Lemma deliver_one_lookup p cs j i :
  deliver_one p cs j !! N.to_nat i
  = (fun c => if (i =? j) && takes p j c
              then ModelClient.receive_message (pm_room_id p) (pm_message p) c else c)
    <$> cs !! N.to_nat i.
Proof.
  unfold deliver_one, takes. destruct (N.eqb_spec i j) as [->|Hne].
  - destruct (j =? _); cbn; [by rewrite option_fmap_id|].
    destruct (cs !! N.to_nat j) as [c|] eqn:Hc; [|by rewrite Hc]. cbn.
    destruct (ModelClient.partitioned c); cbn; [done|]. destruct (ModelClient.is_member c _); [|done].
    by rewrite list_lookup_insert_eq by (by eapply lookup_lt_Some).
  - cbn. rewrite option_fmap_id. destruct (j =? _); [done|].
    destruct (cs !! N.to_nat j) as [c|]; [|done]. destruct (ModelClient.partitioned c); [done|].
    destruct (ModelClient.is_member c _); [|done]. apply list_lookup_insert_ne. lia.
Qed.

(** A message goes to its recipients that take it, once to each. *)
Lemma deliver_message_lookup p cs i :
  NoDup (pm_recipients p) ->
  deliver_message cs p !! N.to_nat i
  = (fun c => if bool_decide (i ∈ pm_recipients p) && takes p i c
              then ModelClient.receive_message (pm_room_id p) (pm_message p) c else c)
    <$> cs !! N.to_nat i.
Proof.
  unfold deliver_message. generalize (pm_recipients p) as js. intros js. revert cs.
  induction js as [|j js IH]; intros cs Hnd; cbn [foldl].
  { by rewrite option_fmap_id. }
  apply NoDup_cons in Hnd as [Hj Hnd]. rewrite IH, deliver_one_lookup by done.
  rewrite <- option_fmap_compose. destruct (cs !! N.to_nat i) as [c|]; [|done]. cbn. f_equal.
  destruct (N.eqb_spec i j) as [->|Hne]; cbn.
  - rewrite (bool_decide_eq_false_2 (j ∈ js)), (bool_decide_eq_true_2 (j ∈ j :: js)) by (done || left).
    done.
  - rewrite (bool_decide_ext (i ∈ j :: js) (i ∈ js)); [done|]. rewrite elem_of_cons. naive_solver.
Qed.

(** The queue, as one client sees it. *)
Definition deliver_to (i : N) (c : ModelClient.t) (p : PendingMessage) : ModelClient.t :=
  if bool_decide (i ∈ pm_recipients p) && takes p i c
  then ModelClient.receive_message (pm_room_id p) (pm_message p) c else c.

Lemma deliver_lookup ps i : forall cs,
  Forall (fun p => NoDup (pm_recipients p)) ps ->
  foldl deliver_message cs ps !! N.to_nat i
  = (fun c => foldl (deliver_to i) c ps) <$> cs !! N.to_nat i.
Proof.
  induction ps as [|p ps IH]; intros cs Hnd; cbn [foldl]; [by rewrite option_fmap_id|].
  inversion Hnd; subst. rewrite IH, deliver_message_lookup by done. by rewrite <- option_fmap_compose.
Qed.

(** The messages of the queue for a client in a room. *)
Definition queued_for (i r : N) (ps : list PendingMessage) : list ModelMessage :=
  map pm_message (filter (fun p => pm_room_id p = r /\ i ∈ pm_recipients p /\
    i <> mm_sender_id (pm_message p)) ps).

Lemma receive_partitioned r m c :
  ModelClient.partitioned (ModelClient.receive_message r m c) = ModelClient.partitioned c.
Proof. unfold ModelClient.receive_message. by destruct (_ !! r). Qed.

Lemma queued_for_app i r ps ps' : queued_for i r (ps ++ ps') = queued_for i r ps ++ queued_for i r ps'.
Proof. unfold queued_for. by rewrite filter_app, map_app. Qed.

Lemma deliver_to_one i r c p :
  let c' := deliver_to i c p in
  ModelClient.partitioned c' = ModelClient.partitioned c /\
  ModelClient.epoch c' r = ModelClient.epoch c r /\
  ModelClient.messages c' r
  = (fun ms => if ModelClient.partitioned c then ms else ms ++ queued_for i r [p])
    <$> ModelClient.messages c r.
Proof.
  unfold deliver_to, queued_for, filter. cbn [list_filter map].
  destruct (bool_decide (i ∈ pm_recipients p) && takes p i c) eqn:Ht; cbn.
  - apply andb_true_iff in Ht as [Hin%bool_decide_eq_true [[Hs%negb_true_iff Hp%negb_true_iff]%andb_true_iff Hm]%andb_true_iff].
    apply N.eqb_neq in Hs. rewrite receive_partitioned, (proj1 (receive_rooms _ _ _ _)), (proj2 (receive_rooms _ _ _ _)), Hp.
    split_and!; [done..|]. destruct (ModelClient.messages c r) as [ms|]; [|done]. cbn. f_equal.
    destruct (N.eqb_spec r (pm_room_id p)) as [->|Hne].
    + by rewrite decide_True.
    + rewrite decide_False by naive_solver. by rewrite app_nil_r.
  - split_and!; [done..|]. destruct (ModelClient.messages c r) as [ms|] eqn:Hms; [|done]. cbn. f_equal.
    destruct (ModelClient.partitioned c) eqn:Hp; [done|]. rewrite decide_False; [by rewrite app_nil_r|].
    intros (<- & Hin & Hs). revert Ht. rewrite bool_decide_eq_true_2 by done. unfold takes.
    rewrite (proj2 (N.eqb_neq _ _) Hs), Hp. cbn. unfold ModelClient.is_member.
    apply not_false_iff_true, bool_decide_eq_true_2. unfold ModelClient.messages in Hms.
    by destruct (ModelClient.rooms c !! pm_room_id p).
Qed.

(** A client that is connected gets all of them, in the order of the queue. *)
Lemma deliver_to_messages i r ps : forall c,
  let c' := foldl (deliver_to i) c ps in
  ModelClient.partitioned c' = ModelClient.partitioned c /\
  ModelClient.epoch c' r = ModelClient.epoch c r /\
  ModelClient.messages c' r
  = (fun ms => if ModelClient.partitioned c then ms else ms ++ queued_for i r ps)
    <$> ModelClient.messages c r.
Proof.
  induction ps as [|p ps IH]; intros c; cbn [foldl].
  { split_and!; [done..|]. destruct (ModelClient.messages c r); [|done]. cbn.
    destruct (ModelClient.partitioned c); by rewrite ?app_nil_r. }
  destruct (IH (deliver_to i c p)) as (-> & -> & ->).
  destruct (deliver_to_one i r c p) as (-> & -> & ->). split_and!; [done..|].
  rewrite <- option_fmap_compose. destruct (ModelClient.messages c r) as [ms|]; [|done]. cbn. f_equal.
  destruct (ModelClient.partitioned c); [done|]. rewrite <- app_assoc. f_equal.
  symmetry. apply (queued_for_app i r [p] ps).
Qed.

Lemma deliver_client w i :
  world_inv w ->
  client (apply_deliver_pending w) i
  = (fun c => foldl (deliver_to i) c (ModelServer.pending_deliveries (server w))) <$> client w i.
Proof.
  intros HI. apply deliver_lookup. destruct (wi_pending w HI) as [_ Hall].
  eapply Forall_impl; [exact Hall|]. by intros p [].
Qed.

Lemma queued_nodup i r ps :
  NoDup (map (fun p => (pm_room_id p, pm_message p)) ps) -> NoDup (queued_for i r ps).
Proof.
  unfold queued_for, filter. induction ps as [|p ps IH]; cbn; [constructor|].
  intros [Hp Hnd]%NoDup_cons. case_decide as Hd; cbn; [|by apply IH]. apply NoDup_cons. split; [|by apply IH].
  intros (p' & Hm & [(Hr & _) Hin]%list_elem_of_filter)%list_elem_of_fmap. apply Hp, list_elem_of_fmap.
  exists p'. split; [|done]. destruct Hd as (Hrp & _). congruence.
Qed.

Lemma deliver_ok w : world_inv w -> world_inv (apply_deliver_pending w).
Proof.
  intros HI. split.
  - intros i c r. rewrite deliver_client by done. destruct (client w i) as [c0|] eqn:Hc; [|done].
    intros [= <-] Hr. apply (agree_at_epoch i c0); [apply deliver_to_messages|]. by apply (wi_agree w HI).
  - apply (wi_logs w HI).
  - split; constructor.
  - intros i c r ms. rewrite deliver_client by done. destruct (client w i) as [c0|] eqn:Hc; [|done].
    intros [= <-]. rewrite (proj2 (proj2 (deliver_to_messages i r _ c0))).
    destruct (ModelClient.messages c0 r) as [ms0|] eqn:Hms; [|done]. cbn. intros [= <-].
    destruct (wi_received w HI i c0 r ms0 Hc Hms) as (Hnd & Hlg & Hown).
    destruct (wi_pending w HI) as [Hpnd Hpall]. rewrite Forall_forall in Hpall.
    assert (Hq : forall m, m ∈ queued_for i r (ModelServer.pending_deliveries (server w)) ->
      exists p, p ∈ ModelServer.pending_deliveries (server w) /\ pm_message p = m /\ pm_room_id p = r /\
        i <> mm_sender_id m).
    { intros m (p & -> & [(? & ? & ?) ?]%list_elem_of_filter)%list_elem_of_fmap. by exists p. }
    split_and!; [| |by intros p Hp%elem_of_nil]; destruct (ModelClient.partitioned c0); try done.
    + apply NoDup_app. split_and!; [done| |by apply queued_nodup].
      intros m Hm (p & Hp & <- & Hr & Hs)%Hq. by destruct Hs; rewrite (Hown p).
    + apply Forall_app. split; [done|]. apply Forall_forall. intros m (p & Hp & <- & <- & _)%Hq.
      by apply Hpall.
Qed.

(** *** Operations *)

(** The operation takes the client [i] from the room [r], or from the server. *)
Definition harms (op : Operation) (i r : N) : Prop :=
  match op with
  | OpLeaveRoom c r' => c = i /\ r' = r
  | OpRemoveMember _ c r' => c = i /\ r' = r
  | OpPartition c | OpDisconnect c => c = i
  | _ => False
  end.

Definition quietly (op : Operation) (w w' : t) : Prop :=
  quiet w w' /\ forall i r, ~ harms op i r -> keeps_view i r w w'.

Definition sends (w w' : t) : Prop :=
  exists r m js s' c, client w (mm_sender_id m) = Some c /\ sent r m js (server w) s' /\
    w' = set_client (mm_sender_id m) (ModelClient.receive_message r m c) (mk (clients w) s').

Lemma quietly_same op w : quietly op w w.
Proof. done. Qed.

(** An operation that answers. *)
Definition does (op : Operation) (w : t) : Prop :=
  exists w' answer, apply op w = (w', Ok answer) /\ world_inv w' /\
    (quietly op w w' \/ sends w w' \/ w' = apply_deliver_pending w).

Lemma does_fail op w e : world_inv w -> apply op w = fail e w -> does op w.
Proof. intros HI Ha. exists w, (RError e). split_and!; [done..|]. left. apply quietly_same. Qed.

Lemma with_client_Some id f w c : client w id = Some c -> with_client id f w = f c w.
Proof. intros Hc. unfold with_client. by rewrite Hc. Qed.

Lemma with_client_None id f w : client w id = None -> with_client id f w = fail OEInvalidClient w.
Proof. intros Hc. unfold with_client. by rewrite Hc. Qed.

Lemma room_none c r : ModelClient.is_member c r = false -> ModelClient.rooms c !! r = None.
Proof. intros Hm%bool_decide_eq_false. by apply eq_None_not_Some. Qed.

Lemma does_admit op id r c w :
  client w id = Some c -> ModelClient.is_member c r = false ->
  is_Some (ModelServer.rooms (server w) !! r) -> world_inv w ->
  apply op w = admit_member id r w -> does op w.
Proof.
  intros Hid Hm Hs HI Ha.
  destruct (admit_ok id r c w Hid (room_none c r Hm) Hs HI) as (w' & Hw & Hq & HI' & Hk).
  exists w', ROk. rewrite Ha. split_and!; [done..|]. left. split; [done|]. by intros i r' _.
Qed.

Lemma does_leave op id r c w :
  client w id = Some c -> ModelClient.is_member c r = true -> world_inv w -> harms op id r ->
  apply op w
  = (mk (advance_members r (clients (set_client id (fst (ModelClient.leave_room r c)) w)))
       (ModelServer.advance_epoch r (fst (ModelServer.remove_member r id (server w)))), Ok ROk) ->
  does op w.
Proof.
  intros Hid Hm%bool_decide_eq_true HI Hh Ha.
  destruct (world_leave_ok id r c w Hid Hm HI) as (Hq & HI' & Hk). eexists _, ROk. rewrite Ha.
  split_and!; [done..|]. left. split; [done|]. intros i r' Hno. apply Hk. intros -> ->. done.
Qed.

Lemma does_set op id c c' w :
  client w id = Some c -> world_inv w -> ModelClient.rooms c' = ModelClient.rooms c ->
  (ModelClient.partitioned c' = false \/ forall r, harms op id r) ->
  apply op w = (set_client id c' w, Ok ROk) -> does op w.
Proof.
  intros Hid HI Hrooms Hp Ha. exists (set_client id c' w), ROk.
  assert (Hq : quiet w (set_client id c' w)).
  { apply (quiet_set id c); [done|]. intros r ms. unfold ModelClient.messages. rewrite Hrooms. by right. }
  split_and!; [done| |].
  - eapply quiet_inv; [done| |done]. apply (agree_but_nil id), (agree_leaving id [] c); [done| |apply wi_agree, HI].
    intros r. by rewrite Hrooms.
  - left. split; [done|]. intros i r Hno. apply (keeps_view_set i r id c); [done|]. intros -> _ _.
    unfold ModelClient.messages. rewrite Hrooms. split; [done|]. destruct Hp as [|Hp]; [done|].
    destruct (Hno (Hp r)).
Qed.

Lemma create_does id r w : world_inv w -> does (OpCreateRoom id r) w.
Proof.
  intros HI. destruct (client w id) as [c|] eqn:Hid.
  2: { eapply does_fail; [done|]. by apply with_client_None. }
  destruct (ModelClient.disconnected c) eqn:Hd.
  { eapply does_fail; [done|]. cbn. unfold apply_create_room. rewrite (with_client_Some id _ w c Hid), Hd. done. }
  destruct (ModelServer.rooms (server w) !! r) as [room|] eqn:Hr.
  { eapply (does_fail _ _ OERoomAlreadyExists); [done|]. cbn. unfold apply_create_room.
    rewrite (with_client_Some id _ w c Hid), Hd. unfold ModelServer.room_exists.
    by rewrite bool_decide_eq_true_2 by (by rewrite Hr). }
  destruct (create_ok id r c w Hid Hd Hr HI) as (w' & Hw & Hq & HI' & Hk).
  exists w', ROk. split_and!; [done..|]. left. split; [done|]. by intros i r' _.
Qed.

(** The assertion on the length of the queue fails. *)
Definition overflows (op : Operation) (w : t) : Prop :=
  (ModelServer.MAX_PENDING_DELIVERIES <= ModelServer.pending_count (server w))%nat /\
  snd (apply op w) = Panic.

Lemma send_does id r content w :
  world_inv w -> does (OpSendMessage id r content) w \/ overflows (OpSendMessage id r content) w.
Proof.
  intros HI. destruct (client w id) as [c|] eqn:Hid.
  2: { left. eapply does_fail; [done|]. by apply with_client_None. }
  destruct (ModelClient.partitioned c) eqn:Hp; [|destruct (ModelClient.is_member c r) eqn:Hm].
  1,3: left; eapply does_fail; [done|]; unfold apply, apply_send_message;
    rewrite (with_client_Some id _ w c Hid), Hp, ?Hm; reflexivity.
  destruct (Nat.lt_ge_cases (ModelServer.pending_count (server w)) ModelServer.MAX_PENDING_DELIVERIES)
    as [Hlt|Hge].
  - left. destruct (send_ok id r (small_to_bytes content) c w Hid Hp Hm Hlt HI)
      as (m & s' & js & Ha & Hs & Hsent & HI').
    eexists _, ROk. split_and!; [exact Ha|done|]. right; left. exists r, m, js, s', c. by rewrite Hs.
  - right. split; [done|]. destruct (member_at_server w id c r HI Hid Hm) as (room & Hr & Hin).
    unfold apply, apply_send_message. rewrite (with_client_Some id _ w c Hid), Hp, Hm. cbn [negb].
    unfold ModelServer.process_message. rewrite Hr, bool_decide_eq_true_2 by done. cbn [negb].
    by rewrite (proj2 (Nat.leb_le _ _) Hge).
Qed.

Lemma leave_does id r w : world_inv w -> does (OpLeaveRoom id r) w.
Proof.
  intros HI. destruct (client w id) as [c|] eqn:Hid.
  2: { eapply does_fail; [done|]. by apply with_client_None. }
  destruct (ModelClient.is_member c r) eqn:Hm.
  - eapply does_leave; [done..|]. cbn. unfold apply_leave_room. rewrite (with_client_Some id _ w c Hid).
    apply bool_decide_eq_true in Hm as [room Hm]. unfold ModelClient.leave_room. by rewrite Hm.
  - apply (does_fail _ _ OENotMember); [done|]. cbn. unfold apply_leave_room.
    rewrite (with_client_Some id _ w c Hid). unfold ModelClient.leave_room.
    by rewrite (room_none c r Hm).
Qed.

Lemma add_does id1 id2 r w : world_inv w -> does (OpAddMember id1 id2 r) w.
Proof.
  intros HI. destruct (client w id1) as [c1|] eqn:H1.
  2: { eapply does_fail; [done|]. by apply with_client_None. }
  destruct (client w id2) as [c2|] eqn:H2.
  2: { eapply does_fail; [done|]. cbn. unfold apply_add_member. rewrite (with_client_Some id1 _ w c1 H1).
       by apply with_client_None. }
  assert (Hw : apply (OpAddMember id1 id2 r) w = (if negb (ModelClient.is_member c1 r) then fail OENotMember
    else if ModelClient.is_member c2 r then fail OEAlreadyMember else admit_member id2 r) w).
  { cbn. unfold apply_add_member. by rewrite (with_client_Some id1 _ w c1 H1), (with_client_Some id2 _ w c2 H2). }
  destruct (ModelClient.is_member c1 r) eqn:Hm1; [|eapply does_fail; [exact HI|exact Hw]].
  destruct (ModelClient.is_member c2 r) eqn:Hm2; [eapply does_fail; [exact HI|exact Hw]|].
  destruct (member_at_server w id1 c1 r HI H1 Hm1) as (room & Hr & _).
  eapply does_admit; [exact H2|exact Hm2|by exists room|exact HI|exact Hw].
Qed.

Lemma join_does id r w : world_inv w -> does (OpExternalJoin id r) w.
Proof.
  intros HI. destruct (client w id) as [c|] eqn:Hid.
  2: { eapply does_fail; [done|]. by apply with_client_None. }
  assert (Hw : apply (OpExternalJoin id r) w = (if ModelClient.is_member c r then fail OEAlreadyMember
    else match ModelServer.epoch (server w) r with
         | None => fail OENoGroupInfo | Some _ => admit_member id r end) w).
  { cbn. unfold apply_external_join. rewrite (with_client_Some id _ w c Hid).
    destruct (ModelClient.is_member c r); [done|]. by destruct (ModelServer.epoch _ r). }
  destruct (ModelClient.is_member c r) eqn:Hm; [eapply does_fail; [exact HI|exact Hw]|]. unfold ModelServer.epoch in Hw.
  destruct (ModelServer.rooms (server w) !! r) as [room|] eqn:Hr; [|eapply does_fail; [exact HI|exact Hw]]. 
  eapply does_admit; [exact Hid|exact Hm|by exists room|exact HI|exact Hw].
Qed.

Lemma remove_does id1 id2 r w : world_inv w -> does (OpRemoveMember id1 id2 r) w.
Proof.
  intros HI. destruct (client w id1) as [c1|] eqn:H1.
  2: { eapply does_fail; [done|]. by apply with_client_None. }
  destruct (client w id2) as [c2|] eqn:H2.
  2: { eapply does_fail; [done|]. cbn. unfold apply_remove_member.
       rewrite (with_client_Some id1 _ w c1 H1). by apply with_client_None. }
  pose proof (with_client_Some id1) as Hw1. pose proof (with_client_Some id2) as Hw2.
  destruct (id1 =? id2) eqn:He; [|destruct (ModelClient.is_member c1 r) eqn:Hm1;
    [destruct (ModelClient.is_member c2 r) eqn:Hm2|]].
  2: { eapply (does_leave _ id2 r c2); [done..|]. cbn. unfold apply_remove_member.
       by rewrite (Hw1 _ w c1 H1), (Hw2 _ w c2 H2), He, Hm1, Hm2. }
  all: eapply does_fail; [done|]; cbn; unfold apply_remove_member;
    rewrite (Hw1 _ w c1 H1), (Hw2 _ w c2 H2), He, ?Hm1, ?Hm2; reflexivity.
Qed.

Lemma disconnect_does id w : world_inv w -> does (OpDisconnect id) w.
Proof.
  intros HI. destruct (client w id) as [c|] eqn:Hid.
  2: { eapply does_fail; [done|]. by apply with_client_None. }
  assert (Hw : forall f, connected_only id f w = (if ModelClient.disconnected c then fail OEDisconnected else f c) w).
  { intros f. unfold connected_only. by rewrite (with_client_Some id _ w c Hid). }
  destruct (ModelClient.disconnected c) eqn:Hd.
  { eapply does_fail; [done|]. apply Hw. }
  destruct (disconnect_ok id c w Hid HI) as (Hq & HI' & Hk). eexists _, ROk.
  split; [etrans; [apply Hw|reflexivity]|]. split; [done|]. left. split; [done|]. intros i r Hno.
  apply Hk. by intros ->.
Qed.

Lemma apply_does op w : world_inv w -> does op w \/ overflows op w.
Proof.
  intros HI.
  assert (Hconn : forall id f c, client w id = Some c ->
    connected_only id f w = (if ModelClient.disconnected c then fail OEDisconnected else f c) w).
  { intros id f c Hc. unfold connected_only. by rewrite (with_client_Some id _ w c Hc). }
  destruct op as [id r|id r m|id r|id1 id2 r|id r|id1 id2 r|ms| |id|id|id].
  2: by apply send_does.
  all: left.
  - by apply create_does.
  - by apply leave_does.
  - by apply add_does.
  - by apply join_does.
  - by apply remove_does.
  - exists w, ROk. split_and!; [done..|]. left. apply quietly_same.
  - exists (apply_deliver_pending w), ROk. split_and!; [done|by apply deliver_ok|]. by right; right.
  - destruct (client w id) as [c|] eqn:Hid.
    2: { eapply does_fail; [done|]. by apply with_client_None. }
    specialize (Hconn id (fun client w => ok (set_client id (ModelClient.partition client) w)) c Hid).
    destruct (ModelClient.disconnected c) eqn:Hd; [eapply does_fail; [exact HI|exact Hconn]|].
    eapply (does_set _ id c (ModelClient.partition c)); [done..|by right|exact Hconn].
  - destruct (client w id) as [c|] eqn:Hid.
    2: { eapply does_fail; [done|]. by apply with_client_None. }
    specialize (Hconn id (fun client w => ok (set_client id (ModelClient.heal_partition client) w)) c Hid).
    destruct (ModelClient.disconnected c) eqn:Hd; [eapply does_fail; [exact HI|exact Hconn]|].
    eapply (does_set _ id c (ModelClient.heal_partition c)); [done..|by left|exact Hconn].
  - by apply disconnect_does.
Qed.

(** *** Runs *)

(** The operations one after the other; a panic ends the run in the world in
    which it happened. *)
Fixpoint run_ops (ops : list Operation) (w : t) : t * res Empty_set (list OperationResult) :=
  match ops with
  | [] => (w, Ok [])
  | op :: rest =>
      match apply op w with
      | (w1, Ok answer) =>
          let '(w2, answers) := run_ops rest w1 in
          (w2, match answers with Ok answers => Ok (answer :: answers) | _ => Panic end)
      | (_, _) => (w, Panic)
      end
  end.

Lemma apply_inv op w :
  world_inv w ->
  match apply op w with
  | (w', Ok _) => world_inv w' /\ (quietly op w w' \/ sends w w' \/ w' = apply_deliver_pending w)
  | _ => (ModelServer.MAX_PENDING_DELIVERIES <= ModelServer.pending_count (server w))%nat
  end.
Proof.
  intros HI. destruct (apply_does op w HI) as [(w1 & answer & -> & H1 & H2)|[Hge Hp]]; [done|].
  destruct (apply op w) as [w1 [answer|[]|]]; done.
Qed.

Lemma world_run_inv ops : forall w,
  world_inv w ->
  let '(w', answers) := run_ops ops w in
  world_inv w' /\
  (answers = Panic -> (ModelServer.MAX_PENDING_DELIVERIES <= ModelServer.pending_count (server w'))%nat).
Proof.
  induction ops as [|op ops IH]; intros w HI; cbn; [done|].
  pose proof (apply_inv op w HI) as Ha. destruct (apply op w) as [w1 [answer|[]|]]; [|done].
  destruct Ha as [HI1 _]. specialize (IH w1 HI1). destruct (run_ops ops w1) as [w2 answers].
  destruct IH as [HI2 Hp]. split; [done|]. by destruct answers as [|[]|].
Qed.

Lemma world_new_inv n : world_inv (ModelWorld.new n).
Proof.
  assert (Hc : forall i c, client (ModelWorld.new n) i = Some c -> ModelClient.rooms c = ∅).
  { intros i c Hi. unfold client, ModelWorld.new in Hi. cbn in Hi.
    apply list_lookup_fmap_Some in Hi as (k & -> & _). done. }
  split.
  - intros i c r Hi _. by rewrite (Hc i c Hi), lookup_empty.
  - intros r room. cbn. by rewrite lookup_empty.
  - split; constructor.
  - intros i c r ms Hi. unfold ModelClient.messages. by rewrite (Hc i c Hi), lookup_empty.
Qed.

(** C21: the reference model is consistent: after any operations of any number
    of clients, a client is in a room exactly when the server counts it as a
    member, and then at the server's epoch; the logs have dense indices; what a
    client shows of a room was logged there, and is shown once.  A run only
    fails when a thousand messages wait for delivery. *)
Theorem world_consistent n ops :
  let '(w, answers) := run_ops ops (ModelWorld.new n) in
  (answers = Panic -> (ModelServer.MAX_PENDING_DELIVERIES <= ModelServer.pending_count (server w))%nat) /\
  (forall i c r, client w i = Some c ->
    ModelClient.is_member c r = ModelServer.is_member (server w) r i /\
    (ModelClient.is_member c r = true -> ModelClient.epoch c r = ModelServer.epoch (server w) r)) /\
  (forall r log, ModelServer.log (server w) r = Some log ->
    map mm_log_index log = map N.of_nat (seq 0 (length log))) /\
  (forall i r ms, client_messages w i r = Some ms ->
    NoDup ms /\ exists log, ModelServer.log (server w) r = Some log /\ ms ⊆ log).
Proof.
  pose proof (world_run_inv ops (ModelWorld.new n) (world_new_inv n)) as Hrun.
  destruct (run_ops ops (ModelWorld.new n)) as [w answers]. destruct Hrun as [[Ha Hl Hpe Hre] Hp].
  assert (Hat : forall i c r, client w i = Some c ->
    agree_at i (ModelClient.rooms c !! r) (ModelServer.rooms (server w) !! r)).
  { intros i c r Hi. apply Ha; [done|]. intros _ Hin. by apply elem_of_nil in Hin. }
  split_and!; [done| | |].
  - intros i c r Hi. specialize (Hat i c r Hi). unfold agree_at, ModelClient.is_member,
      ModelServer.is_member, ModelClient.epoch, ModelServer.epoch in *.
    destruct (ModelClient.rooms c !! r), (ModelServer.rooms (server w) !! r); cbn; try done.
    + destruct Hat as [Hin He]. rewrite !bool_decide_eq_true_2 by done. split; [done|]. by rewrite He.
    + split; [|done]. by rewrite bool_decide_eq_false_2.
  - intros r log. unfold ModelServer.log. destruct (ModelServer.rooms (server w) !! r) as [room|] eqn:Hr; [|done].
    intros [= <-]. by apply (Hl r room).
  - intros i r ms. unfold client_messages. destruct (client w i) as [c|] eqn:Hi; [|done]. cbn. intros Hms.
    destruct (Hre i c r ms Hi Hms) as (Hnd & Hlg & _). split; [done|].
    specialize (Hat i c r Hi). unfold ModelClient.messages, agree_at, logged, ModelServer.log in *.
    destruct (ModelClient.rooms c !! r) as [croom|]; [|done].
    destruct (ModelServer.rooms (server w) !! r) as [room|]; [|done]. eexists. split; [done|].
    intros m Hm. rewrite Forall_forall in Hlg. destruct (Hlg m Hm) as (log & [= <-] & Hin). done.
Qed.

(** *** Delivery *)

(** Of the log from [n] on, the client [i] has every message or will get it from
    the queue. *)
Definition up_to_date (i r : N) (n : nat) (w : t) : Prop :=
  exists c ms log, client w i = Some c /\ ModelClient.messages c r = Some ms /\
    ModelClient.partitioned c = false /\ ModelServer.log (server w) r = Some log /\
    forall m, m ∈ drop n log ->
      m ∈ ms \/ m ∈ queued_for i r (ModelServer.pending_deliveries (server w)).

Lemma quiet_log w w' r log :
  quiet w w' -> ModelServer.log (server w) r = Some log -> ModelServer.log (server w') r = Some log.
Proof.
  intros (_ & Hr & _) Hlog. specialize (Hr r). unfold ModelServer.log, quiet_room in *.
  destruct (ModelServer.rooms (server w) !! r), (ModelServer.rooms (server w') !! r); try done.
  destruct Hr as (Hr & _). cbn in *. congruence.
Qed.

Lemma up_to_date_quiet op i r n w w' :
  quietly op w w' -> ~ harms op i r -> up_to_date i r n w -> up_to_date i r n w'.
Proof.
  intros [Hq Hk] Hh (c & ms & log & Hc & Hms & Hp & Hlog & Hall).
  destruct (Hk i r Hh c ms Hc Hms Hp) as (c' & Hc' & Hms' & Hp').
  exists c', ms, log. split_and!; [done..|by eapply quiet_log|].
  destruct Hq as (-> & _). done.
Qed.

Lemma up_to_date_sends i r n w w' :
  world_inv w -> sends w w' -> up_to_date i r n w -> up_to_date i r n w'.
Proof.
  intros HI (r' & m & js & s' & c0 & Hc0 & Hsent & ->) (c & ms & log & Hc & Hms & Hp & Hlog & Hall).
  pose proof Hsent as (room & Hroom & _ & _ & Hs & Hpend & Hjs).
  destruct (receive_rooms r' m c r) as [_ Hrecv].
  assert (Hlog' : ModelServer.log s' r = Some (if r =? r' then log ++ [m] else log)).
  { unfold ModelServer.log in *. rewrite Hs. destruct (N.eqb_spec r r') as [->|Hne].
    - rewrite lookup_insert_eq. rewrite Hroom in Hlog. cbn in *. by injection Hlog as <-.
    - by rewrite lookup_insert_ne. }
  assert (Hdrop : forall m', m' ∈ drop n (if r =? r' then log ++ [m] else log) ->
    m' ∈ drop n log \/ (m' = m /\ r = r')).
  { intros m'. destruct (N.eqb_spec r r') as [->|]; [|by left]. rewrite drop_app. intros [|Hm]%elem_of_app; [by left|].
    right. split; [|done]. apply list_elem_of_singleton. exact (subseteq_drop _ _ _ Hm). }
  assert (Hqueue : forall m', m' ∈ queued_for i r (ModelServer.pending_deliveries (server w)) ->
    m' ∈ queued_for i r (ModelServer.pending_deliveries s')).
  { intros m' Hm'. rewrite Hpend, queued_for_app. apply elem_of_app. by left. }
  destruct (decide (i = mm_sender_id m)) as [->|Hne].
  - rewrite Hc0 in Hc. injection Hc as ->.
    exists (ModelClient.receive_message r' m c), (if r =? r' then ms ++ [m] else ms).
    eexists. rewrite client_set, bool_decide_eq_true_2 by done.
    change (client (mk (clients w) s')) with (client w). rewrite Hc0, Hrecv, Hms, receive_partitioned.
    split_and!; [done..|exact Hlog'|]. intros m' [Hm'|[-> ->]]%Hdrop.
    + destruct (Hall m' Hm') as [Hin|Hin]; [left|right; by apply Hqueue].
      destruct (r =? r'); [apply elem_of_app; by left|done].
    + left. rewrite N.eqb_refl. apply elem_of_app. right. by left.
  - exists c, ms. eexists. rewrite client_set, bool_decide_eq_false_2 by done.
    split_and!; [done..|exact Hlog'|]. intros m' [Hm'|[-> ->]]%Hdrop.
    + destruct (Hall m' Hm') as [Hin|Hin]; [by left|right; by apply Hqueue].
    + right. cbn [server set_client]. rewrite Hpend, queued_for_app. apply elem_of_app. right.
      unfold queued_for. rewrite filter_cons_True; [by left|]. cbn. split_and!; [done| |done].
      rewrite Hjs, elem_of_elements.
      destruct (member_at_server w i c r' HI Hc) as (room' & Hr' & Hin).
      { apply bool_decide_eq_true. unfold ModelClient.messages in Hms.
        by destruct (ModelClient.rooms c !! r'). }
      congruence.
Qed.

(** After a delivery, a client that is up to date has everything. *)
Lemma up_to_date_deliver i r n w :
  world_inv w -> up_to_date i r n w ->
  up_to_date i r n (apply_deliver_pending w) /\
  exists ms log, client_messages (apply_deliver_pending w) i r = Some ms /\
    ModelServer.log (server (apply_deliver_pending w)) r = Some log /\ drop n log ⊆ ms.
Proof.
  intros HI (c & ms & log & Hc & Hms & Hp & Hlog & Hall).
  pose proof (deliver_client w i HI) as Hd. rewrite Hc in Hd. cbn [fmap option_fmap option_map] in Hd.
  destruct (deliver_to_messages i r (ModelServer.pending_deliveries (server w)) c) as (Hp' & _ & Hm').
  rewrite Hp, Hms in Hm'. cbn in Hm'. rewrite Hp in Hp'.
  assert (Hsub : drop n log ⊆ ms ++ queued_for i r (ModelServer.pending_deliveries (server w))).
  { intros m Hm. apply elem_of_app. by apply Hall. }
  split.
  - eexists _, _, log. split_and!; [exact Hd|exact Hm'|done|done|]. intros m Hm. left. by apply Hsub.
  - eexists _, log. unfold client_messages. rewrite Hd. split_and!; [exact Hm'|done|done].
Qed.

(** Logs only grow. *)
Lemma step_log op w w' r log :
  quietly op w w' \/ sends w w' \/ w' = apply_deliver_pending w ->
  ModelServer.log (server w) r = Some log ->
  exists new, ModelServer.log (server w') r = Some (log ++ new).
Proof.
  intros Hstep Hlog. assert (Hsame : exists new, ModelServer.log (server w) r = Some (log ++ new))
    by (exists []; by rewrite app_nil_r).
  destruct Hstep as [[Hq _]|[(r' & m & js & s' & c & _ & Hsent & ->)| ->]]; [|..|done].
  - exists []. rewrite app_nil_r. by eapply quiet_log.
  - destruct Hsent as (room & Hroom & _ & _ & Hs & _). unfold ModelServer.log in *. cbn. rewrite Hs.
    destruct (decide (r = r')) as [->|Hne]; [|by rewrite lookup_insert_ne].
    rewrite lookup_insert_eq. exists [m]. rewrite Hroom in Hlog. cbn in *. congruence.
Qed.

Lemma run_up_to_date ops i r n : forall w log,
  world_inv w -> Forall (fun op => ~ harms op i r) ops -> up_to_date i r n w ->
  ModelServer.log (server w) r = Some log ->
  forall w' answers, run_ops ops w = (w', Ok answers) ->
  world_inv w' /\ up_to_date i r n w' /\ exists new, ModelServer.log (server w') r = Some (log ++ new).
Proof.
  induction ops as [|op ops IH]; intros w log HI Hh Hup Hlog w' answers; cbn.
  { intros [= <- _]. split_and!; [done..|]. exists []. by rewrite app_nil_r. }
  inversion Hh as [|? ? Hh1 Hh2]; subst. pose proof (apply_inv op w HI) as Ha.
  destruct (apply op w) as [w1 [answer|[]|]]; [|done]. destruct Ha as [HI1 Hstep].
  destruct (step_log op w w1 r log Hstep Hlog) as [new1 Hlog1].
  assert (Hup1 : up_to_date i r n w1).
  { destruct Hstep as [Hq|[Hs| ->]]; [|exact (up_to_date_sends i r n w w1 HI Hs Hup)|by apply up_to_date_deliver].
    exact (up_to_date_quiet op i r n w w1 Hq Hh1 Hup). }
  destruct (run_ops ops w1) as [w2 answers2] eqn:Hrun. destruct answers2 as [a2|[]|]; [|done].
  intros [= <- _]. destruct (IH w1 (log ++ new1) HI1 Hh2 Hup1 Hlog1 w2 a2 Hrun) as (HI2 & Hup2 & new2 & Hlog2).
  split_and!; [done..|]. exists (new1 ++ new2). by rewrite app_assoc.
Qed.

Lemma run_then_deliver ops : forall w w2 answers,
  run_ops (ops ++ [OpDeliverPending]) w = (w2, Ok answers) ->
  exists w' a, run_ops ops w = (w', Ok a) /\ w2 = apply_deliver_pending w'.
Proof.
  induction ops as [|op ops IH]; intros w w2 answers; cbn.
  - intros [= <- _]. by exists w, [].
  - destruct (apply op w) as [w' [a|[]|]]; [|done].
    destruct (run_ops (ops ++ _) w') as [w3 [a3|[]|]] eqn:Hr; [|done].
    intros [= -> _]. destruct (IH w' w2 a3 Hr) as (w4 & a4 & -> & ->). by exists w4, (a :: a4).
Qed.

(** C22: what is sent is delivered: after any operations, take a client that is
    in a room and not cut off, and let it stay so for any further operations;
    after the next delivery it shows every message that the room's log has got
    in the meantime, its own included. *)
Theorem delivery_complete n ops1 ops2 i r c log :
  let w1 := fst (run_ops ops1 (ModelWorld.new n)) in
  client w1 i = Some c -> ModelClient.is_member c r = true -> ModelClient.partitioned c = false ->
  ModelServer.log (server w1) r = Some log ->
  Forall (fun op => ~ harms op i r) ops2 ->
  forall w2 answers, run_ops (ops2 ++ [OpDeliverPending]) w1 = (w2, Ok answers) ->
  exists new ms, ModelServer.log (server w2) r = Some (log ++ new) /\
    client_messages w2 i r = Some ms /\ new ⊆ ms.
Proof.
  intros w1 Hc Hm Hp Hlog Hh w2 answers Hrun.
  assert (HI1 : world_inv w1).
  { pose proof (world_run_inv ops1 _ (world_new_inv n)) as Hr. unfold w1. by destruct (run_ops ops1 _), Hr. }
  assert (Hup : up_to_date i r (length log) w1).
  { apply bool_decide_eq_true in Hm as [room Hm]. exists c, (ModelClient.room_messages room), log.
    unfold ModelClient.messages. rewrite Hm, drop_all. split_and!; [done..|].
    intros m Hin. by apply elem_of_nil in Hin. }
  assert (Hsplit : exists w a, run_ops ops2 w1 = (w, Ok a) /\ w2 = apply_deliver_pending w).
  { by eapply run_then_deliver. }
  destruct Hsplit as (w & a & Hrun2 & ->).
  destruct (run_up_to_date ops2 i r (length log) w1 log HI1 Hh Hup Hlog w a Hrun2) as (HI & Hup' & new & Hnew).
  destruct (up_to_date_deliver i r (length log) w HI Hup') as [_ (ms & log' & Hms & Hlog' & Hsub)].
  exists new, ms. change (server (apply_deliver_pending w)) with (fst (ModelServer.take_pending (server w))) in Hlog'.
  change (ModelServer.log (server w) r = Some log') in Hlog'. rewrite Hnew in Hlog'. injection Hlog' as <-.
  split_and!; [exact Hnew|done|]. by rewrite drop_app_length in Hsub.
Qed.

(** ** Examples *)

Definition hello : SmallMessage := mkSmallMessage 104 1.

(** Two members of a room; one of them sends. *)
Definition sample_start : list Operation :=
  [OpCreateRoom 0 7; OpAddMember 0 1 7; OpSendMessage 0 7 hello].

Lemma delivery_complete_witness :
  let w1 := fst (run_ops sample_start (ModelWorld.new 2)) in
  let w2 := fst (run_ops [OpSendMessage 1 7 hello; OpSendMessage 0 7 hello; OpDeliverPending] w1) in
  exists log new ms, ModelServer.log (server w2) 7 = Some (log ++ new) /\
    client_messages w2 1 7 = Some ms /\ new ⊆ ms.
Proof.
  intros w1 w2. exists (default [] (ModelServer.log (server w1) 7)).
  apply (delivery_complete 2 sample_start [OpSendMessage 1 7 hello; OpSendMessage 0 7 hello] 1 7
           (default (ModelClient.new 0) (client w1 1)) _ ltac:(vm_compute; reflexivity)
           ltac:(vm_compute; reflexivity) ltac:(vm_compute; reflexivity) ltac:(vm_compute; reflexivity)
           ltac:(repeat (apply Forall_cons; split; [by intros []|]); by apply Forall_nil)
           w2 (replicate 3 ROk)).
  unfold w2, w1. vm_compute. reflexivity.
Defined.

(** The clients of the model do not agree on the order of messages: each
    shows its own message when it sends it and those of the others when they
    are delivered, so that two members that send before a delivery show the two
    messages in opposite orders, one of them against the log. *)
Theorem model_orders_differ :
  let '(w, _) := run_ops [OpCreateRoom 0 7; OpAddMember 0 1 7; OpSendMessage 0 7 hello;
                          OpSendMessage 1 7 hello; OpDeliverPending] (ModelWorld.new 2) in
  map mm_log_index <$> client_messages w 0 7 = Some [0; 1] /\
  map mm_log_index <$> client_messages w 1 7 = Some [1; 0].
Proof. vm_compute. split; reflexivity. Qed.

End ModelProperties.
