(* ===== verification/HarnessChecks.v ===== *)
(** * The invariant checks of the tests

    [lockframe-harness/src/invariants]: snapshots of clients, the six checks that
    simulations run on them and the registry of checks; and the simulation's
    driver of the application ([sim_driver.rs]) with the snapshot it takes of the
    interface.  The checks are shown to decide what they are documented to, and
    never to fail on the interface.  The text of a violation is not modelled. *)

From stdpp Require Import sorting.
From S2P Require Import Prelude Env Opcodes Header Framing Payloads Validator SenderKeys Mls.
From S2P Require Import Samples Client ClientInv App AppInv.

Local Open Scope N_scope.

(** ** Snapshots *)

Record RoomSnapshot := mkRoomSnapshot {
  rs_epoch : N;
  rs_tree_hash : bytes;
  rs_members : gset N;
  rs_message_count : N;
  rs_log_indices : list N }.

Record ClientSnapshot := mkClientSnapshot {
  cs_id : N;
  cs_active_room : option N;
  cs_rooms : gmap N RoomSnapshot;
  cs_epoch_history : gmap N (list N) }.

Record SystemSnapshot := mkSystemSnapshot { ss_clients : list ClientSnapshot }.

Definition snapshot_empty : SystemSnapshot := mkSystemSnapshot [].
Definition snapshot_single (c : ClientSnapshot) : SystemSnapshot := mkSystemSnapshot [c].
Definition add_client (c : ClientSnapshot) (s : SystemSnapshot) : SystemSnapshot :=
  mkSystemSnapshot (ss_clients s ++ [c]).

Definition client_new (id : N) : ClientSnapshot := mkClientSnapshot id None ∅ ∅.
Definition with_active_room (room_id : option N) (c : ClientSnapshot) : ClientSnapshot :=
  mkClientSnapshot (cs_id c) room_id (cs_rooms c) (cs_epoch_history c).
Definition with_room (room_id : N) (r : RoomSnapshot) (c : ClientSnapshot) : ClientSnapshot :=
  mkClientSnapshot (cs_id c) (cs_active_room c) (<[room_id := r]> (cs_rooms c)) (cs_epoch_history c).
Definition record_epoch (room_id epoch : N) (c : ClientSnapshot) : ClientSnapshot :=
  mkClientSnapshot (cs_id c) (cs_active_room c) (cs_rooms c)
    (<[room_id := default [] (cs_epoch_history c !! room_id) ++ [epoch]]> (cs_epoch_history c)).

Definition with_epoch (epoch : N) : RoomSnapshot := mkRoomSnapshot epoch (zeros 32) ∅ 0 [].
Definition with_tree_hash (h : bytes) (r : RoomSnapshot) : RoomSnapshot :=
  mkRoomSnapshot (rs_epoch r) h (rs_members r) (rs_message_count r) (rs_log_indices r).
Definition with_members (ms : gset N) (r : RoomSnapshot) : RoomSnapshot :=
  mkRoomSnapshot (rs_epoch r) (rs_tree_hash r) (rs_members r ∪ ms) (rs_message_count r) (rs_log_indices r).
Definition with_message_count (n : N) (r : RoomSnapshot) : RoomSnapshot :=
  mkRoomSnapshot (rs_epoch r) (rs_tree_hash r) (rs_members r) n (rs_log_indices r).
Definition with_log_indices (indices : list N) (r : RoomSnapshot) : RoomSnapshot :=
  mkRoomSnapshot (rs_epoch r) (rs_tree_hash r) (rs_members r) (rs_message_count r)
    (rs_log_indices r ++ indices).

(** ** The checks *)

Inductive InvariantKind :=
  | ActiveRoomInRooms
  | EpochMonotonicity
  | MembershipConsistency
  | TreeHashConvergence
  | NoLogGaps
  | TotalOrdering.

Definition kind_as_str (k : InvariantKind) : string :=
  match k with
  | ActiveRoomInRooms => "active_room_in_rooms"
  | EpochMonotonicity => "epoch_monotonicity"
  | MembershipConsistency => "membership_consistency"
  | TreeHashConvergence => "tree_hash_convergence"
  | NoLogGaps => "no_log_gaps"
  | TotalOrdering => "total_ordering"
  end.

(** Whether every client passes; [for client in &state.clients]. *)
Definition every_client (f : ClientSnapshot -> bool) (s : SystemSnapshot) : bool :=
  forallb f (ss_clients s).

Definition check_active_room (s : SystemSnapshot) : bool :=
  every_client (fun c =>
    match cs_active_room c with
    | Some active => bool_decide (is_Some (cs_rooms c !! active))
    | None => true
    end) s.

(** [history.windows(2)] *)
Fixpoint never_decreases (history : list N) : bool :=
  match history with
  | a :: ((b :: _) as rest) => negb (b <? a) && never_decreases rest
  | _ => true
  end.

Definition check_epochs (s : SystemSnapshot) : bool :=
  every_client (fun c => forallb (fun p => never_decreases (snd p)) (map_to_list (cs_epoch_history c))) s.

(** [entry(key).or_default().push(value)], for each pair. *)
Definition group {K V} `{Countable K} (pairs : list (K * V)) : gmap K (list V) :=
  foldl (fun g p => <[fst p := default [] (g !! fst p) ++ [snd p]]> g) ∅ pairs.

(** What the clients hold of their rooms, keyed. *)
Definition room_pairs {K V} (key : N -> RoomSnapshot -> K) (value : ClientSnapshot -> RoomSnapshot -> V)
    (s : SystemSnapshot) : list (K * V) :=
  concat (map (fun c => map (fun p => (key (fst p) (snd p), value c (snd p)))
                          (map_to_list (cs_rooms c))) (ss_clients s)).

Definition every_group {K V} `{Countable K} (f : list V -> bool) (g : gmap K (list V)) : bool :=
  forallb (fun p => f (snd p)) (map_to_list g).

Definition same_members (clients : list (N * gset N)) : bool :=
  match clients with
  | first :: rest => forallb (fun c => bool_decide (snd c = snd first)) rest
  | [] => true
  end.

Definition check_membership (s : SystemSnapshot) : bool :=
  every_group same_members
    (group (room_pairs (fun r room => (r, rs_epoch room)) (fun c room => (cs_id c, rs_members room)) s)).

Definition one_hash (clients : list (N * bytes)) : bool :=
  negb (1 <? N.of_nat (size (list_to_set (C := gset bytes) (map snd clients)))).

Definition check_tree_hash (s : SystemSnapshot) : bool :=
  every_group one_hash
    (group (room_pairs (fun r room => (r, rs_epoch room)) (fun c room => (cs_id c, rs_tree_hash room)) s)).

(** The indices in order are 0, 1, 2, ... *)
Fixpoint counts_from (i : N) (l : list N) : bool :=
  match l with
  | [] => true
  | idx :: rest => (idx =? i) && counts_from (i + 1) rest
  end.

Definition check_log_gaps (s : SystemSnapshot) : bool :=
  every_client (fun c =>
    forallb (fun p => counts_from 0 (merge_sort N.le (rs_log_indices (snd p))))
      (map_to_list (cs_rooms c))) s.

Definition common_indices (first : list N) (others : list (list N)) : gset N :=
  foldl (fun common l => common ∩ list_to_set l) (list_to_set first) others.

(** Without common indices there is nothing to compare: both sides are empty. *)
Definition same_order (orderings : list (N * list N)) : bool :=
  match orderings with
  | first :: rest =>
      let common := common_indices (snd first) (map snd rest) in
      forallb (fun o => bool_decide (filter (fun i => i ∈ common) (snd o)
                                     = filter (fun i => i ∈ common) (snd first))) rest
  | [] => true
  end.

(** The clients that have indices of a room. *)
Definition orderings (s : SystemSnapshot) : list (N * (N * list N)) :=
  filter (fun p => snd (snd p) <> [])
    (room_pairs (fun r _ => r) (fun c room => (cs_id c, rs_log_indices room)) s).

Definition check_ordering (s : SystemSnapshot) : bool :=
  every_group same_order (group (orderings s)).

Definition check (k : InvariantKind) (s : SystemSnapshot) : bool :=
  match k with
  | ActiveRoomInRooms => check_active_room s
  | EpochMonotonicity => check_epochs s
  | MembershipConsistency => check_membership s
  | TreeHashConvergence => check_tree_hash s
  | NoLogGaps => check_log_gaps s
  | TotalOrdering => check_ordering s
  end.

Definition standard : list InvariantKind :=
  [ActiveRoomInRooms; EpochMonotonicity; MembershipConsistency; TreeHashConvergence; NoLogGaps;
   TotalOrdering].

(** The violations of a registry's checks. *)
Definition check_all (registry : list InvariantKind) (s : SystemSnapshot) : list InvariantKind :=
  filter (fun k => check k s = false) registry.

Definition assert_all (registry : list InvariantKind) (s : SystemSnapshot) : res Empty_set unit :=
  match check_all registry s with [] => Ok tt | _ => Panic end.

(** ** The simulation's driver *)

Module SimDriver.

(** The shared state of the driver and the tests' handle. *)
Record t := mk {
  pending_events : list AppEvent;
  incoming_frames : list Frame.t;
  outgoing_frames : list Frame.t;
  is_up : bool;
  invariants : option (list InvariantKind);
  instant : Instant }.

Definition new (now : Instant) : t := mk [] [] [] false None now.
Definition with_invariants (registry : list InvariantKind) (d : t) : t :=
  mk (pending_events d) (incoming_frames d) (outgoing_frames d) (is_up d) (Some registry) (instant d).
Definition inject_event (event : AppEvent) (d : t) : t :=
  mk (pending_events d ++ [event]) (incoming_frames d) (outgoing_frames d) (is_up d) (invariants d)
    (instant d).
Definition inject_frame (frame : Frame.t) (d : t) : t :=
  mk (pending_events d) (incoming_frames d ++ [frame]) (outgoing_frames d) (is_up d) (invariants d)
    (instant d).
Definition inject_tick (d : t) : t := inject_event AETick d.
Definition take_outgoing (d : t) : t * list Frame.t :=
  (mk (pending_events d) (incoming_frames d) [] (is_up d) (invariants d) (instant d), outgoing_frames d).
Definition has_pending (d : t) : bool :=
  negb (bool_decide (length (pending_events d) = 0%nat)) ||
  negb (bool_decide (length (incoming_frames d) = 0%nat)).

(** The epoch is not known to the interface. *)
Definition room_snapshot (room : RoomView.t) : RoomSnapshot :=
  with_message_count (len (RoomView.messages room)) (with_members (RoomView.members room) (with_epoch 0)).

Definition snapshot_from_app (a : App.t) : SystemSnapshot :=
  snapshot_single (mkClientSnapshot 0 (App.active_room a) (room_snapshot <$> App.rooms a) ∅).

Definition check_invariants (a : App.t) (d : t) : res Empty_set unit :=
  match invariants d with
  | Some registry => assert_all registry (snapshot_from_app a)
  | None => Ok tt
  end.

Section driver.
Context `{HashOrder}.

Definition sim_poll : M (t * App.t) string (list AppAction) := fun '(d, a) =>
  match pending_events d with
  | event :: rest =>
      let '(a', actions) := App.handle event a in
      ((mk rest (incoming_frames d) (outgoing_frames d) (is_up d) (invariants d) (instant d), a'),
       Ok actions)
  | [] => ((d, a), Ok [])
  end.

Definition sim_send (frame : Frame.t) : M t string unit := fun d =>
  (mk (pending_events d) (incoming_frames d) (outgoing_frames d ++ [frame]) (is_up d) (invariants d)
     (instant d), Ok tt).

Definition sim_recv (d : t) : t * option Frame.t :=
  match incoming_frames d with
  | frame :: rest =>
      (mk (pending_events d) rest (outgoing_frames d) (is_up d) (invariants d) (instant d), Some frame)
  | [] => (d, None)
  end.

Definition sim_connect (_ : string) : M t string unit := fun d =>
  (mk (pending_events d) (incoming_frames d) (outgoing_frames d) true (invariants d) (instant d), Ok tt).

#[export] Instance sim_driver : Driver t string := {|
  poll_event := sim_poll;
  send_frame := sim_send;
  recv_frame := sim_recv;
  driver_connect := sim_connect;
  is_connected := is_up;
  driver_now := instant;
  render := fun _ d => (d, Ok tt);
  driver_stop := fun d => d;
|}.

End driver.
End SimDriver.

(** ** What the checks decide *)

Module CheckProperties.

(** *** Grouping *)

Section grouping.
Context {K V : Type} `{Countable K}.

Lemma group_app (pairs : list (K * V)) p :
  group (pairs ++ [p]) = <[fst p := default [] (group pairs !! fst p) ++ [snd p]]> (group pairs).
Proof. unfold group. by rewrite foldl_app. Qed.

(** A group holds the values of its key, in order. *)
Lemma group_lookup (pairs : list (K * V)) k :
  default [] (group pairs !! k) = map snd (filter (fun p => fst p = k) pairs) /\
  (is_Some (group pairs !! k) -> filter (fun p => fst p = k) pairs <> []).
Proof.
  induction pairs as [|p pairs [IH1 IH2]] using rev_ind.
  { unfold group. cbn. rewrite lookup_empty. split; [done|by intros []]. }
  rewrite group_app, filter_app, map_app. destruct (decide (fst p = k)) as [<-|Hne].
  - rewrite lookup_insert_eq, filter_cons_True, filter_nil by done. cbn. rewrite IH1. split; [done|].
    intros _ Hnil. by apply app_eq_nil in Hnil as [].
  - rewrite lookup_insert_ne, filter_cons_False, filter_nil by done. cbn. by rewrite !app_nil_r.
Qed.

Lemma every_group_spec (f : list V -> bool) (pairs : list (K * V)) :
  f [] = true ->
  every_group f (group pairs) = true <->
  forall k, f (map snd (filter (fun p => fst p = k) pairs)) = true.
Proof.
  intros Hf. unfold every_group. rewrite forallb_forall. split.
  - intros Hall k. destruct (group_lookup pairs k) as [H1 _].
    destruct (group pairs !! k) as [vs|] eqn:Hk; cbn in H1; rewrite <- H1; [|done].
    apply (Hall (k, vs)), list_elem_of_In, elem_of_map_to_list. done.
  - intros Hall [k vs] Hin%list_elem_of_In%elem_of_map_to_list. cbn.
    destruct (group_lookup pairs k) as [H1 _]. rewrite Hin in H1. cbn in H1. rewrite H1. apply Hall.
Qed.

End grouping.

Lemma room_pairs_elem {K V} (key : N -> RoomSnapshot -> K) (value : ClientSnapshot -> RoomSnapshot -> V) s k v :
  (k, v) ∈ room_pairs key value s <->
  exists c r room, c ∈ ss_clients s /\ cs_rooms c !! r = Some room /\ k = key r room /\ v = value c room.
Proof.
  unfold room_pairs. rewrite list_elem_of_In, in_concat. setoid_rewrite <- list_elem_of_In. split.
  - intros (l & (c & -> & Hc)%list_elem_of_fmap & ([r room] & Heq & Hr%elem_of_map_to_list)%list_elem_of_fmap).
    injection Heq as -> ->. by exists c, r, room.
  - intros (c & r & room & Hc & Hr & -> & ->). eexists. split; [apply list_elem_of_fmap; by exists c|].
    apply list_elem_of_fmap. exists (r, room). split; [done|]. by apply elem_of_map_to_list.
Qed.

(** The values of a key. *)
Lemma values_elem {K V} `{EqDecision K} (pairs : list (K * V)) k v :
  v ∈ map snd (filter (fun p => fst p = k) pairs) <-> (k, v) ∈ pairs.
Proof.
  rewrite list_elem_of_fmap. split.
  - intros ([k' v'] & -> & [Hk Hin]%list_elem_of_filter). cbn in *. by subst.
  - intros Hin. exists (k, v). split; [done|]. by apply list_elem_of_filter.
Qed.

(** All agree with the first exactly when any two agree. *)
Lemma agree_with_first {V B} (f : V -> B) `{EqDecision B} (vs : list V) :
  match vs with
  | first :: rest => forallb (fun v => bool_decide (f v = f first)) rest
  | [] => true
  end = true <-> forall v v', v ∈ vs -> v' ∈ vs -> f v = f v'.
Proof.
  destruct vs as [|first rest].
  { split; [|done]. by intros _ v v' Hv%elem_of_nil. }
  rewrite forallb_forall. split.
  - intros Hall. assert (Hf : forall v, v ∈ first :: rest -> f v = f first).
    { intros v [->|Hv]%elem_of_cons; [done|]. specialize (Hall v). rewrite <- list_elem_of_In in Hall.
      by apply bool_decide_eq_true in Hall. }
    intros v v' Hv Hv'. by rewrite (Hf v Hv), (Hf v' Hv').
  - intros Hall v Hv%list_elem_of_In. apply bool_decide_eq_true. apply Hall; [by right|by left].
Qed.

(** *** The single checks *)

Definition clients_agree {B} (f : RoomSnapshot -> B) (s : SystemSnapshot) : Prop :=
  forall c c' r room room', c ∈ ss_clients s -> c' ∈ ss_clients s ->
    cs_rooms c !! r = Some room -> cs_rooms c' !! r = Some room' ->
    rs_epoch room = rs_epoch room' -> f room = f room'.

(** Agreement of the groups of one epoch of one room. *)
Lemma groups_agree {B} (f : RoomSnapshot -> B) s :
  (forall k v v', (k, v) ∈ room_pairs (fun r room => (r, rs_epoch room)) (fun c room => (cs_id c, f room)) s ->
     (k, v') ∈ room_pairs (fun r room => (r, rs_epoch room)) (fun c room => (cs_id c, f room)) s ->
     snd v = snd v') <-> clients_agree f s.
Proof.
  split.
  - intros Hall c c' r room room' Hc Hc' Hr Hr' He.
    apply (Hall (r, rs_epoch room) (cs_id c, f room) (cs_id c', f room')); apply room_pairs_elem.
    + by exists c, r, room.
    + exists c', r, room'. split_and!; [done..| |done]. by rewrite He.
  - intros Hall k v v' (c & r & room & Hc & Hr & -> & ->)%room_pairs_elem
      (c' & r' & room' & Hc' & Hr' & [= -> He] & ->)%room_pairs_elem.
    exact (Hall c c' r' room room' Hc Hc' Hr Hr' He).
Qed.

Lemma check_membership_spec s : check_membership s = true <-> clients_agree rs_members s.
Proof.
  unfold check_membership. rewrite every_group_spec by done. rewrite <- groups_agree.
  split.
  - intros Hall k v v' Hv Hv'. apply (proj1 (agree_with_first snd _) (Hall k)); by apply values_elem.
  - intros Hall k. apply (agree_with_first snd). intros v v' Hv%values_elem Hv'%values_elem. by eapply Hall.
Qed.

Lemma one_hash_spec (clients : list (N * bytes)) :
  one_hash clients = true <-> forall v v', v ∈ clients -> v' ∈ clients -> snd v = snd v'.
Proof.
  unfold one_hash. rewrite negb_true_iff, N.ltb_ge. set (X := list_to_set (map snd clients) : gset bytes).
  assert (HX : forall h, h ∈ X <-> exists v, v ∈ clients /\ h = snd v).
  { intros h. unfold X. rewrite elem_of_list_to_set, list_elem_of_fmap. naive_solver. }
  split.
  - intros Hsz v v' Hv Hv'. destruct (decide (snd v = snd v')) as [|Hne]; [done|].
    assert (Hsub : {[ snd v; snd v' ]} ⊆ X) by (intros h; rewrite HX; set_solver).
    apply subseteq_size in Hsub. rewrite size_union, !size_singleton in Hsub by set_solver. lia.
  - intros Hall. assert (Hsub : exists h, X ⊆ {[ h ]}).
    { destruct clients as [|v0 rest]; [by exists []|]. exists (snd v0). intros h (v & Hv & ->)%HX.
      apply elem_of_singleton. apply Hall; [done|by left]. }
    destruct Hsub as [h Hsub%subseteq_size]. rewrite size_singleton in Hsub. lia.
Qed.

Lemma check_tree_hash_spec s : check_tree_hash s = true <-> clients_agree rs_tree_hash s.
Proof.
  unfold check_tree_hash. rewrite every_group_spec by done. rewrite <- groups_agree. split.
  - intros Hall k v v' Hv Hv'. apply (proj1 (one_hash_spec _) (Hall k)); by apply values_elem.
  - intros Hall k. apply one_hash_spec. intros v v' Hv%values_elem Hv'%values_elem. by eapply Hall.
Qed.

Lemma never_decreases_spec h : never_decreases h = true <-> Sorted N.le h.
Proof.
  induction h as [|a h IH]; [done|]. destruct h as [|b h].
  { split; [by repeat constructor|done]. }
  change (never_decreases (a :: b :: h)) with (negb (b <? a) && never_decreases (b :: h)).
  rewrite andb_true_iff, negb_true_iff, N.ltb_ge, IH. split.
  - intros [Hle Hs]. constructor; [done|by constructor].
  - intros Hs. inversion Hs as [|? ? Hs' Hhd]; subst. inversion Hhd; subst. done.
Qed.

Lemma counts_from_spec l : forall i, counts_from i l = true <-> l = map (fun k => i + N.of_nat k) (List.seq 0 (length l)).
Proof.
  induction l as [|x l IH]; intros i; [done|]. cbn [counts_from length List.seq map].
  rewrite andb_true_iff, N.eqb_eq, IH, <- seq_shift, map_map.
  replace (map (fun k => i + 1 + N.of_nat k) (List.seq 0 (length l)))
    with (map (fun k => i + N.of_nat (S k)) (List.seq 0 (length l))) by (apply map_ext; lia).
  rewrite N.add_0_r. split; [by intros [-> <-]|]. by intros [= -> <-].
Qed.

(** The numbers below [n], in any order. *)
Lemma log_gaps_spec l :
  counts_from 0 (merge_sort N.le l) = true <-> l ≡ₚ map N.of_nat (List.seq 0 (length l)).
Proof.
  rewrite counts_from_spec. pose proof (merge_sort_Permutation N.le l) as Hp.
  assert (Hlen : length (merge_sort N.le l) = length l) by (by rewrite Hp). rewrite Hlen.
  replace (map (fun k => 0 + N.of_nat k) (List.seq 0 (length l))) with (map N.of_nat (List.seq 0 (length l)))
    by (apply map_ext; lia).
  split; [intros <-; by symmetry|]. intros Hl. apply (Sorted_unique N.le).
  - apply Sorted_merge_sort, _.
  - clear. generalize 0%nat as k. induction (length l) as [|n IH]; intros k; cbn; [constructor|].
    constructor; [apply IH|]. destruct n; cbn; constructor. lia.
  - by rewrite Hp.
Qed.

Lemma common_elem first others i :
  i ∈ common_indices first others <-> i ∈ first /\ forall l, l ∈ others -> i ∈ l.
Proof.
  unfold common_indices. assert (Hgen : forall X : gset N,
    i ∈ foldl (fun common l => common ∩ list_to_set l) X others <-> i ∈ X /\ forall l, l ∈ others -> i ∈ l).
  { induction others as [|l others IH]; intros X; cbn.
    - split; [|by intros []]. intros Hi. split; [done|]. by intros l Hl%elem_of_nil.
    - rewrite IH, elem_of_intersection, elem_of_list_to_set. setoid_rewrite elem_of_cons. naive_solver. }
  by rewrite Hgen, elem_of_list_to_set.
Qed.

(** Seen by all: an index that every client with indices of the room has. *)
Definition seen_by_all (r : N) (s : SystemSnapshot) (i : N) : Prop :=
  forall c room, c ∈ ss_clients s -> cs_rooms c !! r = Some room -> rs_log_indices room <> [] ->
    i ∈ rs_log_indices room.

Lemma orderings_elem s r v :
  v ∈ map snd (filter (fun p => fst p = r) (orderings s)) <->
  exists c room, c ∈ ss_clients s /\ cs_rooms c !! r = Some room /\ rs_log_indices room <> [] /\
    v = (cs_id c, rs_log_indices room).
Proof.
  rewrite values_elem. unfold orderings. rewrite list_elem_of_filter, room_pairs_elem. split.
  - intros [Hne (c & r' & room & Hc & Hr & -> & ->)]. by exists c, room.
  - intros (c & room & Hc & Hr & Hne & ->). split; [done|]. by exists c, r, room.
Qed.

(** Two clients see those indices in the same order. *)
Definition orders_agree (s : SystemSnapshot) : Prop :=
  forall r c c' room room', c ∈ ss_clients s -> c' ∈ ss_clients s ->
    cs_rooms c !! r = Some room -> cs_rooms c' !! r = Some room' ->
    rs_log_indices room <> [] -> rs_log_indices room' <> [] ->
    forall (P : N -> Prop) (HP : forall i, Decision (P i)), (forall i, P i <-> seen_by_all r s i) ->
    filter P (rs_log_indices room) = filter P (rs_log_indices room').

(** One room. *)
Lemma same_order_spec (os : list (N * list N)) :
  same_order os = true <->
  forall o o', o ∈ os -> o' ∈ os ->
    forall (P : N -> Prop) (HP : forall i, Decision (P i)), (forall i, P i <-> forall v, v ∈ os -> i ∈ snd v) ->
    filter P (snd o) = filter P (snd o').
Proof.
  destruct os as [|first rest].
  { split; [|done]. by intros _ o o' Ho%elem_of_nil. }
  set (common := common_indices (snd first) (map snd rest)).
  assert (Hc : forall i, i ∈ common <-> forall v, v ∈ first :: rest -> i ∈ snd v).
  { intros i. unfold common. rewrite common_elem. setoid_rewrite elem_of_cons.
    setoid_rewrite list_elem_of_fmap. naive_solver. }
  etrans; [apply (agree_with_first (fun o : N * list N => filter (fun i => i ∈ common) (snd o)) (first :: rest))|].
  split.
  - intros Hall o o' Ho Ho' P HP HPc. specialize (Hall o o' Ho Ho'). cbn in Hall.
    rewrite (list_filter_iff P (fun i => i ∈ common) (snd o)) by (intros i; by rewrite HPc, Hc).
    rewrite (list_filter_iff P (fun i => i ∈ common) (snd o')) by (intros i; by rewrite HPc, Hc). done.
  - intros Hall o o' Ho Ho'. by apply Hall.
Qed.

Lemma check_ordering_spec s : check_ordering s = true <-> orders_agree s.
Proof.
  unfold check_ordering. rewrite every_group_spec by done. split.
  - intros Hall r c c' room room' Hc Hc' Hr Hr' Hne Hne' P HP HPs.
    apply (proj1 (same_order_spec _) (Hall r) (cs_id c, rs_log_indices room) (cs_id c', rs_log_indices room')).
    + apply orderings_elem. by exists c, room.
    + apply orderings_elem. by exists c', room'.
    + intros i. rewrite HPs. unfold seen_by_all. split.
      * intros Hi v (c0 & room0 & Hc0 & Hr0 & Hn0 & ->)%orderings_elem. by apply (Hi c0).
      * intros Hi c0 room0 Hc0 Hr0 Hn0. apply (Hi (cs_id c0, rs_log_indices room0)), orderings_elem.
        by exists c0, room0.
  - intros Hall r. apply same_order_spec.
    intros o o' (c & room & Hc & Hr & Hne & ->)%orderings_elem (c' & room' & Hc' & Hr' & Hne' & ->)%orderings_elem.
    intros P HP HPo. apply (Hall r c c' room room'); [done..|]. intros i. rewrite HPo. split.
    + intros Hi c0 room0 Hc0 Hr0 Hn0. apply (Hi (cs_id c0, rs_log_indices room0)), orderings_elem.
      by exists c0, room0.
    + intros Hi v (c0 & room0 & Hc0 & Hr0 & Hn0 & ->)%orderings_elem. by apply (Hi c0).
Qed.

(** *** All of them *)

Definition sound_snapshot (s : SystemSnapshot) : Prop :=
  (forall c r, c ∈ ss_clients s -> cs_active_room c = Some r -> is_Some (cs_rooms c !! r)) /\
  (forall c r h, c ∈ ss_clients s -> cs_epoch_history c !! r = Some h -> Sorted N.le h) /\
  clients_agree rs_members s /\ clients_agree rs_tree_hash s /\
  (forall c r room, c ∈ ss_clients s -> cs_rooms c !! r = Some room ->
     rs_log_indices room ≡ₚ map N.of_nat (List.seq 0 (length (rs_log_indices room)))) /\
  orders_agree s.

Lemma every_client_spec f s : every_client f s = true <-> forall c, c ∈ ss_clients s -> f c = true.
Proof. unfold every_client. rewrite forallb_forall. by setoid_rewrite list_elem_of_In. Qed.

Lemma every_entry_spec {V} (f : V -> bool) (m : gmap N V) :
  forallb (fun p => f (snd p)) (map_to_list m) = true <-> forall r v, m !! r = Some v -> f v = true.
Proof.
  rewrite forallb_forall. split.
  - intros Hall r v Hr. apply (Hall (r, v)), list_elem_of_In, elem_of_map_to_list. done.
  - intros Hall [r v] Hin%list_elem_of_In%elem_of_map_to_list. by apply (Hall r).
Qed.

Lemma check_active_room_spec s :
  check_active_room s = true <->
  forall c r, c ∈ ss_clients s -> cs_active_room c = Some r -> is_Some (cs_rooms c !! r).
Proof.
  unfold check_active_room. rewrite every_client_spec. split.
  - intros Hall c r Hc Ha. specialize (Hall c Hc). rewrite Ha in Hall. by apply bool_decide_eq_true in Hall.
  - intros Hall c Hc. destruct (cs_active_room c) as [r|] eqn:Ha; [|done]. apply bool_decide_eq_true. by apply Hall.
Qed.

Lemma check_epochs_spec s :
  check_epochs s = true <->
  forall c r h, c ∈ ss_clients s -> cs_epoch_history c !! r = Some h -> Sorted N.le h.
Proof.
  unfold check_epochs. rewrite every_client_spec. setoid_rewrite every_entry_spec.
  setoid_rewrite never_decreases_spec. naive_solver.
Qed.

Lemma check_log_gaps_spec s :
  check_log_gaps s = true <->
  forall c r room, c ∈ ss_clients s -> cs_rooms c !! r = Some room ->
    rs_log_indices room ≡ₚ map N.of_nat (List.seq 0 (length (rs_log_indices room))).
Proof.
  unfold check_log_gaps. rewrite every_client_spec.
  setoid_rewrite (every_entry_spec (fun room => counts_from 0 (merge_sort N.le (rs_log_indices room)))).
  setoid_rewrite log_gaps_spec. naive_solver.
Qed.

Lemma checks_decide s : check_all standard s = [] <-> sound_snapshot s.
Proof.
  unfold sound_snapshot. rewrite <- check_active_room_spec, <- check_epochs_spec, <- check_membership_spec,
    <- check_tree_hash_spec, <- check_log_gaps_spec, <- check_ordering_spec.
  unfold check_all, standard, filter. cbn.
  destruct (check_active_room s), (check_epochs s), (check_membership s), (check_tree_hash s),
    (check_log_gaps s), (check_ordering s); naive_solver.
Qed.

(** C35: what the checks of the simulations decide: the standard registry
    reports nothing exactly when every active room is there, no epoch history
    decreases, clients of the same room and epoch agree on the members and on the
    tree hash, log indices have no gaps, and the indices that all clients of a
    room (those that have seen any) have seen come in the same order at each of
    them.  The last is less than the total ordering the check is documented to
    verify: indices that one of the clients lacks are not compared. *)
Theorem check_all_spec s : check_all standard s = [] <-> sound_snapshot s.
Proof. apply checks_decide. Qed.

(** ** The interface passes *)

Section interface.
Context `{HashOrder}.
Import AppInvariant.

Lemma app_snapshot_sound a : app_inv a -> sound_snapshot (SimDriver.snapshot_from_app a).
Proof.
  intros [Hact _].
  assert (Hc : forall c, c ∈ ss_clients (SimDriver.snapshot_from_app a) ->
    c = mkClientSnapshot 0 (App.active_room a) (SimDriver.room_snapshot <$> App.rooms a) ∅)
    by (intros c Hc; by apply list_elem_of_singleton in Hc).
  assert (Hr : forall c r room, c ∈ ss_clients (SimDriver.snapshot_from_app a) ->
    cs_rooms c !! r = Some room -> rs_log_indices room = []).
  { intros c r room ->%Hc. cbn. rewrite lookup_fmap. destruct (App.rooms a !! r); by intros [= <-]. }
  split_and!.
  - intros c r ->%Hc. cbn. intros Ha. rewrite Ha in Hact. rewrite lookup_fmap. by apply fmap_is_Some.
  - intros c r h ->%Hc. cbn. by rewrite lookup_empty.
  - intros c c' r room room' ->%Hc ->%Hc. cbn. congruence.
  - intros c c' r room room' ->%Hc ->%Hc. cbn. congruence.
  - intros c r room Hin Hroom. by rewrite (Hr c r room Hin Hroom).
  - intros r c c' room room' Hin _ Hroom _ Hne. by destruct (Hne (Hr c r room Hin Hroom)).
Qed.

(** Whatever events and calls the interface has handled, the simulation's
    check of its invariants does not fail. *)
Theorem interface_passes addr ops d :
  SimDriver.check_invariants (run app_step (App.new addr) ops) (SimDriver.with_invariants standard d) = Ok tt.
Proof.
  unfold SimDriver.check_invariants, assert_all. cbn [SimDriver.invariants SimDriver.with_invariants].
  rewrite (proj2 (checks_decide _)); [done|]. apply app_snapshot_sound, app_inv_run.
Qed.

End interface.
End CheckProperties.
