(* ===== verification/ModelRefine.v ===== *)
(** * The client against the reference model

    The tests run the client and the reference model side by side and compare
    results and memberships.  For the operations of one client alone this
    comparison is a theorem: whatever the library does, the client answers as
    the model unless it reports a failure of its own, and is in the same rooms. *)

From S2P Require Import Prelude Env Opcodes Header Framing Payloads Validator SenderKeys Mls.
From S2P Require Import Samples Client ClientInv HarnessModel.

Local Open Scope N_scope.

Module ModelRefinement.

(** An operation of one client. *)
Inductive local_op :=
  | LCreate (room_id : N)
  | LLeave (room_id : N)
  | LSend (room_id : N) (content : bytes).

Definition event_of (o : local_op) : ClientEvent :=
  match o with
  | LCreate r => CECreateRoom r
  | LLeave r => CELeaveRoom r
  | LSend r content => CESendMessage r content
  end.

Definition model_step (o : local_op) (m : ModelClient.t) : ModelClient.t * OperationResult :=
  match o with
  | LCreate r => ModelClient.create_room r m
  | LLeave r => ModelClient.leave_room r m
  | LSend r _ =>
      match ModelClient.send_message r m with
      | (m', inr _) => (m', ROk)
      | (m', inl e) => (m', RError e)
      end
  end.

(** The client's answer is that of the model. *)
Definition matches (answer : res ClientError.t (list ClientAction)) (r : OperationResult) : bool :=
  match answer, r with
  | Ok _, ROk => true
  | Err (ClientError.RoomAlreadyExists _), RError OERoomAlreadyExists => true
  | Err (ClientError.RoomNotFound _), RError OENotMember => true
  | _, _ => false
  end.

(** The client has tried and failed, or has panicked. *)
Definition fails (answer : res ClientError.t (list ClientAction)) : bool :=
  match answer with
  | Ok _ | Err (ClientError.RoomAlreadyExists _) | Err (ClientError.RoomNotFound _) => false
  | _ => true
  end.

Section refinement.
Context {Env : Type} `{!Environment Env} {openmls : OpenMls Env} {crypto : Crypto}
  {ed25519 : Ed25519} {ciborium : Ciborium}.
Import Client.

Definition same_rooms (c : t) (m : ModelClient.t) : Prop :=
  forall r, is_Some (rooms c !! r) <-> is_Some (ModelClient.rooms m !! r).

(** The operations one after the other, up to the first failure of the client. *)
Fixpoint lockstep (ops : list local_op) (c : t) (m : ModelClient.t)
    : t * ModelClient.t * list (res ClientError.t (list ClientAction) * OperationResult) :=
  match ops with
  | [] => (c, m, [])
  | o :: rest =>
      let '(c1, answer) := handle (event_of o) c in
      if fails answer then (c, m, [])
      else
        let '(m1, r) := model_step o m in
        let '(c2, m2, more) := lockstep rest c1 m1 in
        (c2, m2, (answer, r) :: more)
  end.

Definition same_dom (c c' : t) : Prop := forall r, is_Some (rooms c !! r) <-> is_Some (rooms c' !! r).
#[local] Instance same_dom_preorder : PreOrder same_dom.
Proof. split; [by intros c r|]. intros c1 c2 c3 H1 H2 r. by rewrite (H1 r). Qed.

Lemma insert_dom r (room room' : RoomState) c :
  rooms c !! r = Some room -> same_dom c (with_rooms (<[r := room']> (rooms c)) c).
Proof.
  intros Hr r0. cbn. destruct (decide (r0 = r)) as [->|].
  - rewrite lookup_insert_eq, Hr. split; by eexists.
  - by rewrite lookup_insert_ne.
Qed.

(** Sending changes no membership. *)
Lemma send_dom r content : steps same_dom (handle_send_message r content).
Proof.
  unfold handle_send_message. apply steps_bind; [apply _|by intros c|]. intros room.
  apply steps_bind; [apply _|intros c; by destruct (random_bytes _ _)|]. intros random.
  apply steps_bind; [apply _| |].
  { intros c. unfold keys_call. destruct (rooms c !! r) as [room0|] eqn:Hr; [|done].
    destruct (SenderKeyStore.encrypt _ _ _ _) as [ks a]. by eapply insert_dom. }
  intros enc. apply steps_bind; [apply _|apply steps_lift, _|]. intros payload.
  destruct (_ <? _); [apply steps_throw, _|]. apply steps_get. intros c. cbv zeta.
  unfold mbind, M_bind, lift. by destruct (Frame.new _ _).
Qed.

(** A call that, when the room is there, does not say that it is missing. *)
Lemma send_answer r content c :
  is_Some (rooms c !! r) ->
  matches (snd (handle_send_message r content c)) ROk = true \/
  fails (snd (handle_send_message r content c)) = true.
Proof.
  intros [room Hr]. unfold handle_send_message, mbind, M_bind, get_room, ok_or, lift, throw, get, mret, M_ret.
  rewrite Hr. destruct (random_bytes _ _) as [random e]. unfold keys_call. cbn [rooms with_env].
  rewrite Hr. destruct (SenderKeyStore.encrypt _ _ _ _) as [ks [enc|err|]]; cbn [map_err]; [|by right..].
  unfold serialize_encrypted_message. destruct (into_writer _) as [?|payload]; [by right|].
  destruct (_ <? _); [by right|]. unfold Frame.new. repeat case_match; by (left + right).
Qed.

Lemma convert_no_error r acts e : convert_mls_actions r acts <> Err e.
Proof.
  induction acts as [|a acts IH]; [done|]. cbn.
  assert (Ha : forall e', convert_mls_action r a <> Err e').
  { intros e'. destruct a; cbn; try done. by destruct (Payload.into_frame _ _). }
  destruct (convert_mls_action r a) as [ca|e'|]; cbn; [|by destruct (Ha e')|done].
  by destruct (convert_mls_actions r acts).
Qed.

(** Creating a room that is not there makes it, or fails. *)
Lemma create_answer r c :
  rooms c !! r = None ->
  let '(c', answer) := handle_create_room r c in
  fails answer = true \/
  (matches answer ROk = true /\
   forall r', is_Some (rooms c' !! r') <-> r' = r \/ is_Some (rooms c !! r')).
Proof.
  intros Hr. unfold handle_create_room, mbind, M_bind, get, is_member.
  rewrite bool_decide_eq_false_2 by (rewrite Hr; by intros []).
  unfold try_mls, group_make. destruct (MlsGroup.new r (sender_id c) (env c)) as [e [[group acts]|err|]];
    cbn [map_err]; [|by left..].
  unfold lift at 1, initialize_sender_keys, mbind, res_bind.
  destruct (map_err mls_err (MlsGroup.export_secret _ _ _ _)) as [secret|err|] eqn:Hk; [|left|by left].
  2: { destruct (MlsGroup.export_secret _ _ _ _); try done. by injection Hk as <-. }
  cbn [mret res_ret]. unfold lift at 1.
  destruct (MlsGroup.export_state group) as [st|err|]; cbn [map_err]; [|by left..].
  unfold insert_room, modify, lift, mret, M_ret. pose proof (convert_no_error r acts) as Hconv.
  destruct (convert_mls_actions r acts) as [cas|err|]; [|by destruct (Hconv err)|by left].
  right. split; [done|]. intros r'. cbn. destruct (decide (r' = r)) as [->|Hne].
  - rewrite lookup_insert_eq. split; [by left|by eexists].
  - rewrite lookup_insert_ne by done. naive_solver.
Qed.

Lemma create_refines r c m :
  same_rooms c m ->
  let '(c', answer) := handle_create_room r c in
  fails answer = false ->
  matches answer (snd (ModelClient.create_room r m)) = true /\
  same_rooms c' (fst (ModelClient.create_room r m)).
Proof.
  intros Hs. unfold ModelClient.create_room. destruct (rooms c !! r) as [room|] eqn:Hr.
  - assert (Hm : is_Some (ModelClient.rooms m !! r)) by (apply Hs; by eexists). destruct Hm as [mroom ->].
    unfold handle_create_room, mbind, M_bind, get, is_member, throw.
    rewrite bool_decide_eq_true_2 by (by eexists). done.
  - assert (Hm : ModelClient.rooms m !! r = None).
    { apply eq_None_not_Some. rewrite <- (Hs r), Hr. by intros []. }
    pose proof (create_answer r c Hr) as Ha. rewrite Hm. destruct (handle_create_room r c) as [c' answer].
    intros Hf. destruct Ha as [Ha|[Hma Hdom]]; [congruence|]. split; [done|]. intros r'. rewrite Hdom, (Hs r').
    cbn. destruct (decide (r' = r)) as [->|].
    + rewrite lookup_insert_eq. split; [by eexists|by left].
    + rewrite lookup_insert_ne by done. naive_solver.
Qed.

Lemma leave_refines r c m :
  same_rooms c m ->
  let '(c', answer) := handle_leave_room r c in
  matches answer (snd (ModelClient.leave_room r m)) = true /\
  same_rooms c' (fst (ModelClient.leave_room r m)).
Proof.
  intros Hs. unfold handle_leave_room, ModelClient.leave_room, mbind, M_bind, get, is_member, throw.
  destruct (ModelClient.rooms m !! r) as [mroom|] eqn:Hm.
  - rewrite bool_decide_eq_true_2 by (apply Hs; by eexists). cbn. split; [done|]. intros r'. cbn.
    rewrite !lookup_delete_is_Some. by rewrite (Hs r').
  - rewrite bool_decide_eq_false_2 by (rewrite (Hs r), Hm; by intros []). done.
Qed.

Lemma send_refines r content c m :
  same_rooms c m ->
  let '(c', answer) := handle_send_message r content c in
  fails answer = false ->
  matches answer (snd (model_step (LSend r content) m)) = true /\
  same_rooms c' (fst (model_step (LSend r content) m)).
Proof.
  intros Hs. pose proof (send_dom r content c) as Hdom. cbn. unfold ModelClient.send_message.
  destruct (ModelClient.rooms m !! r) as [mroom|] eqn:Hm.
  - assert (Hr : is_Some (rooms c !! r)) by (apply Hs; by eexists).
    pose proof (send_answer r content c Hr) as Ha.
    destruct (handle_send_message r content c) as [c' answer]. cbn in *. intros Hf.
    destruct Ha as [Ha|Ha]; [|congruence]. split; [done|]. intros r'. rewrite <- (Hdom r'), (Hs r'). cbn.
    destruct (decide (r' = r)) as [->|].
    + rewrite lookup_insert_eq, Hm. split; by eexists.
    + by rewrite lookup_insert_ne.
  - unfold handle_send_message at 1, mbind, M_bind, get_room, ok_or.
    assert (Hr : rooms c !! r = None) by (apply eq_None_not_Some; rewrite (Hs r), Hm; by intros []).
    by rewrite Hr.
Qed.

Lemma step_refines o c m :
  same_rooms c m ->
  let '(c', answer) := handle (event_of o) c in
  fails answer = false ->
  matches answer (snd (model_step o m)) = true /\ same_rooms c' (fst (model_step o m)).
Proof.
  intros Hs. destruct o as [r|r|r content]; cbn [event_of handle].
  - by apply create_refines.
  - pose proof (leave_refines r c m Hs) as Hl. by destruct (handle_leave_room r c).
  - by apply send_refines.
Qed.

(** C18: the client follows the reference model: whatever rooms it creates,
    leaves and sends to, in whatever order, as long as it reports no failure of
    its own, each answer is the model's (the same success, the same error), and
    after each the two are in the same rooms. *)
Theorem client_follows_model ops e sid id :
  let '(c, m, answers) := lockstep ops (Client.new e sid) (ModelClient.new id) in
  same_rooms c m /\ Forall (fun p => matches (fst p) (snd p) = true) answers.
Proof.
  assert (Hrun : forall c m, same_rooms c m ->
    let '(c', m', answers) := lockstep ops c m in
    same_rooms c' m' /\ Forall (fun p => matches (fst p) (snd p) = true) answers).
  { induction ops as [|o ops IH]; intros c m Hs; cbn; [by split; [|constructor]|].
    pose proof (step_refines o c m Hs) as Hstep. destruct (handle (event_of o) c) as [c1 answer].
    destruct (fails answer); [by split; [|constructor]|].
    destruct (model_step o m) as [m1 r]. destruct (Hstep eq_refl) as [Hma Hs1]. cbn in Hma, Hs1.
    specialize (IH c1 m1 Hs1). destruct (lockstep ops c1 m1) as [[c2 m2] more]. destruct IH as [Hs2 Hf].
    split; [done|]. by constructor. }
  apply Hrun. intros r. cbn. by rewrite !lookup_empty.
Qed.

End refinement.

Section sample.
Import ClientSample.

(** The whole of a run, when nothing fails: Alice creates a room, sends, creates
    it again, leaves it and sends once more. *)
Lemma client_follows_model_sample :
  let '(c, m, answers) := lockstep [LCreate 7; LSend 7 []; LCreate 7; LLeave 7; LSend 7 []]
      (Client.new (mkTestEnv 0 1 65 0) 1) (ModelClient.new 1) in
  map snd answers = [ROk; ROk; RError OERoomAlreadyExists; ROk; RError OENotMember] /\
  size (Client.rooms c) = size (ModelClient.rooms m).
Proof. vm_compute. split; reflexivity. Qed.

End sample.

End ModelRefinement.
