(* ===== verification/UnitApp.v ===== *)
(** * The unit tests of the application, the terminal and the harness

    [app.rs] and [bridge.rs] of [lockframe-app], [commands.rs] and [input.rs] of
    [lockframe-tui], and [invariants/checks.rs], [invariants/snapshot.rs],
    [invariants/mod.rs] and [sim_driver.rs] of the harness.  Where a test needs
    the order of a hash map, it passes with every order; the texts of a violation
    are not part of the model. *)

From S2P Require Import Prelude Env Opcodes Header Framing Payloads Validator Mls SenderKeys Samples.
From S2P Require Import Client App Tui HarnessChecks UnitTesting UnitCrypto UnitClient.

Local Open Scope N_scope.

#[local] Existing Instance plain_openmls.
#[local] Existing Instance byte_ciborium.
#[local] Existing Instance MlsValidator.toy_ed25519.
#[local] Existing Instance checksum_crypto.

(** ** [app.rs] *)

Module AppTests.
Section tests.
Context `{HashOrder}.

Definition handle (event : AppEvent) : test App.t (list AppAction) := call (App.handle event).
Definition connected_app : App.t :=
  App.with_state (Connected 1 42) (App.new "localhost:8080").
Definition messages_in (room_id n : N) : test App.t unit :=
  o ← query (fun a => (fun r => len (RoomView.messages r)) <$> App.rooms a !! room_id);
  check_eq o (Some n).
Definition active (o : option N) : test App.t unit := a ← query App.active_room; check_eq a o.

Definition room_joined_preserves_messages : test App.t unit :=
  handle (AERoomJoined 1);;
  handle (AEMessageReceived 1 42 (str "hello"));;
  messages_in 1 1;;
  handle (AERoomJoined 1);;
  messages_in 1 1.

Definition api_create_room : test App.t unit :=
  actions ← call (App.create_room 100);
  check (match actions with [AACreateRoom r; AARender] => r =? 100 | _ => false end).

Definition api_join_room : test App.t unit :=
  check (match App.join_room 200 with [AAJoinRoom r; AARender] => r =? 200 | _ => false end).

Definition api_leave_room : test App.t unit :=
  check (match App.leave_room 100 with [AALeaveRoom r; AARender] => r =? 100 | _ => false end).

Definition api_add_member : test App.t unit :=
  actions ← call (App.add_member 100 42);
  check (match actions with [AAAddMember r u; AARender] => (r =? 100) && (u =? 42) | _ => false end).

Definition api_send_message : test App.t unit :=
  check (match App.send_message 100 (str "hello") with
         | [AASendMessage r _; AARender] => r =? 100 | _ => false end).

(** Over an application that is not connected. *)
Definition api_connect : test App.t unit :=
  actions ← call App.connect;
  check (match actions with [AAConnect _; AARender] => true | _ => false end);;
  s ← query App.state; check (match s with Connecting => true | _ => false end).

Definition api_set_active_room : test App.t unit :=
  handle (AERoomJoined 1);;
  handle (AERoomJoined 2);;
  call (fun a => (App.set_active_room 2 a, tt));;
  active (Some 2);;
  call (fun a => (App.set_active_room 999 a, tt));;
  active (Some 2).

(** The tests of [app.rs] pass on the model. *)
Lemma app_tests_pass : all_pass
  (run_test api_connect (App.new "localhost:8080") ::
   map (fun t => run_test t connected_app)
     [room_joined_preserves_messages; api_create_room; api_join_room; api_leave_room; api_add_member;
      api_send_message; api_set_active_room]) = true.
Proof. vm_compute. reflexivity. Qed.

End tests.
End AppTests.

(** ** [bridge.rs] *)

Module BridgeTests.

Abbreviation bridge := (Bridge.t (Env := TestEnv)).
Definition fresh : bridge := Bridge.new fresh_env 42.

Definition create_room_produces_room_joined : test bridge unit :=
  events ← unwrap (Bridge.process_app_action (AACreateRoom 1));
  any (fun e => match e with AERoomJoined r => r =? 1 | _ => false end) events.

Definition send_message_produces_outgoing_frame : test bridge unit :=
  unwrap (Bridge.process_app_action (AACreateRoom 1));;
  unwrap Bridge.take_outgoing;;
  unwrap (Bridge.process_app_action (AASendMessage 1 (str "hello")));;
  frames ← unwrap Bridge.take_outgoing; check (negb (len frames =? 0)).

Definition send_to_unknown_room_produces_error : test bridge unit :=
  events ← unwrap (Bridge.process_app_action (AASendMessage 999 (str "hello")));
  any Bridge.is_error events.

(** The tests of [bridge.rs] pass on the model. *)
Lemma bridge_tests_pass : all_pass (map (fun t => run_test t fresh)
  [create_room_produces_room_joined; send_message_produces_outgoing_frame;
   send_to_unknown_room_produces_error]) = true.
Proof. vm_compute. reflexivity. Qed.

End BridgeTests.

(** ** [commands.rs] *)

Module CommandTests.
Import Commands.

#[export] Instance command_eq_dec : EqDecision Commands.t.
Proof. solve_decision. Defined.

Definition parses (input : string) (c : Commands.t) : test unit unit := check_eq (parse (Tui.lit input)) c.

Definition parse_message : test unit unit := parses "hello world" (Message (Tui.lit "hello world")).
Definition parse_connect : test unit unit := parses "/connect" Connect.
Definition parse_create_room : test unit unit := parses "/create 100" (CreateRoom 100).
Definition parse_create_room_missing_id : test unit unit :=
  check (match parse (Tui.lit "/create") with
         | InvalidArgs command _ => bool_decide (command = "create"%string) | _ => false end).
Definition parse_join_room : test unit unit := parses "/join 200" (JoinRoom 200).
Definition parse_leave : test unit unit := parses "/leave" LeaveActiveRoom.
Definition parse_add_member : test unit unit := parses "/add 42" (AddMember 42).
Definition parse_quit : test unit unit := parses "/quit" Quit;; parses "/q" Quit.
Definition parse_unknown_command : test unit unit :=
  check (match parse (Tui.lit "/unknown") with Unknown _ => true | _ => false end).
Definition parse_empty : test unit unit := parses EmptyString (Message []).

(** The tests of [commands.rs] pass on the model. *)
Lemma command_tests_pass : all_pass (map (fun t => run_test t tt)
  [parse_message; parse_connect; parse_create_room; parse_create_room_missing_id; parse_join_room;
   parse_leave; parse_add_member; parse_quit; parse_unknown_command; parse_empty]) = true.
Proof. vm_compute. reflexivity. Qed.

End CommandTests.

(** ** [input.rs] *)

Module InputTests.
Section tests.
Context `{HashOrder}.

Abbreviation world := (InputState.t * App.t)%type.
Definition fresh : world := (InputState.new, App.new "localhost:4433").
Definition press (keys : list KeyInput) : test world unit :=
  for_each keys (fun k => unwrap (InputState.handle_key k);; mret tt).
Definition typed (s : string) : list KeyInput := map KChar (Tui.lit s).
Definition buffer_is (s : string) : test world unit :=
  b ← query (fun w => InputState.buffer (fst w)); check_eq b (Tui.lit s).
Definition cursor_is (n : N) : test world unit :=
  c ← query (fun w => InputState.cursor (fst w)); check_eq c n.
Definition active (o : option N) : test world unit :=
  a ← query (fun w => App.active_room (snd w)); check_eq a o.
Definition joined (room_id : N) : test world unit :=
  call (fun '(i, a) => let '(a', _) := App.handle (AERoomJoined room_id) a in ((i, a'), tt)).

Definition char_input_adds_to_buffer : test world unit :=
  press (typed "hi");;
  buffer_is "hi";;
  cursor_is 2.

Definition backspace_removes_char : test world unit :=
  press (typed "ab" ++ [KBackspace]);;
  buffer_is "a";;
  cursor_is 1.

Definition enter_clears_buffer : test world unit :=
  press (typed "test" ++ [KEnter]);;
  buffer_is EmptyString;;
  cursor_is 0.

Definition cursor_movement : test world unit :=
  press (typed "abc");;
  press [KHome];; cursor_is 0;;
  press [KEnd];; cursor_is 3;;
  press [KLeft];; cursor_is 2;;
  press [KRight];; cursor_is 3.

Definition tab_cycles_rooms : test world unit :=
  joined 1;;
  joined 2;;
  active (Some 1);;
  press [KTab];; active (Some 2);;
  press [KTab];; active (Some 1).

(** The tests of [input.rs] pass on the model. *)
Lemma input_tests_pass : all_pass (map (fun t => run_test t fresh)
  [char_input_adds_to_buffer; backspace_removes_char; enter_clears_buffer; cursor_movement;
   tab_cycles_rooms]) = true.
Proof. vm_compute. reflexivity. Qed.

End tests.
End InputTests.

(** ** The invariants of the harness *)

Module CheckTests.

(** One client, and two clients in a room each. *)
Definition passes (k : InvariantKind) (s : SystemSnapshot) : test unit unit := check (HarnessChecks.check k s).
Definition violates (k : InvariantKind) (s : SystemSnapshot) : test unit unit :=
  check (negb (HarnessChecks.check k s)).
Definition in_room (id room_id : N) (r : RoomSnapshot) : ClientSnapshot := with_room room_id r (client_new id).
Definition from_clients (cs : list ClientSnapshot) : SystemSnapshot := mkSystemSnapshot cs.
Definition two (r1 r2 : RoomSnapshot) : SystemSnapshot :=
  from_clients [in_room 10 100 r1; in_room 20 100 r2].

Definition active_room_in_rooms_passes_when_valid : test unit unit :=
  let client := with_room 100 (with_epoch 1) (with_active_room (Some 100) (client_new 1)) in
  passes ActiveRoomInRooms (snapshot_single client).

Definition active_room_in_rooms_fails_when_missing : test unit unit :=
  violates ActiveRoomInRooms (snapshot_single (with_active_room (Some 999) (client_new 1))).

Definition active_room_none_always_passes : test unit unit :=
  passes ActiveRoomInRooms (snapshot_single (with_active_room None (client_new 1))).

Definition epoch_monotonicity_passes_when_increasing : test unit unit :=
  let client := record_epoch 100 5 (record_epoch 100 2 (record_epoch 100 1 (client_new 1))) in
  passes EpochMonotonicity (snapshot_single client).

Definition epoch_monotonicity_fails_when_decreasing : test unit unit :=
  let client := record_epoch 100 3 (record_epoch 100 5 (client_new 1)) in
  violates EpochMonotonicity (snapshot_single client).

Definition membership_consistency_passes_when_same : test unit unit :=
  passes MembershipConsistency
    (two (with_members {[10; 20]} (with_epoch 1)) (with_members {[10; 20]} (with_epoch 1))).

Definition membership_consistency_fails_when_different : test unit unit :=
  violates MembershipConsistency
    (two (with_members {[10; 20]} (with_epoch 1)) (with_members {[10; 30]} (with_epoch 1))).

Definition tree_hash_convergence_passes_when_same : test unit unit :=
  let hash := filled 42 32 in
  passes TreeHashConvergence
    (two (with_tree_hash hash (with_epoch 1)) (with_tree_hash hash (with_epoch 1))).

Definition tree_hash_convergence_fails_when_different : test unit unit :=
  violates TreeHashConvergence
    (two (with_tree_hash (filled 1 32) (with_epoch 1)) (with_tree_hash (filled 2 32) (with_epoch 1))).

Definition no_log_gaps_passes_when_sequential : test unit unit :=
  passes NoLogGaps (snapshot_single (in_room 1 100 (with_log_indices [0; 1; 2; 3; 4] (with_epoch 1)))).

Definition no_log_gaps_fails_when_gap_exists : test unit unit :=
  violates NoLogGaps (snapshot_single (in_room 1 100 (with_log_indices [0; 1; 3; 4] (with_epoch 1)))).

Definition no_log_gaps_passes_when_empty : test unit unit :=
  passes NoLogGaps (snapshot_single (in_room 1 100 (with_epoch 1))).

Definition total_ordering_passes_when_same_order : test unit unit :=
  passes TotalOrdering
    (two (with_log_indices [0; 1; 2] (with_epoch 1)) (with_log_indices [0; 1; 2] (with_epoch 1))).

Definition total_ordering_fails_when_different_order : test unit unit :=
  violates TotalOrdering
    (two (with_log_indices [0; 1; 2] (with_epoch 1)) (with_log_indices [0; 2; 1] (with_epoch 1))).

Definition total_ordering_ignores_different_rooms : test unit unit :=
  passes TotalOrdering
    (from_clients [in_room 10 100 (with_log_indices [0; 1; 2] (with_epoch 1));
                   in_room 20 200 (with_log_indices [2; 1; 0] (with_epoch 1))]).

Definition empty_snapshot : test unit unit := check_eq (len (ss_clients snapshot_empty)) 0.

Definition client_snapshot_builder : test unit unit :=
  let room := with_message_count 10 (with_members {[1; 2; 3]} (with_epoch 5)) in
  let client := with_room 100 room (with_active_room (Some 100) (client_new 42)) in
  check_eq (cs_id client) 42;;
  check_eq (cs_active_room client) (Some 100);;
  r ← some (cs_rooms client !! 100);
  check_eq (rs_epoch r) 5;;
  check_eq (size (rs_members r)) 3%nat.

Definition standard_registry_has_invariants : test unit unit := check_eq (len standard) 6.

Definition empty_snapshot_passes_invariants : test unit unit :=
  check_eq (len (check_all standard snapshot_empty)) 0.

(** The tests of [checks.rs], [snapshot.rs] and [mod.rs] pass on the model. *)
Lemma invariant_tests_pass : all_pass (map (fun t => run_test t tt)
  [active_room_in_rooms_passes_when_valid; active_room_in_rooms_fails_when_missing;
   active_room_none_always_passes; epoch_monotonicity_passes_when_increasing;
   epoch_monotonicity_fails_when_decreasing; membership_consistency_passes_when_same;
   membership_consistency_fails_when_different; tree_hash_convergence_passes_when_same;
   tree_hash_convergence_fails_when_different; no_log_gaps_passes_when_sequential;
   no_log_gaps_fails_when_gap_exists; no_log_gaps_passes_when_empty;
   total_ordering_passes_when_same_order; total_ordering_fails_when_different_order;
   total_ordering_ignores_different_rooms; empty_snapshot; client_snapshot_builder;
   standard_registry_has_invariants; empty_snapshot_passes_invariants]) = true.
Proof. vm_compute. reflexivity. Qed.

End CheckTests.

(** ** [sim_driver.rs] *)

Module SimDriverTests.
Section tests.
Context `{HashOrder}.

Abbreviation driver := SimDriver.t.
Definition ping : test driver Frame.t := lift (Frame.new (FrameHeader.new Opcode.Ping) []).
Definition pending : test driver unit := b ← query SimDriver.has_pending; check b.

Definition inject_event_queues_event : test driver unit :=
  call (fun d => (SimDriver.inject_event (AERoomJoined 100) d, tt));; pending.

Definition inject_frame_queues_frame : test driver unit :=
  frame ← ping;
  call (fun d => (SimDriver.inject_frame frame d, tt));; pending.

Definition poll_event_processes_event : test (driver * App.t) unit :=
  call (fun '(d, a) => ((SimDriver.inject_event (AERoomJoined 100) d, a), tt));;
  actions ← unwrap SimDriver.sim_poll;
  any (fun a => match a with AARender => true | _ => false end) actions;;
  o ← query (fun w => App.rooms (snd w) !! 100); check (bool_decide (is_Some o)).

Definition send_frame_captures : test driver unit :=
  frame ← ping;
  unwrap (SimDriver.sim_send frame);;
  captured ← call SimDriver.take_outgoing; check_eq (len captured) 1.

(** The tests of [sim_driver.rs] pass on the model, at any time. *)
Lemma sim_driver_tests_pass now : all_pass
  (run_test poll_event_processes_event (SimDriver.new now, App.new "localhost:4433") ::
   map (fun t => run_test t (SimDriver.new now))
     [inject_event_queues_event; inject_frame_queues_frame; send_frame_captures]) = true.
Proof. vm_compute. reflexivity. Qed.

End tests.
End SimDriverTests.
